(* ===== verification/_CoqProject ===== *)
-Q . S2P
Prelude.v
Floats.v
FloatInts.v
Files.v
Picojson.v
PicojsonSpec.v
OscWire.v
OscPattern.v
Seqlock.v
Shmem.v
OscStats.v
RouteTable.v
OscRouter.v
Publisher.v
Supervisor.v
Isometry.v
FallbackTable.v
PoseProvider.v
InputConfig.v
Driver.v
Ipc.v
IpcClient.v
Detectors.v
Filters.v
InputStats.v
InputHealth.v
FaceFrame.v
FaceCalib.v
FaceFilters.v
FaceWorker.v
Smoothing.v
Hooks.v
Learning.v
CalibSolve.v
CalibCalc.v
CalibScan.v
CalibLatency.v
CalibRest.v
CalibContext.v
CalibReloc.v
CalibTick.v
CalibTickSpec.v
CalibHistory.v
OverlayProfiles.v
OverlayProfilesSpec.v
FaceProfile.v
CalibConfig.v
CalibConfigSpec.v
