(* ===== verification/Prelude.v ===== *)
(** * WKOpenVR: a verification library

    WKOpenVR is one SteamVR driver DLL and one overlay process that host several
    features: calibration of headsets against lighthouse-tracked devices, finger
    smoothing, input health, face tracking, captions, and the OSC router the
    last two publish through.  Each feature has its own named pipe to the
    driver; the driver hooks the pose updates of every device, and publishes
    poses, input statistics and face frames in shared segments.  This library
    models the parts that carry state or a protocol, translated from the C++
    sources under src/, and proves what they are relied on for.

    ** Conventions

    A byte is a [byte] and a buffer a list of bytes; a [size_t] offset or count
    is a [nat], an integer of fixed width a [Z] wrapped at each operation that
    can overflow ([u8] to [u64], [s32]).  A [float] or [double] is a
    specification float of the standard library, rounded at each operation
    (Floats.v).  Maps are stdpp's [gmap], arrays are lists updated by index, and
    an access out of range is [None] where the C++ would be undefined.  A lock
    or a single-threaded loop makes a step; everything the operating system or
    another process answers (handles, results of waits, the clock, a socket) is
    an argument of the step that asks, so that the theorems, which quantify over
    these arguments, hold for every answer and every interleaving.  Eigen and
    the C mathematical functions, whose code is not in the repository, are type
    classes of operations ([Isometry.Eigen], [Filters.EigenMore],
    [Floats.Libm]), and so are the printing and reading of numbers by the C library
    ([Picojson.CNumbers]); a theorem that needs a law of one names it as a hypothesis,
    and its witness instantiates the class with a concrete one.

    ** The files

    - Prelude.v (this file): bytes, machine integers, C strings, record update,
      and the tactics and hints shared by all.
    - Floats.v: the two IEEE formats, comparison, [std::min]/[max]/[clamp];
      FloatInts.v: integers below 2^53 as doubles.

    OSC (modules/oscrouter, modules/captions):
    - OscWire.v: [OscPacket], [OscReader], [OscParseMessage], [OscDispatch] of
      OscWire.h.  Writes stay in the buffer, reads stay in the packet, messages
      round-trip, and the bundle walk ends and reaches every message.
    - OscPattern.v: the address pattern matcher of OscWire.cpp, proved equal to
      a token language on well-formed patterns, with fuel for its recursion that
      is shown to be always enough (one more than the pattern's length).
    - OscStats.v, RouteTable.v, OscRouter.v: the statistics segment, the route
      table (a refinement of a finite map), and the router: send queue, publish
      paths, IPC handlers, pipe reader, send worker.  Every accepted packet is
      sent once, in order, and a rejected one is counted.
    - Publisher.v: the captions publisher and its pacer, composed with the
      router's pipe reader.

    Shared memory (core/src/common/Protocol.h):
    - Seqlock.v: one writer and one reader interleaved word by word, the slot's
      generation even at first: no accepted copy is torn, and in every run both
      sides end.
    - Shmem.v: the input-health snapshot table, with the states of a slot in the
      middle of a write and the attempts of a reader between them, the face-frame
      ring and the pose ring (whose calls are whole steps), over any body type.

    Driver (core/src/driver, core/src/common, modules/*/src/driver):
    - Supervisor.v: HostSupervisorBase, its monitor thread as a state machine
      interleaved with restarts, stop and host deaths.
    - Isometry.v, FallbackTable.v, PoseProvider.v: transforms and the motion
      gate, the table of per-system fallbacks, and ServerTrackedDeviceProvider's
      transforms, predictions and pose hook, the hook interleaved with requests
      where it gives up its lock.  The table's comparisons are partial: reading
      past a 32-byte name has no result, and the hook is shown never to do so.
    - InputConfig.v: path classification, the packed atomic configurations, the
      store of learned compensation (a refinement of a map).
    - Driver.v: feature flags, Init and Cleanup, and the routing of a request
      from a pipe through the module interface to the handlers of six modules.
    - Hooks.v: hook objects and their registry, their installation as interfaces
      are queried, and their removal with calls under way, whatever the hooking
      library answers.
    - Smoothing.v: the skeletal detours of finger smoothing as a system of
      interleaved calls, and what they do to a frame.
    - Ipc.v: IPCServer's thread, completion routines, guard and Stop as a step
      relation, with the account of every handle; it calls the handler of
      Driver.v.
    - IpcClient.v: the overlay's end of a pipe (core/src/overlay/IpcClientBase.cpp):
      handshake, requests and the one reconnection, as a monad with exceptions;
      no request goes to a driver whose version did not agree.

    Input health (modules/inputhealth, core/src/common/inputhealth):
    - InputStats.v: the drift test, the Welford accumulator, the rolling minimum
      and the polar histogram, and the record of one component.
    - InputHealth.v: the registry of components, the detours of their updates
      with compensation and debounce, the reset in three passes, and the
      publisher into the segment of Shmem.v.
    - Learning.v: the overlay's LearningEngine and its profiles, and what the
      store of InputConfig.v holds after all it has sent: the driver mirrors the
      profiles.

    Face tracking (modules/facetracking/src/driver, core/src/common/facetracking):
    - FaceFrame.v: the frame, the remap of the host's shapes to ours, the
      reader's liveness fields, and the OSC messages of a frame, published
      through the router.
    - FaceCalib.v: CalibrationEngine: the quantile markers, the envelope with
      its hold time, the velocity gate, warm-up, normalisation and reset.
    - FaceProfile.v: its file: saving through a temporary file, the exception of
      a number that is not finite, and loading in the next session.
    - FaceFilters.v: EyelidSync, VergenceLock and the sink device's poses.
    - FaceWorker.v: one turn of the worker: wedge detection, reading, the filter
      pipeline, delivery.

    Calibration (modules/calibration/src/overlay):
    - Detectors.v: watchdog, wedge, geometry-shift and liveness detectors with
      the ticks of Calibration.cpp that run them.
    - Filters.v: the chi-square re-anchor detector, the predictive recovery, the
      blend filter and the robust scale.
    - CalibSolve.v: from a buffer of paired poses to a candidate transform
      (CalibrationCalc.cpp, TranslationSolveDirect.cpp, RotationMatrix3.h): the
      outlier test, the rotation fit, the reweighted translation solvers, and the
      measures a candidate is judged by.
    - CalibCalc.v: the calculator's state and operations (CalibrationCalc): the
      sample buffer, the two-phase one-shot, the incremental tick with its gates,
      the blend, the relative pose and the stuck-loop watchdog.
    - CalibScan.v: the profile scan of Calibration.cpp (ScanAndApplyProfile): the
      caches in front of the driver, what each device and each tracking system is
      told, and a send that throws half-way; its theorems are about any history
      of scans and are composed with the driver's handlers of PoseProvider.v.
    - CalibLatency.v: the latency estimator of LatencyEstimator.h, in both its
      forms; the lag it returns is that of the greatest correlation.
    - CalibRest.v: the rest-locked yaw correction and the tilt diagnostic; the
      rate of a correction is bounded for every sequence of observations.
    - CalibContext.v, CalibReloc.v, CalibTick.v: the whole of CalibrationTick
      over the calibration context, in the order of the code, as a monad of steps
      that may return from the tick or throw: sample collection, drift and
      relocalization with automatic recovery, the watchdogs, the states, the
      one-shot phases, the solves, publication.
    - CalibTickSpec.v, CalibHistory.v: triples for those steps, and the theorems
      over every interleaving of ticks with the user's buttons: the invariant of
      the context, the transitions against StateTransitions.h, what is
      published, and when a recovery may be started and what it restores.
    - CalibConfig.v, CalibConfigSpec.v: the calibration profile of
      Configuration.cpp: its document, its migration, the registry value, loading
      and saving.  A saved profile is loaded again, field by field; one that
      could not be loaded is erased by the next save.

    Libraries (lib):
    - Picojson.v, PicojsonSpec.v: the JSON values, writer and reader of
      picojson.h.  Reading ends, what is written is read back whatever its
      strings hold, and what is read is a document in order.

    Profile files (core/src/common/JsonUtil.cpp, modules/*/src/overlay/Profiles.cpp):
    - Files.v: replacing a file through a temporary one, whatever the system
      answers: the old file or the new one is there at every point.
    - OverlayProfiles.v, OverlayProfilesSpec.v: the input-health and the
      face-tracking profiles as files; what was saved is loaded.

    ** What the theorems are

    Refinements state that a component implements something simpler: the route
    table, the fallback table and the compensation store implement finite maps,
    the asynchronous pipe server a sequential one.  Invariants are proved by
    induction over arbitrary sequences of steps from the initial state, and
    speak about every reachable state.  Functional theorems give the result of
    an operation on every branch.  Totality is proved as such: the matcher and
    the bundle walk with their fuel, the pose hook in every reachable state, the
    end of the server thread after Stop.  Where a guarantee the comments promise
    does not hold, the theorem states what the code does instead, for every
    instance of the failing situation, and its witness is a concrete run.

    ** Bounds and fuel

    [OscPattern.OscPatternMatch] and [OscWire.OscDispatch] pass the length of
    their input as fuel, and [Picojson.parse] twice the length of its text and
    one, which their theorems show is enough; the calls of [IpcClient.Connect]
    and [IpcClient.SendBlocking] nest at most five deep, which is proved for every
    answer of the system; every other recursion is structural.  Capacities (512-byte packets, 1024 queued packets,
    32 routes, 64 devices, 8 fallbacks, 6 recovery events) are those of the
    code.

    ** What is not modelled

    Drawing (the user-interface tabs, ImGui), recordings and the metrics of the
    plots, the pollers of the hosts' status files, Eigen's decompositions and
    linear solves (parameters of the solver's model), audio capture and speech recognition,
    the C# face-tracking host, the bytes a hook patches, and the other vendored
    code.  Memory is sequentially consistent: the seqlock is proved at the
    granularity of loads and stores, not in the C++ memory model. *)

From Stdlib Require Import Strings.String Strings.Byte.
From Stdlib Require Export ZArith Lia.
From stdpp Require Export base list gmap numbers.

Export Strings.String.StringSyntax.
Export Corelib.Init.Byte.ByteSyntaxNotations.
Delimit Scope byte_scope with byte.
Abbreviation byte := Corelib.Init.Byte.byte.
Abbreviation x00 := Corelib.Init.Byte.x00.

#[global] Arguments Nat.modulo : simpl never.
#[global] Arguments Nat.div : simpl never.

(** ** Bytes

    A [uint8_t] or [char] is a [byte]; [bz] is its unsigned value and [zb] the
    C conversion of an integer to [uint8_t]. *)

#[export] Instance byte_eqdec : EqDecision byte := Strings.Byte.byte_eq_dec.
#[export] Instance byte_countable : Countable byte :=
  inj_countable Strings.Byte.to_nat Strings.Byte.of_nat Strings.Byte.of_to_nat.

Definition bz (b : byte) : Z := Z.of_N (Strings.Byte.to_N b).

Definition zb (z : Z) : byte :=
  match Strings.Byte.of_N (Z.to_N (z mod 256)) with
  | Some b => b
  | None => x00
  end.

Definition schar (b : byte) : Z := if (bz b <? 128)%Z then bz b else (bz b - 256)%Z.

Lemma bz_range b : (0 <= bz b < 256)%Z.
Proof. unfold bz. pose proof (Strings.Byte.to_N_bounded b). lia. Qed.

Lemma bz_zb z : bz (zb z) = (z mod 256)%Z.
Proof.
  unfold bz, zb. pose proof (Z.mod_pos_bound z 256 ltac:(lia)).
  destruct (Strings.Byte.of_N _) as [b|] eqn:E.
  - apply Strings.Byte.to_of_N in E. rewrite E. lia.
  - apply Strings.Byte.of_N_None_iff in E. lia.
Qed.

Lemma zb_bz b : zb (bz b) = b.
Proof.
  unfold zb. pose proof (bz_range b).
  rewrite Z.mod_small by lia. unfold bz.
  by rewrite N2Z.id, Strings.Byte.of_to_N.
Qed.

Lemma bz_inj b c : bz b = bz c -> b = c.
Proof. intros H. by rewrite <-(zb_bz b), H, zb_bz. Qed.

Lemma zb_eq_of_mod z z' : (z mod 256 = z' mod 256)%Z -> zb z = zb z'.
Proof. intros H. apply bz_inj. by rewrite !bz_zb. Qed.

(** String literals of the source, as the bytes before the terminating NUL. *)
Notation "'str' s" := (Strings.String.list_byte_of_string s%string)
  (at level 9, s at level 0, only parsing).

(** ** Machine integers

    Unsigned arithmetic wraps at its width; [s32] is the conversion of a 32-bit
    pattern to [int32_t]. *)

Definition u8 (z : Z) : Z := (z mod 2 ^ 8)%Z.
Definition u16 (z : Z) : Z := (z mod 2 ^ 16)%Z.
Definition u32 (z : Z) : Z := (z mod 2 ^ 32)%Z.
Definition u64 (z : Z) : Z := (z mod 2 ^ 64)%Z.
Definition s32 (z : Z) : Z := ((z + 2 ^ 31) mod 2 ^ 32 - 2 ^ 31)%Z.

Lemma u32_range z : (0 <= u32 z < 2 ^ 32)%Z.
Proof. apply Z.mod_pos_bound. lia. Qed.

Lemma u64_range z : (0 <= u64 z < 2 ^ 64)%Z.
Proof. apply Z.mod_pos_bound. lia. Qed.

Lemma u32_small z : (0 <= z < 2 ^ 32)%Z -> u32 z = z.
Proof. apply Z.mod_small. Qed.

Lemma u64_small z : (0 <= z < 2 ^ 64)%Z -> u64 z = z.
Proof. apply Z.mod_small. Qed.

Lemma s32_id z : (- 2 ^ 31 <= z < 2 ^ 31)%Z -> s32 z = z.
Proof. intros. unfold s32. rewrite Z.mod_small; lia. Qed.

Lemma s32_u32 z : s32 (u32 z) = s32 z.
Proof. unfold s32, u32. by rewrite Z.add_mod_idemp_l by lia. Qed.

Lemma s32_nonneg z : (0 <= z < 2 ^ 32)%Z -> (0 <= s32 z)%Z -> s32 z = z.
Proof.
  intros Hz Hs. destruct (Z.lt_ge_cases z (2 ^ 31)); [apply s32_id; lia|].
  unfold s32 in *. revert Hs. replace (z + 2 ^ 31)%Z with (z - 2 ^ 31 + 1 * 2 ^ 32)%Z by lia.
  rewrite Z.mod_add by lia. rewrite Z.mod_small by lia. lia.
Qed.

(** [x | (y << n)] is an addition when [x < 2^n]. *)
Lemma lor_shiftl_add x y n :
  (0 <= n)%Z -> (0 <= x < 2 ^ n)%Z -> Z.lor x (Z.shiftl y n) = (x + y * 2 ^ n)%Z.
Proof.
  intros Hn Hx. rewrite <-Z.shiftl_mul_pow2 by lia.
  assert (Z.land x (Z.shiftl y n) = 0%Z) as Hd.
  { apply Z.bits_inj'. intros i Hi. rewrite Z.land_spec, Z.bits_0, Z.shiftl_spec by lia.
    destruct (Z.ltb_spec i n).
    - by rewrite (Z.testbit_neg_r y), andb_false_r by lia.
    - assert (0 <= x < 2 ^ i)%Z
        by (split; [lia|]; apply Z.lt_le_trans with (2 ^ n)%Z; [lia|]; apply Z.pow_le_mono_r; lia).
      by rewrite Z.testbit_eqb, Z.div_small by lia. }
  rewrite Z.add_nocarry_lxor by done. by rewrite Z.lxor_lor.
Qed.

(** *** Four-byte words, big-endian (OSC) and little-endian (pipe frames) *)

Definition be32 (v : Z) : list byte :=
  [zb (Z.shiftr v 24); zb (Z.shiftr v 16); zb (Z.shiftr v 8); zb v].

Definition of_be32 (a b c d : byte) : Z :=
  Z.lor (Z.lor (Z.lor (Z.shiftl (bz a) 24) (Z.shiftl (bz b) 16)) (Z.shiftl (bz c) 8)) (bz d).

Definition le32 (v : Z) : list byte :=
  [zb (Z.land v 255); zb (Z.land (Z.shiftr v 8) 255);
   zb (Z.land (Z.shiftr v 16) 255); zb (Z.land (Z.shiftr v 24) 255)].

Definition of_le32 (a b c d : byte) : Z :=
  Z.lor (Z.lor (Z.lor (bz a) (Z.shiftl (bz b) 8)) (Z.shiftl (bz c) 16)) (Z.shiftl (bz d) 24).

Arguments be32 : simpl never.
Arguments le32 : simpl never.

Lemma of_le32_sum a b c d :
  of_le32 a b c d = (bz a + bz b * 2 ^ 8 + bz c * 2 ^ 16 + bz d * 2 ^ 24)%Z.
Proof.
  pose proof (bz_range a); pose proof (bz_range b);
  pose proof (bz_range c); pose proof (bz_range d).
  unfold of_le32.
  rewrite (lor_shiftl_add (bz a) _ 8), (lor_shiftl_add _ _ 16), (lor_shiftl_add _ _ 24) by lia. lia.
Qed.

Lemma of_be32_le32 a b c d : of_be32 a b c d = of_le32 d c b a.
Proof.
  unfold of_be32, of_le32.
  rewrite (Z.lor_comm _ (bz d)), (Z.lor_comm _ (Z.shiftl (bz c) 8)), Z.lor_assoc.
  by rewrite (Z.lor_comm (Z.shiftl (bz a) 24)), Z.lor_assoc.
Qed.

Lemma of_le32_range a b c d : (0 <= of_le32 a b c d < 2 ^ 32)%Z.
Proof.
  rewrite of_le32_sum.
  pose proof (bz_range a); pose proof (bz_range b);
  pose proof (bz_range c); pose proof (bz_range d). lia.
Qed.

Lemma zb_land255 z : zb (Z.land z 255) = zb z.
Proof.
  apply zb_eq_of_mod. change 255%Z with (Z.ones 8). rewrite Z.land_ones by lia.
  change (2 ^ 8)%Z with 256%Z. by rewrite Z.mod_mod.
Qed.

Lemma le32_rev_be32 v : le32 v = rev (be32 v).
Proof. unfold le32, be32. cbn [rev app]. by rewrite !zb_land255. Qed.

Lemma of_le32_shiftr v :
  of_le32 (zb v) (zb (Z.shiftr v 8)) (zb (Z.shiftr v 16)) (zb (Z.shiftr v 24)) = u32 v.
Proof.
  rewrite of_le32_sum, !bz_zb, !Z.shiftr_div_pow2 by lia. unfold u32.
  change (2 ^ 8)%Z with 256%Z; change (2 ^ 16)%Z with 65536%Z;
  change (2 ^ 24)%Z with 16777216%Z; change (2 ^ 32)%Z with 4294967296%Z.
  Z.to_euclidean_division_equations; lia.
Qed.

Lemma of_be32_be32 v :
  of_be32 (zb (Z.shiftr v 24)) (zb (Z.shiftr v 16)) (zb (Z.shiftr v 8)) (zb v) = u32 v.
Proof. rewrite of_be32_le32. apply of_le32_shiftr. Qed.

Lemma of_le32_le32 v a b c d : le32 v = [a; b; c; d] -> of_le32 a b c d = u32 v.
Proof.
  unfold le32. intros [= <- <- <- <-]. rewrite !zb_land255. apply of_le32_shiftr.
Qed.

(** ** C strings

    A [char*] into a buffer is the list of bytes from the pointer to the end of
    the buffer; [strnlen] counts up to the first NUL and [cstr] is the string a
    C function reads there.  A fixed [char[n]] field written by a bounded copy
    loop holds [copy_field n s]. *)

Fixpoint strnlen (l : list byte) : nat :=
  match l with
  | [] => 0
  | c :: t => if decide (c = x00) then 0 else S (strnlen t)
  end.

Definition cstr (l : list byte) : list byte := take (strnlen l) l.

Definition nul_free (s : list byte) : Prop := Forall (fun c => c <> x00) s.

Definition copy_field (n : nat) (s : list byte) : list byte := take (n - 1) (cstr s).

#[export] Instance nul_free_dec s : Decision (nul_free s).
Proof. unfold nul_free. apply _. Defined.

Lemma strnlen_le l : strnlen l <= length l.
Proof. induction l; simpl; [lia|]. case_decide; lia. Qed.

Lemma strnlen_nul_free s t : nul_free s -> strnlen (s ++ x00 :: t) = length s.
Proof. induction 1; simpl; [done|]. rewrite decide_False by done. lia. Qed.

Lemma strnlen_full s : nul_free s -> strnlen s = length s.
Proof. induction 1; simpl; [done|]. rewrite decide_False by done. lia. Qed.

Lemma cstr_nul_free s : nul_free (cstr s).
Proof.
  unfold cstr, nul_free. induction s; simpl; [constructor|].
  case_decide; simpl; [constructor|by constructor].
Qed.

Lemma cstr_id s : nul_free s -> cstr s = s.
Proof. intros. unfold cstr. by rewrite strnlen_full, take_ge by done. Qed.

Lemma cstr_app_nul s t : nul_free s -> cstr (s ++ x00 :: t) = s.
Proof. intros. unfold cstr. by rewrite strnlen_nul_free, take_app_length by done. Qed.

Lemma cstr_idemp s : cstr (cstr s) = cstr s.
Proof. apply cstr_id, cstr_nul_free. Qed.

Lemma copy_field_nul_free n s : nul_free (copy_field n s).
Proof. apply Forall_take, cstr_nul_free. Qed.

Lemma copy_field_length n s : 0 < n -> length (copy_field n s) < n.
Proof. intros. unfold copy_field. rewrite length_take. lia. Qed.

Lemma copy_field_short n s : nul_free s -> length s < n -> copy_field n s = s.
Proof. intros. unfold copy_field. rewrite cstr_id by done. apply take_ge. lia. Qed.

(** ** Shared automation

    [wk] is the hint database of the side conditions that recur; [bool_prop]
    turns boolean tests of the code into propositions. *)

Create HintDb wk.
#[export] Hint Resolve cstr_nul_free copy_field_nul_free : wk.

Ltac simpl_len :=
  rewrite ?length_app, ?length_take, ?length_drop, ?length_replicate, ?length_insert,
    ?length_reverse, ?length_fmap in *; cbn [length] in *.

Ltac bool_prop :=
  repeat match goal with
  | H : (_ && _)%bool = true |- _ => apply andb_true_iff in H as [? ?]
  | H : (_ || _)%bool = false |- _ => apply orb_false_iff in H as [? ?]
  | H : negb _ = true |- _ => apply negb_true_iff in H
  | H : negb _ = false |- _ => apply negb_false_iff in H
  | H : (_ <=? _)%nat = true |- _ => apply Nat.leb_le in H
  | H : (_ <=? _)%nat = false |- _ => apply Nat.leb_gt in H
  | H : (_ <? _)%nat = true |- _ => apply Nat.ltb_lt in H
  | H : (_ <? _)%nat = false |- _ => apply Nat.ltb_ge in H
  | H : (_ =? _)%nat = true |- _ => apply Nat.eqb_eq in H
  | H : (_ =? _)%nat = false |- _ => apply Nat.eqb_neq in H
  | H : (_ <=? _)%Z = true |- _ => apply Z.leb_le in H
  | H : (_ <=? _)%Z = false |- _ => apply Z.leb_gt in H
  | H : (_ <? _)%Z = true |- _ => apply Z.ltb_lt in H
  | H : (_ <? _)%Z = false |- _ => apply Z.ltb_ge in H
  | H : (_ =? _)%Z = true |- _ => apply Z.eqb_eq in H
  | H : (_ =? _)%Z = false |- _ => apply Z.eqb_neq in H
  end.

(** Case analysis on every test the goal branches on. *)
Ltac split_ifs :=
  repeat (case_match; simplify_eq/=); bool_prop.

(** [nul_free] of a literal. *)
Ltac solve_nul_free := unfold nul_free; vm_compute; repeat constructor; discriminate.

(** A decidable closed proposition, by evaluation. *)
Ltac dec_true := apply (bool_decide_unpack _); vm_compute; exact I.

(** Splits the conjunctions of a goal, but not its equivalences. *)
Ltac conjs := repeat lazymatch goal with |- _ /\ _ => split end.

(** ** Record update

    [r <| f := v |>] replaces a field and [r <| f ::= g |>] maps it, for a
    record whose constructor is given once by an instance of [Settable]. *)

Class Settable (T : Type) := rebuild : T -> T.
Class Setter {T A} (p : T -> A) := upd : (A -> A) -> T -> T.
#[global] Arguments upd {T A} p {_} f r /.

Ltac make_setter p :=
  lazymatch type of p with
  | ?T -> ?A =>
    let s := constr:(_ : Settable T) in
    let b := eval red in s in
    lazymatch eval pattern p in b with
    | ?k _ => let r := eval cbv beta in (fun (f : A -> A) (r : T) => k (fun r' => f (p r')) r) in exact r
    end
  end.
#[global] Hint Extern 0 (Setter ?p) => make_setter p : typeclass_instances.

Declare Scope upd_scope.
Notation "r <| p := v |>" := (upd p (fun _ => v) r)
  (at level 1, left associativity, p at level 0, v at level 200) : upd_scope.
Notation "r <| p ::= f |>" := (upd p f r)
  (at level 1, left associativity, p at level 0, f at level 200) : upd_scope.
#[global] Open Scope upd_scope.
