(* ===== verification/Floats.v ===== *)
(** * IEEE 754 arithmetic

    [float] and [double] as the specification floats of the standard library,
    rounded to nearest even at each operation; the comparisons, conversions and
    [std::min]/[std::max]/[std::clamp] of the source, and the order facts its
    bounds need.  Decimal literals are the correctly rounded quotients of
    integers. *)

From S2P Require Import Prelude.
From Stdlib Require Export Floats.SpecFloat.

Abbreviation float := spec_float (only parsing).
Abbreviation double := spec_float (only parsing).

(** ** The two formats *)

Definition d_add : double -> double -> double := SFadd 53 1024.
Definition d_sub : double -> double -> double := SFsub 53 1024.
Definition d_mul : double -> double -> double := SFmul 53 1024.
Definition d_div : double -> double -> double := SFdiv 53 1024.
Definition d_sqrt : double -> double := SFsqrt 53 1024.
Definition d_of_Z (z : Z) : double := binary_normalize 53 1024 z 0 false.

Definition f_add : float -> float -> float := SFadd 24 128.
Definition f_sub : float -> float -> float := SFsub 24 128.
Definition f_mul : float -> float -> float := SFmul 24 128.
Definition f_div : float -> float -> float := SFdiv 24 128.
Definition f_sqrt : float -> float := SFsqrt 24 128.
Definition f_of_Z (z : Z) : float := binary_normalize 24 128 z 0 false.

(** [num / den] as a literal; [num] and [den] are exact in the format. *)
Definition d_lit (num den : Z) : double := d_div (d_of_Z num) (d_of_Z den).
Definition f_lit (num den : Z) : float := f_div (f_of_Z num) (f_of_Z den).

(** Conversions: widening is exact, narrowing rounds. *)
Definition d_of_f (x : float) : double :=
  match x with
  | S754_finite s m e => binary_normalize 53 1024 (cond_Zopp s (Zpos m)) e s
  | _ => x
  end.

Definition f_of_d (x : double) : float :=
  match x with
  | S754_finite s m e => binary_normalize 24 128 (cond_Zopp s (Zpos m)) e s
  | _ => x
  end.

(** Conversion to an integer truncates towards zero; out of range (and on NaN
    or an infinity) it is undefined, hence [None]. *)
Definition trunc_to_Z (x : spec_float) : option Z :=
  match x with
  | S754_zero _ => Some 0%Z
  | S754_finite s m e =>
    let mag := if (0 <=? e)%Z then (Zpos m * 2 ^ e)%Z else (Zpos m / 2 ^ (- e))%Z in
    Some (cond_Zopp s mag)
  | _ => None
  end.

(** [floor], exact. *)
Definition floor_to_Z (x : spec_float) : option Z :=
  match x with
  | S754_zero _ => Some 0%Z
  | S754_finite s m e =>
    let n := cond_Zopp s (Zpos m) in
    Some (if (0 <=? e)%Z then (n * 2 ^ e)%Z else (n / 2 ^ (- e))%Z)
  | _ => None
  end.

Definition flt (x y : spec_float) : bool := SFltb x y.
Definition fle (x y : spec_float) : bool := SFleb x y.
Definition fgt (x y : spec_float) : bool := SFltb y x.
Definition fge (x y : spec_float) : bool := SFleb y x.
Definition feq (x y : spec_float) : bool := SFeqb x y.

Definition is_nan (x : spec_float) : bool := match x with S754_nan => true | _ => false end.
Definition isfinite (x : spec_float) : bool :=
  match x with S754_zero _ | S754_finite _ _ _ => true | _ => false end.

Definition fzero : spec_float := S754_zero false.
Definition f_one : float := f_of_Z 1.
Definition d_one : double := d_of_Z 1.

#[export] Instance spec_float_eqdec : EqDecision spec_float.
Proof. solve_decision. Defined.

(** [(a < b) ? b : a], [(b < a) ? b : a] and [std::clamp]. *)
Definition std_max (a b : spec_float) : spec_float := if flt a b then b else a.
Definition std_min (a b : spec_float) : spec_float := if flt b a then b else a.
Definition std_clamp (x lo hi : spec_float) : spec_float :=
  if flt x lo then lo else if flt hi x then hi else x.

(** The C mathematical functions, on [double]. *)
Class Libm := {
  m_exp : double -> double; m_log : double -> double; m_sin : double -> double; m_cos : double -> double;
  m_atan2 : double -> double -> double; m_hypot : double -> double -> double;
  m_fmod : double -> double -> double }.

Declare Scope fl_scope.
Delimit Scope fl_scope with fl.
Infix "+" := d_add : fl_scope.
Infix "-" := d_sub : fl_scope.
Infix "*" := d_mul : fl_scope.
Infix "/" := d_div : fl_scope.
Infix "<?" := flt : fl_scope.
Infix "<=?" := fle : fl_scope.

Declare Scope f32_scope.
Delimit Scope f32_scope with f32.
Infix "+" := f_add : f32_scope.
Infix "-" := f_sub : f32_scope.
Infix "*" := f_mul : f32_scope.
Infix "/" := f_div : f32_scope.
Infix "<?" := flt : f32_scope.
Infix "<=?" := fle : f32_scope.
Infix ">?" := fgt : f32_scope.
Infix ">=?" := fge : f32_scope.

Definition isinf (x : spec_float) : bool := match x with S754_infinity _ => true | _ => false end.

(** ** Order *)

Lemma SFcompare_total x y :
  is_nan x = false -> is_nan y = false -> exists c, SFcompare x y = Some c.
Proof.
  destruct x as [[]|[]| |[] m e], y as [[]|[]| |[] m' e']; simpl; try done; eauto;
    intros; repeat case_match; eauto.
Qed.

Lemma SFcompare_nan x y c : SFcompare x y = Some c -> is_nan x = false /\ is_nan y = false.
Proof. by destruct x as [[]|[]| |[] m e], y as [[]|[]| |[] m' e']. Qed.

Lemma SFcompare_antisym x y c : SFcompare x y = Some c -> SFcompare y x = Some (CompOpp c).
Proof.
  destruct x as [[]|[]| |[] m e], y as [[]|[]| |[] m' e']; simpl; intros [= <-]; try done;
    rewrite (Z.compare_antisym e e');
    change (Pos.compare_cont Eq m' m) with (m' ?= m)%positive;
    rewrite (Pos.compare_antisym m m');
    change (Pos.compare_cont Eq m m') with (m ?= m')%positive;
    by destruct (e ?= e')%Z, (m ?= m')%positive.
Qed.

Lemma flt_false_fle x y : is_nan x = false -> is_nan y = false -> flt x y = false -> fle y x = true.
Proof.
  intros Hx Hy. unfold flt, fle, SFltb, SFleb.
  destruct (SFcompare_total x y Hx Hy) as [c Hc]. rewrite Hc, (SFcompare_antisym _ _ _ Hc).
  by destruct c.
Qed.

Lemma flt_fle x y : flt x y = true -> fle x y = true.
Proof. unfold flt, fle, SFltb, SFleb. by destruct (SFcompare x y) as [[]|]. Qed.

Lemma flt_asym x y : flt x y = true -> fle y x = false.
Proof.
  unfold flt, fle, SFltb, SFleb. destruct (SFcompare x y) as [c|] eqn:E; [|done].
  rewrite (SFcompare_antisym _ _ _ E). by destruct c.
Qed.

Lemma flt_not_nan x y : flt x y = true -> is_nan x = false /\ is_nan y = false.
Proof. unfold flt, SFltb. destruct (SFcompare x y) eqn:E; [|done]. intros _. by eapply SFcompare_nan. Qed.

Lemma fle_not_nan x y : fle x y = true -> is_nan x = false /\ is_nan y = false.
Proof. unfold fle, SFleb. destruct (SFcompare x y) eqn:E; [|done]. intros _. by eapply SFcompare_nan. Qed.

Lemma fle_refl x : is_nan x = false -> fle x x = true.
Proof.
  destruct x as [[]|[]| |[] m e]; try done; unfold fle, SFleb; simpl;
    rewrite Z.compare_refl; change (Pos.compare_cont Eq m m) with (m ?= m)%positive;
    by rewrite Pos.compare_refl.
Qed.

(** The order as an integer triple: [SFcompare] is lexicographic in it. *)
Definition rank (x : spec_float) : Z * Z * Z :=
  match x with
  | S754_nan => (0, 0, 0)
  | S754_zero _ => (0, 0, 0)
  | S754_infinity s => (if s then -2 else 2, 0, 0)
  | S754_finite s m e => if s then (-1, - e, - Zpos m) else (1, e, Zpos m)
  end%Z.

Definition lex_le (a b : Z * Z * Z) : Prop :=
  let '(a1, a2, a3) := a in let '(b1, b2, b3) := b in
  (a1 < b1 \/ a1 = b1 /\ (a2 < b2 \/ a2 = b2 /\ a3 <= b3))%Z.

Lemma fle_rank x y :
  is_nan x = false -> is_nan y = false -> fle x y = true <-> lex_le (rank x) (rank y).
Proof.
  unfold fle, SFleb, lex_le.
  destruct x as [[]|[]| |[] m e], y as [[]|[]| |[] m' e']; simpl; try done; intros _ _;
    try (split; [intros; lia|done]); try (split; [done|lia]);
    destruct (Z.compare_spec e e'); try (split; [lia|intros; done || lia]);
    change (Pos.compare_cont Eq m m') with (m ?= m')%positive;
    destruct (Pos.compare_spec m m'); simpl;
    (split; [intros; done || lia|intros; done || lia]).
Qed.

Lemma fle_trans x y z : fle x y = true -> fle y z = true -> fle x z = true.
Proof.
  intros H1 H2. destruct (fle_not_nan _ _ H1) as [Hx Hy], (fle_not_nan _ _ H2) as [_ Hz].
  apply (fle_rank x y Hx Hy) in H1. apply (fle_rank y z Hy Hz) in H2.
  apply (fle_rank x z Hx Hz). unfold lex_le in *.
  destruct (rank x) as [[? ?] ?], (rank y) as [[? ?] ?], (rank z) as [[? ?] ?]. lia.
Qed.

Lemma flt_negb x y : is_nan x = false -> is_nan y = false -> flt x y = negb (fle y x).
Proof.
  intros Hx Hy. destruct (flt x y) eqn:E.
  - by rewrite (flt_asym _ _ E).
  - by rewrite (flt_false_fle _ _ Hx Hy E).
Qed.

Lemma flt_fle_trans x y z : flt x y = true -> fle y z = true -> flt x z = true.
Proof.
  intros H1 H2. destruct (flt_not_nan _ _ H1) as [Hx Hy], (fle_not_nan _ _ H2) as [_ Hz].
  rewrite flt_negb by done. destruct (fle z x) eqn:E; [|done].
  pose proof (fle_trans _ _ _ H2 E) as H3. by rewrite (flt_asym _ _ H1) in H3.
Qed.

Lemma fle_flt_trans x y z : fle x y = true -> flt y z = true -> flt x z = true.
Proof.
  intros H1 H2. destruct (fle_not_nan _ _ H1) as [Hx Hy], (flt_not_nan _ _ H2) as [_ Hz].
  rewrite flt_negb by done. destruct (fle z x) eqn:E; [|done].
  pose proof (fle_trans _ _ _ E H1) as H3. by rewrite (flt_asym _ _ H2) in H3.
Qed.

Lemma flt_irrefl x : flt x x = false.
Proof. destruct (flt x x) eqn:E; [|done]. apply flt_asym in E as E'. by rewrite (flt_fle _ _ E) in E'. Qed.

(** ** Bounds of the standard algorithms *)

Lemma std_clamp_bounds x lo hi :
  is_nan x = false -> fle lo hi = true ->
  fle lo (std_clamp x lo hi) = true /\ fle (std_clamp x lo hi) hi = true.
Proof.
  intros Hx H. destruct (fle_not_nan _ _ H) as [Hl Hh]. unfold std_clamp.
  destruct (flt x lo) eqn:E1; [by rewrite fle_refl|].
  destruct (flt hi x) eqn:E2; [by rewrite fle_refl|].
  split; by apply flt_false_fle.
Qed.

Lemma std_clamp_id x lo hi : flt x lo = false -> flt hi x = false -> std_clamp x lo hi = x.
Proof. unfold std_clamp. by intros -> ->. Qed.

Lemma std_max_ge a b : is_nan a = false -> is_nan b = false ->
  fle a (std_max a b) = true /\ fle b (std_max a b) = true.
Proof.
  intros Ha Hb. unfold std_max. destruct (flt a b) eqn:E.
  - split; [by apply flt_fle|by apply fle_refl].
  - split; [by apply fle_refl|by apply flt_false_fle].
Qed.

Lemma std_min_le a b : is_nan a = false -> is_nan b = false ->
  fle (std_min a b) a = true /\ fle (std_min a b) b = true.
Proof.
  intros Ha Hb. unfold std_min. destruct (flt b a) eqn:E.
  - split; [by apply flt_fle|by apply fle_refl].
  - split; [by apply fle_refl|by apply flt_false_fle].
Qed.

(** The two ways the source clamps, whatever the value, not a number included. *)
Lemma max_min_bounds x lo hi :
  fle lo hi = true ->
  (fle lo (std_max lo (std_min x hi)) = true /\ fle (std_max lo (std_min x hi)) hi = true) /\
  (fle lo (std_max lo (std_min hi x)) = true /\ fle (std_max lo (std_min hi x)) hi = true).
Proof.
  intros H. destruct (fle_not_nan _ _ H) as [Hl Hh].
  assert (forall m, (is_nan m = true \/ fle m hi = true) ->
    fle lo (std_max lo m) = true /\ fle (std_max lo m) hi = true) as Hm.
  { intros m [Hn|Hle]; unfold std_max.
    - assert (flt lo m = false) as -> by (destruct lo as [[]|[]| |[] ? ?], m; done). by rewrite fle_refl.
    - destruct (flt lo m) eqn:E; [by split; [apply flt_fle|]|by rewrite fle_refl]. }
  split; apply Hm; unfold std_min.
  - destruct (is_nan x) eqn:Hx; [left|right].
    + by assert (flt hi x = false) as -> by (destruct hi as [[]|[]| |[] ? ?], x; done).
    + destruct (flt hi x) eqn:E; [by apply fle_refl|by apply flt_false_fle].
  - right. destruct (flt x hi) eqn:E; [by apply flt_fle|by apply fle_refl].
Qed.

Lemma isfinite_not_nan x : isfinite x = true -> is_nan x = false.
Proof. by destruct x. Qed.

(** ** Operations that give no NaN

    [signed s x]: [x] is a number of sign [s] (a zero of that sign included);
    [nonneg] allows either zero. *)

Definition signed (s : bool) (x : spec_float) : bool :=
  match x with
  | S754_nan => false
  | S754_zero s' | S754_infinity s' | S754_finite s' _ _ => Bool.eqb s s'
  end.

Definition nonneg (x : spec_float) : bool :=
  match x with
  | S754_nan => false
  | S754_zero _ => true
  | S754_infinity s | S754_finite s _ _ => negb s
  end.

Lemma signed_nonneg x : signed false x = true -> nonneg x = true.
Proof. by destruct x as [[]|[]| |[] ? ?]. Qed.

Lemma signed_not_nan s x : signed s x = true -> is_nan x = false.
Proof. by destruct x. Qed.

Lemma nonneg_not_nan x : nonneg x = true -> is_nan x = false.
Proof. by destruct x. Qed.

Lemma shr_1_nonneg r : (0 <= shr_m r)%Z -> (0 <= shr_m (shr_1 r))%Z.
Proof. destruct r as [[|[]|[]] ? ?]; simpl; lia. Qed.

Lemma iter_shr_nonneg p r : (0 <= shr_m r)%Z -> (0 <= shr_m (iter_pos shr_1 p r))%Z.
Proof. revert r. induction p; simpl; eauto using shr_1_nonneg. Qed.

Lemma shr_fexp_nonneg prec emax m e l :
  (0 <= m)%Z -> (0 <= shr_m (shr_fexp prec emax m e l).1)%Z.
Proof.
  intros Hm. unfold shr_fexp, shr.
  assert (0 <= shr_m (shr_record_of_loc m l))%Z by (by destruct l as [|[]]).
  case_match; simpl; by try apply iter_shr_nonneg.
Qed.

Lemma round_even_nonneg m l : (0 <= m)%Z -> (0 <= round_nearest_even m l)%Z.
Proof. intros. destruct l as [|[]]; simpl; try case_match; lia. Qed.

Lemma binary_round_aux_signed prec emax s m e l :
  (0 <= m)%Z -> signed s (binary_round_aux prec emax s m e l) = true.
Proof.
  intros Hm. unfold binary_round_aux.
  pose proof (shr_fexp_nonneg prec emax m e l Hm) as H1.
  destruct (shr_fexp prec emax m e l) as [r1 e1]. simpl in H1.
  pose proof (shr_fexp_nonneg prec emax _ e1 loc_Exact
    (round_even_nonneg _ (loc_of_shr_record r1) H1)) as H2.
  destruct (shr_fexp prec emax _ e1 loc_Exact) as [r2 e2]. simpl in H2.
  destruct (shr_m r2); [|case_match|lia]; simpl; by destruct s.
Qed.

Lemma binary_round_signed prec emax s m e : signed s (binary_round prec emax s m e) = true.
Proof. unfold binary_round. destruct (shl_align _ _ _). by apply binary_round_aux_signed. Qed.

Lemma binary_normalize_not_nan prec emax m e s : is_nan (binary_normalize prec emax m e s) = false.
Proof. destruct m; simpl; [done|..]; eapply signed_not_nan, binary_round_signed. Qed.

Lemma d_mul_self_nonneg x : isfinite x = true -> nonneg (d_mul x x) = true.
Proof.
  destruct x as [s| | |s m e]; try done. intros _. cbn -[binary_round_aux].
  rewrite xorb_nilpotent. by apply signed_nonneg, binary_round_aux_signed.
Qed.

Lemma d_add_nonneg x y : nonneg x = true -> nonneg y = true -> nonneg (d_add x y) = true.
Proof.
  destruct x as [[]|[]| |[] m e], y as [[]|[]| |[] m' e']; try done; intros _ _;
    cbn -[binary_round shl_align Z.min Z.add];
    first [done | rewrite <-Pos2Z.inj_add; by apply signed_nonneg, binary_round_signed].
Qed.

Lemma d_sqrt_nonneg x : nonneg x = true -> nonneg (d_sqrt x) = true.
Proof.
  destruct x as [|[]| |[] m e]; try done. intros _.
  unfold d_sqrt, SFsqrt, SFsqrt_core_binary.
  match goal with |- context [Z.sqrtrem ?a] =>
    pose proof (Z.sqrtrem_sqrt a) as Hq; pose proof (Z.sqrt_nonneg a);
    destruct (Z.sqrtrem a) as [q r] end.
  simpl in Hq. by apply signed_nonneg, binary_round_aux_signed; subst.
Qed.

Lemma d_sub_not_nan x y : is_nan x = false -> isfinite y = true -> is_nan (d_sub x y) = false.
Proof.
  destruct x as [[]|[]| |[] m e], y as [[]|[]| |[] m' e']; try done; intros _ _;
    apply binary_normalize_not_nan.
Qed.

Lemma d_div_not_nan x s m e : is_nan x = false -> is_nan (d_div x (S754_finite s m e)) = false.
Proof.
  destruct x as [|[]| |s' m' e']; try done. intros _.
  unfold d_div, SFdiv, SFdiv_core_binary.
  match goal with |- context [Z.div_eucl ?a ?b] =>
    pose proof (Z.div_pos a b) as Hq; unfold Z.div in Hq;
    assert (0 <= a)%Z by (case_match; [lia|apply Z.shiftl_nonneg; lia|lia]);
    destruct (Z.div_eucl a b) as [q r] end.
  eapply signed_not_nan, binary_round_aux_signed. apply Hq; lia.
Qed.

(** ** Magnitudes *)

Lemma fle_opp_swap x y : fle (SFopp x) y = fle (SFopp y) x.
Proof.
  unfold fle, SFleb. destruct x as [[]|[]| |[] m e], y as [[]|[]| |[] m' e']; simpl; try done;
    rewrite (Z.compare_antisym e' e); change (Pos.compare_cont Eq m m') with (m ?= m')%positive;
    change (Pos.compare_cont Eq m' m) with (m' ?= m)%positive; rewrite (Pos.compare_antisym m' m);
    by destruct (e' ?= e)%Z, (m' ?= m)%positive.
Qed.

Lemma abs_fle x b : fle x b = true -> fle (SFopp b) x = true -> fle (SFabs x) b = true.
Proof.
  intros H1 H2. destruct x as [[]|[]| |[] m e]; try done; simpl.
  - rewrite fle_opp_swap in H2. done.
  - rewrite fle_opp_swap in H2. done.
Qed.

Lemma nonneg_opp_le b : nonneg b = true -> fle (SFopp b) b = true.
Proof. by destruct b as [[]|[]| |[] ? ?]. Qed.

Lemma d_mul_pos m e y : nonneg y = true -> nonneg (d_mul (S754_finite false m e) y) = true.
Proof.
  destruct y as [[]|[]| |[] m' e']; try done. intros _. apply signed_nonneg.
  change (d_mul (S754_finite false m e) (S754_finite false m' e')) with
    (binary_round_aux 53 1024 (xorb false false) (Zpos (m * m')) (e + e') SpecFloat.loc_Exact).
  by apply binary_round_aux_signed.
Qed.

(** ** Operations on something that is not a number *)

Lemma d_add_nan_l x y : is_nan x = true -> is_nan (d_add x y) = true.
Proof. by destruct x, y. Qed.

Lemma d_add_nan_r x y : is_nan y = true -> is_nan (d_add x y) = true.
Proof. by destruct x as [[]|[]| |[] ? ?], y. Qed.

Lemma d_mul_nan_r x y : is_nan y = true -> is_nan (d_mul x y) = true.
Proof. by destruct x, y. Qed.

Lemma d_mul_nan_l x y : is_nan x = true -> is_nan (d_mul x y) = true.
Proof. by destruct x, y. Qed.

Lemma d_div_nan_l x y : is_nan x = true -> is_nan (d_div x y) = true.
Proof. by destruct x, y. Qed.

Lemma d_div_nan_r x y : is_nan y = true -> is_nan (d_div x y) = true.
Proof. by destruct x, y. Qed.

Lemma d_sub_nan_l x y : is_nan x = true -> is_nan (d_sub x y) = true.
Proof. by destruct x, y. Qed.

Lemma d_sub_nan_r x y : is_nan y = true -> is_nan (d_sub x y) = true.
Proof. by destruct x as [[]|[]| |[] ? ?], y. Qed.

Lemma flt_nan_r x y : is_nan y = true -> flt x y = false.
Proof. by destruct x as [[]|[]| |[] ? ?], y. Qed.

Lemma flt_nan_l x y : is_nan x = true -> flt x y = false.
Proof. by destruct x, y as [[]|[]| |[] ? ?]. Qed.

#[export] Hint Resolve d_add_nan_l d_add_nan_r d_sub_nan_l d_sub_nan_r d_mul_nan_l d_mul_nan_r d_div_nan_l d_div_nan_r : wk.

(** The same in single precision. *)
Lemma f_nan_l x y : is_nan x = true ->
  is_nan (f_add x y) = true /\ is_nan (f_sub x y) = true /\ is_nan (f_mul x y) = true /\ is_nan (f_div x y) = true.
Proof. by destruct x, y. Qed.

Lemma f_nan_r x y : is_nan y = true ->
  is_nan (f_add x y) = true /\ is_nan (f_sub x y) = true /\ is_nan (f_mul x y) = true /\ is_nan (f_div x y) = true.
Proof. by destruct x as [[]|[]| |[] ? ?], y. Qed.

Lemma f_add_nan_l x y : is_nan x = true -> is_nan (f_add x y) = true.
Proof. apply f_nan_l. Qed.
Lemma f_add_nan_r x y : is_nan y = true -> is_nan (f_add x y) = true.
Proof. apply f_nan_r. Qed.
Lemma f_sub_nan_l x y : is_nan x = true -> is_nan (f_sub x y) = true.
Proof. apply f_nan_l. Qed.
Lemma f_sub_nan_r x y : is_nan y = true -> is_nan (f_sub x y) = true.
Proof. apply f_nan_r. Qed.
Lemma f_mul_nan_l x y : is_nan x = true -> is_nan (f_mul x y) = true.
Proof. apply f_nan_l. Qed.
Lemma f_mul_nan_r x y : is_nan y = true -> is_nan (f_mul x y) = true.
Proof. apply f_nan_r. Qed.
Lemma f_div_nan_l x y : is_nan x = true -> is_nan (f_div x y) = true.
Proof. apply f_nan_l. Qed.
Lemma f_div_nan_r x y : is_nan y = true -> is_nan (f_div x y) = true.
Proof. apply f_nan_r. Qed.

#[export] Hint Resolve f_add_nan_l f_add_nan_r f_sub_nan_l f_sub_nan_r f_mul_nan_l f_mul_nan_r f_div_nan_l f_div_nan_r : wk.
