(* ===== verification/FloatInts.v ===== *)
(** * Integers as doubles

    An integer below 2^53 is a double exactly: it is converted back unchanged,
    and the order of such integers is that of their doubles. *)

From Stdlib Require Import Strings.Byte Floats.SpecFloat.
From S2P Require Import Prelude Floats.

Lemma iter_xO p n : Z.pos (Pos.iter xO p n) = (Z.pos p * 2 ^ Z.pos n)%Z.
Proof.
  induction n as [|n IH] using Pos.peano_ind; [cbn; lia|]. rewrite Pos.iter_succ, Pos2Z.inj_succ, Z.pow_succ_r by lia.
  rewrite (Pos2Z.inj_xO (Pos.iter xO p n)), IH. lia.
Qed.

Lemma digits_iter p n : Z.pos (digits2_pos (Pos.iter xO p n)) = (Z.pos (digits2_pos p) + Z.pos n)%Z.
Proof.
  induction n as [|n IH] using Pos.peano_ind; [cbn; lia|]. rewrite Pos.iter_succ. cbn [digits2_pos]. lia.
Qed.

Lemma digits_bound p k : (Z.pos p < 2 ^ k)%Z -> (0 <= k)%Z -> (Z.pos (digits2_pos p) <= k)%Z.
Proof.
  revert k. induction p as [p IH|p IH|]; intros k Hp Hk; cbn [digits2_pos].
  - destruct (Z.eq_dec k 0%Z) as [->|Hk0]; [cbn in Hp; lia|]. replace k with (Z.succ (k - 1)) in * by lia.
    rewrite Z.pow_succ_r in Hp by lia. specialize (IH (k - 1)%Z ltac:(lia) ltac:(lia)). lia.
  - destruct (Z.eq_dec k 0%Z) as [->|Hk0]; [cbn in Hp; lia|]. replace k with (Z.succ (k - 1)) in * by lia.
    rewrite Z.pow_succ_r in Hp by lia. specialize (IH (k - 1)%Z ltac:(lia) ltac:(lia)). lia.
  - destruct (Z.eq_dec k 0%Z) as [->|Hk0]; [cbn in Hp; lia|lia].
Qed.

(** A mantissa of exactly 53 digits is not rounded. *)
Lemma round_exact s m e :
  (Z.pos (digits2_pos m) = 53)%Z -> (-1074 <= e <= 971)%Z -> binary_round_aux 53 1024 s (Z.pos m) e loc_Exact = S754_finite s m e.
Proof.
  intros Hd He. unfold binary_round_aux.
  assert (forall l, shr_fexp 53 1024 (Z.pos m) e l = (shr_record_of_loc (Z.pos m) l, e)) as Hshr.
  { intros l. unfold shr_fexp, fexp, emin. cbn [Zdigits2]. rewrite Hd. unfold shr.
    replace (Z.max (53 + e - 53) (3 - 1024 - 53) - e)%Z with 0%Z by lia. reflexivity. }
  rewrite Hshr. cbn [shr_record_of_loc shr_m loc_of_shr_record round_nearest_even]. rewrite Hshr. cbn [shr_record_of_loc shr_m].
  assert ((e <=? 1024 - 53)%Z = true) as -> by (apply Z.leb_le; lia). reflexivity.
Qed.

Lemma digits_upper p : (Z.pos p < 2 ^ Z.pos (digits2_pos p))%Z.
Proof.
  induction p as [p IH|p IH|]; cbn [digits2_pos]; [| |done]; rewrite Pos2Z.inj_succ, Z.pow_succ_r by lia; lia.
Qed.

Lemma digits_mono p q : (Z.pos p <= Z.pos q)%Z -> (Z.pos (digits2_pos p) <= Z.pos (digits2_pos q))%Z.
Proof. intros Hp. apply digits_bound; [|lia]. pose proof (digits_upper q). lia. Qed.

(** The mantissa and the exponent of an integer. *)
Lemma round_integer s p :
  (Z.pos p < 2 ^ 53)%Z ->
  exists m e, binary_round 53 1024 s p 0%Z = S754_finite s m e /\
    e = (Z.pos (digits2_pos p) - 53)%Z /\ (e <= 0)%Z /\ Z.pos m = (Z.pos p * 2 ^ (- e))%Z.
Proof.
  intros Hp. pose proof (digits_bound p 53 Hp ltac:(lia)) as Hd. unfold binary_round, shl_align, fexp, emin. rewrite Z.add_0_r.
  replace (Z.max (Z.pos (digits2_pos p) - 53) (3 - 1024 - 53) - 0)%Z with (Z.pos (digits2_pos p) - 53)%Z by lia.
  replace (Z.max (Z.pos (digits2_pos p) - 53) (3 - 1024 - 53))%Z with (Z.pos (digits2_pos p) - 53)%Z by lia.
  destruct (Z.pos (digits2_pos p) - 53)%Z as [|d|d] eqn:Hx; [|lia|].
  - exists p, 0%Z. split; [apply round_exact; lia|]. split; [done|]. split; [done|]. cbn. lia.
  - exists (Pos.iter xO p d), (Z.neg d). split; [apply round_exact; [rewrite digits_iter; lia|]; lia|].
    split; [done|]. split; [lia|]. by rewrite iter_xO.
Qed.

Lemma trunc_integer s m e p : Z.pos m = (Z.pos p * 2 ^ (- e))%Z -> (e <= 0)%Z -> trunc_to_Z (S754_finite s m e) = Some (cond_Zopp s (Z.pos p)).
Proof.
  intros Hm He. cbn [trunc_to_Z]. destruct (0 <=? e)%Z eqn:H0.
  - apply Z.leb_le in H0. assert (e = 0%Z) as -> by lia. cbn in *. do 2 f_equal. lia.
  - rewrite Hm, Z.div_mul by lia. reflexivity.
Qed.

Lemma trunc_d_of_Z n : (- 2 ^ 53 < n < 2 ^ 53)%Z -> trunc_to_Z (d_of_Z n) = Some n.
Proof.
  intros Hn. destruct n as [|p|p]; [done|..]; unfold d_of_Z, binary_normalize.
  - destruct (round_integer false p ltac:(lia)) as (m & e & -> & _ & He & Hm). by rewrite (trunc_integer _ _ _ p).
  - destruct (round_integer true p ltac:(lia)) as (m & e & -> & _ & He & Hm). by rewrite (trunc_integer _ _ _ p).
Qed.

(** The order of integers. *)
Lemma d_of_Z_mono n k : (0 <= n <= k)%Z -> (k < 2 ^ 53)%Z -> fle (d_of_Z n) (d_of_Z k) = true.
Proof.
  intros Hn Hk. destruct k as [|q|q]; [by replace n with 0%Z by lia| |lia].
  destruct (round_integer false q Hk) as (mq & eq_ & Hq & Xq & _ & Mq). unfold fle, SFleb. unfold d_of_Z at 2, binary_normalize. rewrite Hq.
  destruct n as [|p|p]; [done| |lia]. destruct (round_integer false p ltac:(lia)) as (mp & ep & Hp & Xp & _ & Mp).
  unfold d_of_Z, binary_normalize. rewrite Hp. cbn [SFcompare].
  pose proof (digits_mono p q ltac:(lia)) as Hd. destruct (Z.compare_spec ep eq_) as [He|He|He]; [|done|lia].
  change (Pos.compare_cont Eq mp mq) with (mp ?= mq)%positive.
  destruct (Pos.compare_spec mp mq) as [Hm|Hm|Hm]; [done|done|]. exfalso. rewrite He in Mp.
  assert (Z.pos mq < Z.pos mp)%Z by lia. rewrite Mp, Mq in *. nia.
Qed.

Lemma d_of_Z_nonneg n : (0 <= n < 2 ^ 53)%Z -> fge (d_of_Z n) fzero = true.
Proof. intros Hn. apply (d_of_Z_mono 0 n); lia. Qed.
