(* ===== verification/Files.v ===== *)
(** * Replacing a profile file through a temporary one

    The files of a directory, the system's answers to the calls of a save, the
    directory after each call, and what every one of those directories holds.
    The overlay's profiles and the driver's face calibration are saved so. *)

From S2P Require Import Prelude.
From stdpp Require Import gmap.

(** The files of the profiles directory, by name. *)
Abbreviation Disk := (gmap (list byte) (list byte)).
(** What the system answers to the calls of a save: opening the temporary file,
    the bytes written or a failure, flushing, renaming. *)
Record FileAnswers := mkFA { fa_open : bool; fa_write : option nat; fa_flush : bool; fa_rename : bool }.

Definition tmp_of (name : list byte) : list byte := name ++ str ".tmp".

(** The directory after each call, and whether the save succeeded. *)
Definition replace_file (a : FileAnswers) (name body : list byte) (d : Disk) : list Disk * bool :=
  let tmp := tmp_of name in
  if negb (fa_open a) then ([d], false)
  else
    let d1 := <[tmp := []]> d in
    let n := default 0%nat (fa_write a) in
    let d2 := <[tmp := take n body]> d1 in
    let written := match fa_write a with Some n => fa_flush a && (n =? length body)%nat | None => false end in
    if negb written then ([d1; d2; delete tmp d2], false)
    else if fa_rename a then ([d1; d2; delete tmp (<[name := take n body]> d2)], true)
    else ([d1; d2; delete tmp d2], false).

Lemma tmp_other name : tmp_of name <> name.
Proof. unfold tmp_of. intros Hn. apply (f_equal length) in Hn. rewrite length_app in Hn. cbn in Hn. lia. Qed.

(** At every point of a save the file of that name is the old one or the whole
    new one, and the other files are the old ones; at the end the temporary file
    is gone, and the file is new exactly when the save succeeded. *)
Definition replaced (name body : list byte) (d : Disk) (ds : list Disk) (ok : bool) : Prop :=
  Forall (fun d' => (d' !! name = d !! name \/ d' !! name = Some body) /\
                    forall f, f <> name -> f <> tmp_of name -> d' !! f = d !! f) ds /\
  exists d', last ds = Some d' /\ d' !! name = (if ok then Some body else d !! name) /\ (d' !! tmp_of name = None \/ ds = [d]).

Lemma replaced_or_kept (name body : list byte) (d d' : Disk) :
  d' !! name = d !! name -> (forall f, f <> name -> f <> tmp_of name -> d' !! f = d !! f) ->
  (d' !! name = d !! name \/ d' !! name = Some body) /\ forall f, f <> name -> f <> tmp_of name -> d' !! f = d !! f.
Proof. by split; [left|]. Qed.

Lemma replace_file_replaces a name body d : replaced name body d (replace_file a name body d).1 (replace_file a name body d).2.
Proof.
  pose proof (tmp_other name) as Ht. unfold replace_file. cbv zeta.
  destruct (fa_open a); cbn [negb].
  2: { split; [|exists d; by split_and!; [..|right]]. constructor; [by apply replaced_or_kept|constructor]. }
  set (d1 := <[tmp_of name := []]> d). set (d2 := <[tmp_of name := take (default 0%nat (fa_write a)) body]> d1).
  assert (Forall (fun d' => (d' !! name = d !! name \/ d' !! name = Some body) /\
    forall f, f <> name -> f <> tmp_of name -> d' !! f = d !! f) [d1; d2; delete (tmp_of name) d2]) as Hall.
  { repeat (apply list.Forall_cons; split; [apply replaced_or_kept; [|intros f Hf Hf']; unfold d2, d1;
      rewrite ?lookup_delete_ne, ?lookup_insert_ne by congruence; done|]). constructor. }
  assert (replaced name body d [d1; d2; delete (tmp_of name) d2] false) as Hkept.
  { split; [done|]. exists (delete (tmp_of name) d2). unfold d2, d1. split_and!; [done|by simplify_map_eq|left; by simplify_map_eq]. }
  destruct (match fa_write a with Some n => fa_flush a && (n =? length body)%nat | None => false end) eqn:Hw; [|exact Hkept].
  destruct (fa_rename a); [|exact Hkept]. clear Hkept. destruct (fa_write a) as [n|]; [|done].
  apply andb_prop in Hw as [_ ->%Nat.eqb_eq]. cbn [negb default fst snd] in *. unfold default, id in *. rewrite firstn_all.
  assert (forall f, f <> name -> f <> tmp_of name -> delete (tmp_of name) (<[name := body]> d2) !! f = d !! f) as Hothers.
  { intros f Hf Hf'. unfold d2, d1. by simplify_map_eq. }
  assert (delete (tmp_of name) (<[name := body]> d2) !! name = Some body) as Hname by by simplify_map_eq.
  split.
  - inversion Hall as [|? ? H1 Hrest]; subst. inversion Hrest as [|? ? H2 _]; subst.
    constructor; [done|]. constructor; [done|]. constructor; [|constructor]. split; [by right|done].
  - exists (delete (tmp_of name) (<[name := body]> d2)). split_and!; [done|done|left; by simplify_map_eq].
Qed.

(** The save succeeds exactly when every answer is good. *)
Lemma replace_file_ok a name body d :
  (replace_file a name body d).2 = fa_open a && fa_flush a && fa_rename a && bool_decide (fa_write a = Some (length body)).
Proof.
  unfold replace_file. cbv zeta. destruct (fa_open a), (fa_rename a), (fa_flush a), (fa_write a) as [n|]; cbn [negb andb]; try done.
  all: try case_bool_decide as Hb; destruct (Nat.eqb_spec n (length body)) as [He|He]; cbn [negb snd]; congruence.
Qed.
