(* ===== verification/Picojson.v ===== *)
(** * JSON documents (lib/picojson.h)

    The values, their reading and their writing, as the profiles use them: the
    text of a number, and its reading, are the C library's. *)

From Stdlib Require Import Strings.Byte.
From S2P Require Import Prelude Floats.

(** ** Values *)

(** An object is a [std::map]: its members are in the order of their keys. *)
#[warnings="-register-all"]
Inductive value :=
| Null | Boolean (b : bool) | Number (d : double) | Text (s : list byte) | Array (l : list value)
| Object (o : list (list byte * value)).
Definition object : Type := list (list byte * value).

(** The order of [std::string]. *)
Fixpoint key_cmp (a b : list byte) : comparison :=
  match a, b with
  | [], [] => Eq
  | [], _ => Lt
  | _, [] => Gt
  | x :: a, y :: b => match (bz x ?= bz y)%Z with Eq => key_cmp a b | c => c end
  end.

Fixpoint o_find (o : object) (k : list byte) : option value :=
  match o with
  | (k', v) :: o => match key_cmp k k' with Eq => Some v | _ => o_find o k end
  | [] => None
  end.
Fixpoint o_set (k : list byte) (v : value) (o : object) : object :=
  match o with
  | (k', v') :: o' =>
    match key_cmp k k' with
    | Lt => (k, v) :: o
    | Eq => (k, v) :: o'
    | Gt => (k', v') :: o_set k v o'
    end
  | [] => [(k, v)]
  end.
Fixpoint o_erase (k : list byte) (o : object) : object :=
  match o with
  | (k', v) :: o' => match key_cmp k k' with Eq => o' | _ => (k', v) :: o_erase k o' end
  | [] => []
  end.

(** An object from its members; those that are not written have no value. *)
Definition object_of (l : list (list byte * option value)) : object :=
  fold_left (fun o m => match m.2 with Some v => o_set m.1 v o | None => o end) l [].

(** [obj["k"]]: a missing key reads as null. *)
Definition at_key (o : object) (k : list byte) : value := default Null (o_find o k).

(** [get<T>()]; [None]: the exception of a wrong type. *)
Definition get_double (v : value) : option double := match v with Number d => Some d | _ => None end.
Definition get_bool (v : value) : option bool := match v with Boolean b => Some b | _ => None end.
Definition get_string (v : value) : option (list byte) := match v with Text s => Some s | _ => None end.
Definition get_array (v : value) : option (list value) := match v with Array l => Some l | _ => None end.
Definition get_object (v : value) : option object := match v with Object o => Some o | _ => None end.

Definition evaluate_as_boolean (v : value) : bool :=
  match v with
  | Null => false
  | Boolean b => b
  | Number d => negb (feq d fzero)
  | Text s => negb (length s =? 0)%nat
  | _ => true
  end.

(** [value(double)] throws on a number that is not finite; [set<double>] does not. *)
Definition new_number (d : double) : option value := if isfinite d then Some (Number d) else None.

(** ** Numbers *)

(** [snprintf] with ["%.f"] and with ["%.17g"], and [strtod] on a text of which
    it must use every character. *)
Class CNumbers := { format_f : double -> list byte; format_17g : double -> list byte; strtod : list byte -> option double }.

Section Numbers.
Context `{CNumbers}.

(** [fabs(n) < 2^53 && modf(n, &tmp) == 0] *)
Definition integral (d : double) : bool :=
  flt (SFabs d) (d_of_Z (2 ^ 53)) && match trunc_to_Z d with Some z => feq (d_of_Z z) d | None => false end.
Definition to_str_number (d : double) : list byte := if integral d then format_f d else format_17g d.

(** ** Writing *)

Definition hex_char (n : Z) : byte := if (n <? 10)%Z then zb (48 + n) else zb (87 + n).
Definition hex4 (n : Z) : list byte :=
  [hex_char (n / 4096 mod 16); hex_char (n / 256 mod 16); hex_char (n / 16 mod 16); hex_char (n mod 16)].

Definition serialize_str_char (c : byte) : list byte :=
  match c with
  | x22 => [x5c; x22]
  | x5c => [x5c; x5c]
  | x2f => [x5c; x2f]
  | x08 => str "\b"
  | x0c => str "\f"
  | x0a => str "\n"
  | x0d => str "\r"
  | x09 => str "\t"
  | _ => if (bz c <? 32)%Z || (bz c =? 127)%Z then str "\u" ++ hex4 (bz c) else [c]
  end.

Definition serialize_str (s : list byte) : list byte := [x22] ++ concat (map serialize_str_char s) ++ [x22].

Definition INDENT_WIDTH : Z := 2.
Definition indent_text (indent : Z) : list byte := x0a :: replicate (Z.to_nat (indent * INDENT_WIDTH)) x20.

(** The indentation is -1 when the text is not made pretty. *)
Definition deeper (indent : Z) : Z := if (indent =? -1)%Z then indent else (indent + 1)%Z.
Definition before_item (first : bool) (indent : Z) : list byte :=
  (if first then [] else [x2c]) ++ (if (indent =? -1)%Z then [] else indent_text indent).
Definition after_items (none : bool) (indent : Z) : list byte :=
  if (indent =? -1)%Z || none then [] else indent_text indent.
Definition is_nil {A} (l : list A) : bool := match l with [] => true | _ => false end.

Fixpoint serialize_at (v : value) (indent : Z) : list byte :=
  match v with
  | Null => str "null"
  | Boolean b => if b then str "true" else str "false"
  | Number d => to_str_number d
  | Text s => serialize_str s
  | Array l =>
    let fix items (first : bool) (l : list value) : list byte :=
      match l with
      | [] => []
      | x :: l => before_item first (deeper indent) ++ serialize_at x (deeper indent) ++ items false l
      end in
    [x5b] ++ items true l ++ after_items (is_nil l) indent ++ [x5d]
  | Object o =>
    let fix members (first : bool) (o : object) : list byte :=
      match o with
      | [] => []
      | (k, x) :: o =>
        before_item first (deeper indent) ++ serialize_str k ++ [x3a] ++ (if (indent =? -1)%Z then [] else [x20])
          ++ serialize_at x (deeper indent) ++ members false o
      end in
    [x7b] ++ members true o ++ after_items (is_nil o) indent ++ [x7d]
  end ++ (if (indent =? 0)%Z then [x0a] else []).

Definition serialize (prettify : bool) (v : value) : list byte := serialize_at v (if prettify then 0 else -1).

(** ** Reading *)

(** A text that is read from its start: what was read and what is left, or the
    syntax error, or the limit of the recursion. *)
Inductive result (A : Type) := Parsed (a : A) (rest : list byte) | Failed | Ran_out.
Arguments Parsed {A}. Arguments Failed {A}. Arguments Ran_out {A}.

Definition then_ {A B} (r : result A) (k : A -> list byte -> result B) : result B :=
  match r with Parsed a rest => k a rest | Failed => Failed | Ran_out => Ran_out end.
Definition of_option {A} (o : option (A * list byte)) : result A :=
  match o with Some (a, rest) => Parsed a rest | None => Failed end.

Definition is_ws (c : byte) : bool := match c with x20 | x09 | x0a | x0d => true | _ => false end.
Fixpoint skip_ws (s : list byte) : list byte :=
  match s with c :: s' => if is_ws c then skip_ws s' else s | [] => [] end.

Definition byte_eqb (x y : byte) : bool := (bz x =? bz y)%Z.
(** Space is skipped whether the character is there or not. *)
Definition expect (c : byte) (s : list byte) : bool * list byte :=
  match skip_ws s with
  | x :: s' => if byte_eqb x c then (true, s') else (false, x :: s')
  | [] => (false, [])
  end.

Fixpoint match_text (pattern s : list byte) : option (list byte) :=
  match pattern, s with
  | [], _ => Some s
  | p :: pattern, x :: s => if byte_eqb x p then match_text pattern s else None
  | _, [] => None
  end.

Definition hex_value (c : byte) : option Z :=
  let z := bz c in
  if (48 <=? z)%Z && (z <=? 57)%Z then Some (z - 48)%Z
  else if (65 <=? z)%Z && (z <=? 70)%Z then Some (z - 55)%Z
  else if (97 <=? z)%Z && (z <=? 102)%Z then Some (z - 87)%Z
  else None.

Definition parse_quadhex (s : list byte) : option (Z * list byte) :=
  match s with
  | a :: b :: c :: d :: s =>
    a ← hex_value a; b ← hex_value b; c ← hex_value c; d ← hex_value d;
    Some (((a * 16 + b) * 16 + c) * 16 + d, s)%Z
  | _ => None
  end.

(** A code point in UTF-8. *)
Definition utf8 (u : Z) : list byte :=
  let low n := zb (Z.lor 128 (Z.land (Z.shiftr u n) 63)) in
  if (u <? 128)%Z then [zb u]
  else if (u <? 2048)%Z then [zb (Z.lor 192 (Z.shiftr u 6)); low 0%Z]
  else if (u <? 65536)%Z then [zb (Z.lor 224 (Z.shiftr u 12)); low 6%Z; low 0%Z]
  else [zb (Z.lor 240 (Z.shiftr u 18)); low 12%Z; low 6%Z; low 0%Z].

Definition parse_codepoint (s : list byte) : option (list byte * list byte) :=
  '(u, s) ← parse_quadhex s;
  if (55296 <=? u)%Z && (u <=? 57343)%Z then
    if (56320 <=? u)%Z then None
    else
      match match_text [x5c; x75] s with
      | Some s =>
        '(second, s) ← parse_quadhex s;
        if (56320 <=? second)%Z && (second <=? 57343)%Z then
          Some (utf8 (Z.lor (Z.shiftl (u - 55296) 10) (Z.land (second - 56320) 1023) + 65536), s)
        else None
      | None => None
      end
  else Some (utf8 u, s).

(** After the opening quote. *)
Fixpoint parse_string (fuel : nat) (s : list byte) : result (list byte) :=
  match fuel with
  | O => Ran_out
  | S fuel =>
    let push u s := then_ (parse_string fuel s) (fun out rest => Parsed (u ++ out) rest) in
    match s with
    | [] => Failed
    | c :: s =>
      if (bz c <? 32)%Z then Failed
      else match c with
      | x22 => Parsed [] s
      | x5c =>
        match s with
        | x22 :: s => push [x22] s
        | x5c :: s => push [x5c] s
        | x2f :: s => push [x2f] s
        | x62 :: s => push [x08] s
        | x66 :: s => push [x0c] s
        | x6e :: s => push [x0a] s
        | x72 :: s => push [x0d] s
        | x74 :: s => push [x09] s
        | x75 :: s => match parse_codepoint s with Some (u, s) => push u s | None => Failed end
        | _ => Failed
        end
      | c => push [c] s
      end
    end
  end.
Definition read_string (s : list byte) : result (list byte) := parse_string (S (length s)) s.

Definition num_char (c : byte) : bool :=
  let z := bz c in ((48 <=? z)%Z && (z <=? 57)%Z) || match c with x2b | x2d | x65 | x45 | x2e => true | _ => false end.
Fixpoint parse_number (s : list byte) : list byte * list byte :=
  match s with
  | c :: s' => if num_char c then let '(n, rest) := parse_number s' in (c :: n, rest) else ([], s)
  | [] => ([], [])
  end.

(** [None]: not all of it is a number, or the number is out of range, which throws. *)
Definition read_number (s : list byte) : result value :=
  let '(num_str, rest) := parse_number s in
  of_option (f ← strtod num_str; v ← new_number f; Some (v, rest)).

Definition starts_number (c : byte) : bool := ((48 <=? bz c)%Z && (bz c <=? 57)%Z) || byte_eqb c x2d.

Fixpoint parse_value (fuel : nat) (s : list byte) {struct fuel} : result value :=
  match fuel with
  | O => Ran_out
  | S fuel =>
    match skip_ws s with
    | [] => Failed
    | ch :: s =>
      match ch with
      | x6e => of_option (pair Null <$> match_text (str "ull") s)
      | x66 => of_option (pair (Boolean false) <$> match_text (str "alse") s)
      | x74 => of_option (pair (Boolean true) <$> match_text (str "rue") s)
      | x22 => then_ (read_string s) (fun t rest => Parsed (Text t) rest)
      | x5b =>
        let '(stop, s) := expect x5d s in
        if stop then Parsed (Array []) s
        else then_ (parse_items fuel s) (fun l s =>
          let '(stop, s) := expect x5d s in if stop then Parsed (Array l) s else Failed)
      | x7b =>
        let '(stop, s) := expect x7d s in
        if stop then Parsed (Object []) s
        else then_ (parse_members fuel s []) (fun o s =>
          let '(stop, s) := expect x7d s in if stop then Parsed (Object o) s else Failed)
      | ch => if starts_number ch then read_number (ch :: s) else Failed
      end
    end
  end
(** The items up to one that no comma follows. *)
with parse_items (fuel : nat) (s : list byte) {struct fuel} : result (list value) :=
  match fuel with
  | O => Ran_out
  | S fuel =>
    then_ (parse_value fuel s) (fun x s =>
      let '(more, s) := expect x2c s in
      if more then then_ (parse_items fuel s) (fun l rest => Parsed (x :: l) rest) else Parsed [x] s)
  end
with parse_members (fuel : nat) (s : list byte) (o : object) {struct fuel} : result object :=
  match fuel with
  | O => Ran_out
  | S fuel =>
    let '(quote, s) := expect x22 s in
    if negb quote then Failed
    else then_ (read_string s) (fun k s =>
      let '(colon, s) := expect x3a s in
      if negb colon then Failed
      else then_ (parse_value fuel s) (fun x s =>
        let o := o_set k x o in
        let '(more, s) := expect x2c s in
        if more then parse_members fuel s o else Parsed o s))
  end.

(** What follows the value is not looked at. *)
Definition parse (s : list byte) : option value :=
  match parse_value (S (2 * length s)) s with Parsed v _ => Some v | _ => None end.
End Numbers.
Arguments Parsed {A}. Arguments Failed {A}. Arguments Ran_out {A}.
