(* ===== verification/PicojsonSpec.v ===== *)
(** * What the JSON library does

    Reading ends; what is read is in the form of a document; and a document that
    is written, pretty or not, is read back, for any text in its strings and
    keys, as far as the C library reads back its own numbers. *)

From Stdlib Require Import Strings.Byte Sorting.Sorted.
From stdpp Require Import sorting.
From S2P Require Import Prelude Floats Picojson.

(** ** Values by induction *)

Section Induction.
Variable P : value -> Prop.
Hypotheses (Pnull : P Null) (Pbool : forall b, P (Boolean b)) (Pnumber : forall d, P (Number d)) (Ptext : forall s, P (Text s))
  (Parray : forall l, Forall P l -> P (Array l)) (Pobject : forall o, Forall (fun m => P m.2) o -> P (Object o)).

Fixpoint value_deep_ind (v : value) : P v :=
  match v with
  | Null => Pnull
  | Boolean b => Pbool b
  | Number d => Pnumber d
  | Text s => Ptext s
  | Array l => Parray l ((fix go l : Forall P l := match l with [] => List.Forall_nil _ | x :: l => @List.Forall_cons _ _ _ _ (value_deep_ind x) (go l) end) l)
  | Object o =>
    Pobject o ((fix go o : Forall (fun m => P m.2) o :=
      match o with [] => List.Forall_nil _ | m :: o => @List.Forall_cons _ _ _ _ (value_deep_ind m.2) (go o) end) o)
  end.
End Induction.

(** ** The order of keys *)

Lemma key_cmp_eq a b : key_cmp a b = Eq <-> a = b.
Proof.
  revert b. induction a as [|x a IH]; intros [|y b]; cbn; try done.
  destruct (bz x ?= bz y)%Z eqn:Hc.
  - apply Z.compare_eq in Hc. apply bz_inj in Hc as ->. rewrite IH. split; [by intros ->|by intros [= ->]].
  - split; [done|]. intros [= -> ->]. by rewrite Z.compare_refl in Hc.
  - split; [done|]. intros [= -> ->]. by rewrite Z.compare_refl in Hc.
Qed.

Lemma key_cmp_flip a b : key_cmp b a = CompOpp (key_cmp a b).
Proof.
  revert b. induction a as [|x a IH]; intros [|y b]; cbn; try done.
  rewrite (Z.compare_antisym (bz x) (bz y)). by destruct (bz x ?= bz y)%Z; cbn.
Qed.

Lemma key_cmp_trans a b c : key_cmp a b = Lt -> key_cmp b c = Lt -> key_cmp a c = Lt.
Proof.
  revert b c. induction a as [|x a IH]; intros [|y b] [|z c]; cbn; try done.
  destruct (bz x ?= bz y)%Z eqn:H1, (bz y ?= bz z)%Z eqn:H2; try done; intros K1 K2.
  - apply Z.compare_eq in H1, H2. rewrite H1, H2, Z.compare_refl. by apply (IH b).
  - apply Z.compare_eq in H1. by rewrite H1, H2.
  - apply Z.compare_eq in H2. by rewrite <-H2, H1.
  - assert ((bz x ?= bz z)%Z = Lt) as ->; [|done]. rewrite Z.compare_lt_iff in *. lia.
Qed.

Definition key_lt (x y : list byte * value) : Prop := key_cmp x.1 y.1 = Lt.
Definition sorted (o : object) : Prop := StronglySorted key_lt o.

Lemma key_cmp_refl k : key_cmp k k = Eq.
Proof. by apply key_cmp_eq. Qed.

(** The map of an object. *)
Lemma o_find_set k v o k' : o_find (o_set k v o) k' = if bool_decide (k' = k) then Some v else o_find o k'.
Proof.
  induction o as [|[k0 v0] o IH]; cbn; [by case_bool_decide as Hk; [subst; rewrite key_cmp_refl|
    destruct (key_cmp k' k) eqn:Hc; try done; apply key_cmp_eq in Hc]|].
  destruct (key_cmp k k0) eqn:Hc.
  - apply key_cmp_eq in Hc as ->. cbn. case_bool_decide as Hk; [by subst; rewrite key_cmp_refl|].
    destruct (key_cmp k' k0) eqn:Hc; try done. by apply key_cmp_eq in Hc.
  - cbn. case_bool_decide as Hk; [by subst; rewrite key_cmp_refl|].
    destruct (key_cmp k' k) eqn:Hc'; try done. by apply key_cmp_eq in Hc'.
  - cbn. rewrite IH. case_bool_decide as Hk; [|done]. subst. by rewrite Hc.
Qed.

Lemma o_set_keys k v o x : x ∈ (o_set k v o).*1 -> x = k \/ x ∈ o.*1.
Proof.
  induction o as [|[k0 v0] o IH]; cbn; [by intros Hx%list_elem_of_singleton; left|].
  destruct (key_cmp k k0) eqn:Hc; cbn; rewrite !list.elem_of_cons; [apply key_cmp_eq in Hc as ->|..]; tauto.
Qed.

Lemma o_set_forall (Q : list byte * value -> Prop) k v o : Q (k, v) -> Forall Q o -> Forall Q (o_set k v o).
Proof.
  intros Hk. induction 1 as [|[k0 v0] o H0 Ho IH]; cbn; [by constructor|].
  destruct (key_cmp k k0); by repeat constructor.
Qed.

Lemma o_set_sorted k v o : sorted o -> sorted (o_set k v o).
Proof.
  unfold sorted. induction 1 as [|[k0 v0] o Ho IH Hlt]; cbn; [by repeat constructor|].
  destruct (key_cmp k k0) eqn:Hc.
  - apply key_cmp_eq in Hc as ->. by constructor.
  - constructor; [by constructor|]. constructor; [done|]. revert Hlt. apply Forall_impl. intros m. unfold key_lt. by apply key_cmp_trans.
  - constructor; [done|]. apply o_set_forall; [|done]. unfold key_lt. cbn. by rewrite key_cmp_flip, Hc.
Qed.

(** A key after all others is added at the end. *)
Lemma o_set_last k v o : Forall (fun m => key_cmp m.1 k = Lt) o -> o_set k v o = o ++ [(k, v)].
Proof. induction 1 as [|[k0 v0] o Hk Ho IH]; cbn in *; [done|]. by rewrite key_cmp_flip, Hk, IH. Qed.

(** ** Documents *)

(** Objects have their keys in order; what holds of the numbers is a parameter. *)
#[warnings="-register-all"]
Inductive shaped (Q : double -> Prop) : value -> Prop :=
| shaped_null : shaped Q Null
| shaped_boolean b : shaped Q (Boolean b)
| shaped_number d : Q d -> shaped Q (Number d)
| shaped_text s : shaped Q (Text s)
| shaped_array l : Forall (shaped Q) l -> shaped Q (Array l)
| shaped_object o : sorted o -> Forall (fun m => shaped Q m.2) o -> shaped Q (Object o).

Definition well_formed : value -> Prop := shaped (fun d => isfinite d = true).
Definition ordered : value -> Prop := shaped (fun _ => True).

Fixpoint numbers (v : value) : list double :=
  match v with
  | Number d => [d]
  | Array l => (fix go l := match l with [] => [] | x :: l => numbers x ++ go l end) l
  | Object o => (fix go (o : object) := match o with [] => [] | (_, x) :: o => numbers x ++ go o end) o
  | _ => []
  end.

(** *** Objects from their members *)

Definition add_member (o : object) (m : list byte * option value) : object :=
  match m.2 with Some v => o_set m.1 v o | None => o end.

Lemma object_of_members l : object_of l = fold_left add_member l [].
Proof. reflexivity. Qed.

Lemma o_find_add o m k : k <> m.1 -> o_find (add_member o m) k = o_find o k.
Proof. intros Hk. unfold add_member. destruct m as [k' [v|]]; cbn; [|done]. by rewrite o_find_set, bool_decide_eq_false_2. Qed.

Lemma add_members_absent l o k : k ∉ l.*1 -> o_find (fold_left add_member l o) k = o_find o k.
Proof.
  revert o. induction l as [|m l IH]; intros o Hk; cbn; [done|]. apply not_elem_of_cons in Hk as [Hk Hl].
  rewrite IH by done. by apply o_find_add.
Qed.

(** A member is found under its key. *)
Lemma object_of_lookup l k ov : NoDup l.*1 -> (k, ov) ∈ l -> o_find (object_of l) k = ov.
Proof.
  intros Hnd Hin. apply list_elem_of_split in Hin as (l1 & l2 & ->). rewrite fmap_app in Hnd. cbn in Hnd.
  apply list.NoDup_app in Hnd as (_ & Hd & Hnd). apply list.NoDup_cons in Hnd as [Hk _].
  assert (k ∉ l1.*1) as Hk1 by (intros Hx; apply (Hd k Hx); by left).
  rewrite object_of_members, fold_left_app. cbn [fold_left]. rewrite add_members_absent by done. unfold add_member at 1. cbn [fst snd].
  destruct ov as [v|]; [by rewrite o_find_set, bool_decide_eq_true_2|]. by rewrite add_members_absent.
Qed.

Lemma at_member l k ov : NoDup l.*1 -> (k, ov) ∈ l -> at_key (object_of l) k = default Null ov.
Proof. intros Hnd Hin. unfold at_key. by rewrite (object_of_lookup l k ov). Qed.

Lemma at_absent l k : k ∉ l.*1 -> at_key (object_of l) k = Null.
Proof. intros Hk. unfold at_key. by rewrite object_of_members, (add_members_absent l [] k Hk). Qed.

Lemma object_of_sorted l : sorted (object_of l).
Proof.
  unfold object_of. assert (sorted []) as Hs by constructor. revert Hs. generalize (@nil (list byte * value)).
  induction l as [|[k [v|]] l IH]; intros o Ho; cbn; [done|..]; apply IH; [by apply o_set_sorted|done].
Qed.

(** The keys of a list of members are decided once. *)
Ltac keys := match goal with |- NoDup ?l => let ks := eval cbv in l in change (NoDup ks); apply (bool_decide_unpack (NoDup ks)); vm_compute; exact I end.
Ltac member := repeat first [apply list_elem_of_here | apply list_elem_of_further].

Lemma object_of_ordered l : (forall k v, (k, Some v) ∈ l -> ordered v) -> ordered (Object (object_of l)).
Proof.
  intros Hl. constructor; [apply object_of_sorted|]. rewrite object_of_members.
  assert (Forall (fun m : list byte * value => ordered m.2) []) as Ho by constructor. revert Ho. generalize (@nil (list byte * value)).
  induction l as [|[k [v|]] l IH]; intros o Ho; cbn [fold_left]; [done|..]; (apply IH; [intros k' v' Hk; apply (Hl k' v'); by right|]).
  - unfold add_member. cbn. apply o_set_forall; [|done]. apply (Hl k v). by left.
  - done.
Qed.

Definition maybe_ordered (ov : option value) : Prop := match ov with Some v => ordered v | None => True end.

Lemma members_ordered l : Forall (fun m => maybe_ordered m.2) l -> ordered (Object (object_of l)).
Proof. intros Hl. apply object_of_ordered. intros k v Hin. rewrite list.Forall_forall in Hl. exact (Hl _ Hin). Qed.

(** A member of an object written out, and the order of all of them. *)
Ltac lookup := erewrite !object_of_lookup by first [keys | member].
Ltac members := apply members_ordered; repeat (apply list.Forall_cons; split; [cbn [snd maybe_ordered]; try (by constructor)|]); try apply list.Forall_nil; try done.

Section Numbers.
Context `{CNumbers}.

(** ** Reading ends *)

Lemma skip_ws_length s : length (skip_ws s) <= length s.
Proof. induction s as [|c s IH]; cbn; [done|]. destruct (is_ws c); cbn; lia. Qed.

Lemma expect_length c s b r : expect c s = (b, r) -> length r <= length s /\ (b = true -> length r < length s).
Proof.
  unfold expect. pose proof (skip_ws_length s) as Hl. destruct (skip_ws s) as [|x s']; cbn in Hl.
  - intros [= <- <-]. cbn. split; [lia|done].
  - destruct (byte_eqb x c); intros [= <- <-]; cbn; split; try done; lia.
Qed.

Lemma match_text_length p s r : match_text p s = Some r -> length r <= length s.
Proof.
  revert s. induction p as [|x p IH]; intros [|c s]; cbn; try done; [by intros [= <-]..|].
  destruct (byte_eqb c x); [|done]. intros Hr%IH. lia.
Qed.

Lemma quadhex_length s u r : parse_quadhex s = Some (u, r) -> length r < length s.
Proof.
  destruct s as [|a [|b [|c [|d s]]]]; cbn; try done.
  destruct (hex_value a); [|done]. destruct (hex_value b); [|done]. destruct (hex_value c); [|done]. destruct (hex_value d); [|done].
  cbn. intros [= <- <-]. lia.
Qed.

Lemma codepoint_length s u r : parse_codepoint s = Some (u, r) -> length r < length s.
Proof.
  unfold parse_codepoint. destruct (parse_quadhex s) as [[u1 s1]|] eqn:H1; [|done]. apply quadhex_length in H1. cbn [mbind option_bind].
  destruct (_ && _); [|intros [= <- <-]; lia]. destruct (56320 <=? u1)%Z; [done|].
  destruct (match_text [x5c; x75] s1) as [s2|] eqn:Hm; [|done]. apply match_text_length in Hm. destruct (parse_quadhex s2) as [[u2 s3]|] eqn:H2; [|done]. apply quadhex_length in H2. cbn in *.
  destruct (_ && _); [|done]. intros [= <- <-]. lia.
Qed.

(** A reader consumes: what is left is shorter. *)
Definition shorter {A} (s : list byte) (r : result A) : Prop :=
  match r with Parsed _ rest => length rest < length s | _ => True end.

Lemma shorter_then {A B} s (r : result A) (k : A -> list byte -> result B) :
  shorter s r -> (forall a rest, length rest < length s -> shorter rest (k a rest)) -> shorter s (then_ r k).
Proof.
  destruct r as [a rest| |]; cbn; [|done..]. intros Hr Hk. specialize (Hk a rest Hr).
  destruct (k a rest); cbn in *; [lia|done..].
Qed.
Lemma shorter_weaken {A} s s' (r : result A) : shorter s r -> length s <= length s' -> shorter s' r.
Proof. destruct r; cbn; [lia|done..]. Qed.

(** Both: it does not reach the limit, and it consumes. *)
Definition good {A} (s : list byte) (r : result A) : Prop := r <> Ran_out /\ shorter s r.

Lemma good_failed {A} s : good (A := A) s Failed.
Proof. done. Qed.
Lemma good_parsed {A} s (a : A) rest : length rest < length s -> good s (Parsed a rest).
Proof. done. Qed.
Lemma good_then {A B} s (r : result A) (k : A -> list byte -> result B) :
  good s r -> (forall a rest, length rest < length s -> good s (k a rest)) -> good s (then_ r k).
Proof.
  intros [Hn Hr] Hk. destruct r as [a rest| |]; cbn in *; [by apply Hk|done..].
Qed.
Lemma good_weaken {A} s s' (r : result A) : good s r -> length s <= length s' -> good s' r.
Proof. intros [Hn Hr] Hl. split; [done|by eapply shorter_weaken]. Qed.

Lemma parse_string_good n s : length s < n -> good s (parse_string n s).
Proof.
  revert s. induction n as [|n IH]; intros s Hn; [lia|]. cbn [parse_string].
  assert (forall u r, length r < length s ->
    good s (then_ (parse_string n r) (fun out rest => Parsed (u ++ out) rest))) as push.
  { intros u r Hr. apply good_then; [eapply good_weaken; [apply IH; lia|lia]|]. intros a rest Hl. by apply good_parsed. }
  destruct s as [|c s]; [done|]. destruct (bz c <? 32)%Z; [done|].
  assert (good (c :: s) (then_ (parse_string n s) (fun out rest => Parsed ([c] ++ out) rest))) as Hc by (apply push; cbn; lia).
  destruct c; try exact Hc; [apply good_parsed; cbn; lia|].
  destruct s as [|e s]; [done|].
  destruct e; try done; try (apply push; cbn; lia).
  destruct (parse_codepoint s) as [[u r]|] eqn:Hu; [|done]. apply codepoint_length in Hu. apply push. cbn. lia.
Qed.

Lemma read_string_good s : good s (read_string s).
Proof. apply parse_string_good. lia. Qed.

Lemma parse_number_length s n rest : parse_number s = (n, rest) -> length s = (length n + length rest)%nat.
Proof.
  revert n rest. induction s as [|c s IH]; cbn; intros n rest; [by intros [= <- <-]|].
  destruct (num_char c); [|by intros [= <- <-]]. destruct (parse_number s) as [n' r'] eqn:Hp.
  intros [= <- <-]. cbn. by rewrite (IH n' r').
Qed.

Lemma starts_num_char c : starts_number c = true -> num_char c = true.
Proof. by destruct c. Qed.

Lemma read_number_good c s : starts_number c = true -> good (c :: s) (read_number (c :: s)).
Proof.
  intros Hc%starts_num_char. unfold read_number. cbn [parse_number]. rewrite Hc.
  destruct (parse_number s) as [n rest] eqn:Hn. apply parse_number_length in Hn.
  destruct (strtod (c :: n)) as [d|]; [|done]. cbn. destruct (new_number d); [|done]. apply good_parsed. cbn. lia.
Qed.

Lemma good_option {A} s (o : option (A * list byte)) :
  (forall a rest, o = Some (a, rest) -> length rest < length s) -> good s (of_option o).
Proof. destruct o as [[a rest]|]; [|done]. intros Ho. apply good_parsed. by apply (Ho a). Qed.

Lemma word_good c s (v : value) p : good (c :: s) (of_option (pair v <$> match_text p s)).
Proof.
  apply good_option. intros a rest. destruct (match_text p s) as [r|] eqn:Hm; [|done]. intros [= <- <-].
  apply match_text_length in Hm. cbn. lia.
Qed.

Lemma parse_good n :
  (forall s, 2 * length s < n -> good s (parse_value n s))%nat /\
  (forall s, 2 * length s + 1 < n -> good s (parse_items n s))%nat /\
  (forall s o, 2 * length s + 1 < n -> good s (parse_members n s o))%nat.
Proof.
  induction n as [|n (IHv & IHi & IHm)]; [split_and!; intros; lia|]. split_and!.
  - intros s Hs. cbn [parse_value]. pose proof (skip_ws_length s) as Hw.
    destruct (skip_ws s) as [|c r]; [done|]. cbn in Hw. apply (good_weaken (c :: r)); [|cbn; lia].
    assert (good (c :: r) (if starts_number c then read_number (c :: r) else Failed)) as Hn.
    { destruct (starts_number c) eqn:Hc; [by apply read_number_good|done]. }
    destruct c; try exact Hn; try apply word_good; clear Hn.
    + apply good_then; [eapply good_weaken; [apply read_string_good|cbn; lia]|]. intros a rest Hl. by apply good_parsed.
    + destruct (expect x5d r) as [stop r1] eqn:He. apply expect_length in He as [He _].
      destruct stop; [apply good_parsed; cbn; lia|].
      apply good_then; [eapply good_weaken; [apply IHi; lia|cbn; lia]|]. intros l r2 Hl.
      destruct (expect x5d r2) as [stop r3] eqn:He'. apply expect_length in He' as [He' _].
      destruct stop; [|done]. apply good_parsed. cbn in *. lia.
    + destruct (expect x7d r) as [stop r1] eqn:He. apply expect_length in He as [He _].
      destruct stop; [apply good_parsed; cbn; lia|].
      apply good_then; [eapply good_weaken; [apply IHm; lia|cbn; lia]|]. intros l r2 Hl.
      destruct (expect x7d r2) as [stop r3] eqn:He'. apply expect_length in He' as [He' _].
      destruct stop; [|done]. apply good_parsed. cbn in *. lia.
  - intros s Hs. cbn [parse_items]. apply good_then; [apply IHv; lia|]. intros x r Hr.
    destruct (expect x2c r) as [more r1] eqn:He. apply expect_length in He as [He He'].
    destruct more; [|apply good_parsed; lia]. specialize (He' eq_refl).
    apply good_then; [eapply good_weaken; [apply IHi; lia|lia]|]. intros l r2 Hl. by apply good_parsed.
  - intros s o Hs. cbn [parse_members]. destruct (expect x22 s) as [quote r] eqn:He. apply expect_length in He as [He He'].
    destruct quote; [|done]. specialize (He' eq_refl). cbn [negb].
    apply good_then; [eapply good_weaken; [apply read_string_good|lia]|]. intros k r1 Hr1.
    destruct (expect x3a r1) as [colon r2] eqn:He2. apply expect_length in He2 as [He2 He2'].
    destruct colon; [|done]. cbn [negb]. specialize (He2' eq_refl).
    apply good_then; [eapply good_weaken; [apply IHv; lia|lia]|]. intros x r3 Hr3. cbv zeta.
    destruct (expect x2c r3) as [more r4] eqn:He4. apply expect_length in He4 as [He4 He4'].
    destruct more; [|apply good_parsed; lia]. specialize (He4' eq_refl).
    eapply good_weaken; [apply IHm; lia|lia].
Qed.

(** A higher limit does not change what was read under a lower one. *)
Definition agrees {A} (r r' : result A) : Prop := r <> Ran_out -> r' = r.

Lemma agrees_then {A B} (r r' : result A) (k k' : A -> list byte -> result B) :
  agrees r r' -> (forall a rest, agrees (k a rest) (k' a rest)) -> agrees (then_ r k) (then_ r' k').
Proof.
  intros Hr Hk. unfold agrees in *. destruct r as [a rest| |]; cbn.
  - rewrite Hr by done. apply Hk.
  - by rewrite Hr by done.
  - done.
Qed.
Lemma agrees_refl {A} (r : result A) : agrees r r.
Proof. done. Qed.

Lemma parse_more n : forall m, n <= m ->
  (forall s, agrees (parse_value n s) (parse_value m s)) /\
  (forall s, agrees (parse_items n s) (parse_items m s)) /\
  (forall s o, agrees (parse_members n s o) (parse_members m s o)).
Proof.
  induction n as [|n IH]; intros [|m] Hm; try (split_and!; unfold agrees; cbn; intros; by congruence || lia).
  destruct (IH m) as (IHv & IHi & IHm); [lia|]. split_and!; intros.
  - cbn [parse_value]. destruct (skip_ws s) as [|c r]; [apply agrees_refl|].
    destruct c; try apply agrees_refl.
    + destruct (expect x5d r) as [[] r1]; [apply agrees_refl|]. apply agrees_then; [apply IHi|]. intros. apply agrees_refl.
    + destruct (expect x7d r) as [[] r1]; [apply agrees_refl|]. apply agrees_then; [apply IHm|]. intros. apply agrees_refl.
  - cbn [parse_items]. apply agrees_then; [apply IHv|]. intros x r. destruct (expect x2c r) as [[] r1]; [|apply agrees_refl].
    apply agrees_then; [apply IHi|]. intros. apply agrees_refl.
  - cbn [parse_members]. destruct (expect x22 s) as [[] r]; [|apply agrees_refl]. cbn [negb].
    apply agrees_then; [apply agrees_refl|]. intros k r1. destruct (expect x3a r1) as [[] r2]; [|apply agrees_refl]. cbn [negb].
    apply agrees_then; [apply IHv|]. intros x r3. destruct (expect x2c r3) as [[] r4]; [|apply agrees_refl]. apply IHm.
Qed.

(** C23: reading a text ends: with a limit on the recursion of twice the
    length of the text and one the reader of a value comes to an end, having
    consumed at least a character when it succeeds, and every higher limit
    gives the same result, so the limit in [parse] is never what decides. *)
Theorem reader_terminates s m :
  (S (2 * length s) <= m)%nat ->
  good s (parse_value m s) /\ parse_value m s = parse_value (S (2 * length s)) s.
Proof.
  intros Hm. destruct (parse_good (S (2 * length s))) as (Hg & _ & _). destruct (Hg s) as [Hn Hl]; [lia|].
  destruct (parse_more (S (2 * length s)) m Hm) as (Ha & _ & _). by rewrite (Ha s Hn).
Qed.

(** ** What is read is a document *)

Definition holds {A} (Q : A -> Prop) (r : result A) : Prop := match r with Parsed a _ => Q a | _ => True end.

Lemma holds_then {A B} (Q : A -> Prop) (Q' : B -> Prop) (r : result A) k :
  holds Q r -> (forall a rest, Q a -> holds Q' (k a rest)) -> holds Q' (then_ r k).
Proof. destruct r; cbn; [|done..]. intros Ha Hk. by apply Hk. Qed.

Lemma holds_number s : holds well_formed (read_number s).
Proof.
  unfold read_number. destruct (parse_number s) as [n r]. destruct (strtod n) as [d|]; [|done]. cbn.
  unfold new_number. destruct (isfinite d) eqn:Hd; [|done]. by constructor.
Qed.

Lemma holds_word v p s : well_formed v -> holds well_formed (of_option (pair v <$> match_text p s)).
Proof. by destruct (match_text p s). Qed.

Definition object_ok (o : object) : Prop := sorted o /\ Forall (fun m => well_formed m.2) o.

Lemma parse_well_formed n :
  (forall s, holds well_formed (parse_value n s)) /\
  (forall s, holds (Forall well_formed) (parse_items n s)) /\
  (forall s o, object_ok o -> holds object_ok (parse_members n s o)).
Proof.
  induction n as [|n (IHv & IHi & IHm)]; [done|]. split_and!.
  - intros s. cbn [parse_value]. destruct (skip_ws s) as [|c r]; [done|].
    assert (holds well_formed (if starts_number c then read_number (c :: r) else Failed)) as Hn
      by (destruct (starts_number c); [apply holds_number|done]).
    destruct c; try exact Hn; try (apply holds_word; constructor); clear Hn.
    + eapply (holds_then (fun _ => True)); [by destruct (read_string r)|]. intros. by constructor.
    + destruct (expect x5d r) as [[] r1]; [by repeat constructor|]. eapply holds_then; [apply IHi|]. intros l r2 Hl.
      destruct (expect x5d r2) as [[] r3]; [by constructor|done].
    + destruct (expect x7d r) as [[] r1]; [by repeat constructor|].
      eapply holds_then; [apply IHm; split; by constructor|]. intros l r2 [Hl1 Hl2].
      destruct (expect x7d r2) as [[] r3]; [by constructor|done].
  - intros s. cbn [parse_items]. eapply holds_then; [apply IHv|]. intros x r Hx.
    destruct (expect x2c r) as [[] r1]; [|by repeat constructor]. eapply holds_then; [apply IHi|]. intros l r2 Hl. by constructor.
  - intros s o Ho. cbn [parse_members]. destruct (expect x22 s) as [[] r]; [|done]. cbn [negb].
    eapply (holds_then (fun _ => True)); [by destruct (read_string r)|]. intros k r1 _.
    destruct (expect x3a r1) as [[] r2]; [|done]. cbn [negb]. eapply holds_then; [apply IHv|]. intros x r3 Hx. cbv zeta.
    assert (object_ok (o_set k x o)) as Ho' by (destruct Ho; split; [by apply o_set_sorted|by apply o_set_forall]).
    destruct (expect x2c r3) as [[] r4]; [by apply IHm|done].
Qed.

Lemma parsed_document s v : parse s = Some v -> well_formed v.
Proof.
  unfold parse. destruct (parse_well_formed (S (2 * length s))) as (Hw & _ & _). specialize (Hw s).
  destruct (parse_value (S (2 * length s)) s); [by intros [= <-]|done..].
Qed.
End Numbers.

(** ** What is written is read back *)

Section Roundtrip.
Context `{CNumbers}.

(** The C library writes the number as a number and reads it back. *)
Definition number_back (d : double) : bool :=
  let t := to_str_number d in
  isfinite d && match t with c :: _ => starts_number c | [] => false end && forallb num_char t && bool_decide (strtod t = Some d).
Definition numbers_back (v : value) : bool := forallb number_back (numbers v).

(** *** The parts of a text *)

Definition all_ws (s : list byte) : Prop := Forall (fun c => is_ws c = true) s.

Lemma skip_ws_app ws s : all_ws ws -> skip_ws (ws ++ s) = skip_ws s.
Proof. induction 1 as [|c ws Hc Hws IH]; cbn; [done|]. by rewrite Hc. Qed.

Lemma skip_ws_char c s : is_ws c = false -> skip_ws (c :: s) = c :: s.
Proof. intros Hc. cbn. by rewrite Hc. Qed.

Lemma byte_eqb_refl c : byte_eqb c c = true.
Proof. apply Z.eqb_refl. Qed.
Lemma byte_eqb_true c d : byte_eqb c d = true -> c = d.
Proof. intros Hc%Z.eqb_eq. by apply bz_inj. Qed.

Lemma expect_there c ws s : is_ws c = false -> all_ws ws -> expect c (ws ++ c :: s) = (true, s).
Proof. intros Hc Hws. unfold expect. by rewrite skip_ws_app, skip_ws_char, byte_eqb_refl. Qed.

Lemma expect_other c d ws s : is_ws d = false -> byte_eqb d c = false -> all_ws ws -> expect c (ws ++ d :: s) = (false, d :: s).
Proof. intros Hd Hc Hws. unfold expect. by rewrite skip_ws_app, skip_ws_char, Hc. Qed.

Lemma ws_indent n : all_ws (indent_text n).
Proof. constructor; [done|]. by apply Forall_replicate. Qed.
Lemma ws_nil : all_ws [].
Proof. constructor. Qed.
Lemma ws_before i : all_ws (before_item true i).
Proof. unfold before_item. destruct (i =? -1)%Z; [apply ws_nil|apply ws_indent]. Qed.
Lemma ws_after b i : all_ws (after_items b i).
Proof. unfold after_items. destruct (_ || _); [apply ws_nil|apply ws_indent]. Qed.
Lemma ws_colon (b : bool) : all_ws (if b then [] else [x20]).
Proof. by destruct b; repeat constructor. Qed.

(** The text after a value that is no part of a number. *)
Definition stops (s : list byte) : Prop := match s with c :: _ => num_char c = false | [] => True end.

Lemma stops_ws ws c s : all_ws ws -> num_char c = false -> stops (ws ++ c :: s).
Proof. intros [|x ws' Hx _] Hc; cbn; [done|]. by destruct x. Qed.

(** *** Strings *)

(** One character, escaped or not. *)
Lemma parse_escaped n c t :
  parse_string (S n) (serialize_str_char c ++ t) = then_ (parse_string n t) (fun out rest => Parsed (c :: out) rest).
Proof. by destruct c. Qed.

Lemma escaped_length c : 1 <= length (serialize_str_char c).
Proof. destruct c; cbn; lia. Qed.

Lemma parse_written_string s : forall n rest, length s < n -> parse_string n (concat (map serialize_str_char s) ++ x22 :: rest) = Parsed s rest.
Proof.
  induction s as [|c s IH]; intros [|n] rest Hn; cbn [map concat] in *; try (cbn in Hn; lia); [done|].
  rewrite <-app_assoc, parse_escaped, IH by (cbn in Hn; lia). done.
Qed.

Lemma read_written_string s rest : read_string (concat (map serialize_str_char s) ++ x22 :: rest) = Parsed s rest.
Proof.
  apply parse_written_string. rewrite length_app. cbn [length].
  assert (length s <= length (concat (map serialize_str_char s))); [|lia].
  induction s as [|c s IH]; cbn; [done|]. rewrite length_app. pose proof (escaped_length c). lia.
Qed.

Lemma serialize_str_shape s t : serialize_str s ++ t = x22 :: concat (map serialize_str_char s) ++ x22 :: t.
Proof. unfold serialize_str. cbn [app]. by rewrite <-app_assoc. Qed.

(** *** Numbers *)

Lemma parse_number_text t rest : forallb num_char t = true -> stops rest -> parse_number (t ++ rest) = (t, rest).
Proof.
  intros Ht Hr. induction t as [|c t IH]; cbn in *.
  - destruct rest as [|c rest]; cbn in *; [done|]. by rewrite Hr.
  - apply andb_true_iff in Ht as [Hc Ht]. by rewrite Hc, IH.
Qed.

(** A digit or a sign starts a number. *)
Lemma parse_value_number n c s : starts_number c = true -> parse_value (S n) (c :: s) = read_number (c :: s).
Proof. by destruct c. Qed.

Lemma starts_not_ws c : starts_number c = true -> is_ws c = false.
Proof. by destruct c. Qed.

Lemma parse_value_ws n ws s : all_ws ws -> parse_value n (ws ++ s) = parse_value n s.
Proof. intros Hws. destruct n as [|n]; [done|]. cbn [parse_value]. by rewrite skip_ws_app. Qed.

Lemma read_back_number n d rest :
  number_back d = true -> stops rest -> parse_value (S n) (to_str_number d ++ rest) = Parsed (Number d) rest.
Proof.
  unfold number_back. intros Hd Hr. cbv zeta in Hd. rewrite !andb_true_iff in Hd. destruct Hd as [[[Hf Hc] Ht] Hs].
  apply bool_decide_eq_true_1 in Hs. pose proof (parse_number_text _ rest Ht Hr) as Hp.
  destruct (to_str_number d) as [|c t] eqn:Hd; [done|]. cbn [app] in *. rewrite parse_value_number by done.
  unfold read_number. rewrite Hp. unfold new_number. rewrite Hs. cbn. by rewrite Hf.
Qed.

(** *** Values *)

(** Pretty at some depth, or not at all. *)
Definition depth_ok (i : Z) : Prop := (i = -1 \/ 0 <= i)%Z.
Definition newline (i : Z) : list byte := if (i =? 0)%Z then [x0a] else [].

Lemma deeper_ok i : depth_ok i -> depth_ok (deeper i).
Proof. unfold depth_ok, deeper. destruct (Z.eqb_spec i (-1)); lia. Qed.
Lemma newline_deeper i : depth_ok i -> newline (deeper i) = [].
Proof. unfold depth_ok, deeper, newline. intros Hi. destruct (Z.eqb_spec i (-1)); [by subst|]. destruct (Z.eqb_spec (i + 1) 0); [lia|done]. Qed.

Definition items_text (i : Z) : bool -> list value -> list byte :=
  fix items (first : bool) (l : list value) : list byte :=
    match l with
    | [] => []
    | x :: l => before_item first i ++ serialize_at x i ++ items false l
    end.
Definition members_text (i : Z) (space : list byte) : bool -> object -> list byte :=
  fix members (first : bool) (o : object) : list byte :=
    match o with
    | [] => []
    | (k, x) :: o => before_item first i ++ serialize_str k ++ [x3a] ++ space ++ serialize_at x i ++ members false o
    end.
Definition space_after (i : Z) : list byte := if (i =? -1)%Z then [] else [x20].

Lemma array_text l i :
  serialize_at (Array l) i = [x5b] ++ items_text (deeper i) true l ++ after_items (is_nil l) i ++ [x5d] ++ newline i.
Proof.
  cbn [serialize_at]. rewrite <-!app_assoc. reflexivity.
Qed.
Lemma object_text o i :
  serialize_at (Object o) i =
  [x7b] ++ members_text (deeper i) (space_after i) true o ++ after_items (is_nil o) i ++ [x7d] ++ newline i.
Proof.
  cbn [serialize_at]. rewrite <-!app_assoc. reflexivity.
Qed.

(** The first character of a value. *)
Lemma value_starts v i :
  numbers_back v = true -> exists c t, serialize_at v i = c :: t /\ is_ws c = false /\ byte_eqb c x5d = false.
Proof.
  destruct v as [|b|d|s|l|o]; intros Hv; [by do 2 eexists|destruct b; by do 2 eexists| |by do 2 eexists..].
  unfold numbers_back in Hv. cbn in Hv. rewrite andb_true_r in Hv. unfold number_back in Hv. rewrite !andb_true_iff in Hv.
  destruct Hv as [[[_ Hc] _] _]. cbn [serialize_at]. destruct (to_str_number d) as [|c t]; [done|].
  exists c, (t ++ newline i). split_and!; [done| |]; by destruct c.
Qed.

(** A value is read back where it was written. *)
Definition reads_back (v : value) : Prop := forall i n rest,
  depth_ok i -> stops (newline i ++ rest) -> (2 * length (serialize_at v i ++ rest) < n)%nat ->
  parse_value n (serialize_at v i ++ rest) = Parsed v (newline i ++ rest).

Lemma items_read_back i x l ws rest :
  depth_ok i -> newline i = [] -> numbers_back x = true -> reads_back x -> Forall (fun v => numbers_back v = true) l -> Forall reads_back l ->
  all_ws ws ->
  forall n, (2 * length (serialize_at x i ++ items_text i false l ++ ws ++ x5d :: rest) + 1 < n)%nat ->
  parse_items n (serialize_at x i ++ items_text i false l ++ ws ++ x5d :: rest) = Parsed (x :: l) (x5d :: rest).
Proof.
  intros Hi Hnl Hxn Hx Hln Hl Hws. revert x Hxn Hx. induction Hl as [|y l Hy Hl IH]; intros x Hxn Hx [|n] Hn; try lia.
  - cbn [parse_items items_text app] in *. rewrite Hx; [|done| |cbn in *; lia].
    2: { rewrite Hnl. by apply stops_ws. }
    rewrite Hnl. cbn [then_ app]. by rewrite (expect_other x2c x5d).
  - apply list.Forall_cons in Hln as [Hyn Hln]. cbn [parse_items items_text] in *. rewrite Hx; [|done| |lia].
    2: { by rewrite Hnl. }
    rewrite Hnl. cbn [then_ app]. unfold before_item. rewrite <-!app_assoc. cbn [app].
    change (x2c :: ?t) with ([] ++ x2c :: t). rewrite expect_there by (done || apply ws_nil).
    assert (all_ws (if (i =? -1)%Z then [] else indent_text i)) as Hb by apply (ws_before i).
    rewrite !length_app in Hn. unfold before_item in Hn. rewrite length_app in Hn. cbn [length] in Hn.
    set (b := if (i =? -1)%Z then [] else indent_text i) in *. clearbody b.
    destruct n as [|n]; [lia|].
    assert (parse_items (S n) (b ++ serialize_at y i ++ items_text i false l ++ ws ++ x5d :: rest) =
            parse_items (S n) (serialize_at y i ++ items_text i false l ++ ws ++ x5d :: rest)) as ->.
    { cbn [parse_items]. by rewrite parse_value_ws. }
    rewrite (IH Hln y Hyn Hy); [done|]. rewrite !length_app. cbn [length]. lia.
Qed.

(** Lengths of texts. *)
Ltac lens := repeat (rewrite !length_app in * || cbn [length app] in *); lia.

(** One member, up to what follows it. *)
Lemma member_read_back i k x sp b tail o n :
  depth_ok i -> newline i = [] -> all_ws sp -> all_ws b -> reads_back x -> stops tail ->
  (2 * length (serialize_at x i ++ tail) < n)%nat ->
  parse_members (S n) (b ++ serialize_str k ++ [x3a] ++ sp ++ serialize_at x i ++ tail) o =
  let '(more, s) := expect x2c tail in
  if more then parse_members n s (o_set k x o) else Parsed (o_set k x o) s.
Proof.
  intros Hi Hnl Hsp Hb Hx Hstop Hn. cbn [parse_members]. rewrite serialize_str_shape, expect_there by done. cbn [negb].
  rewrite read_written_string. cbn [then_]. cbn [app]. change (x3a :: ?t) with ([] ++ x3a :: t).
  rewrite expect_there by (done || apply ws_nil). cbn [negb].
  rewrite parse_value_ws by done. rewrite Hx; [|done|by rewrite Hnl|done]. by rewrite Hnl.
Qed.

Lemma sorted_last done k x (o : object) : sorted (done ++ (k, x) :: o) -> o_set k x done = done ++ [(k, x)].
Proof.
  intros Hs. apply o_set_last, list.Forall_forall. intros m Hm.
  exact (StronglySorted_app_1_elem_of _ _ _ m (k, x) Hs Hm (list_elem_of_here _ _)).
Qed.

(** After what was read of an object so far. *)
Lemma members_read_back i k x o sp ws rest :
  depth_ok i -> newline i = [] -> all_ws sp -> all_ws ws -> reads_back x -> Forall (fun m => reads_back m.2) o ->
  forall done n b, sorted (done ++ (k, x) :: o) -> all_ws b ->
  (2 * length (b ++ serialize_str k ++ [x3a] ++ sp ++ serialize_at x i ++ members_text i sp false o ++ ws ++ x7d :: rest) + 1 < n)%nat ->
  parse_members n (b ++ serialize_str k ++ [x3a] ++ sp ++ serialize_at x i ++ members_text i sp false o ++ ws ++ x7d :: rest) done =
  Parsed (done ++ (k, x) :: o) (x7d :: rest).
Proof.
  intros Hi Hnl Hsp Hws Hx Ho. revert k x Hx.
  induction Ho as [|[k' y] o Hy Ho IH]; intros k x Hx done [|n] b Hsorted Hb Hn; try lia; pose proof (sorted_last _ _ _ _ Hsorted) as Hset.
  - cbn [members_text app] in *. rewrite (member_read_back i k x sp b (ws ++ x7d :: rest)) by
      (first [done | by apply stops_ws | lens]).
    by rewrite (expect_other x2c x7d), Hset.
  - cbn [members_text] in *. set (t := serialize_str k' ++ [x3a] ++ sp ++ serialize_at y i ++ members_text i sp false o ++ ws ++ x7d :: rest).
    set (b' := if (i =? -1)%Z then [] else indent_text i).
    assert (all_ws b') as Hb' by apply (ws_before i).
    assert ((before_item false i ++ serialize_str k' ++ [x3a] ++ sp ++ serialize_at y i ++ members_text i sp false o) ++ ws ++ x7d :: rest
            = x2c :: b' ++ t) as Ht.
    { unfold before_item, t, b'. by rewrite <-!app_assoc. }
    rewrite Ht in *. clearbody b'.
    rewrite (member_read_back i k x sp b (x2c :: b' ++ t)) by (first [done | lens]).
    change (x2c :: ?t) with ([] ++ x2c :: t). rewrite expect_there by (done || apply ws_nil). rewrite Hset.
    rewrite (IH k' y Hy); [by rewrite <-app_assoc|by rewrite <-app_assoc|done|].
    unfold t in *. lens.
Qed.

Lemma numbers_array l : numbers_back (Array l) = true -> Forall (fun v => numbers_back v = true) l.
Proof.
  unfold numbers_back. cbn [numbers]. induction l as [|x l IH]; [constructor|]. rewrite forallb_app, andb_true_iff. intros [Hx Hl].
  constructor; [done|by apply IH].
Qed.
Lemma numbers_object o : numbers_back (Object o) = true -> Forall (fun m => numbers_back m.2 = true) o.
Proof.
  unfold numbers_back. cbn [numbers]. induction o as [|[k x] o IH]; [constructor|]. rewrite forallb_app, andb_true_iff. intros [Hx Hl].
  constructor; [done|by apply IH].
Qed.

Lemma forall_mp2 {A} (P Q R : A -> Prop) l : Forall (fun x => P x -> Q x -> R x) l -> Forall P l -> Forall Q l -> Forall R l.
Proof. rewrite !list.Forall_forall. auto. Qed.

Lemma value_read_back v : well_formed v -> numbers_back v = true -> reads_back v.
Proof.
  induction v as [|b|d|s|l IH|o IH] using value_deep_ind; intros Hwf Hnum i n rest Hi Hstop Hn; (destruct n as [|n]; [lia|]).
  - reflexivity.
  - destruct b; reflexivity.
  - cbn [serialize_at] in *. fold (newline i) in *. rewrite <-app_assoc. apply read_back_number; [|done].
    unfold numbers_back in Hnum. cbn in Hnum. by rewrite andb_true_r in Hnum.
  - cbn [serialize_at] in *. fold (newline i) in *. rewrite <-app_assoc, serialize_str_shape. cbn [parse_value skip_ws is_ws].
    by rewrite read_written_string.
  - inversion_clear Hwf as [| | | |? Hl|]. pose proof (numbers_array _ Hnum) as Hns. rewrite array_text in *. rewrite <-!app_assoc in *.
    destruct l as [|x l].
    { cbn [items_text is_nil app]. unfold after_items. rewrite orb_true_r. cbn [app]. reflexivity. }
    apply list.Forall_cons in Hns as [Hx Hns]. apply list.Forall_cons in Hl as [Hlx Hl].
    apply list.Forall_cons in IH as [IHx IH].
    cbn [items_text is_nil app] in *. rewrite <-!app_assoc in *. cbn [parse_value skip_ws is_ws].
    destruct (value_starts x (deeper i) Hx) as (c & t & Hc & Hws & Hne).
    match goal with |- context [expect x5d (before_item true _ ++ ?u)] =>
      assert (expect x5d (before_item true (deeper i) ++ u) = (false, u)) as -> end.
    { rewrite Hc. cbn [app]. apply expect_other; [done|done|apply ws_before]. }
    pose proof (forall_mp2 _ _ _ _ IH Hl Hns) as Hrs.
    rewrite (items_read_back (deeper i) x l (after_items false i) (newline i ++ rest) (deeper_ok i Hi) (newline_deeper i Hi)
      Hx (IHx Hlx Hx) Hns Hrs (ws_after _ _)).
    + reflexivity.
    + lens.
  - inversion_clear Hwf as [| | | | |? Hso Hl]. pose proof (numbers_object _ Hnum) as Hns. rewrite object_text in *. rewrite <-!app_assoc in *.
    destruct o as [|[k x] o].
    { cbn [members_text is_nil app]. unfold after_items. rewrite orb_true_r. cbn [app]. reflexivity. }
    apply list.Forall_cons in Hns as [Hx Hns]. apply list.Forall_cons in Hl as [Hlx Hl].
    apply list.Forall_cons in IH as [IHx IH].
    cbn [members_text is_nil] in *. rewrite <-!app_assoc in *.
    change (parse_value (S n) ([x7b] ++ ?u)) with
      (let '(stop, s) := expect x7d u in
       if stop then Parsed (Object []) s
       else then_ (parse_members n s []) (fun o s => let '(stop, s) := expect x7d s in if stop then Parsed (Object o) s else Failed)).
    assert (forall u, expect x7d (before_item true (deeper i) ++ serialize_str k ++ u) = (false, serialize_str k ++ u)) as ->.
    { intros u. rewrite serialize_str_shape. apply expect_other; [done|done|apply ws_before]. }
    rewrite (members_read_back (deeper i) k x o (space_after i) (after_items false i) (newline i ++ rest)
      (deeper_ok i Hi) (newline_deeper i Hi) (ws_colon _) (ws_after _ _) (IHx Hlx Hx)) with (done := []) (b := []); try done.
    + exact (forall_mp2 (fun m => well_formed m.2) (fun m => numbers_back m.2 = true) _ _ IH Hl Hns).
    + apply ws_nil.
    + lens.
Qed.

Lemma written_is_read pretty v : well_formed v -> numbers_back v = true -> parse (serialize pretty v) = Some v.
Proof.
  intros Hwf Hnum. unfold parse. pose proof (value_read_back v Hwf Hnum) as Hv. unfold serialize.
  set (i := if pretty then 0%Z else (-1)%Z). specialize (Hv i (S (2 * length (serialize_at v i))) []).
  rewrite !app_nil_r in Hv. rewrite Hv; [done| |by destruct pretty|lia].
  unfold depth_ok, i. destruct pretty; lia.
Qed.
(** A document in order whose numbers are read back is well formed. *)
Lemma ordered_well_formed v : ordered v -> numbers_back v = true -> well_formed v.
Proof.
  induction v as [|b|d|s|l IH|o IH] using value_deep_ind; intros Hs Hn; try (constructor; fail).
  - constructor. unfold numbers_back, number_back in Hn. cbn in Hn. rewrite !andb_true_iff in Hn. tauto.
  - apply numbers_array in Hn. inversion Hs as [| | | |? Hl|]; subst. constructor. exact (forall_mp2 ordered (fun v => numbers_back v = true) _ _ IH Hl Hn).
  - apply numbers_object in Hn. inversion Hs as [| | | | |? Hso Hl]; subst. constructor; [done|].
    exact (forall_mp2 (fun m => ordered m.2) (fun m => numbers_back m.2 = true) _ _ IH Hl Hn).
Qed.

(** C22: a document that is written is read back: for every value whose objects
    have their keys in order and whose numbers are finite, the C library writing
    each of them as a number and reading it back, the text, pretty or not, is
    read as the same value, whatever bytes its strings and keys hold. And what is
    read from any text, whatever the C library makes of its numbers, is a value
    with the keys of its objects in order, once each, and finite numbers; so it
    is written and read back the same when the C library reads back its numbers. *)
Theorem json_roundtrip :
  (forall pretty v, well_formed v -> numbers_back v = true -> parse (serialize pretty v) = Some v) /\
  (forall s v, parse s = Some v ->
     well_formed v /\ (numbers_back v = true -> forall pretty, parse (serialize pretty v) = Some v)).
Proof.
  split; [intros pretty v Hwf Hnum; by apply written_is_read|]. intros s v Hs.
  assert (well_formed v) as Hwf by by eapply parsed_document. split; [done|]. intros Hnum pretty. by apply written_is_read.
Qed.
End Roundtrip.

(** ** A sample of the C library *)

Definition digits_of (n : Z) : list byte :=
  (fix go (fuel : nat) (n : Z) (acc : list byte) :=
     match fuel with
     | O => acc
     | S fuel => if (n <? 10)%Z then zb (48 + n) :: acc else go fuel (n / 10)%Z (zb (48 + n mod 10) :: acc)
     end) 400%nat n [].

(** The digits at the start, and the rest. *)
Fixpoint of_digits (n : Z) (s : list byte) : Z * list byte :=
  match s with
  | c :: s' => if (48 <=? bz c)%Z && (bz c <=? 57)%Z then of_digits (n * 10 + (bz c - 48)) s' else (n, s)
  | [] => (n, [])
  end.

(** A number as its mantissa and its power of two, exactly. *)
Definition exact_text (d : double) : list byte :=
  let sign (b : bool) := if b then [x2d] else [] in
  match d with
  | S754_finite s m e => sign s ++ digits_of (Z.pos m) ++ [x65] ++ sign (e <? 0)%Z ++ digits_of (Z.abs e)
  | S754_zero s => sign s ++ [x30]
  | _ => str "nan"
  end.
Definition exact_number (t : list byte) : option double :=
  let signed (s : list byte) := match s with x2d :: s => (true, s) | _ => (false, s) end in
  let '(s, t) := signed t in
  let '(m, t) := of_digits 0 t in
  match t, m with
  | [], 0%Z => Some (S754_zero s)
  | x65 :: t, Z.pos m => let '(neg, t) := signed t in let '(e, t) := of_digits 0 t in
      if is_nil t then Some (S754_finite s m (if neg : bool then - e else e)%Z) else None
  | _, _ => None
  end.

Definition numbers_sample : CNumbers := {| format_f := exact_text; format_17g := exact_text; strtod := exact_number |}.

(** A document with what must be escaped, and numbers of both kinds. *)
Definition document_small : value :=
  Object [(str "a", Array [Number (d_of_Z 12); Number (d_lit 1 3); Null; Boolean true]); (str "k", Text [x22; x5c; x01; x0a; xff])].

Lemma json_roundtrip_witness :
  well_formed document_small /\ numbers_back (H := numbers_sample) document_small = true /\
  parse (H := numbers_sample) (serialize (H := numbers_sample) true document_small) = Some document_small.
Proof.
  assert (well_formed document_small) as Hwf by (repeat constructor).
  assert (numbers_back (H := numbers_sample) document_small = true) as Hn by (vm_compute; reflexivity).
  split; [exact Hwf|]. split; [exact Hn|]. exact (proj1 (json_roundtrip (H := numbers_sample)) true document_small Hwf Hn).
Defined.

(** The text is what the program writes; a text is read up to the end of its value. *)
Example pretty_text : serialize (H := numbers_sample) true (Array [Boolean true; Text [x22]]) =
  str "[" ++ [x0a] ++ str "  true," ++ [x0a] ++ str "  " ++ [x22; x5c; x22; x22; x0a] ++ str "]" ++ [x0a].
Proof. vm_compute. reflexivity. Qed.

Lemma reader_terminates_witness :
  (S (2 * length (str "[ true ]")) <= 40)%nat /\
  good (str "[ true ]") (parse_value (H := numbers_sample) 40 (str "[ true ]")).
Proof.
  assert (S (2 * length (str "[ true ]")) <= 40)%nat as Hl by (apply Nat.leb_le; vm_compute; reflexivity).
  split; [exact Hl|]. exact (proj1 (reader_terminates (H := numbers_sample) (str "[ true ]") 40 Hl)).
Defined.
