(* ===== verification/OscWire.v ===== *)
(** * OSC 1.0 wire format (modules/oscrouter/src/driver/OscWire.h)

    [OscPacket] is the bounded serializer, [OscReader] the bounds-checked
    reader, [OscParseMessage] and [OscDispatch] the message and bundle parsers.
    Buffers are byte lists; a [size_t] offset is a [nat] into the list.  The
    serializer's capacity is the C++ template argument [N]. *)

From S2P Require Import Prelude.

(** ** Padding

    [(n + 3u) & ~3u]: [~3u] is a 32-bit constant, so on a 64-bit [size_t] the
    mask also clears the upper half. *)
Definition OscPad4 (n : nat) : nat := Z.to_nat (Z.land (Z.of_nat n + 3) (2 ^ 32 - 4)).

Lemma land_clear_low2 z :
  (0 <= z < 2 ^ 32)%Z -> Z.land z (2 ^ 32 - 4) = (4 * (z / 4))%Z.
Proof.
  intros Hz. change (2 ^ 32 - 4)%Z with (Z.shiftl (Z.ones 30) 2).
  replace (Z.land z (Z.shiftl (Z.ones 30) 2)) with (Z.shiftl (Z.land (Z.shiftr z 2) (Z.ones 30)) 2).
  - rewrite Z.land_ones, Z.shiftr_div_pow2, Z.shiftl_mul_pow2 by lia.
    change (2 ^ 2)%Z with 4%Z. rewrite Z.mod_small; [lia|].
    split; [apply Z.div_pos; lia|apply Z.div_lt_upper_bound; lia].
  - apply Z.bits_inj'. intros i Hi.
    rewrite Z.shiftl_spec, !Z.land_spec, (Z.shiftl_spec (Z.ones 30)) by lia.
    destruct (Z.ltb_spec i 2).
    + rewrite !(Z.testbit_neg_r _ (i - 2)) by lia. by rewrite !andb_false_r.
    + rewrite Z.shiftr_spec by lia. by rewrite Z.sub_add.
Qed.

Lemma OscPad4_spec n :
  (Z.of_nat n < 2 ^ 32 - 4)%Z -> OscPad4 n = 4 * ((n + 3) / 4).
Proof.
  intros Hn. unfold OscPad4. rewrite land_clear_low2 by lia.
  replace (Z.of_nat n + 3)%Z with (Z.of_nat (n + 3)) by lia.
  change 4%Z with (Z.of_nat 4). rewrite <-Nat2Z.inj_div, <-Nat2Z.inj_mul. lia.
Qed.

(** The two facts every client uses. *)
Lemma OscPad4_bounds n :
  (Z.of_nat n < 2 ^ 32 - 4)%Z -> n <= OscPad4 n < n + 4.
Proof. intros. rewrite OscPad4_spec by done. pose proof (Nat.div_mod_eq (n + 3) 4).
  pose proof (Nat.mod_upper_bound (n + 3) 4 ltac:(lia)). lia. Qed.

Lemma OscPad4_mod n : (Z.of_nat n < 2 ^ 32 - 4)%Z -> OscPad4 n mod 4 = 0.
Proof. intros. rewrite OscPad4_spec, Nat.mul_comm by done. apply Nat.Div0.mod_mul. Qed.

(** ** Serialization *)

(** [buf] is the written prefix [buf_[0 .. pos_)]. *)
Record OscPacket := mkPacket { buf : list byte; ok_ : bool }.

Definition pos_ (p : OscPacket) : nat := length (buf p).

Section Packet.
Context (N : nat).

Definition packet_init : OscPacket := mkPacket [] true.

Definition AppendByte (b : byte) (p : OscPacket) : OscPacket :=
  if negb (ok_ p) then p
  else if N <=? pos_ p then mkPacket (buf p) false
  else mkPacket (buf p ++ [b]) true.

Definition Append (src : list byte) (p : OscPacket) : OscPacket :=
  if negb (ok_ p) then p
  else if N <? pos_ p + length src then mkPacket (buf p) false
  else mkPacket (buf p ++ src) true.

(** [for (i = len; i < padded; ++i) AppendByte(0)] *)
Fixpoint AppendZeros (n : nat) (p : OscPacket) : OscPacket :=
  match n with
  | 0 => p
  | S k => AppendZeros k (AppendByte x00 p)
  end.

Definition WriteInt32 (v : Z) (p : OscPacket) : OscPacket := Append (be32 v) p.

(** A [float] argument is its 32-bit pattern. *)
Definition WriteFloat (bits : Z) (p : OscPacket) : OscPacket := WriteInt32 (s32 bits) p.

Definition WriteStr (s : list byte) (p : OscPacket) : OscPacket :=
  let len := length (cstr s) + 1 in
  let p1 := Append (cstr s ++ [x00]) p in
  AppendZeros (OscPad4 len - len) p1.

Definition WriteBlob (data : list byte) (p : OscPacket) : OscPacket :=
  let len := length data in
  let p1 := WriteInt32 (s32 (u32 (Z.of_nat len))) p in
  let p2 := Append data p1 in
  AppendZeros (OscPad4 len - len) p2.

Definition WriteRawArgs (data : list byte) (p : OscPacket) : OscPacket := Append data p.

Definition Begin (address typetag : list byte) (p : OscPacket) : OscPacket :=
  WriteStr typetag (WriteStr address (mkPacket [] true)).
End Packet.

(** The bytes a writer puts on the wire when the capacity suffices. *)
Definition osc_str (s : list byte) : list byte :=
  s ++ replicate (OscPad4 (length s + 1) - length s) x00.

Definition osc_blob (data : list byte) : list byte :=
  be32 (Z.of_nat (length data)) ++ data ++ replicate (OscPad4 (length data) - length data) x00.

Definition osc_message (address typetag args : list byte) : list byte :=
  osc_str address ++ osc_str typetag ++ args.

(** ** Reading *)

Record OscReader := mkReader { data_ : list byte; rpos : nat; valid_ : bool }.

Definition OscReader_new (data : list byte) : OscReader :=
  mkReader data 0 (negb (length data =? 0)).

Definition fail_ (r : OscReader) : OscReader := mkReader (data_ r) (rpos r) false.
Definition advance (n : nat) (r : OscReader) : OscReader :=
  mkReader (data_ r) (rpos r + n) (valid_ r).
Definition Remaining (r : OscReader) : nat := length (data_ r) - rpos r.
Definition AtEnd (r : OscReader) : bool := length (data_ r) <=? rpos r.

Definition ReadStr (r : OscReader) : option (list byte) * OscReader :=
  if negb (valid_ r) then (None, r) else
  let start := drop (rpos r) (data_ r) in
  let remaining := Remaining r in
  let len := strnlen start in
  if len =? remaining then (None, fail_ r) else
  let adv := OscPad4 (len + 1) in
  if length (data_ r) <? rpos r + adv then (None, fail_ r)
  else (Some (take len start), advance adv r).

Definition ReadBytes (n : nat) (r : OscReader) : option (list byte) * OscReader :=
  if negb (valid_ r) then (None, r)
  else if length (data_ r) <? rpos r + n then (None, fail_ r)
  else (Some (take n (drop (rpos r) (data_ r))), advance n r).

Definition ReadInt32 (r : OscReader) : Z * OscReader :=
  match ReadBytes 4 r with
  | (Some [a; b; c; d], r') => (s32 (of_be32 a b c d), r')
  | (_, r') => (0%Z, r')
  end.

(** [memcpy(&v, &bits, 4)]: the pattern of the float read. *)
Definition ReadFloat (r : OscReader) : Z * OscReader :=
  let '(bits, r') := ReadInt32 r in (u32 bits, r').

(** The result is the pointer (the blob's bytes), [len_out] and the reader. *)
Definition ReadBlob (r : OscReader) : option (list byte) * nat * OscReader :=
  let '(raw, r1) := ReadInt32 r in
  if negb (valid_ r1) || (raw <? 0)%Z then (None, 0, fail_ r1) else
  let len_out := Z.to_nat raw in
  if length (data_ r1) <? rpos r1 + len_out then (None, len_out, fail_ r1) else
  let ptr := take len_out (drop (rpos r1) (data_ r1)) in
  let r2 := advance (OscPad4 len_out) r1 in
  if length (data_ r2) <? rpos r2 then (None, len_out, fail_ r2) else (Some ptr, len_out, r2).

(** ** Messages *)

Record OscMessage := mkMsg {
  address : list byte; typetag : list byte; arg_data : list byte }.

(** [None] is a message whose [valid] flag stays false. *)
Definition OscParseMessage (data : list byte) : option OscMessage :=
  let r := OscReader_new data in
  let '(a, r1) := ReadStr r in
  let '(t, r2) := ReadStr r1 in
  if negb (valid_ r2) then None else
  match a, t with
  | Some a, Some t => Some (mkMsg a t (drop (rpos r2) data))
  | _, _ => None
  end.

(** ** Bundles

    [kOscBundlePrefix] with its NUL is eight bytes. *)
Definition kOscBundlePrefix : list byte := str "#bundle" ++ [x00].

(** [OscDispatch fuel data] lists the messages the callback receives, in
    order; [None] is out of fuel.  [dispatch_loop] is the [while] over the
    bundle's elements, from offset [pos]. *)
Fixpoint dispatch_fuel (fuel : nat) (data : list byte) {struct fuel} : option (list OscMessage) :=
  match fuel with
  | 0 => None
  | S k =>
    if length data <? 8 then Some []
    else if decide (take 8 data = kOscBundlePrefix) then
      if length data <? 16 then Some []
      else loop_fuel k data 16
    else match OscParseMessage data with
         | Some m => Some [m]
         | None => Some []
         end
  end
with loop_fuel (fuel : nat) (data : list byte) (pos : nat) {struct fuel} : option (list OscMessage) :=
  match fuel with
  | 0 => None
  | S k =>
    if pos + 4 <=? length data then
      let '(v, _) := ReadInt32 (OscReader_new (take 4 (drop pos data))) in
      let len := Z.to_nat (u32 v) in
      let pos := pos + 4 in
      if length data <? pos + len then Some []
      else match dispatch_fuel k (take len (drop pos data)) with
           | None => None
           | Some ms => match loop_fuel k data (pos + len) with
                        | None => None
                        | Some ms' => Some (ms ++ ms')
                        end
           end
    else Some []
  end.

(** The packet's own length bounds the recursion ([dispatch_fuel_enough]). *)
Definition OscDispatch (data : list byte) : list OscMessage :=
  default [] (dispatch_fuel (S (length data)) data).

(** ** The serializer writes exactly the encoding, or fails *)

Inductive osc_op :=
| OpInt32 (v : Z)
| OpFloat (bits : Z)
| OpStr (s : list byte)
| OpBlob (data : list byte)
| OpRaw (data : list byte).

Definition run_op (N : nat) (p : OscPacket) (o : osc_op) : OscPacket :=
  match o with
  | OpInt32 v => WriteInt32 N v p
  | OpFloat b => WriteFloat N b p
  | OpStr s => WriteStr N s p
  | OpBlob d => WriteBlob N d p
  | OpRaw d => WriteRawArgs N d p
  end.

Definition run_ops (N : nat) (ops : list osc_op) (p : OscPacket) : OscPacket :=
  foldl (run_op N) p ops.

Definition op_bytes (o : osc_op) : list byte :=
  match o with
  | OpInt32 v => be32 v
  | OpFloat b => be32 (s32 b)
  | OpStr s => osc_str (cstr s)
  | OpBlob d => be32 (s32 (u32 (Z.of_nat (length d)))) ++ d
                ++ replicate (OscPad4 (length d) - length d) x00
  | OpRaw d => d
  end.

(** [writes N p p' w]: from [p], a write of [w] gives [p']: all of [w] when it
    fits, and otherwise a latched failure within the capacity. *)
Definition writes (N : nat) (p p' : OscPacket) (w : list byte) : Prop :=
  pos_ p <= N ->
  pos_ p' <= N /\
  (ok_ p = false -> p' = p) /\
  (ok_ p = true -> pos_ p + length w <= N -> p' = mkPacket (buf p ++ w) true) /\
  (ok_ p = true -> N < pos_ p + length w -> ok_ p' = false).

Lemma writes_nil N p : writes N p p [].
Proof. destruct p as [b []]; unfold writes, pos_; simpl; rewrite ?app_nil_r; naive_solver lia. Qed.

Lemma writes_trans N p q r v w : writes N p q v -> writes N q r w -> writes N p r (v ++ w).
Proof.
  intros Hv Hw Hp. destruct (Hv Hp) as (Hq & Hv0 & Hv1 & Hv2).
  destruct (Hw Hq) as (Hr & Hw0 & Hw1 & Hw2).
  rewrite length_app. split; [done|]. split; [|split].
  - intros Hok. rewrite (Hv0 Hok) in *. by apply Hw0.
  - intros Hok Hfit. rewrite (Hv1 Hok) in * by lia. unfold pos_ in *. simpl in *.
    rewrite length_app in *. rewrite Hw1 by (done || lia). by rewrite app_assoc.
  - intros Hok Hfit. destruct (decide (pos_ p + length v <= N)) as [H|H].
    + rewrite (Hv1 Hok) in * by lia. unfold pos_ in *. simpl in *. rewrite length_app in *.
      apply Hw2; [done|lia].
    + rewrite Hw0; apply Hv2; (done || lia).
Qed.

Lemma Append_writes N src p : writes N p (Append N src p) src.
Proof.
  unfold writes, Append, pos_. destruct p as [b []]; simpl; [|naive_solver].
  intros. split_ifs; simpl; rewrite ?length_app; naive_solver lia.
Qed.

Lemma AppendByte_writes N c p : writes N p (AppendByte N c p) [c].
Proof.
  unfold writes, AppendByte, pos_. destruct p as [b []]; simpl; [|naive_solver].
  intros. split_ifs; simpl; rewrite ?length_app; simpl; naive_solver lia.
Qed.

Lemma AppendZeros_writes N n p : writes N p (AppendZeros N n p) (replicate n x00).
Proof.
  revert p. induction n as [|n IH]; intros p; simpl; [apply writes_nil|].
  change (x00 :: replicate n x00) with ([x00] ++ replicate n x00).
  eapply writes_trans; [apply AppendByte_writes|apply IH].
Qed.

Lemma osc_str_split s :
  (Z.of_nat (length s) < 2 ^ 32 - 8)%Z ->
  osc_str s = (s ++ [x00]) ++ replicate (OscPad4 (length s + 1) - (length s + 1)) x00.
Proof.
  intros Hs. unfold osc_str. pose proof (OscPad4_bounds (length s + 1) ltac:(lia)).
  rewrite <-app_assoc. f_equal.
  replace (OscPad4 (length s + 1) - length s) with (S (OscPad4 (length s + 1) - (length s + 1)))
    by lia. done.
Qed.

(** A string too long for the capacity fails before the 32-bit mask of
    [OscPad4] can matter. *)
Lemma WriteStr_too_long N s p :
  N < length (cstr s) -> writes N p (WriteStr N s p) (osc_str (cstr s)).
Proof.
  intros Hlen. unfold WriteStr.
  pose proof (Append_writes N (cstr s ++ [x00]) p) as Ha.
  set (q := Append N (cstr s ++ [x00]) p) in *. intros Hp.
  destruct (Ha Hp) as (Hq & Hq0 & _ & Hq2). rewrite length_app in Hq2. simpl in Hq2.
  assert (ok_ q = false) as Hqf.
  { destruct (ok_ p) eqn:Hok; [apply Hq2; [done|lia]|by rewrite (Hq0 eq_refl)]. }
  rewrite (proj1 (proj2 (AppendZeros_writes N _ q Hq)) Hqf).
  unfold osc_str. rewrite length_app. split_and!; naive_solver lia.
Qed.

Lemma run_op_writes N o p :
  (Z.of_nat N < 2 ^ 31)%Z -> writes N p (run_op N p o) (op_bytes o).
Proof.
  intros HN. destruct o as [v|b|s|d|d]; cbn [run_op op_bytes]; try apply Append_writes.
  - destruct (decide (Z.of_nat (length (cstr s)) < 2 ^ 32 - 8)%Z) as [H|H].
    + unfold WriteStr. rewrite osc_str_split by done.
      eapply writes_trans; [apply Append_writes|apply AppendZeros_writes].
    + apply WriteStr_too_long. lia.
  - unfold WriteBlob, WriteInt32.
    eapply writes_trans; [apply Append_writes|].
    eapply writes_trans; [apply Append_writes|apply AppendZeros_writes].
Qed.

Lemma run_ops_writes N ops p :
  (Z.of_nat N < 2 ^ 31)%Z -> writes N p (run_ops N ops p) (concat (map op_bytes ops)).
Proof.
  intros HN. revert p. induction ops as [|o ops IH]; intros p; simpl; [apply writes_nil|].
  eapply writes_trans; [by apply run_op_writes|apply IH].
Qed.

(** ** Reading back what was written *)

(** A reader over [pre ++ post] standing at [post]. *)
Definition at_ (pre post : list byte) : OscReader := mkReader (pre ++ post) (length pre) true.

Lemma drop_pre (pre post : list byte) : drop (length pre) (pre ++ post) = post.
Proof. apply drop_app_length. Qed.

Lemma advance_at pre w post n :
  n = length w -> advance n (at_ pre (w ++ post)) = at_ (pre ++ w) post.
Proof. intros ->. unfold advance, at_. simpl. by rewrite app_assoc, length_app. Qed.

Lemma osc_str_length s :
  (Z.of_nat (length s) < 2 ^ 32 - 8)%Z -> length (osc_str s) = OscPad4 (length s + 1).
Proof.
  intros Hs. unfold osc_str. rewrite length_app, length_replicate.
  pose proof (OscPad4_bounds (length s + 1) ltac:(lia)). lia.
Qed.

Lemma osc_str_nul s :
  (Z.of_nat (length s) < 2 ^ 32 - 8)%Z -> exists k, osc_str s = s ++ x00 :: replicate k x00.
Proof.
  intros Hs. rewrite osc_str_split by done. rewrite <-app_assoc. by eexists.
Qed.

Lemma ReadStr_at pre s post :
  nul_free s -> (Z.of_nat (length s) < 2 ^ 32 - 8)%Z ->
  ReadStr (at_ pre (osc_str s ++ post)) = (Some s, at_ (pre ++ osc_str s) post).
Proof.
  intros Hnf Hs. unfold ReadStr, Remaining. simpl. rewrite drop_pre.
  destruct (osc_str_nul s Hs) as [k Hk].
  pose proof (osc_str_length s Hs) as Hl.
  pose proof (OscPad4_bounds (length s + 1) ltac:(lia)).
  assert (strnlen (osc_str s ++ post) = length s) as ->.
  { rewrite Hk, <-app_assoc. simpl. by apply strnlen_nul_free. }
  rewrite !length_app. rewrite (proj2 (Nat.eqb_neq _ _)) by lia.
  rewrite (proj2 (Nat.ltb_ge _ _)) by lia.
  f_equal; [|by apply advance_at].
  f_equal. rewrite Hk, <-app_assoc. apply take_app_length.
Qed.

Lemma ReadBytes_at pre w post n :
  n = length w -> ReadBytes n (at_ pre (w ++ post)) = (Some w, at_ (pre ++ w) post).
Proof.
  intros ->. unfold ReadBytes. simpl. rewrite drop_pre, !length_app.
  rewrite (proj2 (Nat.ltb_ge _ _)) by lia. rewrite take_app_length.
  f_equal. by apply advance_at.
Qed.

Lemma ReadInt32_at pre v post :
  ReadInt32 (at_ pre (be32 v ++ post)) = (s32 v, at_ (pre ++ be32 v) post).
Proof.
  unfold ReadInt32. rewrite ReadBytes_at by done. unfold be32 at 1.
  f_equal. rewrite of_be32_be32. apply s32_u32.
Qed.

Lemma ReadBlob_at pre d post :
  (Z.of_nat (length d) < 2 ^ 31)%Z ->
  ReadBlob (at_ pre (osc_blob d ++ post)) = (Some d, length d, at_ (pre ++ osc_blob d) post).
Proof.
  intros Hd. unfold ReadBlob, osc_blob. rewrite <-!app_assoc, ReadInt32_at. simpl.
  rewrite s32_id by lia. rewrite (proj2 (Z.ltb_ge _ _)) by lia. simpl.
  rewrite Nat2Z.id, drop_pre, take_app_length.
  pose proof (OscPad4_bounds (length d) ltac:(lia)).
  rewrite !length_app, length_replicate.
  rewrite !(proj2 (Nat.ltb_ge _ _)) by (simpl; lia).
  rewrite (app_assoc d), advance_at by (rewrite length_app, length_replicate; lia).
  do 2 f_equal. by rewrite <-!app_assoc.
Qed.

Lemma reader_new_at data : data <> [] -> OscReader_new data = at_ [] data.
Proof. intros. unfold OscReader_new, at_. by destruct data. Qed.

Lemma osc_str_nonempty s t : osc_str s ++ t <> [] \/ (2 ^ 32 - 8 <= Z.of_nat (length s))%Z.
Proof.
  destruct (Z.lt_ge_cases (Z.of_nat (length s)) (2 ^ 32 - 8)) as [H|H]; [left|by right].
  destruct (osc_str_nul s H) as [k ->]. by destruct s.
Qed.

Lemma OscParseMessage_encode a t args :
  nul_free a -> nul_free t ->
  (Z.of_nat (length a) < 2 ^ 32 - 8)%Z -> (Z.of_nat (length t) < 2 ^ 32 - 8)%Z ->
  OscParseMessage (osc_message a t args) = Some (mkMsg a t args).
Proof.
  intros Ha Ht Hla Hlt. unfold OscParseMessage, osc_message.
  rewrite reader_new_at by (destruct (osc_str_nonempty a (osc_str t ++ args)); [done|lia]).
  rewrite ReadStr_at by done. rewrite ReadStr_at by done. simpl.
  by rewrite !app_assoc, drop_pre.
Qed.

(** ** Reads stay inside the buffer *)

Definition reader_ok (r : OscReader) : Prop := valid_ r = true -> rpos r <= length (data_ r).

Inductive osc_read := RdStr | RdInt32 | RdFloat | RdBlob | RdBytes (n : nat).

Definition run_read (r : OscReader) (o : osc_read) : OscReader :=
  match o with
  | RdStr => (ReadStr r).2
  | RdInt32 => (ReadInt32 r).2
  | RdFloat => (ReadFloat r).2
  | RdBlob => (ReadBlob r).2
  | RdBytes n => (ReadBytes n r).2
  end.

Lemma ReadBytes_step n r :
  reader_ok r ->
  data_ (ReadBytes n r).2 = data_ r /\ reader_ok (ReadBytes n r).2 /\
  (valid_ r = false -> valid_ (ReadBytes n r).2 = false).
Proof. unfold ReadBytes, reader_ok. intros. split_ifs; simpl in *; split_and!; naive_solver lia. Qed.

Lemma ReadInt32_snd r : (ReadInt32 r).2 = (ReadBytes 4 r).2.
Proof. unfold ReadInt32. destruct (ReadBytes 4 r) as [[[|?[|?[|?[|?[]]]]]|] ?]; done. Qed.

Lemma ReadBlob_step r :
  reader_ok r ->
  data_ (ReadBlob r).2 = data_ r /\ reader_ok (ReadBlob r).2 /\
  (valid_ r = false -> valid_ (ReadBlob r).2 = false).
Proof.
  intros Hr. unfold ReadBlob.
  pose proof (ReadBytes_step 4 r Hr) as (Hd & Hok & Hv). rewrite <-ReadInt32_snd in Hd, Hok, Hv.
  destruct (ReadInt32 r) as [raw r1]. simpl in *. unfold reader_ok in *.
  split_ifs; simpl in *; split_and!; naive_solver lia.
Qed.

Lemma run_read_step r o :
  reader_ok r ->
  data_ (run_read r o) = data_ r /\ reader_ok (run_read r o) /\
  (valid_ r = false -> valid_ (run_read r o) = false).
Proof.
  intros Hr. destruct o; simpl.
  - unfold ReadStr, reader_ok in *. split_ifs; simpl in *; split_and!; naive_solver lia.
  - rewrite ReadInt32_snd. by apply ReadBytes_step.
  - unfold ReadFloat. replace (let '(_, _) := _ in _).2 with (ReadInt32 r).2
      by (by destruct (ReadInt32 r)).
    rewrite ReadInt32_snd. by apply ReadBytes_step.
  - by apply ReadBlob_step.
  - by apply ReadBytes_step.
Qed.

(** ** Dispatch terminates within the packet's length *)

Lemma dispatch_loop_total fuel :
  (forall data, length data < fuel -> is_Some (dispatch_fuel fuel data)) /\
  (forall data pos, length data < fuel + pos -> 0 < fuel -> is_Some (loop_fuel fuel data pos)).
Proof.
  induction fuel as [|k [IHd IHl]]; [split; intros; lia|]. split.
  - intros data Hf. cbn [dispatch_fuel]. split_ifs; try by eexists.
    apply IHl; lia.
  - intros data pos Hf _. cbn [loop_fuel].
    destruct (Nat.leb_spec (pos + 4) (length data)) as [Hp|Hp]; [|by eexists].
    destruct (ReadInt32 _) as [v r]. set (len := Z.to_nat (u32 v)).
    destruct (Nat.ltb_spec (length data) (pos + 4 + len)); [by eexists|].
    destruct (IHd (take len (drop (pos + 4) data))) as [ms ->].
    { rewrite length_take, length_drop. lia. }
    destruct (IHl data (pos + 4 + len)) as [ms' ->]; [lia..|]. by eexists.
Qed.

Lemma dispatch_loop_mono fuel :
  (forall data ms, dispatch_fuel fuel data = Some ms ->
     forall fuel', fuel <= fuel' -> dispatch_fuel fuel' data = Some ms) /\
  (forall data pos ms, loop_fuel fuel data pos = Some ms ->
     forall fuel', fuel <= fuel' -> loop_fuel fuel' data pos = Some ms).
Proof.
  induction fuel as [|k [IHd IHl]]; [split; intros; discriminate|]. split.
  - intros data ms H [|f'] Hf; [lia|]. cbn [dispatch_fuel] in *. split_ifs; try done.
    eapply IHl; [done|lia].
  - intros data pos ms H [|f'] Hf; [lia|]. cbn [loop_fuel] in *.
    destruct (pos + 4 <=? length data); [|done].
    destruct (ReadInt32 _) as [v r]. destruct (_ <? _); [done|].
    destruct (dispatch_fuel k _) as [m1|] eqn:E1; [|done].
    destruct (loop_fuel k _ _) as [m2|] eqn:E2; [|done].
    by rewrite (IHd _ _ E1), (IHl _ _ _ E2) by lia.
Qed.

Lemma dispatch_fuel_enough fuel data :
  length data < fuel -> dispatch_fuel fuel data = Some (OscDispatch data).
Proof.
  intros Hf. unfold OscDispatch.
  destruct (proj1 (dispatch_loop_total (S (length data))) data ltac:(lia)) as [ms Hms].
  rewrite Hms. eapply dispatch_loop_mono; [done|lia].
Qed.

(** ** Bundles *)

(** The wire form of a bundle, from the OSC 1.0 specification. *)
Definition osc_elem (e : list byte) : list byte := be32 (Z.of_nat (length e)) ++ e.

Definition osc_bundle (timetag : list byte) (elems : list (list byte)) : list byte :=
  kOscBundlePrefix ++ timetag ++ concat (map osc_elem elems).

Lemma loop_fuel_step fuel pre e post :
  (Z.of_nat (length e) < 2 ^ 32)%Z ->
  loop_fuel (S fuel) (pre ++ osc_elem e ++ post) (length pre) =
  ms ← dispatch_fuel fuel e;
  ms' ← loop_fuel fuel ((pre ++ osc_elem e) ++ post) (length (pre ++ osc_elem e));
  Some (ms ++ ms').
Proof.
  intros He. cbn [loop_fuel]. unfold osc_elem. rewrite <-!app_assoc.
  rewrite drop_pre, !length_app. change (length (be32 _)) with 4.
  rewrite (proj2 (Nat.leb_le _ _)) by lia.
  rewrite (take_app_length' (be32 _)) by done.
  replace (be32 (Z.of_nat (length e))) with (be32 (Z.of_nat (length e)) ++ []) at 1
    by apply app_nil_r.
  rewrite reader_new_at by done. rewrite ReadInt32_at.
  assert (u32 (s32 (Z.of_nat (length e))) = Z.of_nat (length e)) as ->.
  { unfold s32, u32. rewrite Zminus_mod_idemp_l, Z.add_simpl_r. apply Z.mod_small. lia. }
  rewrite Nat2Z.id, (proj2 (Nat.ltb_ge _ _)) by lia.
  replace (drop (length pre + 4) (pre ++ be32 _ ++ e ++ post)) with (e ++ post).
  2:{ rewrite app_assoc. symmetry. apply drop_app_length'. by simpl_len. }
  rewrite take_app_length.
  rewrite Nat.add_assoc. destruct (dispatch_fuel fuel e); [|done]. simpl.
  by destruct (loop_fuel _ _ _).
Qed.

Lemma loop_fuel_elems elems fuel pre :
  Forall (fun e => (Z.of_nat (length e) < 2 ^ 32)%Z) elems ->
  length (concat (map osc_elem elems)) < fuel ->
  loop_fuel fuel (pre ++ concat (map osc_elem elems)) (length pre) =
  Some (concat (map OscDispatch elems)).
Proof.
  intros He. revert fuel pre. induction He as [|e elems He _ IH]; intros fuel pre Hf.
  - destruct fuel as [|k]; [simpl in Hf; lia|]. simpl. rewrite app_nil_r.
    by rewrite (proj2 (Nat.leb_gt _ _)) by lia.
  - cbn [map concat] in *. rewrite length_app in Hf. unfold osc_elem at 1 in Hf.
    rewrite length_app in Hf. change (length (be32 _)) with 4 in Hf.
    destruct fuel as [|k]; [lia|]. rewrite loop_fuel_step by done.
    rewrite (dispatch_fuel_enough k e) by lia. cbn [mbind option_bind].
    by rewrite IH by lia.
Qed.

(** ** Typed argument lists *)

Inductive osc_val := VInt (v : Z) | VFloat (bits : Z) | VStr (s : list byte) | VBlob (d : list byte).

Definition val_ok (v : osc_val) : Prop :=
  match v with
  | VInt v => (- 2 ^ 31 <= v < 2 ^ 31)%Z
  | VFloat b => (0 <= b < 2 ^ 32)%Z
  | VStr s => nul_free s
  | VBlob _ => True
  end.

Definition val_op (v : osc_val) : osc_op :=
  match v with
  | VInt v => OpInt32 v
  | VFloat b => OpFloat b
  | VStr s => OpStr s
  | VBlob d => OpBlob d
  end.

(** Read a value of the kind of [v]. *)
Definition read_like (v : osc_val) (r : OscReader) : option osc_val * OscReader :=
  match v with
  | VInt _ => let '(x, r') := ReadInt32 r in (Some (VInt x), r')
  | VFloat _ => let '(x, r') := ReadFloat r in (Some (VFloat x), r')
  | VStr _ => let '(x, r') := ReadStr r in (VStr <$> x, r')
  | VBlob _ => let '(x, _, r') := ReadBlob r in (VBlob <$> x, r')
  end.

Fixpoint read_all (vs : list osc_val) (r : OscReader) : list (option osc_val) * OscReader :=
  match vs with
  | [] => ([], r)
  | v :: vs' =>
    let '(x, r1) := read_like v r in
    let '(xs, r2) := read_all vs' r1 in (x :: xs, r2)
  end.

Lemma op_bytes_length_le v vs :
  length (op_bytes v) <= length (concat (map op_bytes (v :: vs))).
Proof. cbn [map concat]. rewrite length_app. lia. Qed.

Lemma read_like_at v pre post :
  val_ok v -> (Z.of_nat (length (op_bytes (val_op v))) < 2 ^ 31)%Z ->
  read_like v (at_ pre (op_bytes (val_op v) ++ post)) =
  (Some v, at_ (pre ++ op_bytes (val_op v)) post).
Proof.
  intros Hok Hl. destruct v as [v|b|s|d]; cbn [read_like val_op op_bytes val_ok] in *.
  - rewrite ReadInt32_at. by rewrite s32_id.
  - unfold ReadFloat. rewrite ReadInt32_at.
    do 3 f_equal. unfold u32, s32. rewrite Zminus_mod_idemp_l, Z.add_simpl_r.
    rewrite Zminus_mod_idemp_l, Z.add_simpl_r. by apply Z.mod_small.
  - rewrite cstr_id in * by done. unfold osc_str in Hl. rewrite length_app in Hl.
    by rewrite ReadStr_at by (done || lia).
  - rewrite !length_app in Hl.
    assert (s32 (u32 (Z.of_nat (length d))) = Z.of_nat (length d)) as Hd.
    { rewrite s32_u32. apply s32_id. lia. }
    rewrite Hd. fold (osc_blob d). rewrite ReadBlob_at by lia. done.
Qed.

Lemma read_all_at vs pre :
  Forall val_ok vs ->
  (Z.of_nat (length (concat (map op_bytes (map val_op vs)))) < 2 ^ 31)%Z ->
  read_all vs (at_ pre (concat (map op_bytes (map val_op vs)))) =
  (map Some vs, at_ (pre ++ concat (map op_bytes (map val_op vs))) []).
Proof.
  intros Hok. revert pre. induction Hok as [|v vs Hv _ IH]; intros pre Hl.
  - simpl. by rewrite app_nil_r.
  - cbn [map concat read_all] in *. rewrite length_app in Hl.
    rewrite read_like_at by (done || lia). rewrite IH by lia.
    by rewrite app_assoc.
Qed.

(** ** Properties *)

(** Any sequence of writes from an empty packet, in one statement. *)
Lemma run_ops_init N ops (HN : (Z.of_nat N < 2 ^ 31)%Z) :
  let p := run_ops N ops packet_init in
  let w := concat (map op_bytes ops) in
  pos_ p <= N /\ (length w <= N -> p = mkPacket w true) /\ (N < length w -> ok_ p = false).
Proof.
  destruct (run_ops_writes N ops packet_init HN) as (? & _ & H1 & H2); [unfold pos_; simpl; lia|].
  split_and!; [done|..]; intros; [by apply H1|by apply H2].
Qed.

(** C11: Any sequence of writes to an [OscPacket<N>] stays inside the buffer,
    produces exactly the concatenation of the encodings when that fits in [N]
    bytes, and leaves [Ok()] false when it does not. *)
Theorem packet_ops_exact N ops (HN : (Z.of_nat N < 2 ^ 31)%Z) :
  let p := run_ops N ops packet_init in
  let w := concat (map op_bytes ops) in
  pos_ p <= N /\
  (length w <= N -> p = mkPacket w true) /\
  (N < length w -> ok_ p = false).
Proof. exact (run_ops_init N ops HN). Qed.

Example packet_ops_exact_witness :
  let ops := [OpStr (str "/a"); OpStr (str ",f"); OpFloat 1065353216] in
  run_ops 12 ops packet_init =
    mkPacket (str "/a" ++ [x00; x00] ++ str ",f" ++ [x00; x00] ++ be32 1065353216) true /\
  ok_ (run_ops 11 ops packet_init) = false.
Proof.
  split.
  - apply (packet_ops_exact 12 [OpStr (str "/a"); OpStr (str ",f"); OpFloat 1065353216]); [lia|].
    vm_compute. lia.
  - apply (packet_ops_exact 11 [OpStr (str "/a"); OpStr (str ",f"); OpFloat 1065353216]); [lia|].
    vm_compute. lia.
Defined.

(** [WriteRawArgs] after [Begin], decoded; the packet is also never empty. *)
Lemma message_decode N a t args p0
  (HN : (Z.of_nat N < 2 ^ 31)%Z) (Ha : nul_free a) (Ht : nul_free t) :
  let p := WriteRawArgs N args (Begin N a t p0) in
  ok_ p = true ->
  OscParseMessage (buf p) = Some (mkMsg a t args) /\ 0 < length (buf p) <= N.
Proof.
  cbv zeta. unfold Begin.
  pose proof (run_ops_init N [OpStr a; OpStr t; OpRaw args] HN) as (_ & Hfit & Hover).
  cbn [run_ops foldl run_op map concat op_bytes] in *.
  rewrite (cstr_id a), (cstr_id t), app_nil_r in * by done.
  change (mkPacket [] true) with packet_init. intros Hok.
  set (p := WriteRawArgs _ _ _) in *.
  destruct (decide (length (osc_str a ++ osc_str t ++ args) <= N)) as [H|H];
    [|rewrite Hover in Hok; [done|lia]].
  rewrite Hfit by done. cbn [buf]. unfold osc_str in H. rewrite !length_app in H.
  split; [apply OscParseMessage_encode; (done || lia)|].
  split; [|by rewrite !length_app; unfold osc_str; rewrite !length_app].
  pose proof (osc_str_nonempty a (osc_str t ++ args)) as [Hne|]; [|lia].
  destruct (osc_str a ++ osc_str t ++ args); [done|simpl; lia].
Qed.

(** C12: Whatever [Begin] and [WriteRawArgs] serialize without error,
    [OscParseMessage] parses back to the same address, type tag and argument
    bytes. *)
Theorem osc_message_roundtrip N a t args p0
  (HN : (Z.of_nat N < 2 ^ 31)%Z) (Ha : nul_free a) (Ht : nul_free t) :
  let p := WriteRawArgs N args (Begin N a t p0) in
  ok_ p = true ->
  OscParseMessage (buf p) = Some (mkMsg a t args).
Proof. cbv zeta. intros Hok. by apply message_decode. Qed.

Example osc_message_roundtrip_witness :
  OscParseMessage (buf (WriteRawArgs 512 (be32 7) (Begin 512 (str "/chatbox/input") (str ",i") packet_init)))
  = Some (mkMsg (str "/chatbox/input") (str ",i") (be32 7)).
Proof.
  apply osc_message_roundtrip; [lia|solve_nul_free..|].
  vm_compute. reflexivity.
Defined.

(** A list of typed arguments (int32, float32, string, blob) written one
    after the other reads back as the same list, with the reader at the end of
    the packet. *)
Theorem osc_args_roundtrip N vs
  (HN : (Z.of_nat N < 2 ^ 31)%Z) (Hne : vs <> []) (Hvs : Forall val_ok vs) :
  let p := run_ops N (map val_op vs) packet_init in
  ok_ p = true ->
  exists r, read_all vs (OscReader_new (buf p)) = (map Some vs, r) /\
            valid_ r = true /\ AtEnd r = true.
Proof.
  cbv zeta. intros Hok.
  pose proof (run_ops_init N (map val_op vs) HN) as (_ & Hfit & Hover). cbv zeta in *.
  set (w := concat (map op_bytes (map val_op vs))) in *.
  destruct (decide (length w <= N)) as [H|H]; [|rewrite Hover in Hok; [done|lia]].
  rewrite Hfit by done. cbn [buf].
  assert (w <> []) as Hw.
  { subst w. destruct vs as [|v vs]; [done|]. cbn [map concat].
    apply Forall_cons_1 in Hvs as [Hv _]. destruct v; cbn [val_op op_bytes]; try done.
    rewrite cstr_id by done. cbn [map concat val_op op_bytes] in H.
    rewrite cstr_id, length_app in H by done. unfold osc_str in H. rewrite length_app in H.
    destruct (osc_str_nonempty s (concat (map op_bytes (map val_op vs)))); [done|lia]. }
  rewrite reader_new_at by done. subst w.
  rewrite read_all_at by (done || lia). eexists. split; [done|]. split; [done|].
  unfold AtEnd, at_. cbn [data_ rpos]. rewrite app_nil_r. apply Nat.leb_refl.
Qed.

Example osc_args_roundtrip_witness :
  exists r,
    read_all [VInt (-5); VFloat 1065353216; VStr (str "hello"); VBlob [x00; x00; x00]]
      (OscReader_new (buf (run_ops 64 (map val_op
         [VInt (-5); VFloat 1065353216; VStr (str "hello"); VBlob [x00; x00; x00]]) packet_init)))
    = (map Some [VInt (-5); VFloat 1065353216; VStr (str "hello"); VBlob [x00; x00; x00]], r)
    /\ valid_ r = true /\ AtEnd r = true.
Proof.
  apply osc_args_roundtrip; [lia|done| |vm_compute; reflexivity].
  repeat constructor; simpl; try lia; solve_nul_free.
Defined.

(** No sequence of reads on untrusted bytes moves a valid reader past the
    end of its buffer, replaces the buffer, or revives an invalid reader. *)
Theorem reader_in_bounds data ops1 ops2 :
  let r1 := foldl run_read (OscReader_new data) ops1 in
  let r2 := foldl run_read r1 ops2 in
  data_ r2 = data /\ (valid_ r2 = true -> rpos r2 <= length data) /\
  (valid_ r1 = false -> valid_ r2 = false).
Proof.
  cbv zeta.
  assert (forall ops r, reader_ok r ->
    data_ (foldl run_read r ops) = data_ r /\ reader_ok (foldl run_read r ops) /\
    (valid_ r = false -> valid_ (foldl run_read r ops) = false)) as H.
  { induction ops as [|o ops IH]; intros r Hr; [done|]. simpl.
    pose proof (run_read_step r o Hr) as (Hd & Hr' & Hv).
    destruct (IH _ Hr') as (Hd2 & ? & Hv2). rewrite Hd2, Hd. naive_solver. }
  assert (reader_ok (OscReader_new data)) as H0 by (intros _; simpl; lia).
  destruct (H ops1 _ H0) as (Hd1 & Hr1 & _). destruct (H ops2 _ Hr1) as (Hd2 & Hr2 & Hv).
  simpl in Hd1. rewrite Hd2, Hd1. split_and!; [done| |done].
  intros Hval. specialize (Hr2 Hval). by rewrite Hd2, Hd1 in Hr2.
Qed.

(** [OscDispatch] terminates on every packet (the recursion depth and the
    loop together never exceed the packet's length), and dispatches a bundle as
    its elements in order, nested bundles included. *)
Theorem OscDispatch_bundle data timetag elems :
  (forall fuel, length data < fuel -> dispatch_fuel fuel data = Some (OscDispatch data)) /\
  (length timetag = 8 -> Forall (fun e => (Z.of_nat (length e) < 2 ^ 32)%Z) elems ->
   OscDispatch (osc_bundle timetag elems) = concat (map OscDispatch elems)).
Proof.
  split; [intros; by apply dispatch_fuel_enough|]. intros Ht He.
  set (b := osc_bundle timetag elems).
  enough (dispatch_fuel (S (length b)) b = Some (concat (map OscDispatch elems))) as H
    by (unfold OscDispatch; by rewrite H).
  assert (length b = 16 + length (concat (map osc_elem elems))) as Hb.
  { unfold b, osc_bundle. rewrite !length_app, Ht. done. }
  cbn [dispatch_fuel]. rewrite !(proj2 (Nat.ltb_ge _ _)) by lia.
  rewrite decide_True by done. unfold b at 2, osc_bundle. rewrite app_assoc.
  replace 16 with (length (kOscBundlePrefix ++ timetag)) by (rewrite length_app, Ht; done).
  apply loop_fuel_elems; [done|lia].
Qed.

Example OscDispatch_bundle_witness :
  let m := osc_message (str "/a") (str ",i") (be32 1) in
  OscDispatch (osc_bundle (replicate 8 x00) [m; osc_bundle (replicate 8 x00) [m]])
  = [mkMsg (str "/a") (str ",i") (be32 1); mkMsg (str "/a") (str ",i") (be32 1)].
Proof.
  cbv zeta. rewrite (proj2 (OscDispatch_bundle [] (replicate 8 x00) _));
    [vm_compute; reflexivity|reflexivity|repeat constructor; vm_compute; reflexivity].
Defined.
