(* ===== verification/OscPattern.v ===== *)
(** * OSC address patterns (modules/oscrouter/src/driver/OscWire.cpp)

    [PatternMatchImpl] is the recursive-descent matcher, with a fuel argument
    for its recursion; [OscPatternMatch] supplies the pattern's own length,
    which [match_fuel_enough] shows is always enough.  The specification is a
    token language [glob_match] that knows nothing of buffers or recursion. *)

From S2P Require Import Prelude.

(** ** The matcher

    A [const char*] is the list of bytes up to the NUL: [*p] at the end of the
    string is [x00]. *)

(** The [while] loop of [MatchCharClass]: the bytes from [p], the flag
    [matched].  [char] is signed, so ranges compare as [schar]. *)
Fixpoint class_loop (p : list byte) (ch : byte) (matched : bool) : bool * list byte :=
  match p with
  | [] => (matched, [])
  | c1 :: t =>
    if decide (c1 = "]"%byte) then (matched, p) else
    match t with
    | d :: c2 :: t2 =>
      if decide (d = "-"%byte /\ c2 <> "]"%byte)
      then class_loop t2 ch
             (matched || ((schar c1 <=? schar ch)%Z && (schar ch <=? schar c2)%Z))
      else class_loop t ch (matched || bool_decide (ch = c1))
    | _ => class_loop t ch (matched || bool_decide (ch = c1))
    end
  end.

(** The result, the output [ok] and the advanced [*pptr]. *)
Definition MatchCharClass (p : list byte) (ch : byte) : bool * bool * list byte :=
  let '(negated, p1) :=
    match p with
    | c :: t => if decide (c = "!"%byte) then (true, t) else (false, p)
    | [] => (false, p)
    end in
  let '(matched, p2) := class_loop p1 ch false in
  match p2 with
  | _ :: p3 => (if negated then negb matched else matched, true, p3)
  | [] => (false, false, p)
  end.

(** [char alt[256]]. *)
Definition alt_size : nat := 256.

(** [MatchAlternates]: [cur] is the text between [start] and [p]. *)
Fixpoint MatchAlternates (impl : list byte -> list byte -> option bool)
    (cur p a rest : list byte) : option bool :=
  match p with
  | [] => Some false
  | c :: t =>
    if decide (c = "}"%byte) then
      if alt_size - 1 <=? length cur then Some false
      else if alt_size <=? length cur + length t then Some false
      else impl (cur ++ t) a
    else if decide (c = ","%byte) then
      if alt_size - 1 <=? length cur then Some false
      else if alt_size <=? length cur + length rest then Some false
      else match impl (cur ++ rest) a with
           | Some false => MatchAlternates impl [] t a rest
           | r => r
           end
    else MatchAlternates impl (cur ++ [c]) t a rest
  end.

Fixpoint skip_stars (p : list byte) : list byte :=
  match p with
  | c :: t => if decide (c = "*"%byte) then skip_stars t else p
  | [] => []
  end.

(** The loop that finds the matching brace: [rest] after [depth] closings. *)
Fixpoint skip_braces (depth : nat) (p : list byte) : list byte :=
  match p with
  | [] => []
  | c :: t =>
    if depth =? 0 then p
    else skip_braces (if decide (c = "{"%byte) then S depth
                      else if decide (c = "}"%byte) then depth - 1 else depth) t
  end.

(** [for (; *a; ++a) if (PatternMatchImpl(p, a)) return true; return false;] *)
Fixpoint star_loop (f : list byte -> option bool) (a : list byte) : option bool :=
  match a with
  | [] => Some false
  | _ :: t => match f a with
              | Some false => star_loop f t
              | r => r
              end
  end.

Fixpoint PatternMatchImpl (fuel : nat) (p a : list byte) {struct fuel} : option bool :=
  match fuel with
  | 0 => None
  | S k =>
    match p with
    | [] => Some (bool_decide (a = []))
    | c :: p' =>
      if decide (c = "?"%byte) then
        match a with
        | [] => Some false
        | _ :: a' => PatternMatchImpl k p' a'
        end
      else if decide (c = "*"%byte) then
        match skip_stars p with
        | [] => Some true
        | p1 => star_loop (PatternMatchImpl k p1) a
        end
      else if decide (c = "["%byte) then
        let '(hit, ok, p1) := MatchCharClass p' (List.hd x00 a) in
        match a with
        | [] => Some false
        | _ :: a' => if negb ok || negb hit then Some false else PatternMatchImpl k p1 a'
        end
      else if decide (c = "{"%byte) then
        MatchAlternates (PatternMatchImpl k) [] p' a (skip_braces 1 p')
      else
        match a with
        | [] => Some false
        | d :: a' => if decide (c = d) then PatternMatchImpl k p' a' else Some false
        end
    end
  end.

(** [OscPatternMatch] on two strings; [None] is a null pointer. *)
Definition OscPatternMatch (pattern address : option (list byte)) : bool :=
  match pattern, address with
  | Some p, Some a =>
    default false (PatternMatchImpl (S (length (cstr p))) (cstr p) (cstr a))
  | _, _ => false
  end.

(** ** The recursion always ends

    Every recursive call has a strictly shorter pattern. *)

(** The three ways one turn of the loop goes on. *)
Lemma class_loop_cons c1 t ch m :
  class_loop (c1 :: t) ch m =
  if decide (c1 = "]"%byte) then (m, c1 :: t) else
  match t with
  | d :: c2 :: t2 =>
    if decide (d = "-"%byte /\ c2 <> "]"%byte)
    then class_loop t2 ch (m || ((schar c1 <=? schar ch)%Z && (schar ch <=? schar c2)%Z))
    else class_loop t ch (m || bool_decide (ch = c1))
  | _ => class_loop t ch (m || bool_decide (ch = c1))
  end.
Proof. reflexivity. Qed.

Lemma class_loop_length p ch m : length (class_loop p ch m).2 <= length p.
Proof.
  remember (length p) as n eqn:Hn. revert p m Hn.
  induction n as [n IH] using lt_wf_ind; intros p m ->.
  assert (forall q m', length q < length p -> length (class_loop q ch m').2 <= length p) as Hq.
  { intros. etrans; [eapply IH; [|reflexivity]|]; lia. }
  destruct p as [|c1 t]; [done|]. rewrite class_loop_cons. clear IH.
  case_decide; [done|]. destruct t as [|d [|c2 t2]]; [..|case_decide]; apply Hq; simpl; lia.
Qed.

Lemma MatchCharClass_length p ch hit p' :
  MatchCharClass p ch = (hit, true, p') -> length p' < length p.
Proof.
  unfold MatchCharClass. destruct p as [|c t]; [done|].
  case_decide; destruct (class_loop _ ch false) as [m [|x p2]] eqn:E; intros [=]; subst;
    match goal with H : class_loop ?q ch false = _ |- _ =>
      pose proof (class_loop_length q ch false) as Hl; rewrite H in Hl; simpl in Hl end;
    simpl; lia.
Qed.

Lemma skip_stars_length p : length (skip_stars p) <= length p.
Proof. induction p as [|c p IH]; simpl; [lia|]. case_decide; simpl; lia. Qed.

Lemma skip_braces_length d p : length (skip_braces d p) <= length p.
Proof.
  revert d. induction p as [|c p IH]; intros d; simpl; [lia|].
  case_match; simpl; [lia|]. etrans; [apply IH|lia].
Qed.

Lemma skip_braces_lt d c p : length (skip_braces (S d) (c :: p)) <= length p.
Proof. simpl. apply skip_braces_length. Qed.

(** [impl] is settled at [p]: one result for every fuel above [n]. *)
Definition settled (n : nat) (p a : list byte) : Prop :=
  exists b, forall fuel, n < fuel -> PatternMatchImpl fuel p a = Some b.

Lemma star_loop_settled n p a :
  (forall a', settled n p a') ->
  exists b, forall fuel, n < fuel -> star_loop (PatternMatchImpl fuel p) a = Some b.
Proof.
  intros H. induction a as [|c a (b & Hb)]; [by exists false|].
  destruct (H (c :: a)) as ([] & Hc).
  - exists true. intros. simpl. by rewrite Hc.
  - exists b. intros. simpl. rewrite Hc by done. by apply Hb.
Qed.

Lemma MatchAlternates_settled n cur p a rest :
  (forall q a', length q <= n -> settled n q a') ->
  length cur + length p <= S n ->
  (exists d, rest = skip_braces (S d) p) ->
  exists b, forall fuel, n < fuel ->
    MatchAlternates (PatternMatchImpl fuel) cur p a rest = Some b.
Proof.
  intros Hq. revert cur. induction p as [|c p IH]; intros cur Hlen [d Hrest]; cbn [MatchAlternates].
  { by exists false. }
  cbn [length] in Hlen.
  destruct (decide (c = "}"%byte)) as [->|Hc1].
  { destruct (_ <=? _); [by exists false|]. destruct (_ <=? _); [by exists false|].
    destruct (Hq (cur ++ p) a) as [b Hb]; [rewrite length_app; lia|]. by exists b. }
  assert (exists d', rest = skip_braces (S d') p) as Hrest'.
  { rewrite Hrest. cbn [skip_braces Nat.eqb].
    destruct (decide (c = "{"%byte)); [by exists (S d)|].
    rewrite decide_False by done. by exists d. }
  pose proof (skip_braces_lt d c p) as Hl. rewrite <-Hrest in Hl.
  destruct (decide (c = ","%byte)) as [->|Hc2]; [|apply IH; [rewrite length_app; simpl; lia|done]].
  destruct (_ <=? _); [by exists false|]. destruct (_ <=? _); [by exists false|].
  destruct (Hq (cur ++ rest) a) as [[] Hb]; [rewrite length_app; lia|..].
  - exists true. intros. by rewrite Hb.
  - destruct (IH [] ltac:(simpl; lia) Hrest') as [b' Hb']. exists b'. intros.
    rewrite Hb by done. by apply Hb'.
Qed.

(** One unfolding of the matcher, for fuels above [n]. *)
Lemma settled_step n p a b :
  (forall fuel, n < fuel -> PatternMatchImpl (S fuel) p a = Some b) -> settled (S n) p a.
Proof. intros H. exists b. intros [|k] Hk; [lia|]. apply H. lia. Qed.

Lemma settled_mono n m p a : settled n p a -> n <= m -> settled m p a.
Proof. intros [b Hb] Hm. exists b. intros. apply Hb. lia. Qed.

Lemma PatternMatchImpl_settled p a : settled (length p) p a.
Proof.
  remember (length p) as n eqn:Hn. assert (length p <= n) as Hle by lia. clear Hn.
  revert p a Hle. induction n as [|n IH]; intros p a Hle.
  { destruct p; [|simpl in Hle; lia]. exists (bool_decide (a = [])). intros [|k] ?; [lia|done]. }
  destruct p as [|c p]; [apply (settled_step n) with (bool_decide (a = [])); done|].
  cbn [length] in Hle.
  assert (forall q a', length q <= n -> settled n q a') as Hq by (intros; by apply IH).
  enough (exists b, forall fuel, n < fuel -> PatternMatchImpl (S fuel) (c :: p) a = Some b)
    as [b Hb] by (by apply settled_step with b).
  cbn [PatternMatchImpl].
  destruct (decide (c = "?"%byte)) as [->|].
  { destruct a as [|x a]; [by exists false|]. apply Hq. lia. }
  destruct (decide (c = "*"%byte)) as [->|].
  { cbn [skip_stars]. rewrite decide_True by done.
    pose proof (skip_stars_length p). destruct (skip_stars p) as [|y p1]; [by exists true|].
    apply star_loop_settled. intros. apply Hq. lia. }
  destruct (decide (c = "["%byte)) as [->|].
  { destruct (MatchCharClass p (List.hd x00 a)) as [[hit ok] p1] eqn:E.
    destruct a as [|x a]; [by exists false|]. destruct ok; [|by exists false].
    apply MatchCharClass_length in E. destruct hit; [|by exists false]. apply Hq. lia. }
  destruct (decide (c = "{"%byte)) as [->|].
  { apply MatchAlternates_settled; [done|simpl; lia|by exists 0]. }
  destruct a as [|x a]; [by exists false|]. case_decide; [apply Hq; lia|by exists false].
Qed.

(** The matcher as a total function of its two strings. *)
Definition osc_match (p a : list byte) : bool :=
  default false (PatternMatchImpl (S (length p)) p a).

Lemma match_fuel_enough fuel p a :
  length p < fuel -> PatternMatchImpl fuel p a = Some (osc_match p a).
Proof.
  intros Hf. destruct (PatternMatchImpl_settled p a) as [b Hb].
  unfold osc_match. by rewrite !Hb by lia.
Qed.

(** ** The matcher's equations, fuel gone *)

Lemma osc_match_unfold p a b :
  PatternMatchImpl (S (length p)) p a = Some b -> osc_match p a = b.
Proof. unfold osc_match. by intros ->. Qed.

Lemma osc_match_nil a : osc_match [] a = bool_decide (a = []).
Proof. reflexivity. Qed.

Lemma osc_match_any p a :
  osc_match ("?"%byte :: p) a = match a with [] => false | _ :: a' => osc_match p a' end.
Proof.
  apply osc_match_unfold. cbn [PatternMatchImpl]. rewrite decide_True by done.
  destruct a; [done|]. apply match_fuel_enough. simpl; lia.
Qed.

Definition pattern_special : list byte := str "?*[{".

Lemma osc_match_lit c p a :
  c ∉ pattern_special ->
  osc_match (c :: p) a = match a with [] => false | d :: a' => bool_decide (c = d) && osc_match p a' end.
Proof.
  intros Hc. apply osc_match_unfold. cbn [PatternMatchImpl].
  rewrite !decide_False by (intros ->; apply Hc; vm_compute; set_solver).
  destruct a as [|d a]; [done|]. case_decide as Hd; [|by rewrite bool_decide_eq_false_2].
  rewrite bool_decide_eq_true_2 by done. apply match_fuel_enough. simpl; lia.
Qed.

Lemma star_loop_true f g a :
  (forall a', f a' = Some (g a')) ->
  exists b, star_loop f a = Some b /\
    (b = true <-> exists s a', a = (s ++ a') /\ a' <> [] /\ g a' = true).
Proof.
  intros Hf. induction a as [|c a (b & Hb & Hb')]; simpl.
  { exists false. split; [done|]. split; [done|]. intros (s & a' & H & ? & _).
    symmetry in H. by apply app_nil in H as [_ ?]. }
  rewrite Hf. destruct (g (c :: a)) eqn:E.
  - exists true. split; [done|]. split; [|done]. intros _. by exists [], (c :: a).
  - exists b. split; [done|]. rewrite Hb'. split; intros (s & a' & H & Hne & Hg).
    + exists (c :: s), a'. by rewrite H.
    + destruct s as [|x s]; simplify_eq/=; [congruence|]. by exists s, a'.
Qed.

Lemma osc_match_star p a :
  osc_match ("*"%byte :: p) a = true <->
  skip_stars p = [] \/
  exists s a', a = (s ++ a') /\ a' <> [] /\ osc_match (skip_stars p) a' = true.
Proof.
  unfold osc_match at 1. cbn [PatternMatchImpl skip_stars].
  rewrite decide_False, !decide_True by done.
  destruct (skip_stars p) as [|y p1] eqn:E; [split; [by left|done]|].
  destruct (star_loop_true (PatternMatchImpl (length ("*"%byte :: p)) (y :: p1))
              (osc_match (y :: p1)) a) as (b & Hb & Hb').
  { intros. apply match_fuel_enough. rewrite <-E. pose proof (skip_stars_length p). simpl; lia. }
  rewrite Hb. simpl. rewrite Hb'. split; [by right|]. by intros [|].
Qed.

Lemma osc_match_class p a hit p1 :
  MatchCharClass p (List.hd x00 a) = (hit, true, p1) ->
  osc_match ("["%byte :: p) a = match a with [] => false | _ :: a' => hit && osc_match p1 a' end.
Proof.
  intros E. apply osc_match_unfold. cbn [PatternMatchImpl].
  rewrite !decide_False, decide_True by done. rewrite E. apply MatchCharClass_length in E.
  destruct a as [|d a]; [done|]. destruct hit; [|done]. cbn [negb orb andb].
  apply match_fuel_enough. simpl; lia.
Qed.

(** ** The pattern language *)

Inductive citem := CChar (c : byte) | CRange (lo hi : byte).

Inductive tok :=
| TLit (c : byte)
| TAny
| TStar
| TClass (neg : bool) (items : list citem).

Inductive gtok := GTok (t : tok) | GAlt (alts : list (list tok)).

Definition item_mem (ch : byte) (i : citem) : bool :=
  match i with
  | CChar c => bool_decide (ch = c)
  | CRange lo hi => (schar lo <=? schar ch)%Z && (schar ch <=? schar hi)%Z
  end.

Definition class_mem (neg : bool) (items : list citem) (ch : byte) : bool :=
  xorb neg (existsb (item_mem ch) items).

Inductive glob_match : list gtok -> list byte -> Prop :=
| gm_nil : glob_match [] []
| gm_lit c ts a : glob_match ts a -> glob_match (GTok (TLit c) :: ts) (c :: a)
| gm_any c ts a : glob_match ts a -> glob_match (GTok TAny :: ts) (c :: a)
| gm_class neg items c ts a :
    class_mem neg items c = true -> glob_match ts a ->
    glob_match (GTok (TClass neg items) :: ts) (c :: a)
| gm_star s ts a : glob_match ts a -> glob_match (GTok TStar :: ts) (s ++ a)
| gm_alt alts alt ts a :
    alt ∈ alts -> glob_match (map GTok alt ++ ts) a -> glob_match (GAlt alts :: ts) a.

(** Concrete syntax. *)
Definition render_item (i : citem) : list byte :=
  match i with CChar c => [c] | CRange lo hi => [lo; "-"%byte; hi] end.

Definition render_tok (t : tok) : list byte :=
  match t with
  | TLit c => [c]
  | TAny => ["?"%byte]
  | TStar => ["*"%byte]
  | TClass neg items =>
    "["%byte :: ((if neg then ["!"%byte] else []) ++ concat (map render_item items) ++ ["]"%byte])
  end.

Definition render_toks (ts : list tok) : list byte := concat (map render_tok ts).

Fixpoint render_alts (alts : list (list byte)) : list byte :=
  match alts with
  | [] => []
  | [x] => x
  | x :: xs => x ++ (","%byte :: render_alts xs)
  end.

Definition render_gtok (t : gtok) : list byte :=
  match t with
  | GTok t => render_tok t
  | GAlt alts => "{"%byte :: (render_alts (map render_toks alts) ++ ["}"%byte])
  end.

Definition render (ts : list gtok) : list byte := concat (map render_gtok ts).

(** A token can be written down: its characters do not read as syntax.  Inside
    braces the comma and the braces are syntax too, and each alternative must
    consume at least one character. *)
Definition braces : list byte := str "{},".

Definition char_ok (special : list byte) (in_alt : bool) (c : byte) : Prop :=
  (c ∉ x00 :: special) /\ (in_alt = true -> c ∉ braces).

Definition item_ok (in_alt : bool) (i : citem) : Prop :=
  match i with
  | CChar c => char_ok (str "]-!") in_alt c
  | CRange lo hi => char_ok (str "]-!") in_alt lo /\ char_ok (str "]") in_alt hi
  end.

Definition tok_ok (in_alt : bool) (t : tok) : Prop :=
  match t with
  | TLit c => char_ok pattern_special in_alt c
  | TAny | TStar => True
  | TClass _ items => Forall (item_ok in_alt) items
  end.

Definition consuming (t : tok) : Prop := t <> TStar.

Definition gtok_ok (t : gtok) : Prop :=
  match t with
  | GTok t => tok_ok false t
  | GAlt alts => alts <> [] /\ Forall (fun ts => Forall (tok_ok true) ts /\ Exists consuming ts) alts
  end.

Lemma char_ok_neq sp b c d : bool_decide (d ∈ x00 :: sp) = true -> char_ok sp b c -> c <> d.
Proof. intros Hd%bool_decide_eq_true [Hc _] ->. by apply Hc. Qed.

Lemma char_ok_neq_alt sp c d : bool_decide (d ∈ braces) = true -> char_ok sp true c -> c <> d.
Proof. intros Hd%bool_decide_eq_true [_ Hc] ->. by apply Hc. Qed.

Ltac char_neq := first [discriminate
  | eapply char_ok_neq; [|eassumption]; vm_compute; reflexivity
  | eapply char_ok_neq_alt; [|eassumption]; vm_compute; reflexivity].

(** *** Classes *)

Lemma render_items_head in_alt items rest :
  Forall (item_ok in_alt) items ->
  exists c t, concat (map render_item items) ++ "]"%byte :: rest = c :: t /\
              c <> "-"%byte /\ c <> "!"%byte.
Proof.
  intros H. destruct items as [|[c|lo hi] items]; [by exists "]"%byte, rest|..];
    apply Forall_cons_1 in H as [H _]; cbn [item_ok] in H; simpl; eexists _, _;
    (split; [reflexivity|]); [|destruct H as [H _]]; split; char_neq.
Qed.

Lemma class_loop_items in_alt items rest ch m :
  Forall (item_ok in_alt) items ->
  class_loop (concat (map render_item items) ++ "]"%byte :: rest) ch m =
  (m || existsb (item_mem ch) items, "]"%byte :: rest).
Proof.
  intros H. revert m. induction H as [|i items Hi Hitems IH]; intros m; cbn [map concat existsb].
  { simpl. by rewrite orb_false_r. }
  rewrite <-app_assoc, orb_assoc, <-IH.
  destruct (render_items_head _ _ rest Hitems) as (c & t & -> & Hc & _).
  destruct i as [c1|lo hi]; cbn [render_item app item_mem item_ok] in *; rewrite class_loop_cons.
  - rewrite decide_False by char_neq. destruct t; [done|]. by rewrite decide_False by naive_solver.
  - destruct Hi as [Hlo Hhi]. rewrite decide_False by char_neq.
    rewrite decide_True; [done|]. split; [done|char_neq].
Qed.

Lemma MatchCharClass_items in_alt (neg : bool) items rest ch :
  Forall (item_ok in_alt) items ->
  MatchCharClass ((if neg then ["!"%byte] else []) ++ concat (map render_item items) ++ "]"%byte :: rest) ch
  = (class_mem neg items ch, true, rest).
Proof.
  intros Hi. pose proof (class_loop_items _ _ rest ch false Hi) as Hl.
  unfold MatchCharClass, class_mem. destruct neg; simpl.
  - rewrite Hl. by destruct (existsb _ _).
  - destruct (render_items_head _ _ rest Hi) as (c & t & E & _ & Hc).
    rewrite E in *. rewrite decide_False by done. rewrite Hl. by destruct (existsb _ _).
Qed.

(** *** Stars *)

Fixpoint strip (ts : list gtok) : list gtok :=
  match ts with
  | GTok TStar :: ts' => strip ts'
  | _ => ts
  end.

Lemma render_cons t ts : render (t :: ts) = render_gtok t ++ render ts.
Proof. reflexivity. Qed.

Lemma gtok_head t :
  gtok_ok t -> t <> GTok TStar -> exists c s, render_gtok t = c :: s /\ c <> "*"%byte.
Proof.
  intros H Hs. destruct t as [[c| | |neg items]|alts]; cbn [render_gtok render_tok]; try done;
    eexists _, _; (split; [reflexivity|]); [cbn [gtok_ok tok_ok] in H|..]; char_neq.
Qed.

Lemma skip_stars_render ts :
  Forall gtok_ok ts -> skip_stars (render ts) = render (strip ts).
Proof.
  induction 1 as [|t ts Ht Hts IH]; [done|]. rewrite render_cons.
  assert (t = GTok TStar \/ t <> GTok TStar) as [->|Hne]
    by (destruct t as [[]|]; [right|right|left|right|right]; done).
  - simpl. by rewrite IH.
  - assert (strip (t :: ts) = t :: ts) as -> by (by destruct t as [[]|]).
    rewrite render_cons. destruct (gtok_head t Ht Hne) as (c & s & -> & Hc).
    cbn [app skip_stars]. by rewrite decide_False.
Qed.

Lemma glob_match_strip ts a :
  glob_match ts a -> exists s a', a = s ++ a' /\ glob_match (strip ts) a'.
Proof.
  revert a. induction ts as [|t ts IH]; intros a H; [by exists [], a|].
  destruct t as [[]|]; cbn [strip]; try by exists [], a.
  inversion H as [| | | |s ? a0 H0|]; subst. destruct (IH a0 H0) as (s1 & a1 & -> & H1).
  exists (s ++ s1), a1. by rewrite app_assoc.
Qed.

Lemma glob_match_star ts a :
  glob_match (GTok TStar :: ts) a <->
  exists s a', a = s ++ a' /\ glob_match (strip ts) a'.
Proof.
  split; [apply (glob_match_strip (GTok TStar :: ts))|].
  intros (s & a' & -> & H). constructor. revert H. induction ts as [|t ts IH]; [done|].
  destruct t as [[]|]; simpl; try done. intros H. apply (gm_star []), IH, H.
Qed.

Lemma glob_consuming ts alt a :
  Exists consuming alt -> glob_match (map GTok alt ++ ts) a -> a <> [].
Proof.
  intros H. revert a. induction H as [t alt Ht|t alt _ IH]; intros a Hm; inversion Hm; subst; try done.
  intros [_ H]%app_nil. by eapply IH.
Qed.

Lemma glob_strip_nonempty ts a :
  Forall gtok_ok ts -> strip ts <> [] -> glob_match (strip ts) a -> a <> [].
Proof.
  intros Hts. revert a. induction Hts as [|t ts Ht Hts IH]; intros a Hne Hm; [done|].
  destruct t as [[]|alts]; cbn [strip] in *; try (inversion Hm; subst; done); [by apply IH|].
  inversion Hm as [| | | | |? alt ? ? Hin Hm']; subst. destruct Ht as [_ Ht].
  rewrite Forall_forall in Ht. destruct (Ht alt) as [_ ?]; [by apply list_elem_of_In|]. by eapply glob_consuming.
Qed.

(** *** Alternatives *)

Lemma MatchAlternates_text impl cur x p a rest :
  Forall (fun c => c ∉ braces) x ->
  MatchAlternates impl cur (x ++ p) a rest = MatchAlternates impl (cur ++ x) p a rest.
Proof.
  intros H. revert cur. induction H as [|c x Hc _ IH]; intros cur; [by rewrite app_nil_r|].
  cbn [app MatchAlternates].
  rewrite !decide_False by (intros ->; apply Hc; dec_true).
  by rewrite IH, <-app_assoc.
Qed.

Lemma skip_braces_text d x p :
  Forall (fun c => c ∉ braces) x -> skip_braces (S d) (x ++ p) = skip_braces (S d) p.
Proof.
  induction 1 as [|c x Hc _ IH]; [done|]. cbn [app skip_braces Nat.eqb].
  by rewrite !decide_False
    by (intros ->; apply Hc; dec_true).
Qed.

Lemma skip_braces_alts xs rest :
  Forall (Forall (fun c => c ∉ braces)) xs ->
  skip_braces 1 (render_alts xs ++ "}"%byte :: rest) = rest.
Proof.
  assert (skip_braces 1 ("}"%byte :: rest) = rest) as H0 by (simpl; by destruct rest).
  induction 1 as [|x xs Hx Hxs IH]; [done|].
  destruct xs as [|y xs]; cbn [render_alts] in *; [by rewrite skip_braces_text|].
  rewrite <-app_assoc, skip_braces_text by done. exact IH.
Qed.

Lemma MatchAlternates_flat impl m a rest xs :
  xs <> [] -> Forall (Forall (fun c => c ∉ braces)) xs ->
  (forall x, x ∈ xs -> length x < 255 /\ length x + length rest < 256 /\
                       impl (x ++ rest) a = Some (m x)) ->
  MatchAlternates impl [] (render_alts xs ++ "}"%byte :: rest) a rest = Some (existsb m xs).
Proof.
  intros Hne Hxs. induction Hxs as [|x xs Hx Hxs IH]; intros Hm; [done|].
  destruct (Hm x) as (H1 & H2 & H3); [by left|].
  destruct xs as [|y xs]; cbn [render_alts existsb].
  - rewrite MatchAlternates_text by done. cbn [app MatchAlternates].
    unfold alt_size. rewrite decide_True, !(proj2 (Nat.leb_gt _ _)) by (done || lia).
    by rewrite H3, orb_false_r.
  - rewrite <-app_assoc, MatchAlternates_text by done. cbn [app MatchAlternates].
    unfold alt_size.
    rewrite decide_False, decide_True, !(proj2 (Nat.leb_gt _ _)), H3 by (done || lia).
    destruct (m x); [done|]. apply IH; [done|]. intros z Hz. apply Hm. by right.
Qed.

Lemma item_ok_no_braces i : item_ok true i -> Forall (fun c => c ∉ braces) (render_item i).
Proof.
  destruct i as [c|lo hi]; simpl; [intros [_ H]|intros [[_ H] [_ H']]]; repeat constructor;
    auto; dec_true.
Qed.

Lemma tok_ok_no_braces t : tok_ok true t -> Forall (fun c => c ∉ braces) (render_tok t).
Proof.
  destruct t as [c| | |neg items]; cbn [tok_ok render_tok]; intros H.
  - destruct H as [_ H]. constructor; [auto|done].
  - repeat constructor. dec_true.
  - repeat constructor. dec_true.
  - constructor; [dec_true|].
    rewrite !Forall_app. split_and!.
    + destruct neg; repeat constructor. dec_true.
    + apply Forall_concat, Forall_fmap. eapply Forall_impl; [apply item_ok_no_braces|exact H].
    + repeat constructor. dec_true.
Qed.

Lemma toks_no_braces ts : Forall (tok_ok true) ts -> Forall (fun c => c ∉ braces) (render_toks ts).
Proof.
  intros H. apply Forall_concat, Forall_fmap. eapply Forall_impl; [apply tok_ok_no_braces|exact H].
Qed.

Lemma tok_ok_weaken t : tok_ok true t -> tok_ok false t.
Proof.
  destruct t as [c| | |neg items]; cbn [tok_ok]; [by intros [Hc _]|done|done|].
  apply Forall_impl. intros [c|lo hi]; simpl; unfold char_ok; naive_solver.
Qed.

Lemma render_app ts1 ts2 : render (ts1 ++ ts2) = render ts1 ++ render ts2.
Proof. unfold render. by rewrite map_app, concat_app. Qed.

Lemma render_map_GTok ts : render (map GTok ts) = render_toks ts.
Proof. unfold render, render_toks. by rewrite map_map. Qed.

(** ** The matcher decides the pattern language *)

Lemma elem_render_alts xs x : x ∈ xs -> length x <= length (render_alts xs).
Proof.
  induction xs as [|y xs IH]; [by intros ?%elem_of_nil|].
  intros Hx. assert (length y <= length (render_alts (y :: xs)) /\
                     length (render_alts xs) <= length (render_alts (y :: xs))) as [H1 H2].
  { destruct xs; cbn [render_alts]; rewrite ?length_app; cbn [length]; lia. }
  apply elem_of_cons in Hx as [->|Hx]; [done|]. specialize (IH Hx). lia.
Qed.

(** Each alternative with the rest of the pattern is shorter than the group. *)
Lemma alt_fits alts ts x :
  x ∈ alts -> length (render (map GTok x ++ ts)) < length (render (GAlt alts :: ts)).
Proof.
  intros Hx. rewrite render_app, render_map_GTok, render_cons. cbn [render_gtok].
  pose proof (elem_render_alts (map render_toks alts) (render_toks x)
                (list_elem_of_fmap_2 render_toks _ _ Hx)) as H.
  rewrite !length_app. cbn [length]. rewrite length_app. lia.
Qed.

Lemma skip_stars_nil ts : Forall gtok_ok ts -> render (strip ts) = [] -> strip ts = [].
Proof.
  intros Hts. induction Hts as [|t ts Ht Hts IH]; [done|].
  by destruct t as [[]|]; cbn [strip].
Qed.

Lemma osc_match_alt alts ts a :
  gtok_ok (GAlt alts) -> length (render (GAlt alts :: ts)) < 255 ->
  osc_match (render (GAlt alts :: ts)) a =
  existsb (fun x => osc_match (render_toks x ++ render ts) a) alts.
Proof.
  intros [Hne Ha] Hlen. rewrite render_cons in *.
  cbn [render_gtok] in *. apply osc_match_unfold. cbn [app PatternMatchImpl].
  rewrite !decide_False, decide_True by done.
  assert (Forall (Forall (fun c => c ∉ braces)) (map render_toks alts)) as Hb.
  { apply Forall_fmap. eapply Forall_impl; [|exact Ha]. intros x [Hx _]. by apply toks_no_braces. }
  rewrite <-app_assoc. cbn [app]. rewrite skip_braces_alts by done.
  pose proof (fun x Hx => elem_render_alts (map render_toks alts) x Hx) as Hl.
  do 2 (rewrite length_app in Hlen; cbn [length] in Hlen).
  rewrite (MatchAlternates_flat _ (fun x => osc_match (x ++ render ts) a));
    [|by destruct alts|done|].
  - f_equal. clear. induction alts as [|x alts IH]; [done|]. simpl. by rewrite IH.
  - intros x Hx. specialize (Hl x Hx). cbn [length] in *. split_and!; [lia..|].
    apply match_fuel_enough. rewrite !length_app. simpl. lia.
Qed.

(** The matcher agrees with the specification on [ts]. *)
Definition agrees (ts : list gtok) : Prop :=
  forall a, osc_match (render ts) a = true <-> glob_match ts a.

Lemma agrees_lit c ts : gtok_ok (GTok (TLit c)) -> agrees ts -> agrees (GTok (TLit c) :: ts).
Proof.
  unfold agrees. intros [[_ Hc]%not_elem_of_cons _] IH a. rewrite render_cons. cbn [render_gtok render_tok app].
  rewrite osc_match_lit by done. destruct a as [|d a]; [split; [done|by inversion 1]|].
  rewrite andb_true_iff, bool_decide_eq_true, IH.
  split; [intros [-> ?]; by constructor|by inversion 1].
Qed.

Lemma agrees_any ts : agrees ts -> agrees (GTok TAny :: ts).
Proof.
  unfold agrees. intros IH a. rewrite render_cons. cbn [render_gtok render_tok app].
  rewrite osc_match_any. destruct a as [|d a]; [split; [done|by inversion 1]|].
  rewrite IH. split; [by constructor|by inversion 1].
Qed.

Lemma agrees_class neg items ts :
  gtok_ok (GTok (TClass neg items)) -> agrees ts -> agrees (GTok (TClass neg items) :: ts).
Proof.
  unfold agrees. intros Hi IH a. rewrite render_cons. cbn [render_gtok render_tok app].
  rewrite <-!app_assoc. cbn [app].
  erewrite osc_match_class by (by apply (MatchCharClass_items false)).
  destruct a as [|d a]; [split; [done|by inversion 1]|].
  rewrite andb_true_iff, IH. cbn [List.hd]. split; [intros []; by constructor|by inversion 1].
Qed.

Lemma agrees_star ts :
  Forall gtok_ok ts -> agrees (strip ts) -> agrees (GTok TStar :: ts).
Proof.
  unfold agrees. intros Hts IH a. rewrite render_cons. cbn [render_gtok render_tok app].
  rewrite osc_match_star, glob_match_star, skip_stars_render by done. split.
  - intros [Hnil|(s & a' & -> & _ & Hm)]; [|exists s, a'; by rewrite <-IH].
    apply skip_stars_nil in Hnil; [|done]. exists a, []. rewrite app_nil_r, Hnil.
    split; [done|constructor].
  - intros (s & a' & -> & Hm). destruct (decide (render (strip ts) = [])) as [|Hne]; [by left|].
    right. exists s, a'. split; [done|]. split; [|by apply IH].
    eapply glob_strip_nonempty; [exact Hts| |exact Hm]. intros E. by rewrite E in Hne.
Qed.

Lemma agrees_alt alts ts :
  gtok_ok (GAlt alts) -> length (render (GAlt alts :: ts)) < 255 ->
  (forall x, x ∈ alts -> agrees (map GTok x ++ ts)) -> agrees (GAlt alts :: ts).
Proof.
  unfold agrees. intros Ha Hlen IH a. rewrite osc_match_alt by done. rewrite existsb_exists.
  split.
  - intros (x & Hx%list_elem_of_In & Hm). econstructor; [exact Hx|]. apply IH; [done|].
    by rewrite render_app, render_map_GTok.
  - inversion 1 as [| | | | |? x ? ? Hx Hm]; subst. exists x. split; [by apply list_elem_of_In|].
    rewrite <-render_map_GTok, <-render_app. by apply IH.
Qed.

Lemma alt_ok alts ts x :
  gtok_ok (GAlt alts) -> Forall gtok_ok ts -> x ∈ alts -> Forall gtok_ok (map GTok x ++ ts).
Proof.
  intros [_ Ha] Hts Hx. apply Forall_app; split; [|done]. apply Forall_fmap.
  rewrite List.Forall_forall in Ha. destruct (Ha x) as [Hok _]; [by apply list_elem_of_In|].
  eapply Forall_impl; [|exact Hok]. intros t. apply tok_ok_weaken.
Qed.

Lemma strip_ok ts : Forall gtok_ok ts -> Forall gtok_ok (strip ts).
Proof.
  induction 1 as [|t ts Ht Hts IH]; [constructor|].
  destruct t as [[]|]; try by constructor. exact IH.
Qed.

Lemma agrees_all ts : Forall gtok_ok ts -> length (render ts) < 255 -> agrees ts.
Proof.
  remember (length (render ts)) as n eqn:Hn. revert ts Hn.
  induction n as [n IH] using lt_wf_ind. intros ts -> Hts Hlen.
  destruct Hts as [|t ts Ht Hts].
  { intros a. change (render []) with (@nil byte). rewrite osc_match_nil, bool_decide_eq_true.
    split; [intros ->; constructor|by inversion 1]. }
  destruct t as [t|alts].
  2: { apply agrees_alt; [done..|]. intros x Hx. pose proof (alt_fits _ ts _ Hx).
       eapply IH; [|reflexivity|by eapply alt_ok|]; lia. }
  assert (length (render ts) < length (render (GTok t :: ts))) as Hlt.
  { rewrite render_cons, length_app. destruct t; cbn [render_gtok render_tok length]; lia. }
  assert (agrees ts) as IHt by (eapply IH; [|reflexivity|done|]; lia).
  destruct t; [by apply agrees_lit|by apply agrees_any| |by apply agrees_class].
  apply agrees_star; [done|].
  pose proof (skip_stars_length (render ts)) as Hss. rewrite skip_stars_render in Hss by done.
  eapply IH; [|reflexivity|by apply strip_ok|]; lia.
Qed.

Lemma render_item_nul_free b i : item_ok b i -> nul_free (render_item i).
Proof.
  destruct i; cbn [item_ok render_item]; [intros H|intros [H H']]; unfold nul_free;
    repeat (apply List.Forall_cons; [char_neq|]); apply List.Forall_nil.
Qed.

Lemma render_tok_nul_free b t : tok_ok b t -> nul_free (render_tok t).
Proof.
  destruct t as [c| | |neg items]; cbn [tok_ok render_tok]; intros H.
  - apply List.Forall_cons; [char_neq|apply List.Forall_nil].
  - solve_nul_free.
  - solve_nul_free.
  - constructor; [done|]. apply Forall_app; split; [destruct neg; solve_nul_free|].
    apply Forall_app; split; [|solve_nul_free].
    apply Forall_concat, Forall_fmap. eapply Forall_impl; [apply render_item_nul_free|exact H].
Qed.

Lemma render_toks_nul_free b ts : Forall (tok_ok b) ts -> nul_free (render_toks ts).
Proof.
  intros H. apply Forall_concat, Forall_fmap.
  eapply Forall_impl; [apply (render_tok_nul_free b)|exact H].
Qed.

Lemma render_alts_nul_free xs : Forall nul_free xs -> nul_free (render_alts xs).
Proof.
  induction 1 as [|x xs Hx Hxs IH]; [constructor|].
  destruct xs; [done|]. cbn [render_alts] in *. apply Forall_app; split; [done|].
  by constructor.
Qed.

Lemma render_nul_free ts : Forall gtok_ok ts -> nul_free (render ts).
Proof.
  induction 1 as [|t ts Ht Hts IH]; [constructor|]. rewrite render_cons.
  apply Forall_app; split; [|done]. destruct t as [t|alts]; cbn [render_gtok].
  - by eapply render_tok_nul_free.
  - destruct Ht as [_ Ht]. constructor; [done|]. apply Forall_app; split; [|solve_nul_free].
    apply render_alts_nul_free, Forall_fmap. eapply Forall_impl; [|exact Ht].
    intros x [Hx _]. by eapply render_toks_nul_free.
Qed.

Lemma OscPatternMatch_osc_match p a :
  OscPatternMatch (Some p) (Some a) = osc_match (cstr p) (cstr a).
Proof. reflexivity. Qed.

(** ** Properties *)

(** The recursive matcher terminates on every pattern and address: a
    recursion depth of one more than the pattern's length is always enough, and
    more of it does not change the answer. *)
Theorem OscPatternMatch_terminates p a fuel :
  length (cstr p) < fuel ->
  PatternMatchImpl fuel (cstr p) (cstr a) = Some (OscPatternMatch (Some p) (Some a)).
Proof. rewrite OscPatternMatch_osc_match. apply match_fuel_enough. Qed.

Example OscPatternMatch_terminates_witness :
  PatternMatchImpl 40 (str "/avatar/parameters/{Jaw*,Lip[A-Z]*}/v?") (str "/avatar/parameters/JawOpen/v2") = Some true.
Proof.
  transitivity (Some (OscPatternMatch (Some (str "/avatar/parameters/{Jaw*,Lip[A-Z]*}/v?"))
                                      (Some (str "/avatar/parameters/JawOpen/v2")))).
  - apply (OscPatternMatch_terminates (str "/avatar/parameters/{Jaw*,Lip[A-Z]*}/v?")
             (str "/avatar/parameters/JawOpen/v2")). vm_compute. lia.
  - vm_compute. reflexivity.
Defined.

(** C1: On every pattern of the OSC pattern language (literals, [?], [*],
    possibly negated classes with ranges, and brace groups whose alternatives
    each consume a character) shorter than the 255-byte scratch buffer, the
    matcher answers true exactly when the pattern matches the whole address. *)
Theorem OscPatternMatch_glob ts a
  (Hts : Forall gtok_ok ts) (Hlen : length (render ts) < 255) :
  OscPatternMatch (Some (render ts)) (Some a) = true <-> glob_match ts (cstr a).
Proof.
  rewrite OscPatternMatch_osc_match, (cstr_id (render ts)) by (by apply render_nul_free).
  by apply agrees_all.
Qed.

Definition lits (s : list byte) : list gtok := map (fun c => GTok (TLit c)) s.

Example OscPatternMatch_glob_witness :
  let ts := lits (str "/a/") ++ [GTok TStar; GAlt [[TLit "x"%byte; TAny]; [TClass true [CRange "a"%byte "z"%byte]]]] in
  render ts = str "/a/*{x?,[!a-z]}" /\ glob_match ts (str "/a/b/xx").
Proof.
  cbv zeta. split; [reflexivity|].
  apply (proj1 (OscPatternMatch_glob
    (lits (str "/a/") ++ [GTok TStar; GAlt [[TLit "x"%byte; TAny]; [TClass true [CRange "a"%byte "z"%byte]]]])
    (str "/a/b/xx") ltac:(repeat first [constructor | dec_true | discriminate | (intros _; dec_true)])
    ltac:(vm_compute; lia))).
  vm_compute. reflexivity.
Defined.

(** Outside that language the matcher has corners of its own: a group without
    its closing brace still matches by every alternative but its last, and a
    star before a group that may be empty does not match the empty rest. *)
Example unclosed_group :
  OscPatternMatch (Some (str "{a,b")) (Some (str "a")) = true /\
  OscPatternMatch (Some (str "{a,b")) (Some (str "b")) = false.
Proof. by split; vm_compute. Qed.

Example star_before_empty_alternative :
  OscPatternMatch (Some (str "x*{,y}")) (Some (str "x")) = false /\
  OscPatternMatch (Some (str "x{,y}")) (Some (str "x")) = true.
Proof. by split; vm_compute. Qed.
