(* ===== verification/Seqlock.v ===== *)
(** * The per-slot seqlock of the shared segments (core/src/common/Protocol.h)

    [WriteSlot]/[WriteRoute]/[Publish] bump a 64-bit generation to odd, copy the
    body, and bump it to even; the readers load the generation, copy the body
    word by word in whatever order [memcpy] takes, and accept when a second load
    agrees.  The step relation below interleaves one writer and one reader at
    the granularity of single stores and loads, in a sequentially consistent
    order, from an even generation; an accepted copy is then always one published
    body, and both sides end in every run.  What a slot does whose generation was
    left odd is a theorem of InputHealth.v. *)

From S2P Require Import Prelude.

Section Seqlock.
Context {W : Type}.
Implicit Types (b c : list W) (todo : list nat).

(** The reader of a slot: between attempts, copying, or done.  [n1] is the
    number of generation stores that had happened at the first load (a ghost:
    the reader sees only [g1], that number modulo [2^64]), [n2] the number at
    the load that accepted. *)
Inductive reader :=
| RStart (left : nat)
| RCopy (left : nat) (g1 : Z) (n1 : nat) (todo : list nat) (out : list W)
| RAccept (n1 n2 : nat) (out : list W)
| RFail.

(** [stores] counts the generation stores, so the counter in memory is
    [u64 stores]; [pending] are the words the current write still has to copy;
    [published] are the bodies at the even generations, oldest first. *)
Record sys := mkSys {
  stores : nat;
  body : list W;
  pending : list (nat * W);
  published : list (list W);
  rd : reader }.

Definition generation (s : sys) : Z := u64 (Z.of_nat (stores s)).

Definition with_reader (s : sys) (r : reader) : sys :=
  mkSys (stores s) (body s) (pending s) (published s) r.

(** The writer's steps: [ups] are the words of the new body, in the order
    [memcpy] takes. *)
Inductive wstep : sys -> sys -> Prop :=
| w_begin s ups :
    Nat.Even (stores s) ->
    wstep s (mkSys (S (stores s)) (body s) ups (published s) (rd s))
| w_word s i w ups :
    Nat.Odd (stores s) -> pending s = (i, w) :: ups ->
    wstep s (mkSys (stores s) (<[i := w]> (body s)) ups (published s) (rd s))
| w_end s :
    Nat.Odd (stores s) -> pending s = [] ->
    wstep s (mkSys (S (stores s)) (body s) [] (published s ++ [body s]) (rd s)).

(** The reader's steps. *)
Inductive rstep : sys -> sys -> Prop :=
| r_odd s k :
    rd s = RStart (S k) -> Z.odd (generation s) = true ->
    rstep s (with_reader s (RStart k))
| r_even s k todo out :
    rd s = RStart (S k) -> Z.odd (generation s) = false ->
    todo ≡ₚ seq 0 (length (body s)) -> length out = length (body s) ->
    rstep s (with_reader s (RCopy k (generation s) (stores s) todo out))
| r_word s k g1 n1 i todo out w :
    rd s = RCopy k g1 n1 (i :: todo) out -> body s !! i = Some w ->
    rstep s (with_reader s (RCopy k g1 n1 todo (<[i := w]> out)))
| r_accept s k g1 n1 out :
    rd s = RCopy k g1 n1 [] out -> generation s = g1 ->
    rstep s (with_reader s (RAccept n1 (stores s) out))
| r_retry s k g1 n1 out :
    rd s = RCopy k g1 n1 [] out -> generation s <> g1 ->
    rstep s (with_reader s (RStart k))
| r_fail s :
    rd s = RStart 0 -> rstep s (with_reader s RFail).

Definition sstep (s s' : sys) : Prop := wstep s s' \/ rstep s s'.

Definition init (b : list W) (retries : nat) : sys := mkSys 0 b [] [b] (RStart retries).

Definition reachable (b : list W) (retries : nat) (s : sys) : Prop :=
  rtc sstep (init b retries) s.

(** ** Invariant *)

Definition reader_ok (s : sys) : Prop :=
  match rd s with
  | RCopy _ g1 n1 todo out =>
    g1 = u64 (Z.of_nat n1) /\ n1 <= stores s /\ Nat.Even n1 /\
    length out = length (body s) /\
    (stores s = n1 -> forall i, i < length (body s) -> i ∉ todo -> out !! i = body s !! i)
  | RAccept n1 n2 out =>
    n1 <= n2 /\ ((Z.of_nat n2 < Z.of_nat n1 + 2 ^ 64)%Z -> published s !! (n1 / 2) = Some out)
  | _ => True
  end.

Record sys_ok (s : sys) : Prop := {
  ok_hist : length (published s) = S (stores s / 2);
  ok_even : Nat.Even (stores s) ->
    pending s = [] /\ published s !! (stores s / 2) = Some (body s);
  ok_reader : reader_ok s }.

Lemma even_odd_div n : (Nat.Even n -> S n / 2 = n / 2) /\ (Nat.Odd n -> S n / 2 = S (n / 2)).
Proof.
  pose proof (Nat.div_mod_eq n 2). pose proof (Nat.mod_upper_bound n 2 ltac:(lia)).
  pose proof (Nat.div_mod_eq (S n) 2). pose proof (Nat.mod_upper_bound (S n) 2 ltac:(lia)).
  split; intros [k Hk]; lia.
Qed.

Lemma even_not_odd n : Nat.Even n -> ~ Nat.Odd n.
Proof. intros [k ->] [j H]. lia. Qed.

Lemma even_or_odd n : Z.odd (u64 (Z.of_nat n)) = false -> Nat.Even n.
Proof.
  intros H. destruct (Nat.Even_or_Odd n) as [|[k ->]]; [done|]. exfalso. revert H.
  unfold u64. rewrite <-Z.bit0_odd, Z.mod_pow2_bits_low by lia. rewrite Z.bit0_odd.
  replace (Z.of_nat (2 * k + 1)) with (2 * Z.of_nat k + 1)%Z by lia.
  by rewrite Z.odd_add, Z.odd_mul.
Qed.

Lemma init_ok b k : sys_ok (init b k).
Proof. by constructor. Qed.

(** Steps of the writer leave an unfinished copy consistent. *)
Lemma reader_ok_writer s s' :
  rd s' = rd s -> stores s <= stores s' -> length (body s') = length (body s) ->
  (stores s' = stores s -> Nat.Even (stores s) -> body s' = body s) ->
  (forall k b, published s !! k = Some b -> published s' !! k = Some b) ->
  reader_ok s -> reader_ok s'.
Proof.
  intros Hr Hn Hl Hb Hp. unfold reader_ok. rewrite Hr.
  destruct (rd s) as [|k g1 n1 todo out|n1 n2 out|]; [done| |naive_solver|done].
  intros (H1 & H2 & He & H3 & H4). rewrite Hl. split_and!; [done|lia|done|done|].
  intros E i Hi Hni. assert (stores s = n1) as E' by lia.
  rewrite Hb by (lia || by rewrite E'). auto.
Qed.

Lemma sstep_ok s s' : sys_ok s -> sstep s s' -> sys_ok s'.
Proof.
  intros [Hh He Hr] [Hs|Hs]; destruct Hs.
  - constructor; cbn [stores body pending published rd]; [by rewrite (proj1 (even_odd_div _))|..].
    + intros Ho. destruct H as [a Ha], Ho as [a' Ha']. lia.
    + apply (reader_ok_writer s); [reflexivity|simpl; lia|done|done|done|done].
  - constructor; cbn [stores body pending published rd]; [done|..].
    + intros E. by apply even_not_odd in E.
    + apply (reader_ok_writer s); [reflexivity|done|cbn; by rewrite length_insert| |done|done].
      intros _ E. by apply even_not_odd in E.
  - constructor; cbn [stores body pending published rd].
    + rewrite length_app, Hh, (proj2 (even_odd_div _)) by done. simpl. lia.
    + intros _. split; [done|]. rewrite (proj2 (even_odd_div _)) by done.
      by rewrite <-Hh, lookup_app_r, Nat.sub_diag by done.
    + apply (reader_ok_writer s); [reflexivity|simpl; lia|done|done| |done].
      intros k b Hk. cbn. by apply lookup_app_l_Some.
  - by constructor.
  - constructor; [done|done|]. unfold reader_ok. cbn. split_and!; [done|lia|by apply even_or_odd|done|].
    intros _ i Hi Hn. destruct Hn. rewrite H1. apply elem_of_seq. lia.
  - constructor; [done|done|]. unfold reader_ok in *. rewrite H in Hr. cbn [rd with_reader published body stores].
    destruct Hr as (Hr1 & Hr2 & Hr3 & Hr4 & Hr5). split_and!; [done|done|done|by rewrite length_insert|].
    intros E j Hj Hn. destruct (decide (i = j)) as [<-|Hne].
    + rewrite list_lookup_insert_eq by lia. done.
    + rewrite list_lookup_insert_ne by done. apply Hr5; [done|done|].
      rewrite not_elem_of_cons. auto.
  - constructor; [done|done|]. unfold reader_ok in *. rewrite H in Hr. cbn [rd with_reader published body stores].
    destruct Hr as (Hr1 & Hr2 & Hr3 & Hr4 & Hr5). split; [done|]. intros Hlt.
    assert (stores s = n1) as E.
    { rewrite Hr1 in H0. unfold generation, u64 in H0.
      rewrite (Z.div_mod (Z.of_nat (stores s)) (2 ^ 64)), (Z.div_mod (Z.of_nat n1) (2 ^ 64)) in Hlt by lia.
      pose proof (Z.div_mod (Z.of_nat (stores s)) (2 ^ 64) ltac:(lia)).
      pose proof (Z.div_mod (Z.of_nat n1) (2 ^ 64) ltac:(lia)).
      assert (Z.of_nat n1 / 2 ^ 64 <= Z.of_nat (stores s) / 2 ^ 64)%Z by (apply Z.div_le_mono; lia).
      nia. }
    destruct He as [_ He]; [by rewrite E|]. rewrite <-E, He. f_equal. symmetry.
    apply list_eq_same_length with (length (body s)); [done|done|].
    intros i x y Hi Hx Hy. rewrite Hr5 in Hx by (done || apply not_elem_of_nil). congruence.
  - by constructor.
  - by constructor.
Qed.

Lemma reachable_ok b k s : reachable b k s -> sys_ok s.
Proof.
  intros H. unfold reachable in H. remember (init b k) as s0 eqn:E.
  assert (sys_ok s0) as H0 by (subst; apply init_ok). clear E.
  induction H as [|s1 s2 s3 Hs _ IH]; [done|]. apply IH. by eapply sstep_ok.
Qed.

(** ** Progress of the two sides *)

(** [run w r s s']: [w] steps of the writer and [r] of the reader, in any
    order, lead from [s] to [s']. *)
Inductive run : nat -> nat -> sys -> sys -> Prop :=
| run_refl s : run 0 0 s s
| run_w w r s s1 s2 : run w r s s1 -> wstep s1 s2 -> run (S w) r s s2
| run_r w r s s1 s2 : run w r s s1 -> rstep s1 s2 -> run w (S r) s s2.

Lemma run_sstep w r s s' : run w r s s' -> rtc sstep s s'.
Proof. induction 1; [done|..]; (eapply rtc_r; [done|]); [by left|by right]. Qed.

Lemma rstep_frame s s' :
  rstep s s' -> stores s' = stores s /\ body s' = body s /\ pending s' = pending s /\ published s' = published s.
Proof. by destruct 1. Qed.

Lemma wstep_frame s s' : wstep s s' -> rd s' = rd s /\ length (body s') = length (body s).
Proof. destruct 1; cbn; by rewrite ?length_insert. Qed.

Lemma even_gen n : Nat.Even n -> Z.odd (u64 (Z.of_nat n)) = false.
Proof.
  intros [j ->]. unfold u64. rewrite <-Z.bit0_odd, Z.mod_pow2_bits_low, Z.bit0_odd by lia.
  by rewrite Nat2Z.inj_mul, Z.odd_mul.
Qed.

(** *** The writer *)

Definition apply_words (b : list W) (ups : list (nat * W)) : list W := foldl (fun b u => <[u.1 := u.2]> b) b ups.

(** A write of [new]: its words in any order. *)
Definition words_of (ups : list (nat * W)) (new : list W) : Prop := ups ≡ₚ zip (seq 0 (length new)) new.

Lemma apply_words_length b ups : length (apply_words b ups) = length b.
Proof. revert b. induction ups as [|[i w] ups IH]; intros b; cbn; [done|]. unfold apply_words in IH. by rewrite IH, length_insert. Qed.

Lemma apply_words_lookup b ups i w :
  NoDup ups.*1 -> (i, w) ∈ ups -> i < length b -> apply_words b ups !! i = Some w.
Proof.
  revert b. induction ups as [|[j v] ups IH]; intros b Hnd Hin Hi; [by apply elem_of_nil in Hin|].
  cbn in Hnd. apply list.NoDup_cons in Hnd as [Hj Hnd]. apply list.elem_of_cons in Hin as [[= <- <-]|Hin].
  - clear IH. cbn. set (b' := <[i := w]> b). assert (b' !! i = Some w) as Hb by (by apply list_lookup_insert_eq).
    clearbody b'. clear Hi. revert b' Hb. induction ups as [|[j u] ups IH]; intros b' Hb; [done|]. cbn in *.
    apply not_elem_of_cons in Hj as [Hij Hj]. apply list.NoDup_cons in Hnd as [_ Hnd]. apply IH; [done|done|].
    by rewrite list_lookup_insert_ne by done.
  - cbn. apply IH; [done|done|]. by rewrite length_insert.
Qed.

Lemma apply_words_all b new ups : length new = length b -> words_of ups new -> apply_words b ups = new.
Proof.
  intros Hl Hu. assert (NoDup ups.*1) as Hnd.
  { rewrite Hu, fst_zip by (by rewrite length_seq). apply NoDup_seq. }
  apply list_eq_same_length with (length b); [done|by rewrite apply_words_length|].
  intros i x y Hi Hx Hy. rewrite (apply_words_lookup _ _ i y) in Hx; [congruence|done| |done].
  rewrite Hu. apply list_elem_of_lookup. exists i. rewrite lookup_zip_with, Hy, lookup_seq_lt by lia. done.
Qed.

(** A write under way, whatever the reader does in between. *)
Lemma write_under_way s ups w r s' :
  Nat.Even (stores s) -> w <= length ups ->
  run w r (mkSys (S (stores s)) (body s) ups (published s) (rd s)) s' ->
  stores s' = S (stores s) /\ pending s' = drop w ups /\ body s' = apply_words (body s) (take w ups) /\
  published s' = published s.
Proof.
  intros He Hw Hr. remember (mkSys _ _ _ _ _) as s0 eqn:E. revert Hw.
  induction Hr as [s0|w r s0 s1 s2 _ IH Hs|w r s0 s1 s2 _ IH Hs]; intros Hw; subst s0.
  - done.
  - destruct (IH eq_refl ltac:(lia)) as (I1 & I2 & I3 & I4).
    assert (Nat.Odd (stores s1)) as Ho by (rewrite I1; destruct He as [k ->]; exists k; lia).
    destruct Hs as [s1 ups' He'|s1 i v ups' _ Hp|s1 _ Hp].
    + by apply even_not_odd in He'.
    + rewrite I2 in Hp. assert (ups !! w = Some (i, v)) as Hu.
      { by rewrite <-(Nat.add_0_r w), <-lookup_drop, Hp. }
      cbn. rewrite I1, I3, I4. split_and!; [done| | |done].
      * by rewrite <-Nat.add_1_r, <-drop_drop, Hp.
      * rewrite (take_S_r _ _ _ Hu). unfold apply_words. by rewrite foldl_app.
    + rewrite I2 in Hp. apply (f_equal length) in Hp. rewrite length_drop in Hp. cbn in Hp. lia.
  - destruct (rstep_frame _ _ Hs) as (-> & -> & -> & ->). by apply IH.
Qed.

Lemma write_published s ups new r s' :
  Nat.Even (stores s) -> length new = length (body s) -> words_of ups new ->
  run (S (length ups)) r (mkSys (S (stores s)) (body s) ups (published s) (rd s)) s' ->
  stores s' = S (S (stores s)) /\ body s' = new /\ published s' = published s ++ [new].
Proof.
  intros He Hl Hu Hr. remember (mkSys _ _ _ _ _) as s0 eqn:E0. remember (S (length ups)) as n eqn:En. revert E0 En.
  induction Hr as [s0|w r s0 s1 s2 Hr _ Hs|w r s0 s1 s2 _ IH Hs]; intros E0 En; [done| |].
  - injection En as ->. subst s0. destruct (write_under_way s ups _ _ _ He ltac:(done) Hr) as (I1 & I2 & I3 & I4).
    assert (Nat.Odd (stores s1)) as Ho by (rewrite I1; destruct He as [k ->]; exists k; lia).
    rewrite drop_all in I2. rewrite take_ge in I3 by done. rewrite (apply_words_all _ new) in I3 by done.
    destruct Hs as [s1 ups' He'|s1 i v ups' _ Hp|s1 _ Hp]; [by apply even_not_odd in He'|congruence|].
    cbn. by rewrite I1, I3, I4.
  - destruct (rstep_frame _ _ Hs) as (-> & -> & _ & ->). by apply IH.
Qed.

(** *** The reader *)

Definition reader_steps (len : nat) (r : reader) : nat :=
  match r with
  | RStart k => k * (len + 2) + 1
  | RCopy k _ _ todo _ => k * (len + 2) + 2 + length todo
  | _ => 0
  end.

Definition copies_in (len : nat) (r : reader) : Prop :=
  match r with RCopy _ _ _ todo _ => Forall (fun i => i < len) todo | _ => True end.

Lemma rstep_measure s s' :
  rstep s s' -> reader_steps (length (body s)) (rd s') < reader_steps (length (body s)) (rd s).
Proof.
  destruct 1 as [s k Hr _|s k todo out Hr _ Ht _|s k g1 n1 i todo out w Hr _|s k g1 n1 out Hr _|s k g1 n1 out Hr _|s Hr];
    rewrite Hr; cbn; try lia. apply Permutation_length in Ht. rewrite length_seq in Ht. lia.
Qed.

Lemma copies_step s s' : sstep s s' -> copies_in (length (body s)) (rd s) -> copies_in (length (body s')) (rd s').
Proof.
  intros [Hs|Hs]; [by destruct (wstep_frame _ _ Hs) as [-> ->]|].
  destruct (rstep_frame _ _ Hs) as (_ & -> & _).
  destruct Hs as [s k Hr _|s k todo out Hr _ Ht _|s k g1 n1 i todo out w Hr _|s k g1 n1 out Hr _|s k g1 n1 out Hr _|s Hr];
    cbn; try done.
  - intros _. rewrite Ht. apply Forall_seq. lia.
  - rewrite Hr. cbn. rewrite list.Forall_cons. by intros [_ ?].
Qed.

Definition ended (r : reader) : Prop := r = RFail \/ exists n1 n2 out, r = RAccept n1 n2 out.

Lemma reader_not_stuck s : copies_in (length (body s)) (rd s) -> ended (rd s) \/ exists s', rstep s s'.
Proof.
  destruct (rd s) as [[|k]|k g1 n1 [|i todo] out|n1 n2 out|] eqn:Hr; intros Hc.
  - right. eexists. by apply r_fail.
  - right. destruct (Z.odd (generation s)) eqn:Hg; eexists; [by eapply r_odd|].
    by apply (r_even s k (seq 0 (length (body s))) (body s)).
  - right. destruct (decide (generation s = g1)); eexists; [by eapply r_accept|by eapply r_retry].
  - right. cbn in Hc. apply list.Forall_cons in Hc as [Hi _]. apply lookup_lt_is_Some_2 in Hi as [w Hw].
    eexists. by eapply r_word.
  - left. right. by eexists _, _, _.
  - left. by left.
Qed.

(** Whatever the writer does in between. *)
Lemma reader_bounded w r s s' :
  run w r s s' -> copies_in (length (body s)) (rd s) ->
  copies_in (length (body s')) (rd s') /\ length (body s') = length (body s) /\
  r + reader_steps (length (body s)) (rd s') <= reader_steps (length (body s)) (rd s).
Proof.
  intros Hr Hc. induction Hr as [s|w r s s1 s2 _ IH Hs|w r s s1 s2 _ IH Hs]; [done|..]; destruct (IH Hc) as (I1 & I2 & I3).
  - destruct (wstep_frame _ _ Hs) as [E1 E2]. rewrite E1, E2, I2. split_and!; [by rewrite <-I2|done|done].
  - destruct (rstep_frame _ _ Hs) as (_ & E & _). rewrite E. split_and!; [|done|].
    + rewrite <-E. eapply copies_step; [by right|done].
    + pose proof (rstep_measure _ _ Hs) as Hm. rewrite I2 in Hm. lia.
Qed.

(** An attempt that no write disturbs: after [r] steps. *)
Definition undisturbed (s : sys) (k r : nat) (s' : sys) : Prop :=
  match r with
  | 0 => s' = s
  | S r =>
    if r <=? length (body s) then
      exists todo out, s' = with_reader s (RCopy k (generation s) (stores s) todo out) /\
        length todo + r = length (body s) /\ length out = length (body s) /\
        Forall (fun i => i < length (body s)) todo /\
        forall i, i < length (body s) -> i ∉ todo -> out !! i = body s !! i
    else r = S (length (body s)) /\ s' = with_reader s (RAccept (stores s) (stores s) (body s))
  end.

Lemma undisturbed_step s k r s1 s2 :
  Nat.Even (stores s) -> rd s = RStart (S k) -> undisturbed s k r s1 -> rstep s1 s2 -> undisturbed s k (S r) s2.
Proof.
  intros He Hrd Hu Hs. destruct r as [|r]; cbn [undisturbed] in *.
  - subst s1. cbn. inversion Hs; subst; try congruence.
    + unfold generation in *. rewrite even_gen in * by done. done.
    + assert (k0 = k) as -> by congruence. eexists _, _. split; [done|].
      pose proof (Permutation_length H1) as Hl. rewrite length_seq in Hl. split_and!; [lia|done| |].
      * rewrite H1. apply Forall_seq. lia.
      * intros i Hi Hn. destruct Hn. rewrite H1. apply elem_of_seq. lia.
  - destruct (Nat.leb_spec r (length (body s))) as [Hle|Hgt].
    + destruct Hu as (todo & out & -> & Hl & Ho & Hin & Hout).
      inversion Hs; subst; cbn [rd with_reader body stores generation] in *; simplify_eq.
      * cbn [length] in Hl. rewrite (proj2 (Nat.leb_le _ _)) by lia. eexists _, _. split; [done|].
        apply list.Forall_cons in Hin as [Hi Hin]. split_and!; [lia|by rewrite length_insert|done|].
        intros j Hj Hn. destruct (decide (i = j)) as [<-|Hne]; [by rewrite list_lookup_insert_eq by lia|].
        rewrite list_lookup_insert_ne by done. apply Hout; [done|]. by rewrite not_elem_of_cons.
      * cbn [length] in Hl. rewrite (proj2 (Nat.leb_gt _ _)) by lia. split; [lia|]. unfold with_reader. cbn. do 2 f_equal.
        apply list_eq_same_length with (length (body s)); [done|done|].
        intros i x y Hi Hx Hy. rewrite Hout in Hx by (done || apply not_elem_of_nil). congruence.
    + destruct Hu as [-> ->]. inversion Hs; subst; cbn in *; simplify_eq.
Qed.

Lemma undisturbed_end s k r s' :
  undisturbed s k r s' -> rd s = RStart (S k) ->
  r <= length (body s) + 2 /\ (r < length (body s) + 2 -> exists s'', rstep s' s'') /\
  (r = length (body s) + 2 -> s' = with_reader s (RAccept (stores s) (stores s) (body s))).
Proof.
  intros Hu Hr. assert (copies_in (length (body s')) (rd s')) as Hc.
  { destruct r as [|r]; cbn in Hu; [by rewrite Hu, Hr|]. destruct (r <=? length (body s)).
    - by destruct Hu as (todo & out & -> & _ & _ & Hin & _).
    - by destruct Hu as [_ ->]. }
  apply reader_not_stuck in Hc. destruct r as [|r]; cbn in Hu.
  - subst s'. split; [lia|]. split; [|lia]. intros _. destruct Hc as [[Hc|(? & ? & ? & Hc)]|Hc]; [congruence..|done].
  - destruct (Nat.leb_spec r (length (body s))).
    + split; [lia|]. split; [|lia]. intros _. destruct Hu as (todo & out & -> & _).
      destruct Hc as [[Hc|(? & ? & ? & Hc)]|Hc]; [done..|exact Hc].
    + destruct Hu as [-> ->]. split; [lia|]. split; [lia|done].
Qed.

Lemma undisturbed_run s k r s' :
  Nat.Even (stores s) -> rd s = RStart (S k) -> run 0 r s s' -> undisturbed s k r s'.
Proof.
  intros He Hrd Hr. remember 0 as w eqn:Ew. revert Ew.
  induction Hr as [s|w r s s1 s2 _ IH Hs|w r s s1 s2 _ IH Hs]; intros Ew; [done|done|].
  by eapply undisturbed_step; [| |apply IH|].
Qed.

(** ** Properties *)

(** C2: In every interleaving of one writer and one reader, word by word, a
    copy that the reader accepts is exactly one body the writer had published
    in full, the one whose generation the reader saw first, unless the counter
    wrapped around 2^64 in between. *)
Theorem seqlock_no_torn_read b retries s n1 n2 out :
  reachable b retries s -> rd s = RAccept n1 n2 out ->
  (Z.of_nat n2 < Z.of_nat n1 + 2 ^ 64)%Z ->
  published s !! (n1 / 2) = Some out.
Proof.
  intros Hs Hr Hn. apply reachable_ok in Hs as [_ _ Hs]. unfold reader_ok in Hs.
  rewrite Hr in Hs. by apply Hs.
Qed.
End Seqlock.

(** C37: Both sides make progress, in every run.  A write that has begun has
    published its body after exactly one step per word and one more of its own,
    whatever the reader does in between, and can take each of them.  A reader
    with a retry left that no writer disturbs takes exactly one step per word
    and two more, is never stuck on the way, and accepts the current body.
    And whatever the writer does, the reader ends, never stuck, within
    [length + 2] steps for each of its retries and one more. *)
Theorem seqlock_progress {W} (s : sys (W := W)) new ups k
  (He : Nat.Even (stores s)) (Hl : length new = length (body s)) (Hups : words_of ups new) (Hr : rd s = RStart (S k)) :
  let begun := mkSys (S (stores s)) (body s) ups (published s) (rd s) in
  let len := length (body s) in
  wstep s begun /\
  (forall w r s', run w r begun s' -> w <= len -> stores s' = S (stores s) /\ exists s'', wstep s' s'') /\
  (forall r s', run (S len) r begun s' ->
     stores s' = S (S (stores s)) /\ body s' = new /\ published s' = published s ++ [new]) /\
  (forall r s', run 0 r s s' ->
     r <= len + 2 /\ (r < len + 2 -> exists s'', rstep s' s'') /\
     (r = len + 2 -> s' = with_reader s (RAccept (stores s) (stores s) (body s)))) /\
  (forall w r s', run w r s s' ->
     r <= S k * (len + 2) + 1 /\ (ended (rd s') \/ exists s'', rstep s' s'')).
Proof.
  intros begun len.
  assert (length ups = len) as Hul.
  { apply Permutation_length in Hups. rewrite length_zip, length_seq in Hups. unfold len. lia. }
  assert (copies_in (length (body s)) (rd s)) as Hc by (by rewrite Hr).
  split_and!.
  - by apply w_begin.
  - intros w r s' Hrun Hw.
    destruct (write_under_way s ups w r s' He ltac:(lia) Hrun) as (E1 & E2 & _). split; [done|].
    assert (Nat.Odd (stores s')) as Ho by (rewrite E1; destruct He as [j ->]; exists j; lia).
    destruct (drop w ups) as [|[i v] rest]; eexists; [by apply w_end|by eapply w_word].
  - intros r s' Hrun. apply (write_published s ups new r s' He Hl Hups). by rewrite Hul.
  - intros r s' Hrun. apply (undisturbed_run s k r s' He Hr) in Hrun. by eapply undisturbed_end.
  - intros w r s' Hrun. destruct (reader_bounded _ _ _ _ Hrun Hc) as (C1 & C2 & C3).
    rewrite Hr in C3. cbn [reader_steps] in C3. split; [unfold len; lia|]. by apply reader_not_stuck.
Qed.

(** ** Witnesses *)

(** The reader starts to copy, the writer replaces the body under it, and the
    reader accepts at its second attempt. *)
Definition disturbed : sys (W := Z) :=
  mkSys 2 [4; 5; 6]%Z [] [[1; 2; 3]; [4; 5; 6]]%Z (RAccept 2 2 [4; 5; 6]%Z).

Lemma disturbed_reachable : reachable [1; 2; 3]%Z 8 disturbed.
Proof.
  assert (forall n, Nat.even n = true -> Nat.Even n) as ev by (intros n; apply Nat.even_spec).
  assert (forall n, Nat.odd n = true -> Nat.Odd n) as od by (intros n; apply Nat.odd_spec).
  unfold reachable.
  eapply rtc_l; [right; by apply (r_even _ 7 [0; 1; 2] [9; 9; 9]%Z)|].
  eapply rtc_l; [right; by eapply r_word|].
  eapply rtc_l; [left; apply (w_begin _ [(2, 6%Z); (0, 4%Z); (1, 5%Z)]); by apply ev|].
  eapply rtc_l; [left; eapply w_word; [by apply od|done]|].
  eapply rtc_l; [right; by eapply r_word|].
  eapply rtc_l; [left; eapply w_word; [by apply od|done]|].
  eapply rtc_l; [right; by eapply r_word|].
  eapply rtc_l; [right; by eapply r_retry|].
  eapply rtc_l; [left; eapply w_word; [by apply od|done]|].
  eapply rtc_l; [left; eapply w_end; [by apply od|done]|].
  eapply rtc_l; [right; by apply (r_even _ 6 [0; 1; 2] [1; 2; 6]%Z)|].
  do 3 (eapply rtc_l; [right; by eapply r_word|]).
  eapply rtc_l; [right; by eapply r_accept|]. cbn. reflexivity.
Qed.

Example seqlock_no_torn_read_witness :
  rd disturbed = RAccept 2 2 [4; 5; 6]%Z /\ published disturbed !! (2 / 2) = Some [4; 5; 6]%Z.
Proof.
  split; [reflexivity|].
  apply (seqlock_no_torn_read [1; 2; 3]%Z 8 disturbed 2 2 [4; 5; 6]%Z disturbed_reachable eq_refl). lia.
Defined.

Lemma undisturbed_sample : exists s', run 0 5 (init [1; 2; 3]%Z 8) s'.
Proof.
  pose proof (run_r _ _ _ _ _ (run_refl (init [1; 2; 3]%Z 8))
    (r_even (init [1; 2; 3]%Z 8) 7 [0; 1; 2] [9; 9; 9]%Z eq_refl eq_refl ltac:(done) eq_refl)) as R.
  do 3 (eapply run_r in R; [|by eapply r_word]).
  eapply run_r in R; [|by eapply r_accept]. by eexists.
Qed.

(** A write of three words, the last one first, and a reader. *)
Example seqlock_progress_witness :
  exists s', run 0 5 (init [1; 2; 3]%Z 8) s' /\ rd s' = RAccept 0 0 [1; 2; 3]%Z.
Proof.
  destruct (seqlock_progress (init [1; 2; 3]%Z 8) [4; 5; 6]%Z [(2, 6%Z); (0, 4%Z); (1, 5%Z)] 7
    (ex_intro _ 0 eq_refl) eq_refl ltac:(unfold words_of; by solve_Permutation) eq_refl) as (_ & _ & _ & Hp & _).
  destruct undisturbed_sample as [s' Hs]. exists s'. split; [exact Hs|]. destruct (Hp _ _ Hs) as (_ & _ & He). by rewrite He.
Defined.
