(* ===== verification/Shmem.v ===== *)
(** * Shared segments of the driver (core/src/common/Protocol.h)

    [InputHealthSnapshotShmem] (a table of seqlocked slots),
    [FaceTrackingFrameShmem] (a ring of seqlocked slots behind a publish index)
    and [DriverPoseShmem] (a ring of poses behind a write index), each with the
    operations of its single writer and of its readers, over an arbitrary body
    type.  [None] for the mapping is a null [pData]. *)

From S2P Require Import Prelude.

(** ** InputHealthSnapshotShmem *)

Section InputHealthShmem.
Context {B : Type}.
Implicit Type (body : B).

Definition INPUTHEALTH_SLOT_COUNT : nat := 256.
Definition IH_SHMEM_MAGIC : Z := 0x494E4848.
Definition IH_SHMEM_VERSION : Z := 2.

Record InputHealthSnapshotSlot := mkIHSlot { ih_generation : Z; ih_body : B }.

Record InputHealthShmem := mkIH {
  ih_magic : Z; ih_version : Z; ih_slot_count : nat; ih_publish_tick : Z;
  ih_slots : list InputHealthSnapshotSlot }.

(** [Create] stamps the header of the mapping and leaves its slots alone. *)
Definition IH_Create (mapped : option InputHealthShmem) : option InputHealthShmem :=
  d ← mapped;
  Some (mkIH IH_SHMEM_MAGIC IH_SHMEM_VERSION INPUTHEALTH_SLOT_COUNT (ih_publish_tick d) (ih_slots d)).

Definition IH_fresh (zero : B) : InputHealthShmem :=
  mkIH 0 0 0 0 (replicate INPUTHEALTH_SLOT_COUNT (mkIHSlot 0 zero)).

Inductive ih_open_error := IHNoMapping | IHMagic (got : Z) | IHVersion (got : Z).

Definition IH_Open (mapped : option InputHealthShmem) : InputHealthShmem + ih_open_error :=
  match mapped with
  | None => inr IHNoMapping
  | Some d =>
    if negb (ih_magic d =? IH_SHMEM_MAGIC)%Z then inr (IHMagic (ih_magic d))
    else if negb (ih_version d =? IH_SHMEM_VERSION)%Z then inr (IHVersion (ih_version d))
    else inl d
  end.

Definition SlotCount (p : option InputHealthShmem) : nat :=
  match p with Some d => ih_slot_count d | None => 0 end.

Definition BumpPublishTick (p : option InputHealthShmem) : option InputHealthShmem :=
  d ← p;
  Some (mkIH (ih_magic d) (ih_version d) (ih_slot_count d) (u64 (ih_publish_tick d + 1)) (ih_slots d)).

Definition LoadPublishTick (p : option InputHealthShmem) : Z :=
  match p with Some d => ih_publish_tick d | None => 0 end.

(** The slot's position, if it may be written. *)
Definition SlotForWrite (index : nat) (p : option InputHealthShmem) : option nat :=
  d ← p; if ih_slot_count d <=? index then None else Some index.

(** The three stores of a write: the mark, the copy of the body, the stamp. *)
Definition mark_slot (prev : Z) (s : InputHealthSnapshotSlot) : InputHealthSnapshotSlot :=
  mkIHSlot (u64 (prev + 1)) (ih_body s).
Definition copy_slot body (s : InputHealthSnapshotSlot) : InputHealthSnapshotSlot :=
  mkIHSlot (ih_generation s) body.
Definition stamp_slot (prev : Z) (s : InputHealthSnapshotSlot) : InputHealthSnapshotSlot :=
  mkIHSlot (u64 (prev + 2)) (ih_body s).

Definition write_slot body (s : InputHealthSnapshotSlot) : InputHealthSnapshotSlot :=
  let prev := ih_generation s in stamp_slot prev (copy_slot body (mark_slot prev s)).

Definition on_slot (f : InputHealthSnapshotSlot -> InputHealthSnapshotSlot) (i : nat) (d : InputHealthShmem) : InputHealthShmem :=
  mkIH (ih_magic d) (ih_version d) (ih_slot_count d) (ih_publish_tick d) (alter f i (ih_slots d)).

(** The segment when the call returns. *)
Definition WriteSlot (index : nat) body (p : option InputHealthShmem) : option InputHealthShmem :=
  d ← p;
  match SlotForWrite index p with
  | None => Some d
  | Some i => Some (on_slot (write_slot body) i d)
  end.

(** The segment while the call copies: the slot is marked, and its body may hold
    any mixture of the old and the new bytes, [torn]. *)
Definition WriteSlot_copying (index : nat) (torn : B) (p : option InputHealthShmem) : option InputHealthShmem :=
  d ← p;
  match SlotForWrite index p with
  | None => Some d
  | Some i => Some (on_slot (fun s => copy_slot torn (mark_slot (ih_generation s) s)) i d)
  end.

(** What one attempt of a reader meets: the segment at its first load of the
    generation, the bytes it copies, the segment at its second load. *)
Record attempt := mkAttempt { at_first : InputHealthShmem; at_copy : B; at_second : InputHealthShmem }.

Definition generation_at (index : nat) (d : InputHealthShmem) : option Z := ih_generation <$> ih_slots d !! index.

(** [attempts]: what each of its [max_retries] attempts meets. *)
Fixpoint TryReadSlot (index : nat) (attempts : list attempt) (p : option InputHealthShmem) : option B :=
  d ← p;
  if ih_slot_count d <=? index then None else
  match attempts with
  | [] => None
  | t :: attempts =>
    g1 ← generation_at index (at_first t);
    if Z.odd g1 then TryReadSlot index attempts p
    else
      g2 ← generation_at index (at_second t);
      if (g1 =? g2)%Z then Some (at_copy t) else TryReadSlot index attempts p
  end.
End InputHealthShmem.
Arguments InputHealthShmem : clear implicits.
Arguments InputHealthSnapshotSlot : clear implicits.
Arguments attempt : clear implicits.

(** ** FaceTrackingFrameShmem *)

Definition HostStateLegacy : Z := 0.
Definition HostStatePublishing : Z := 1.
Definition HostStateIdle : Z := 2.
Definition HostStateDraining : Z := 3.

Section FaceShmem.
Context {F : Type}.

Definition RING_SIZE : nat := 32.
Definition FT_SHMEM_MAGIC : Z := 0x46544652.
Definition FT_SHMEM_VERSION : Z := 3.

Record FaceTrackingFrameSlot := mkFTSlot { ft_generation : Z; ft_body : F }.

Record FaceTrackingFrameShmem := mkFT {
  ft_magic : Z; ft_version : Z; ft_ring_size : nat; ft_host_state : Z;
  ft_heartbeat : Z; ft_publish_index : nat; ft_slots : list FaceTrackingFrameSlot }.

Definition FT_fresh (zero : F) : FaceTrackingFrameShmem :=
  mkFT 0 0 0 HostStateLegacy 0 0 (replicate RING_SIZE (mkFTSlot 0 zero)).

Definition FT_Create (mapped : option FaceTrackingFrameShmem) : option FaceTrackingFrameShmem :=
  d ← mapped;
  Some (mkFT FT_SHMEM_MAGIC FT_SHMEM_VERSION RING_SIZE (ft_host_state d) (ft_heartbeat d)
          (ft_publish_index d) (ft_slots d)).

Inductive ft_open_error := FTNoMapping | FTMagic (got : Z) | FTVersion (got : Z).

Definition FT_Open (mapped : option FaceTrackingFrameShmem) : FaceTrackingFrameShmem + ft_open_error :=
  match mapped with
  | None => inr FTNoMapping
  | Some d =>
    if negb (ft_magic d =? FT_SHMEM_MAGIC)%Z then inr (FTMagic (ft_magic d))
    else if negb (ft_version d =? FT_SHMEM_VERSION)%Z then inr (FTVersion (ft_version d))
    else inl d
  end.

Definition PublishIndex (p : option FaceTrackingFrameShmem) : nat :=
  match p with Some d => ft_publish_index d | None => 0 end.

Definition HostHeartbeatQpc (p : option FaceTrackingFrameShmem) : Z :=
  match p with Some d => ft_heartbeat d | None => 0 end.

Definition HostStateField (p : option FaceTrackingFrameShmem) : Z :=
  match p with Some d => ft_host_state d | None => HostStateLegacy end.

Definition ResetHostLiveness (p : option FaceTrackingFrameShmem) : option FaceTrackingFrameShmem :=
  d ← p;
  Some (mkFT (ft_magic d) (ft_version d) (ft_ring_size d) HostStateLegacy 0
          (ft_publish_index d) (ft_slots d)).

Definition publish_slot (f : F) (s : FaceTrackingFrameSlot) : FaceTrackingFrameSlot :=
  mkFTSlot (u64 (ft_generation s + 2)) f.

(** The slot is finished before the index moves. *)
Definition Publish (f : F) (p : option FaceTrackingFrameShmem) : option FaceTrackingFrameShmem :=
  d ← p;
  let next := ft_publish_index d + 1 in
  Some (mkFT (ft_magic d) (ft_version d) (ft_ring_size d) (ft_host_state d) (ft_heartbeat d)
          next (alter (publish_slot f) ((next - 1) mod RING_SIZE) (ft_slots d))).

Fixpoint read_ft_slot (retries : nat) (s : FaceTrackingFrameSlot) : option F :=
  match retries with
  | 0 => None
  | S k => if Z.odd (ft_generation s) then read_ft_slot k s else Some (ft_body s)
  end.

Definition TryReadLatestWire (max_retries : nat) (p : option FaceTrackingFrameShmem) : option F :=
  d ← p;
  if ft_publish_index d =? 0 then None else
  s ← ft_slots d !! ((ft_publish_index d - 1) mod RING_SIZE);
  read_ft_slot max_retries s.

(** The two halves of [TryReadWireByIndex]: the check of the publish index, and
    the read of the slot, between which the writer may run. *)
Definition index_available (target : nat) (p : option FaceTrackingFrameShmem) : bool :=
  match p with
  | None => false
  | Some d =>
    negb (target =? 0) && (target <=? ft_publish_index d)
    && (ft_publish_index d - target <? RING_SIZE)
  end.

Definition read_index (target max_retries : nat) (p : option FaceTrackingFrameShmem) : option F :=
  d ← p; s ← ft_slots d !! ((target - 1) mod RING_SIZE); read_ft_slot max_retries s.

Definition TryReadWireByIndex (target max_retries : nat) (p : option FaceTrackingFrameShmem) : option F :=
  if index_available target p then read_index target max_retries p else None.
End FaceShmem.
Arguments FaceTrackingFrameShmem : clear implicits.
Arguments FaceTrackingFrameSlot : clear implicits.

(** ** DriverPoseShmem *)

Section PoseShmem.
Context {P : Type}.

Definition BUFFERED_SAMPLES : nat := Z.to_nat (64 * 1024).
Definition k_unMaxTrackedDeviceCount : nat := 64.

Record AugmentedPose := mkAug { sample_time : Z; deviceId : Z; pose : P }.

Record Telemetry := mkTel { fallback_apply_count : Z; per_id_apply_count : Z; quash_apply_count : Z }.

(** The slots written so far; the others are zero. *)
Record PoseShmem := mkPose {
  ps_telemetry : Telemetry; ps_index : nat; ps_poses : gmap nat AugmentedPose }.

Record PoseReader := mkPReader { cursor : nat; lastPose : gmap nat AugmentedPose }.

Context (zero_pose : P).
Definition zero_aug : AugmentedPose := mkAug 0 0 zero_pose.

Definition pose_at (i : nat) (d : PoseShmem) : AugmentedPose :=
  default zero_aug (ps_poses d !! (i mod BUFFERED_SAMPLES)).

(** The argument [index] is an [int] compared as an unsigned number. *)
Definition SetPose (index : Z) (p : P) (now : Z) (d : option PoseShmem) : option PoseShmem :=
  if (Z.of_nat k_unMaxTrackedDeviceCount <=? u32 index)%Z then d else
  s ← d;
  let cur_index := ps_index s + 1 in
  Some (mkPose (ps_telemetry s) cur_index
          (<[cur_index mod BUFFERED_SAMPLES := mkAug now index p]> (ps_poses s))).

(** The poses handed to the callback, and the new cursor. *)
Definition ReadNewPoses (cur : nat) (s : PoseShmem) : list AugmentedPose * nat :=
  let cur_index := ps_index s in
  let start :=
    if (cur_index <? cur) || (BUFFERED_SAMPLES / 2 <? cur_index - cur) then
      if cur_index <? BUFFERED_SAMPLES / 2 then cur_index else cur_index - BUFFERED_SAMPLES / 2
    else cur in
  (map (fun i => pose_at i s) (seq start (cur_index - start)), Nat.max start cur_index).

(** [running_ok]: [poseIsValid] and the result is [Running_OK]. *)
Context (running_ok : P -> bool).

Definition note_pose (r : gmap nat AugmentedPose) (a : AugmentedPose) : gmap nat AugmentedPose :=
  if running_ok (pose a) then <[Z.to_nat (deviceId a) := a]> r else r.

Definition GetPose (index : Z) (r : PoseReader) (s : PoseShmem) : option (P * Z) * PoseReader :=
  let '(ps, cur) := ReadNewPoses (cursor r) s in
  let last := foldl note_pose (lastPose r) ps in
  let r' := mkPReader cur last in
  if (0 <=? index)%Z && (index <? Z.of_nat k_unMaxTrackedDeviceCount)%Z then
    let a := default zero_aug (last !! Z.to_nat index) in (Some (pose a, sample_time a), r')
  else (None, r').
End PoseShmem.
Arguments PoseShmem : clear implicits.
Arguments AugmentedPose : clear implicits.

Inductive TelemetryField := TELEMETRY_FALLBACK_APPLY | TELEMETRY_PER_ID_APPLY | TELEMETRY_QUASH_APPLY.

Definition IncrementTelemetry (f : TelemetryField) (t : Telemetry) : Telemetry :=
  match f with
  | TELEMETRY_FALLBACK_APPLY =>
    mkTel (u64 (fallback_apply_count t + 1)) (per_id_apply_count t) (quash_apply_count t)
  | TELEMETRY_PER_ID_APPLY =>
    mkTel (fallback_apply_count t) (u64 (per_id_apply_count t + 1)) (quash_apply_count t)
  | TELEMETRY_QUASH_APPLY =>
    mkTel (fallback_apply_count t) (per_id_apply_count t) (u64 (quash_apply_count t + 1))
  end.

(** ** The face ring holds the last 32 frames *)

Section FaceRing.
Context {F : Type}.
Implicit Types (d : FaceTrackingFrameShmem F) (fs : list F).

Definition publish_all (fs : list F) (p : option (FaceTrackingFrameShmem F))
  : option (FaceTrackingFrameShmem F) := foldl (fun p f => Publish f p) p fs.

(** [fs] are the frames published so far; frame number [t] counts from 1. *)
Record ring_ok fs d : Prop := {
  rk_index : ft_publish_index d = length fs;
  rk_length : length (ft_slots d) = RING_SIZE;
  rk_even : Forall (fun s => Z.odd (ft_generation s) = false) (ft_slots d);
  rk_frames : forall t f, fs !! t = Some f -> length fs - t <= RING_SIZE ->
    exists g, ft_slots d !! (t mod RING_SIZE) = Some (mkFTSlot g f) }.

Lemma u64_odd z : Z.odd (u64 z) = Z.odd z.
Proof. unfold u64. by rewrite <-!Z.bit0_odd, Z.mod_pow2_bits_low by lia. Qed.

Lemma mod_ne t n c : t < n -> n - t < c -> t mod c <> n mod c.
Proof.
  intros H1 H2 E. pose proof (Nat.div_mod_eq t c). pose proof (Nat.div_mod_eq n c).
  assert (c * (n / c - t / c) = n - t) by nia.
  destruct (n / c - t / c) as [|k] eqn:Ek; nia.
Qed.

Lemma Publish_ok fs d f d' :
  ring_ok fs d -> Publish f (Some d) = Some d' -> ring_ok (fs ++ [f]) d'.
Proof.
  intros [Hi Hl He Hf]. unfold Publish. cbn [mbind option_bind]. intros [= <-].
  rewrite Nat.add_sub, Hi. constructor; cbn [ft_publish_index ft_slots].
  - by rewrite length_app.
  - by rewrite length_alter.
  - apply Forall_alter; [done|]. intros s _ Hs. cbn. by rewrite u64_odd, Z.odd_add, Hs.
  - intros t g Ht Hn. rewrite length_app in Hn. cbn [length] in Hn.
    pose proof (Nat.mod_upper_bound t RING_SIZE ltac:(done)).
    destruct (decide (t = length fs)) as [->|Hne].
    + rewrite lookup_app_r, Nat.sub_diag in Ht by done. injection Ht as <-.
      rewrite list_lookup_alter_eq.
      destruct (lookup_lt_is_Some_2 (ft_slots d) (length fs mod RING_SIZE)) as [s ->]; [by rewrite Hl|].
      cbn. by eexists.
    + assert (t < length fs) as Hlt.
      { apply lookup_lt_Some in Ht. rewrite length_app in Ht. cbn [length] in Ht. lia. }
      rewrite lookup_app_l in Ht by done.
      rewrite list_lookup_alter_ne by (apply not_eq_sym, mod_ne; lia).
      apply Hf; [done|lia].
Qed.

Lemma publish_all_ok fs0 fs d :
  ring_ok fs0 d -> exists d', publish_all fs (Some d) = Some d' /\ ring_ok (fs0 ++ fs) d'.
Proof.
  revert fs0 d. induction fs as [|f fs IH]; intros fs0 d Hd.
  { exists d. by rewrite app_nil_r. }
  destruct (Publish f (Some d)) as [d1|] eqn:E; [|done].
  destruct (IH (fs0 ++ [f]) d1) as (d' & H1 & H2); [by eapply Publish_ok|].
  exists d'. rewrite <-app_assoc in H2. split; [|done].
  unfold publish_all in *. cbn [foldl]. by rewrite E.
Qed.

Lemma fresh_ring_ok (zero : F) d : FT_Create (Some (FT_fresh zero)) = Some d -> ring_ok [] d.
Proof.
  intros H. assert (ft_slots d = replicate RING_SIZE (mkFTSlot 0 zero) /\ ft_publish_index d = 0)
    as [E1 E2] by (by injection H as <-).
  constructor; rewrite ?E1; try done.
  by apply Forall_replicate.
Qed.

Lemma read_even k (s : FaceTrackingFrameSlot F) :
  Z.odd (ft_generation s) = false -> read_ft_slot (S k) s = Some (ft_body s).
Proof. intros H. cbn [read_ft_slot]. by rewrite H. Qed.

Lemma ring_lookup fs d t f k :
  ring_ok fs d -> fs !! t = Some f -> length fs - t <= RING_SIZE ->
  (s ← ft_slots d !! (t mod RING_SIZE); read_ft_slot (S k) s) = Some f.
Proof.
  intros [_ _ He Hf] Ht Hn. destruct (Hf t f Ht Hn) as [g Hg]. rewrite Hg.
  cbn [mbind option_bind]. rewrite read_even; [done|].
  eapply Forall_lookup_1 in He; [|exact Hg]. done.
Qed.
End FaceRing.

(** ** Properties *)

(** After any sequence of frames published into a fresh ring, the latest
    read returns the last of them, and a read by index returns exactly frame
    [t] when [t] is one of the last 32, and nothing otherwise. *)
Theorem face_ring_history {F} (zero : F) (fs : list F) (t k : nat) :
  let p := publish_all fs (FT_Create (Some (FT_fresh zero))) in
  TryReadLatestWire (S k) p = fs !! (length fs - 1) /\
  TryReadWireByIndex t (S k) p =
    (if negb (t =? 0) && (t <=? length fs) && (length fs - t <? RING_SIZE)
     then fs !! (t - 1) else None).
Proof.
  cbv zeta. destruct (FT_Create (Some (FT_fresh zero))) as [d|] eqn:E; [|done].
  destruct (publish_all_ok [] fs d (fresh_ring_ok zero d E)) as (d' & -> & Hd). cbn [app] in Hd.
  pose proof Hd as [Hi _ _ _]. split.
  - unfold TryReadLatestWire. cbn [mbind option_bind]. rewrite Hi.
    destruct fs as [|f fs] using rev_ind; [done|].
    rewrite length_app, Nat.add_sub. cbn [length].
    rewrite (proj2 (Nat.eqb_neq _ _)), list_lookup_middle by lia.
    apply (ring_lookup _ d' (length fs) f k Hd); [by apply list_lookup_middle|].
    rewrite length_app. cbn [length]. unfold RING_SIZE. lia.
  - unfold TryReadWireByIndex, index_available. rewrite Hi.
    destruct (Nat.eqb_spec t 0) as [->|Hne]; [done|]. cbn [negb andb].
    destruct (Nat.leb_spec t (length fs)) as [Hle|]; [|done]. cbn [andb].
    destruct (Nat.ltb_spec (length fs - t) RING_SIZE) as [Hlt|]; [|done].
    destruct (lookup_lt_is_Some_2 fs (t - 1)) as [f Hf]; [lia|]. rewrite Hf.
    apply (ring_lookup _ d' (t - 1) f k Hd); [done|]. unfold RING_SIZE in *. lia.
Qed.

(** The availability check and the read of a slot are not one step: when
    the writer publishes enough frames in between to reuse the slot, the read
    still succeeds and returns a later frame than the one asked for. *)
Theorem face_ring_stale_index {F} (zero : F) (fs more : list F) (t k : nat)
  (Hav : index_available t (publish_all fs (FT_Create (Some (FT_fresh zero)))) = true)
  (Hlap : t + RING_SIZE <= length (fs ++ more)) :
  exists t', t < t' /\ (t' - t) mod RING_SIZE = 0 /\
    read_index t (S k) (publish_all more (publish_all fs (FT_Create (Some (FT_fresh zero)))))
    = (fs ++ more) !! (t' - 1) /\ is_Some ((fs ++ more) !! (t' - 1)).
Proof.
  destruct (FT_Create (Some (FT_fresh zero))) as [d|] eqn:E; [|done].
  destruct (publish_all_ok [] fs d (fresh_ring_ok zero d E)) as (d1 & H1 & Hd1). cbn [app] in Hd1.
  rewrite H1 in *. destruct (publish_all_ok fs more d1 Hd1) as (d2 & H2 & Hd2). rewrite H2.
  unfold index_available in Hav. bool_prop.
  set (n := length (fs ++ more)) in *. set (q := (n - t) / RING_SIZE).
  pose proof (Nat.div_mod_eq (n - t) RING_SIZE) as Hdm. fold q in Hdm.
  pose proof (Nat.mod_upper_bound (n - t) RING_SIZE ltac:(done)) as Hub.
  assert (1 <= q) as Hq by (apply Nat.div_le_lower_bound; unfold RING_SIZE in *; lia).
  exists (t + q * RING_SIZE).
  replace (t + q * RING_SIZE - t) with (q * RING_SIZE) by lia.
  assert (t + q * RING_SIZE - 1 < n) as Hlt by lia.
  destruct (lookup_lt_is_Some_2 (fs ++ more) (t + q * RING_SIZE - 1)) as [f Hf]; [exact Hlt|].
  split_and!; [unfold RING_SIZE; lia|apply Nat.Div0.mod_mul| |by eexists].
  unfold read_index. cbn [mbind option_bind].
  replace ((t - 1) mod RING_SIZE) with ((t + q * RING_SIZE - 1) mod RING_SIZE).
  - rewrite Hf. apply (ring_lookup _ d2 _ f k Hd2 Hf). fold n. lia.
  - replace (t + q * RING_SIZE - 1) with (t - 1 + q * RING_SIZE) by lia. apply Nat.Div0.mod_add.
Qed.

Example face_ring_stale_index_witness :
  exists t', 1 < t' /\
    read_index 1 8 (publish_all (seq 2 32) (publish_all [1] (FT_Create (Some (FT_fresh 0)))))
    = ([1] ++ seq 2 32) !! (t' - 1) /\ is_Some (([1] ++ seq 2 32) !! (t' - 1)).
Proof.
  destruct (face_ring_stale_index 0 [1] (seq 2 32) 1 7) as (t' & H1 & _ & H2 & H3);
    [reflexivity|apply (proj1 (Nat.leb_le _ _)); reflexivity|].
  exists t'. split; [exact H1|]. split; [exact H2|exact H3].
Defined.

(** *** The pose ring *)

Lemma BUFFERED_pos : 0 < BUFFERED_SAMPLES.
Proof. unfold BUFFERED_SAMPLES. lia. Qed.

Lemma BUFFERED_half : 2 < BUFFERED_SAMPLES / 2 < BUFFERED_SAMPLES.
Proof.
  split; [|apply Nat.div_lt; [apply BUFFERED_pos|lia]].
  apply (Nat.lt_le_trans _ 4); [lia|]. apply Nat.div_le_lower_bound; unfold BUFFERED_SAMPLES; lia.
Qed.

#[local] Opaque BUFFERED_SAMPLES.

(** A history of valid [SetPose] calls. *)
Definition set_all {P} (hs : list (nat * P * Z)) (d : option (PoseShmem P)) : option (PoseShmem P) :=
  foldl (fun d h => SetPose (Z.of_nat h.1.1) h.1.2 h.2 d) d hs.

Definition aug_of {P} (h : nat * P * Z) : AugmentedPose P := mkAug h.2 (Z.of_nat h.1.1) h.1.2.

Definition pose_fresh {P} : PoseShmem P := mkPose (mkTel 0 0 0) 0 ∅.

Definition poses_ok {P} (zero : P) (hs : list (nat * P * Z)) (d : PoseShmem P) : Prop :=
  ps_index d = length hs /\
  forall i, i <= length hs -> length hs - i < BUFFERED_SAMPLES ->
    pose_at zero i d = nth i (zero_aug zero :: map aug_of hs) (zero_aug zero).

Lemma SetPose_ok {P} (zero : P) hs h d :
  length hs + 1 < BUFFERED_SAMPLES -> h.1.1 < k_unMaxTrackedDeviceCount -> poses_ok zero hs d ->
  exists d', SetPose (Z.of_nat h.1.1) h.1.2 h.2 (Some d) = Some d' /\ poses_ok zero (hs ++ [h]) d'.
Proof.
  intros Hn Hh [Hi Hp]. unfold SetPose. unfold k_unMaxTrackedDeviceCount in *.
  rewrite u32_small, (proj2 (Z.leb_gt _ _)) by lia. cbn [mbind option_bind].
  eexists. split; [reflexivity|]. split; [cbn; rewrite length_app; simpl; lia|].
  intros i Hle Hlt. rewrite length_app in *. cbn [length] in *.
  unfold pose_at. cbn [ps_poses]. rewrite Hi.
  rewrite !Nat.mod_small by (lia || (rewrite Hi; lia)).
  destruct (decide (i = length hs + 1)) as [->|Hne].
  - rewrite lookup_insert_eq. cbn [default]. rewrite Nat.add_1_r. cbn [nth].
    rewrite map_app, app_nth2 by (rewrite length_map; lia).
    rewrite length_map, Nat.sub_diag. by destruct h as [[? ?] ?].
  - rewrite lookup_insert_ne by lia. specialize (Hp i ltac:(lia) ltac:(lia)).
    unfold pose_at in Hp. rewrite Nat.mod_small in Hp by lia. rewrite Hp.
    destruct i as [|i]; [done|]. cbn [nth]. rewrite map_app, app_nth1; [done|]. rewrite length_map. lia.
Qed.

Lemma set_all_ok {P} (zero : P) hs hs0 d :
  length hs0 + length hs < BUFFERED_SAMPLES -> Forall (fun h => h.1.1 < k_unMaxTrackedDeviceCount) hs ->
  poses_ok zero hs0 d ->
  exists d', set_all hs (Some d) = Some d' /\ poses_ok zero (hs0 ++ hs) d'.
Proof.
  intros Hn Hhs. revert hs0 d Hn. induction Hhs as [|h hs Hh _ IH]; intros hs0 d Hn Hd.
  { exists d. by rewrite app_nil_r. }
  cbn [length] in Hn. destruct (SetPose_ok zero hs0 h d ltac:(lia) Hh Hd) as (d1 & H1 & Hd1).
  destruct (IH (hs0 ++ [h]) d1) as (d' & H2 & Hd2); [rewrite length_app; simpl; lia|done|].
  exists d'. rewrite <-app_assoc in Hd2. split; [|done].
  unfold set_all in *. cbn [foldl]. by rewrite H1.
Qed.

(** The pose writer fills slot [index + 1] before it moves the index while
    the reader stops short of the index: after [n] poses (up to half the ring) a
    fresh reader is handed the never-written slot 0 and the first [n - 1] poses,
    and the newest pose only reaches it with the next one. *)
Theorem newest_pose_withheld {P} (zero : P) hs
  (Hn : length hs <= BUFFERED_SAMPLES / 2)
  (Hids : Forall (fun h => h.1.1 < k_unMaxTrackedDeviceCount) hs) :
  exists d, set_all hs (Some pose_fresh) = Some d /\
    ReadNewPoses zero 0 d =
      (take (length hs) (zero_aug zero :: map aug_of hs), length hs).
Proof.
  pose proof BUFFERED_half as Hb. pose proof BUFFERED_pos as Hb'.
  destruct (set_all_ok zero hs [] pose_fresh) as (d & H1 & Hi & Hp); [simpl; lia|done| |].
  { split; [done|]. intros i Hi _. cbn [length] in Hi. destruct i; [|lia].
    unfold pose_at. cbn [ps_poses pose_fresh]. by rewrite lookup_empty. }
  exists d. split; [done|]. unfold ReadNewPoses. rewrite Hi in *. cbn [app] in *.
  rewrite Nat.sub_0_r. rewrite (proj2 (Nat.ltb_ge (length hs) 0)), (proj2 (Nat.ltb_ge (BUFFERED_SAMPLES / 2) _)) by lia.
  cbn [orb]. rewrite Nat.sub_0_r, Nat.max_r by lia. f_equal.
  apply list_eq_same_length with (length hs);
    [rewrite length_take; simpl; rewrite length_map; lia|by rewrite length_map, length_seq|].
  intros i x y Hlt Hx Hy.
  assert (x = pose_at zero i d) as ->.
  { change (map ?f ?l) with (f <$> l) in Hx. rewrite list_lookup_fmap, lookup_seq_lt in Hx by done.
    by injection Hx. }
  rewrite Hp by lia. rewrite lookup_take_lt in Hy by done. by apply nth_lookup_Some.
Qed.

Example newest_pose_withheld_witness :
  exists d, set_all [(3, 10%Z, 100%Z); (3, 20%Z, 200%Z)] (Some pose_fresh) = Some d /\
    ReadNewPoses 0%Z 0 d = ([mkAug 0 0 0%Z; mkAug 100 3 10%Z], 2).
Proof.
  destruct (newest_pose_withheld 0%Z [(3, 10%Z, 100%Z); (3, 20%Z, 200%Z)]) as (d & H1 & H2).
  - pose proof BUFFERED_half. simpl length. lia.
  - repeat constructor; unfold k_unMaxTrackedDeviceCount; simpl; lia.
  - exists d. split; [exact H1|exact H2].
Defined.
