(* ===== verification/OscStats.v ===== *)
(** * OSC router statistics segment (OscRouterStatsShmem, core/src/common/Protocol.h)

    The shared segment as the driver creates it, the counters and the per-route
    slots, with each operation as one step of the single writer.  What a
    concurrent reader can observe in the middle of [WriteRoute] is the subject of
    the seqlock development. *)

From S2P Require Import Prelude.

(** ** Layout *)

Definition OSC_ROUTER_ROUTE_SLOTS : nat := 32.
Definition OSC_ROUTE_ADDR_LEN : nat := 64.
Definition SUBSCRIBER_LEN : nat := 32.
Definition SHMEM_MAGIC : Z := 0xC5C7057C.
Definition SHMEM_VERSION : Z := 1.

(** Character arrays are their bytes, stale bytes behind the NUL included. *)
Record OscRouterRouteSlot := mkSlot {
  generation : Z;
  address_pattern : list byte;
  slot_subscriber : list byte;
  match_count : Z;
  drop_count : Z;
  last_match_tick : Z;
  active : Z }.

Record ShmemData := mkShmem {
  magic : Z;
  shmem_version : Z;
  packets_sent : Z;
  bytes_sent : Z;
  packets_dropped : Z;
  routes : list OscRouterRouteSlot }.

Definition zero_slot : OscRouterRouteSlot :=
  mkSlot 0 (replicate OSC_ROUTE_ADDR_LEN x00) (replicate SUBSCRIBER_LEN x00) 0 0 0 0.

(** A fresh mapping is all zeros; [Create] stamps the header of whatever mapping
    it gets ([mapped]), which is a fresh one unless the segment still exists. *)
Definition fresh_mapping : ShmemData :=
  mkShmem 0 0 0 0 0 (replicate OSC_ROUTER_ROUTE_SLOTS zero_slot).

Definition Create (mapped : option ShmemData) : option ShmemData :=
  match mapped with
  | None => None
  | Some d => Some (mkShmem SHMEM_MAGIC SHMEM_VERSION (packets_sent d) (bytes_sent d)
                      (packets_dropped d) (routes d))
  end.

(** The exceptions [Open] throws. *)
Inductive open_error := NoMapping | MagicMismatch (got : Z) | VersionMismatch (got : Z).

Definition Open (mapped : option ShmemData) : ShmemData + open_error :=
  match mapped with
  | None => inr NoMapping
  | Some d =>
    if negb (magic d =? SHMEM_MAGIC)%Z then inr (MagicMismatch (magic d))
    else if negb (shmem_version d =? SHMEM_VERSION)%Z then inr (VersionMismatch (shmem_version d))
    else inl d
  end.

(** ** The writer's operations.  [None] is a null [pData]. *)

Definition AddSent (bytes : Z) (p : option ShmemData) : option ShmemData :=
  d ← p;
  Some (mkShmem (magic d) (shmem_version d) (u64 (packets_sent d + 1))
          (u64 (bytes_sent d + bytes)) (packets_dropped d) (routes d)).

Definition AddDropped (p : option ShmemData) : option ShmemData :=
  d ← p;
  Some (mkShmem (magic d) (shmem_version d) (packets_sent d) (bytes_sent d)
          (u64 (packets_dropped d + 1)) (routes d)).

(** The destination keeps its bytes behind the NUL written.  [None] is a null
    [src]. *)
Definition CopyStrField (dst : list byte) (src : option (list byte)) : list byte :=
  match src with
  | None => x00 :: drop 1 dst
  | Some s => let c := copy_field (length dst) s in c ++ x00 :: drop (S (length c)) dst
  end.

Definition WriteSlotBody (pattern subscriber : list byte) (m dr tick : Z) (act : bool)
    (s : OscRouterRouteSlot) : OscRouterRouteSlot :=
  mkSlot (u64 (generation s + 2))
         (CopyStrField (address_pattern s) (Some pattern))
         (CopyStrField (slot_subscriber s) (Some subscriber))
         m dr tick (if act then 1%Z else 0%Z).

Definition WriteRoute (index : nat) (pattern subscriber : list byte) (m dr tick : Z)
    (act : bool) (p : option ShmemData) : option ShmemData :=
  d ← p;
  if OSC_ROUTER_ROUTE_SLOTS <=? index then Some d else
  Some (mkShmem (magic d) (shmem_version d) (packets_sent d) (bytes_sent d) (packets_dropped d)
          (alter (WriteSlotBody pattern subscriber m dr tick act) index (routes d))).

(** ** The reader's operations *)

Record OscRouterStats := mkStats {
  st_packets_sent : Z; st_bytes_sent : Z; st_packets_dropped : Z; st_active_routes : Z }.

Definition active_slots (d : ShmemData) : nat :=
  length (filter (fun s => active s <> 0%Z) (take OSC_ROUTER_ROUTE_SLOTS (routes d))).

Definition ReadGlobalStats (p : option ShmemData) : option OscRouterStats :=
  d ← p;
  Some (mkStats (packets_sent d) (bytes_sent d) (packets_dropped d) (Z.of_nat (active_slots d))).

(** With no writer running the loop of [TryReadRoute] either accepts at once or
    exhausts its retries on an odd generation. *)
Fixpoint TryReadRoute (index max_retries : nat) (p : option ShmemData) : option OscRouterRouteSlot :=
  d ← p;
  if OSC_ROUTER_ROUTE_SLOTS <=? index then None else
  s ← routes d !! index;
  match max_retries with
  | 0 => None
  | S k => if Z.odd (generation s) then TryReadRoute index k p else Some s
  end.

(** ** Well-formed segments *)

Definition slot_wf (s : OscRouterRouteSlot) : Prop :=
  length (address_pattern s) = OSC_ROUTE_ADDR_LEN /\
  length (slot_subscriber s) = SUBSCRIBER_LEN /\ Z.even (generation s) = true.

Definition shmem_wf (d : ShmemData) : Prop :=
  length (routes d) = OSC_ROUTER_ROUTE_SLOTS /\ Forall slot_wf (routes d).

Lemma CopyStrField_length dst s : 0 < length dst -> length (CopyStrField dst s) = length dst.
Proof.
  intros H. destruct s as [s|]; simpl; [|rewrite length_drop; lia].
  pose proof (copy_field_length (length dst) s H).
  rewrite length_app. cbn [length]. rewrite length_drop. lia.
Qed.

Lemma CopyStrField_cstr dst s : cstr (CopyStrField dst (Some s)) = copy_field (length dst) s.
Proof. apply cstr_app_nul. auto with wk. Qed.

Lemma u64_even z : Z.even (u64 z) = Z.even z.
Proof.
  unfold u64. rewrite (Z.div_mod z (2 ^ 64)) at 2 by lia.
  rewrite Z.even_add, Z.even_mul. change (Z.even (2 ^ 64)) with true.
  simpl. by destruct (Z.even _).
Qed.

Lemma WriteSlotBody_wf p s m dr t a sl : slot_wf sl -> slot_wf (WriteSlotBody p s m dr t a sl).
Proof.
  unfold slot_wf, WriteSlotBody, OSC_ROUTE_ADDR_LEN, SUBSCRIBER_LEN.
  intros (Ha & Hs & Hg).
  cbn [address_pattern slot_subscriber generation].
  rewrite !CopyStrField_length by lia. split_and!; [done..|].
  rewrite u64_even, Z.even_add, Hg. done.
Qed.

Lemma WriteRoute_wf i p s m dr t a d d' :
  shmem_wf d -> WriteRoute i p s m dr t a (Some d) = Some d' -> shmem_wf d'.
Proof.
  intros [Hl Hw]. unfold WriteRoute. cbn [mbind option_bind].
  case_match; intros [= <-]; [done|]. split; cbn [routes]; [by rewrite length_alter|].
  apply Forall_alter; [done|]. intros sl Hsl _. apply WriteSlotBody_wf.
  by eapply Forall_lookup_1 in Hw.
Qed.

(** A slot just written reads back, whatever the number of retries. *)
Lemma TryReadRoute_write i p s m dr t a d d' sl k :
  shmem_wf d -> routes d !! i = Some sl ->
  WriteRoute i p s m dr t a (Some d) = Some d' ->
  TryReadRoute i (S k) (Some d') = Some (WriteSlotBody p s m dr t a sl).
Proof.
  intros [Hl Hw] Hi. pose proof (lookup_lt_Some _ _ _ Hi) as Hlt.
  unfold WriteRoute. cbn [mbind option_bind].
  rewrite (proj2 (Nat.leb_gt _ _)) by lia. intros [= <-].
  cbn [TryReadRoute mbind option_bind routes]. rewrite (proj2 (Nat.leb_gt _ _)) by lia.
  rewrite list_lookup_alter_eq, Hi. cbn [fmap option_fmap option_map option_bind].
  pose proof (WriteSlotBody_wf p s m dr t a sl) as Hb.
  destruct Hb as (_ & _ & Hb); [by eapply Forall_lookup_1 in Hw|].
  cbn [mbind option_bind]. rewrite <-Z.negb_even. by rewrite Hb.
Qed.
