(* ===== verification/RouteTable.v ===== *)
(** * The OSC route table (modules/oscrouter/src/driver/RouteTable.{h,cpp})

    The flat table of 32 entries with its operations, and its abstract
    specification: a finite map from subscriber ids to routes, which the table
    refines. *)

From S2P Require Import Prelude OscPattern OscStats.

Definition kMaxRoutes : nat := OSC_ROUTER_ROUTE_SLOTS.

Record RouteEntry := mkEntry {
  subscriber_id : Z;
  pattern : list byte;
  subscriber_label : list byte;
  e_match : Z;
  e_drop : Z;
  e_tick : Z;
  e_active : bool }.

Abbreviation RouteTable := (list RouteEntry) (only parsing).

(** Inactive entries are never read, so their other members may be anything. *)
Definition empty_entry : RouteEntry := mkEntry 0 [] [] 0 0 0 false.
Definition RouteTable_new : RouteTable := replicate kMaxRoutes empty_entry.

Definition FindSlot (id : Z) (t : RouteTable) : option nat :=
  fst <$> list_find (fun e => e_active e = true /\ subscriber_id e = id) t.

Definition FindFreeSlot (t : RouteTable) : option nat :=
  fst <$> list_find (fun e => e_active e = false) t.

(** The fields keep [copy_field] of their arguments: the copy loops stop at the
    NUL or one byte before the end of the array. *)
Definition new_entry (id : Z) (pat label : list byte) : RouteEntry :=
  mkEntry id (copy_field OSC_ROUTE_ADDR_LEN pat) (copy_field 32 label) 0 0 0 true.

Definition Subscribe (id : Z) (pat label : list byte) (t : RouteTable) : bool * RouteTable :=
  match FindSlot id t with
  | Some i => (true, <[i := new_entry id pat label]> t)
  | None => match FindFreeSlot t with
            | Some i => (true, <[i := new_entry id pat label]> t)
            | None => (false, t)
            end
  end.

Definition deactivate (e : RouteEntry) : RouteEntry :=
  mkEntry (subscriber_id e) (pattern e) (subscriber_label e) (e_match e) (e_drop e) (e_tick e) false.

Definition Unsubscribe (id : Z) (t : RouteTable) : RouteTable :=
  match FindSlot id t with
  | Some i => alter deactivate i t
  | None => t
  end.

Definition matches (address : list byte) (e : RouteEntry) : bool :=
  OscPatternMatch (Some (pattern e)) (Some address).

Definition bump_match (tick : Z) (e : RouteEntry) : RouteEntry :=
  mkEntry (subscriber_id e) (pattern e) (subscriber_label e)
    (u64 (e_match e + 1)) (e_drop e) tick (e_active e).

Definition bump_drop (e : RouteEntry) : RouteEntry :=
  mkEntry (subscriber_id e) (pattern e) (subscriber_label e)
    (e_match e) (u64 (e_drop e + 1)) (e_tick e) (e_active e).

(** The loop, with [matched_out] threaded through. *)
Fixpoint Dispatch (address : list byte) (tick : Z) (t : RouteTable) : bool * RouteTable :=
  match t with
  | [] => (false, [])
  | e :: t' =>
    let '(m, t'') := Dispatch address tick t' in
    if negb (e_active e) then (m, e :: t'')
    else if matches address e then (true, bump_match tick e :: t'')
    else (m, e :: t'')
  end.

Definition drop_entry (address : list byte) (e : RouteEntry) : RouteEntry :=
  if e_active e && matches address e then bump_drop e else e.

Definition BumpDropCount (address : list byte) (t : RouteTable) : RouteTable :=
  map (drop_entry address) t.

(** The counters of an inactive slot are uninitialised stack memory in the
    source: [junk i] is what they happen to hold. *)
Definition publish_slot (junk : nat -> Z * Z * Z) (i : nat) (e : RouteEntry)
    (shm : option ShmemData) : option ShmemData :=
  if e_active e
  then WriteRoute i (pattern e) (subscriber_label e) (e_match e) (e_drop e) (e_tick e) true shm
  else let '(m, d, k) := junk i in WriteRoute i [] [] m d k false shm.

Fixpoint PublishFrom (junk : nat -> Z * Z * Z) (i : nat) (t : RouteTable)
    (shm : option ShmemData) : option ShmemData :=
  match t with
  | [] => shm
  | e :: t' => PublishFrom junk (S i) t' (publish_slot junk i e shm)
  end.

Definition PublishToShmem (junk : nat -> Z * Z * Z) (t : RouteTable)
    (shm : option ShmemData) : option ShmemData := PublishFrom junk 0 t shm.

Definition ActiveCount (t : RouteTable) : nat := length (filter (fun e => e_active e = true) t).

(** ** Abstract specification: a map from subscriber ids to routes *)

Record route := mkRoute {
  r_pattern : list byte; r_label : list byte; r_match : Z; r_drop : Z; r_tick : Z }.

Definition route_of (e : RouteEntry) : route :=
  mkRoute (pattern e) (subscriber_label e) (e_match e) (e_drop e) (e_tick e).

Definition routes_of (t : RouteTable) : list (Z * route) :=
  map (fun e => (subscriber_id e, route_of e)) (filter (fun e => e_active e = true) t).

Definition view (t : RouteTable) : gmap Z route := list_to_map (routes_of t).

Definition route_matches (address : list byte) (r : route) : bool :=
  OscPatternMatch (Some (r_pattern r)) (Some address).

Definition spec_match (address : list byte) (tick : Z) (r : route) : route :=
  if route_matches address r
  then mkRoute (r_pattern r) (r_label r) (u64 (r_match r + 1)) (r_drop r) tick
  else r.

Definition spec_drop (address : list byte) (r : route) : route :=
  if route_matches address r
  then mkRoute (r_pattern r) (r_label r) (r_match r) (u64 (r_drop r + 1)) (r_tick r)
  else r.

(** ** Invariant *)

Definition unique_ids (t : RouteTable) : Prop := NoDup (routes_of t).*1.

Definition entry_ok (e : RouteEntry) : Prop :=
  nul_free (pattern e) /\ length (pattern e) < OSC_ROUTE_ADDR_LEN /\
  nul_free (subscriber_label e) /\ length (subscriber_label e) < 32.

Definition table_ok (t : RouteTable) : Prop :=
  length t = kMaxRoutes /\ unique_ids t /\ Forall entry_ok t.

(** ** Lemmas *)

Lemma routes_of_app t1 t2 : routes_of (t1 ++ t2) = routes_of t1 ++ routes_of t2.
Proof. unfold routes_of. by rewrite list.filter_app, map_app. Qed.

Lemma routes_of_cons e t :
  routes_of (e :: t) = (if e_active e then [(subscriber_id e, route_of e)] else []) ++ routes_of t.
Proof.
  unfold routes_of. destruct (e_active e) eqn:E.
  - by rewrite filter_cons_True.
  - rewrite filter_cons_False by congruence. done.
Qed.

(** The table around one of its entries. *)
Lemma split_at (t : RouteTable) i e :
  t !! i = Some e ->
  exists l r, t = l ++ e :: r /\ length l = i /\
    (forall e', <[i := e']> t = l ++ e' :: r).
Proof.
  intros H. pose proof (take_drop_middle t i e H) as Ht.
  pose proof (lookup_lt_Some _ _ _ H).
  assert (length (take i t) = i) as Hl by (rewrite length_take; lia).
  exists (take i t), (drop (S i) t). split_and!; [done|done|].
  intros e'. rewrite <-Ht at 1.
  replace i with (length (take i t) + 0) at 1 by lia. by rewrite insert_app_r.
Qed.

Lemma FindSlot_Some id t i :
  FindSlot id t = Some i ->
  exists e, t !! i = Some e /\ e_active e = true /\ subscriber_id e = id.
Proof.
  unfold FindSlot. intros ([j e] & H & ->)%fmap_Some.
  apply list_find_Some in H as (? & [] & _). eauto.
Qed.

Lemma FindSlot_None id t : FindSlot id t = None -> id ∉ (routes_of t).*1.
Proof.
  unfold FindSlot. intros H%fmap_None%list_find_None.
  induction H as [|e t He _ IH]; [apply not_elem_of_nil|].
  rewrite routes_of_cons, fmap_app, elem_of_app. intros [Hin|]; [|done].
  destruct (e_active e); simpl in Hin; [|by apply elem_of_nil in Hin].
  apply list_elem_of_singleton in Hin. naive_solver.
Qed.

Lemma FindFreeSlot_Some t i :
  FindFreeSlot t = Some i -> exists e, t !! i = Some e /\ e_active e = false.
Proof.
  unfold FindFreeSlot. intros ([j e] & H & ->)%fmap_Some.
  apply list_find_Some in H as (? & ? & _). eauto.
Qed.

Lemma FindFreeSlot_None t : FindFreeSlot t = None -> ActiveCount t = length t.
Proof.
  unfold FindFreeSlot, ActiveCount. intros H%fmap_None%list_find_None.
  induction H as [|e t He _ IH]; [done|].
  rewrite filter_cons_True by (by destruct (e_active e)). simpl. by rewrite IH.
Qed.

Lemma ActiveCount_routes t : ActiveCount t = length (routes_of t).
Proof. unfold ActiveCount, routes_of. by rewrite length_map. Qed.

Lemma ActiveCount_free t i e :
  t !! i = Some e -> e_active e = false -> ActiveCount t < length t.
Proof.
  intros H He. destruct (split_at t i e H) as (l & r & -> & _).
  rewrite ActiveCount_routes, routes_of_app, routes_of_cons, He. cbn [app].
  unfold routes_of. rewrite !length_app, !length_map. cbn [length].
  pose proof (length_filter (fun e => e_active e = true) l).
  pose proof (length_filter (fun e => e_active e = true) r). lia.
Qed.

(** An active entry is the map's binding of its id; an inactive one is nothing. *)
Lemma routes_of_middle l e r :
  routes_of (l ++ e :: r) ≡ₚ
  (if e_active e then [(subscriber_id e, route_of e)] else []) ++ routes_of (l ++ r).
Proof.
  rewrite !routes_of_app, routes_of_cons. destruct (e_active e); cbn [app]; [|done].
  by rewrite <-Permutation_middle.
Qed.

Lemma ids_middle l e r :
  (routes_of (l ++ e :: r)).*1 ≡ₚ
  (if e_active e then [subscriber_id e] else []) ++ (routes_of (l ++ r)).*1.
Proof.
  etrans; [apply (fmap_Permutation fst _ _ (routes_of_middle l e r))|].
  by destruct (e_active e).
Qed.

Lemma unique_middle l e r :
  unique_ids (l ++ e :: r) <->
  unique_ids (l ++ r) /\ (e_active e = true -> subscriber_id e ∉ (routes_of (l ++ r)).*1).
Proof.
  unfold unique_ids. rewrite ids_middle.
  destruct (e_active e); cbn [app]; [|naive_solver].
  rewrite list.NoDup_cons. naive_solver.
Qed.

Lemma view_middle l e r :
  unique_ids (l ++ e :: r) ->
  view (l ++ e :: r) =
  (if e_active e then <[subscriber_id e := route_of e]> (view (l ++ r)) else view (l ++ r)).
Proof.
  intros Hu. unfold view. rewrite (list_to_map_proper _ _ Hu (routes_of_middle l e r)).
  by destruct (e_active e).
Qed.

Lemma view_fresh id t : id ∉ (routes_of t).*1 -> view t !! id = None.
Proof. apply not_elem_of_list_to_map_1. Qed.

Lemma ActiveCount_size t : unique_ids t -> ActiveCount t = size (view t).
Proof. intros. rewrite ActiveCount_routes. unfold view. by rewrite map_size_list_to_map. Qed.

(** A table whose entries are replaced one by one, ids and flags kept. *)
Lemma view_fmap (f : RouteEntry -> RouteEntry) (g : route -> route) t :
  (forall e, subscriber_id (f e) = subscriber_id e /\ e_active (f e) = e_active e) ->
  (forall e, e_active e = true -> route_of (f e) = g (route_of e)) ->
  view (map f t) = g <$> view t /\ (unique_ids t -> unique_ids (map f t)).
Proof.
  intros Hid Hg.
  assert (routes_of (map f t) = prod_map id g <$> routes_of t) as E.
  { induction t as [|e t IH]; [done|]. cbn [map]. rewrite !routes_of_cons, IH.
    destruct (Hid e) as [-> ->]. destruct (e_active e) eqn:Ea; cbn [app fmap list_fmap]; [|done].
    by rewrite Hg. }
  unfold view, unique_ids. rewrite E. split.
  - by rewrite <-list_to_map_fmap.
  - by rewrite <-list_fmap_compose.
Qed.

Lemma new_entry_ok id pat label : entry_ok (new_entry id pat label).
Proof.
  unfold entry_ok, new_entry, OSC_ROUTE_ADDR_LEN. cbn [pattern subscriber_label].
  split_and!; auto with wk; apply copy_field_length; lia.
Qed.

(** Writing [new_entry] over a slot that is free or already this subscriber's. *)
Lemma Subscribe_write id pat label t i e :
  table_ok t -> t !! i = Some e ->
  (e_active e = true /\ subscriber_id e = id \/
   e_active e = false /\ id ∉ (routes_of t).*1) ->
  let t' := <[i := new_entry id pat label]> t in
  table_ok t' /\ view t' = <[id := route_of (new_entry id pat label)]> (view t).
Proof.
  intros (Hlen & Hu & Hok) Hi Hcase t'. subst t'.
  destruct (split_at t i e Hi) as (l & r & -> & Hl & ->).
  pose proof Hu as [Hu' Hid]%unique_middle.
  assert (id ∉ (routes_of (l ++ r)).*1) as Hfresh.
  { destruct Hcase as [[Ha <-]|[Ha Hn]]; [by apply Hid|].
    by rewrite ids_middle, Ha in Hn. }
  assert (unique_ids (l ++ new_entry id pat label :: r)) as Hnew by (by apply unique_middle).
  split.
  - split_and!; [rewrite length_app in *; done|done|].
    rewrite list.Forall_app, list.Forall_cons in *. destruct Hok as (? & ? & ?).
    split_and!; [done|apply new_entry_ok|done].
  - rewrite !view_middle by done. cbn [e_active new_entry subscriber_id].
    destruct Hcase as [[Ha <-]|[Ha Hn]]; rewrite Ha; [|done]. by rewrite insert_insert_eq.
Qed.

Lemma Subscribe_refines id pat label t :
  table_ok t ->
  let '(ok, t') := Subscribe id pat label t in
  table_ok t' /\
  (ok = true <-> is_Some (view t !! id) \/ size (view t) < kMaxRoutes) /\
  view t' = (if ok then <[id := route_of (new_entry id pat label)]> (view t) else view t).
Proof.
  intros Ht. pose proof Ht as (Hlen & Hu & _). unfold Subscribe.
  destruct (FindSlot id t) as [i|] eqn:Ef.
  { destruct (FindSlot_Some _ _ _ Ef) as (e & Hi & Ha & Hid).
    destruct (Subscribe_write id pat label t i e) as [H1 H2]; [done|done|by left|].
    split_and!; [done| |done]. split; [|done]. intros _. left.
    destruct (split_at t i e Hi) as (l & r & -> & _).
    rewrite view_middle, Ha, Hid, lookup_insert_eq by done. done. }
  pose proof (FindSlot_None _ _ Ef) as Hfresh.
  destruct (FindFreeSlot t) as [i|] eqn:Eg.
  - destruct (FindFreeSlot_Some _ _ Eg) as (e & Hi & Ha).
    destruct (Subscribe_write id pat label t i e) as [H1 H2]; [done|done|by right|].
    split_and!; [done| |done]. split; [|done]. intros _. right.
    rewrite <-ActiveCount_size, <-Hlen by done. by eapply ActiveCount_free.
  - split_and!; [done| |done]. split; [done|].
    rewrite (view_fresh _ _ Hfresh), <-ActiveCount_size by done.
    rewrite (FindFreeSlot_None _ Eg). intros [[]|]; [done|lia].
Qed.

Lemma Unsubscribe_refines id t :
  table_ok t -> table_ok (Unsubscribe id t) /\ view (Unsubscribe id t) = delete id (view t).
Proof.
  intros Ht. pose proof Ht as (Hlen & Hu & Hok). unfold Unsubscribe.
  destruct (FindSlot id t) as [i|] eqn:Ef.
  2: { split; [done|]. symmetry. apply delete_id, view_fresh. by apply FindSlot_None. }
  destruct (FindSlot_Some _ _ _ Ef) as (e & Hi & Ha & <-).
  assert (alter deactivate i t = <[i := deactivate e]> t) as ->.
  { rewrite list_insert_alter. apply list_alter_ext; naive_solver. }
  destruct (split_at t i e Hi) as (l & r & -> & Hl & ->).
  pose proof Hu as [Hu' Hid]%unique_middle.
  assert (unique_ids (l ++ deactivate e :: r)) as Hnew by (by apply unique_middle).
  split.
  - split_and!; [rewrite length_app in *; done|done|].
    rewrite list.Forall_app, list.Forall_cons in *. destruct Hok as (? & ? & ?). by split_and!.
  - rewrite !view_middle by done. rewrite Ha. cbn [e_active deactivate].
    rewrite delete_insert_id; [done|]. apply view_fresh. by apply Hid.
Qed.

(** What the loop of [Dispatch] does to one entry. *)
Definition match_entry (address : list byte) (tick : Z) (e : RouteEntry) : RouteEntry :=
  if e_active e && matches address e then bump_match tick e else e.

Lemma Dispatch_table address tick t :
  (Dispatch address tick t).2 = map (match_entry address tick) t.
Proof.
  induction t as [|e t IH]; [done|]. cbn [Dispatch map]. rewrite <-IH. unfold match_entry.
  destruct (Dispatch address tick t) as [m t']. destruct (e_active e); [|done].
  simpl. by destruct (matches address e).
Qed.

Lemma Dispatch_matched address tick t :
  unique_ids t ->
  (Dispatch address tick t).1 = true <->
  exists id r, view t !! id = Some r /\ route_matches address r = true.
Proof.
  intros Hu.
  assert ((Dispatch address tick t).1 = true <->
          exists p, p ∈ routes_of t /\ route_matches address p.2 = true) as ->.
  { clear Hu. induction t as [|e t IH].
    { split; [done|]. by intros (p & ?%elem_of_nil & _). }
    cbn [Dispatch]. rewrite routes_of_cons. destruct (Dispatch address tick t) as [m t'].
    cbn [fst] in IH. setoid_rewrite elem_of_app.
    destruct (e_active e); cbn [negb]; [|set_solver].
    setoid_rewrite list_elem_of_singleton.
    change (matches address e) with (route_matches address (route_of e)).
    destruct (route_matches address (route_of e)) eqn:E; cbn [fst].
    - split; [intros _|done]. eexists (_, _). split; [by left|done].
    - rewrite IH. split; [naive_solver|]. intros ([id r] & [[= -> ->]|?] & ?); naive_solver congruence. }
  unfold view. split.
  - intros ([id r] & Hin & Hm). exists id, r. split; [|done]. by apply elem_of_list_to_map_1.
  - intros (id & r & Hl & Hm). exists (id, r). split; [|done]. by apply elem_of_list_to_map_2.
Qed.

Lemma map_entries_ok f t :
  (forall e, pattern (f e) = pattern e /\ subscriber_label (f e) = subscriber_label e) ->
  table_ok t -> unique_ids (map f t) -> table_ok (map f t).
Proof.
  intros Hf (Hlen & _ & Hok) Hu. split_and!; [by rewrite length_map|done|].
  apply Forall_fmap. eapply Forall_impl; [|exact Hok].
  intros e. unfold entry_ok. cbn. by destruct (Hf e) as [-> ->].
Qed.

Lemma Dispatch_refines address tick t :
  table_ok t ->
  let '(matched, t') := Dispatch address tick t in
  table_ok t' /\ view t' = spec_match address tick <$> view t /\
  (matched = true <-> exists id r, view t !! id = Some r /\ route_matches address r = true).
Proof.
  intros Ht. pose proof Ht as (_ & Hu & _).
  pose proof (Dispatch_matched address tick t Hu) as Hm.
  pose proof (Dispatch_table address tick t) as Hd.
  destruct (Dispatch address tick t) as [m t']. cbn [fst snd] in *. subst t'.
  destruct (view_fmap (match_entry address tick) (spec_match address tick) t) as [Hv Hu'].
  - intros e. unfold match_entry. by destruct (_ && _).
  - intros e He. unfold match_entry, spec_match. rewrite He. cbn [andb].
    change (matches address e) with (route_matches address (route_of e)). by destruct (route_matches _ _).
  - split; [|done]. apply map_entries_ok; [|done|by apply Hu'].
    intros e. unfold match_entry. by destruct (_ && _).
Qed.

Lemma BumpDropCount_refines address t :
  table_ok t ->
  table_ok (BumpDropCount address t) /\
  view (BumpDropCount address t) = spec_drop address <$> view t.
Proof.
  intros Ht. pose proof Ht as (_ & Hu & _). unfold BumpDropCount.
  destruct (view_fmap (drop_entry address) (spec_drop address) t) as [Hv Hu'].
  - intros e. unfold drop_entry. by destruct (_ && _).
  - intros e He. unfold drop_entry, spec_drop. rewrite He. cbn [andb].
    change (matches address e) with (route_matches address (route_of e)). by destruct (route_matches _ _).
  - split; [|done]. apply map_entries_ok; [|done|by apply Hu'].
    intros e. unfold drop_entry. by destruct (_ && _).
Qed.

Lemma RouteTable_new_ok : table_ok RouteTable_new /\ view RouteTable_new = ∅.
Proof.
  assert (routes_of RouteTable_new = []) as E by reflexivity.
  split; [|by unfold view; rewrite E]. split_and!; [done|unfold unique_ids; rewrite E; constructor|].
  apply Forall_replicate. unfold entry_ok, OSC_ROUTE_ADDR_LEN. cbn.
  split_and!; try lia; apply List.Forall_nil.
Qed.

(** *** Publication

    After [PublishToShmem] every slot of the segment shows its entry. *)

Definition shows (e : RouteEntry) (s : OscRouterRouteSlot) : Prop :=
  if e_active e
  then cstr (address_pattern s) = pattern e /\ cstr (slot_subscriber s) = subscriber_label e /\
       OscStats.match_count s = e_match e /\ OscStats.drop_count s = e_drop e /\
       OscStats.last_match_tick s = e_tick e /\ OscStats.active s = 1%Z
  else cstr (address_pattern s) = [] /\ OscStats.active s = 0%Z.

Lemma publish_slot_at junk i e d :
  shmem_wf d -> entry_ok e -> i < OSC_ROUTER_ROUTE_SLOTS ->
  exists d' s, publish_slot junk i e (Some d) = Some d' /\ shmem_wf d' /\
    routes d' = <[i := s]> (routes d) /\ shows e s.
Proof.
  intros Hd (Hp & Hpl & Hs & Hsl) Hi.
  assert (exists sl, routes d !! i = Some sl) as [sl Hsl'].
  { apply lookup_lt_is_Some. destruct Hd as [-> _]. done. }
  assert (slot_wf sl) as (Hl1 & Hl2 & _)
    by (destruct Hd as [_ Hw]; by eapply Forall_lookup_1 in Hw).
  assert (forall p s m dr t a, exists d', WriteRoute i p s m dr t a (Some d) = Some d' /\
    shmem_wf d' /\ routes d' = <[i := WriteSlotBody p s m dr t a sl]> (routes d)) as Hwr.
  { intros. unfold WriteRoute. cbn [mbind option_bind]. rewrite (proj2 (Nat.leb_gt _ _)) by done.
    eexists. split; [reflexivity|]. split.
    - eapply (WriteRoute_wf i p s m dr t a); [exact Hd|]. unfold WriteRoute. cbn [mbind option_bind].
      by rewrite (proj2 (Nat.leb_gt _ _)).
    - cbn [routes]. rewrite list_insert_alter. apply list_alter_ext; naive_solver. }
  unfold publish_slot, shows. destruct (e_active e).
  - destruct (Hwr (pattern e) (subscriber_label e) (e_match e) (e_drop e) (e_tick e) true)
      as (d' & -> & ? & ?).
    eexists d', _. do 2 (split; [done|]). split; [eassumption|].
    cbn [WriteSlotBody address_pattern slot_subscriber OscStats.match_count OscStats.drop_count
         OscStats.last_match_tick OscStats.active]. rewrite !CopyStrField_cstr, Hl1, Hl2.
    split_and!; try done; by apply copy_field_short.
  - destruct (junk i) as [[m dr] k]. destruct (Hwr [] [] m dr k false) as (d' & -> & ? & ?).
    eexists d', _. do 2 (split; [done|]). split; [eassumption|].
    cbn [WriteSlotBody address_pattern slot_subscriber OscStats.match_count OscStats.drop_count
         OscStats.last_match_tick OscStats.active]. rewrite CopyStrField_cstr, Hl1. done.
Qed.

Lemma PublishFrom_at junk t i d :
  shmem_wf d -> Forall entry_ok t -> i + length t = OSC_ROUTER_ROUTE_SLOTS ->
  exists d' ss, PublishFrom junk i t (Some d) = Some d' /\
    routes d' = take i (routes d) ++ ss /\ Forall2 shows t ss.
Proof.
  intros Hd Ht. revert i d Hd. induction Ht as [|e t He Ht IH]; intros i d Hd Hi; cbn [length] in Hi.
  - exists d, []. split_and!; [done| |constructor]. rewrite app_nil_r.
    symmetry. apply take_ge. destruct Hd as [-> _]. lia.
  - destruct (publish_slot_at junk i e d) as (d1 & s & H1 & Hd1 & Hr & Hs); [done|done|lia|].
    destruct (IH (S i) d1) as (d' & ss & H2 & Hr' & Hss); [done|lia|].
    exists d', (s :: ss). cbn [PublishFrom]. rewrite H1. split_and!; [done| |by constructor].
    rewrite Hr', Hr. assert (i < length (routes d)) by (destruct Hd as [-> _]; lia).
    erewrite take_S_r by (by apply list_lookup_insert_eq).
    rewrite take_insert_ge by lia. by rewrite <-app_assoc.
Qed.

Lemma shows_active t ss :
  Forall2 shows t ss -> length (filter (fun s => active s <> 0%Z) ss) = ActiveCount t.
Proof.
  unfold ActiveCount. induction 1 as [|e s t ss Hs _ IH]; [done|].
  unfold shows in Hs. destruct (e_active e) eqn:E.
  - destruct Hs as (_ & _ & _ & _ & _ & Ha). rewrite !filter_cons_True by (congruence || lia).
    cbn [length]. by rewrite IH.
  - destruct Hs as [_ Ha]. rewrite (filter_cons_False (fun e => e_active e = true)) by congruence.
    rewrite filter_cons_False by congruence. done.
Qed.

(** ** The interface the router is written against *)

Class RouteStore (T : Type) := {
  rs_ok : T -> Prop;
  rs_view : T -> gmap Z route;
  rs_new : T;
  rs_subscribe : Z -> list byte -> list byte -> T -> bool * T;
  rs_unsubscribe : Z -> T -> T;
  rs_dispatch : list byte -> Z -> T -> bool * T;
  rs_bump_drop : list byte -> T -> T;
  rs_publish : (nat -> Z * Z * Z) -> T -> option ShmemData -> option ShmemData;
  rs_active : T -> nat;
  rs_new_spec : rs_ok rs_new /\ rs_view rs_new = ∅;
  rs_subscribe_spec id pat label t :
    rs_ok t ->
    let '(ok, t') := rs_subscribe id pat label t in
    rs_ok t' /\
    (ok = true <-> is_Some (rs_view t !! id) \/ size (rs_view t) < kMaxRoutes) /\
    rs_view t' = (if ok then <[id := route_of (new_entry id pat label)]> (rs_view t) else rs_view t);
  rs_unsubscribe_spec id t :
    rs_ok t -> rs_ok (rs_unsubscribe id t) /\ rs_view (rs_unsubscribe id t) = delete id (rs_view t);
  rs_dispatch_spec address tick t :
    rs_ok t ->
    let '(matched, t') := rs_dispatch address tick t in
    rs_ok t' /\ rs_view t' = spec_match address tick <$> rs_view t /\
    (matched = true <-> exists id r, rs_view t !! id = Some r /\ route_matches address r = true);
  rs_bump_drop_spec address t :
    rs_ok t -> rs_ok (rs_bump_drop address t) /\
               rs_view (rs_bump_drop address t) = spec_drop address <$> rs_view t;
  rs_active_spec t : rs_ok t -> rs_active t = size (rs_view t) }.

#[export, refine] Instance RouteTable_store : RouteStore (list RouteEntry) := {|
  rs_ok := table_ok; rs_view := view; rs_new := RouteTable_new;
  rs_subscribe := Subscribe; rs_unsubscribe := Unsubscribe; rs_dispatch := Dispatch;
  rs_bump_drop := BumpDropCount; rs_publish := PublishToShmem; rs_active := ActiveCount |}.
Proof.
  - exact RouteTable_new_ok.
  - exact Subscribe_refines.
  - exact Unsubscribe_refines.
  - exact Dispatch_refines.
  - exact BumpDropCount_refines.
  - intros t (_ & Hu & _). by apply ActiveCount_size.
Defined.

(** ** Properties *)

(** C4: The flat route table implements a finite map from subscriber ids to
    routes: subscribing inserts (and fails exactly when the id is new and 32
    routes exist), unsubscribing deletes, a dispatched address bumps the match
    counter and tick of exactly the routes whose pattern matches, a dropped one
    their drop counter, and the active count is the map's size. *)
Theorem RouteTable_refines_map t (Ht : table_ok t) :
  (forall id pat label,
    let '(ok, t') := Subscribe id pat label t in
    table_ok t' /\
    (ok = true <-> is_Some (view t !! id) \/ size (view t) < kMaxRoutes) /\
    view t' = (if ok then <[id := route_of (new_entry id pat label)]> (view t) else view t)) /\
  (forall id, table_ok (Unsubscribe id t) /\ view (Unsubscribe id t) = delete id (view t)) /\
  (forall address tick,
    let '(matched, t') := Dispatch address tick t in
    table_ok t' /\ view t' = spec_match address tick <$> view t /\
    (matched = true <-> exists id r, view t !! id = Some r /\ route_matches address r = true)) /\
  (forall address, table_ok (BumpDropCount address t) /\
    view (BumpDropCount address t) = spec_drop address <$> view t) /\
  ActiveCount t = size (view t).
Proof.
  split_and!.
  - intros. by apply Subscribe_refines.
  - intros. by apply Unsubscribe_refines.
  - intros. by apply Dispatch_refines.
  - intros. by apply BumpDropCount_refines.
  - destruct Ht as (_ & Hu & _). by apply ActiveCount_size.
Qed.

(** Two subscribers, the second replacing its pattern. *)
Definition demo_table : RouteTable :=
  (Subscribe 7 (str "/b/*") (str "sub-7")
    (Subscribe 9 (str "/a") (str "sub-9")
      (Subscribe 7 (str "/a") (str "sub-7") RouteTable_new).2).2).2.

Lemma demo_table_ok : table_ok demo_table.
Proof.
  unfold demo_table.
  pose proof (Subscribe_refines 7 (str "/a") (str "sub-7") RouteTable_new (proj1 RouteTable_new_ok)) as H1.
  destruct (Subscribe 7 (str "/a") (str "sub-7") RouteTable_new) as [b1 t1]. destruct H1 as [H1 _].
  pose proof (Subscribe_refines 9 (str "/a") (str "sub-9") t1 H1) as H2.
  cbn [snd]. destruct (Subscribe 9 (str "/a") (str "sub-9") t1) as [b2 t2]. destruct H2 as [H2 _].
  pose proof (Subscribe_refines 7 (str "/b/*") (str "sub-7") t2 H2) as H3.
  cbn [snd]. destruct (Subscribe 7 (str "/b/*") (str "sub-7") t2) as [b3 t3]. by destruct H3.
Qed.

Example RouteTable_refines_map_witness :
  view (Unsubscribe 9 demo_table) = {[ 7%Z := mkRoute (str "/b/*") (str "sub-7") 0 0 0 ]} /\
  ActiveCount demo_table = 2.
Proof.
  destruct (RouteTable_refines_map demo_table demo_table_ok) as (_ & Hu & _ & _ & Ha).
  split; [rewrite (proj2 (Hu 9%Z))|rewrite Ha]; vm_compute; reflexivity.
Defined.

(** A snapshot of the table into a well-formed statistics segment leaves
    the segment well-formed, counts as many active routes as the table has, and
    lets a reader get back every active route's pattern, label and counters. *)
Theorem PublishToShmem_exact junk t d (Ht : table_ok t) (Hd : shmem_wf d) :
  exists d' st,
    PublishToShmem junk t (Some d) = Some d' /\
    ReadGlobalStats (Some d') = Some st /\
    st_active_routes st = Z.of_nat (ActiveCount t) /\
    length (routes d') = kMaxRoutes /\
    Forall2 shows t (routes d').
Proof.
  destruct Ht as (Hlen & _ & Hok).
  destruct (PublishFrom_at junk t 0 d) as (d' & ss & H1 & H2 & H3); [done|done|done|].
  rewrite take_0 in H2. cbn [app] in H2. subst ss.
  pose proof (Forall2_length H3) as Hl.
  eexists d', _. split; [exact H1|]. split; [reflexivity|].
  cbn [st_active_routes]. unfold active_slots. rewrite take_ge by (unfold kMaxRoutes in *; lia).
  split_and!; [by rewrite (shows_active t)|lia|done].
Qed.

Lemma fresh_mapping_wf : shmem_wf fresh_mapping.
Proof. split; [done|]. apply Forall_replicate. by repeat split. Qed.

Example PublishToShmem_exact_witness :
  exists d' st,
    PublishToShmem (fun _ => (1, 2, 3)%Z) demo_table (Some fresh_mapping) = Some d' /\
    ReadGlobalStats (Some d') = Some st /\ st_active_routes st = 2%Z /\
    length (routes d') = kMaxRoutes /\ Forall2 shows demo_table (routes d').
Proof.
  change 2%Z with (Z.of_nat (ActiveCount demo_table)).
  exact (PublishToShmem_exact (fun _ => (1, 2, 3)%Z) demo_table fresh_mapping demo_table_ok fresh_mapping_wf).
Defined.
