(* ===== verification/OscRouter.v ===== *)
(** * The OSC router (modules/oscrouter/src/driver/OscRouter.{h,cpp})

    The bounded send queue, the publish paths (in process, IPC and pipe), the
    IPC handlers and one turn of the send worker, over any [RouteStore].  The
    socket, the pipe and the clock are inputs of the step that uses them. *)

From S2P Require Import Prelude OscWire OscStats RouteTable.

Definition kSendQueueEntryMaxSize : nat := 512.
Definition kSendQueueCapacity : nat := 1024.

(** The [size] used bytes of a [SendEntry]. *)
Abbreviation SendEntry := (list byte) (only parsing).

(** ** Requests and responses of the router's pipe *)

Record OscPublishReq := mkPublish {
  pub_address : list byte;      (* 64 bytes *)
  pub_typetag : list byte;      (* 8 bytes *)
  pub_arg_len : nat;            (* uint8_t *)
  pub_arg_bytes : list byte;    (* 32 bytes *)
  pub_beyond : list byte        (* the memory that follows arg_bytes *) }.

Inductive router_request :=
| RequestOscRouteSubscribe (id : Z) (enabled : Z) (pattern : list byte)
| RequestOscRouteUnsubscribe (id : Z)
| RequestOscPublish (p : OscPublishReq)
| RequestOscGetStats
| RequestOther.

Inductive router_response :=
| ResponseInvalid
| ResponseSuccess
| ResponseOscRouterStats (s : OscRouterStats).

(** ** [snprintf(label, 32, "sub-%u", id)] *)

Fixpoint decimal (fuel : nat) (z : Z) : list byte :=
  match fuel with
  | 0 => []
  | S k => (if (z <? 10)%Z then [] else decimal k (z / 10)) ++ [zb (48 + z mod 10)]
  end.

Definition sub_label (id : Z) : list byte := take 31 (str "sub-" ++ decimal 10 (u32 id)).

(** ** State *)

Record OscRouter {T : Type} := mkRouter {
  routeTable_ : T;
  queue_ : list SendEntry;
  qHead_ : nat;
  qTail_ : nat;
  qCount_ : nat;
  droppedCount_ : Z;
  packetsSent_ : Z;
  bytesSent_ : Z;
  stop_ : bool;
  sender_open : bool;
  statsShmem_ : option ShmemData;
  shmemReady_ : bool }.
Arguments OscRouter : clear implicits.
Arguments mkRouter {T} _ _ _ _ _ _ _ _ _ _ _ _.

Section Router.
Context {T : Type} `{RouteStore T}.
Implicit Type r : OscRouter T.

(** [Init] after the two resources were acquired or not. *)
Definition Init (mapping : option ShmemData) (udp_ok : bool) : OscRouter T :=
  let shm := Create mapping in
  mkRouter rs_new (replicate kSendQueueCapacity []) 0 0 0 0 0 0 false udp_ok shm
    (bool_decide (is_Some shm)).

Definition Shutdown r : OscRouter T :=
  mkRouter (routeTable_ r) (queue_ r) (qHead_ r) (qTail_ r) (qCount_ r) (droppedCount_ r)
    (packetsSent_ r) (bytesSent_ r) true false None (shmemReady_ r).

Definition set_table (t : T) r : OscRouter T :=
  mkRouter t (queue_ r) (qHead_ r) (qTail_ r) (qCount_ r) (droppedCount_ r)
    (packetsSent_ r) (bytesSent_ r) (stop_ r) (sender_open r) (statsShmem_ r) (shmemReady_ r).

Definition set_shmem (s : option ShmemData) r : OscRouter T :=
  mkRouter (routeTable_ r) (queue_ r) (qHead_ r) (qTail_ r) (qCount_ r) (droppedCount_ r)
    (packetsSent_ r) (bytesSent_ r) (stop_ r) (sender_open r) s (shmemReady_ r).

Definition EnqueueLocked (data : list byte) r : bool * OscRouter T :=
  if kSendQueueCapacity <=? qCount_ r then (false, r)
  else if kSendQueueEntryMaxSize <? length data then (false, r)
  else (true,
    mkRouter (routeTable_ r) (<[qTail_ r := data]> (queue_ r)) (qHead_ r)
      ((qTail_ r + 1) mod kSendQueueCapacity) (qCount_ r + 1) (droppedCount_ r)
      (packetsSent_ r) (bytesSent_ r) (stop_ r) (sender_open r) (statsShmem_ r) (shmemReady_ r)).

(** [droppedCount_.fetch_add(1); if (shmemReady_) statsShmem_.AddDropped()] *)
Definition count_drop r : OscRouter T :=
  mkRouter (routeTable_ r) (queue_ r) (qHead_ r) (qTail_ r) (qCount_ r)
    (u64 (droppedCount_ r + 1)) (packetsSent_ r) (bytesSent_ r) (stop_ r) (sender_open r)
    (if shmemReady_ r then AddDropped (statsShmem_ r) else statsShmem_ r) (shmemReady_ r).

(** [args] is the argument buffer, [None] a null pointer. *)
Definition build_packet (address typetag : list byte) (args : option (list byte)) : OscPacket :=
  let p := Begin kSendQueueEntryMaxSize address typetag packet_init in
  match args with
  | Some ((_ :: _) as a) => WriteRawArgs kSendQueueEntryMaxSize a p
  | _ => p
  end.

Definition BuildAndEnqueue (address typetag : list byte) (args : option (list byte)) r
  : bool * OscRouter T :=
  let pkt := build_packet address typetag args in
  if negb (ok_ pkt) then (false, r) else
  let '(queued, r1) := EnqueueLocked (buf pkt) r in
  if queued then (true, r1)
  else (false, count_drop (set_table (rs_bump_drop address (routeTable_ r1)) r1)).

Definition PublishOsc (address typetag : list byte) (args : option (list byte)) r
  : bool * OscRouter T :=
  if stop_ r then (false, r) else BuildAndEnqueue address typetag args r.

(** ** IPC handlers *)

Definition reply (ok : bool) : router_response := if ok then ResponseSuccess else ResponseInvalid.

(** The request's [enabled] byte is not read. *)
Definition HandleSubscribe (id enabled : Z) (pattern : list byte) r : router_response * OscRouter T :=
  let '(ok, t) := rs_subscribe id pattern (sub_label id) (routeTable_ r) in
  (reply ok, set_table t r).

Definition HandleUnsubscribe (id : Z) r : router_response * OscRouter T :=
  (ResponseSuccess, set_table (rs_unsubscribe id (routeTable_ r)) r).

(** [memcpy] into an array one byte longer, with a NUL at the end.  The
    arguments are [arg_len] bytes from [arg_bytes] on. *)
Definition HandlePublish (p : OscPublishReq) r : router_response * OscRouter T :=
  let address := cstr (pub_address p ++ [x00]) in
  let typetag := cstr (pub_typetag p ++ [x00]) in
  let args := take (pub_arg_len p) (pub_arg_bytes p ++ pub_beyond p) in
  let '(ok, r1) := BuildAndEnqueue address typetag (Some args) r in
  (reply ok, r1).

Definition HandleGetStats r : router_response * OscRouter T :=
  match ReadGlobalStats (statsShmem_ r) with
  | Some s => (ResponseOscRouterStats s, r)
  | None => (ResponseOscRouterStats (mkStats 0 0 0 (Z.of_nat (rs_active (routeTable_ r)))), r)
  end.

(** [None] is [return false]: the request is not the router's. *)
Definition HandleRequest (req : router_request) r : option router_response * OscRouter T :=
  match req with
  | RequestOscRouteSubscribe id en pat =>
    let '(resp, r1) := HandleSubscribe id en pat r in (Some resp, r1)
  | RequestOscRouteUnsubscribe id => let '(resp, r1) := HandleUnsubscribe id r in (Some resp, r1)
  | RequestOscPublish p => let '(resp, r1) := HandlePublish p r in (Some resp, r1)
  | RequestOscGetStats => let '(resp, r1) := HandleGetStats r in (Some resp, r1)
  | RequestOther => (None, r)
  end.

(** ** The send worker: one turn of its loop *)

Definition Dequeue r : option (SendEntry * OscRouter T) :=
  if qCount_ r =? 0 then None
  else Some (nth (qHead_ r) (queue_ r) [],
    mkRouter (routeTable_ r) (queue_ r) ((qHead_ r + 1) mod kSendQueueCapacity) (qTail_ r)
      (qCount_ r - 1) (droppedCount_ r) (packetsSent_ r) (bytesSent_ r) (stop_ r)
      (sender_open r) (statsShmem_ r) (shmemReady_ r)).

(** [sent] is what [sendto] returned, [tick] the performance counter. *)
Definition count_sent (entry : SendEntry) (sent tick : Z) r : OscRouter T :=
  let r1 := mkRouter (routeTable_ r) (queue_ r) (qHead_ r) (qTail_ r) (qCount_ r)
    (droppedCount_ r) (u64 (packetsSent_ r + 1)) (u64 (bytesSent_ r + sent)) (stop_ r)
    (sender_open r)
    (if shmemReady_ r then AddSent sent (statsShmem_ r) else statsShmem_ r) (shmemReady_ r) in
  match OscParseMessage entry with
  | Some m => set_table (rs_dispatch (address m) tick (routeTable_ r1)).2 r1
  | None => r1
  end.

Definition send_entry (entry : SendEntry) (sent tick : Z) r : OscRouter T :=
  if sender_open r && (0 <? length entry) then
    if (0 <? sent)%Z then count_sent entry sent tick r else r
  else r.

(** [stats] is present when the 100 ms publication is due. *)
Definition publish_stats (stats : option (nat -> Z * Z * Z)) r : OscRouter T :=
  match stats with
  | Some junk =>
    if shmemReady_ r then set_shmem (rs_publish junk (routeTable_ r) (statsShmem_ r)) r else r
  | None => r
  end.

Definition SendWorkerTurn (sent tick : Z) (stats : option (nat -> Z * Z * Z)) r : OscRouter T :=
  if stop_ r then r else
  match Dequeue r with
  | None => publish_stats stats r
  | Some (entry, r1) => publish_stats stats (send_entry entry sent tick r1)
  end.

(** ** The publish pipe: one client connection

    [stream] is what the client wrote, [chunks] how many bytes the pipe hands
    over at each [ReadFile] at most; a read with nothing left fails, as on a
    broken pipe.  [ReadFile n] returns at most [n] bytes. *)

Definition conn : Type := list byte * list nat.

Definition ReadFile (n : nat) (c : conn) : option (list byte * conn) :=
  match c.2 with
  | [] => None
  | k :: ks =>
    let got := take (Nat.min n k) c.1 in
    if length got =? 0 then None else Some (got, (drop (Nat.min n k) c.1, ks))
  end.

(** A read that must return exactly [n] bytes. *)
Definition ReadExact (n : nat) (c : conn) : option (list byte * conn) :=
  match ReadFile n c with
  | Some (got, c') => if length got =? n then Some (got, c') else None
  | None => None
  end.

(** The loop that collects the frame: [acc] holds [total] bytes. *)
Fixpoint ReadLoop (fuel : nat) (frameLen : nat) (acc : list byte) (c : conn)
  : option (list byte * conn) :=
  match fuel with
  | 0 => None
  | S k =>
    if frameLen <=? length acc then Some (acc, c)
    else match ReadFile (frameLen - length acc) c with
         | Some (got, c') => ReadLoop k frameLen (acc ++ got) c'
         | None => None
         end
  end.

(** One frame: the 32-byte source id, the length, the packet. *)
Definition ReadFrame (c : conn) : option (list byte * conn) :=
  match ReadExact 32 c with
  | None => None
  | Some (_, c1) =>
    match ReadExact 4 c1 with
    | Some ([a; b; d; e], c2) =>
      let frameLen := Z.to_nat (of_le32 a b d e) in
      if (frameLen =? 0) || (kSendQueueEntryMaxSize <? frameLen) then None
      else ReadLoop (S (length c2.2)) frameLen [] c2
    | _ => None
    end
  end.

Definition EnqueueFrame (frame : list byte) r : OscRouter T :=
  let '(ok, r1) := EnqueueLocked frame r in
  if ok then r1 else count_drop r1.

(** Every frame uses up at least one chunk, so [S (length chunks)] turns are
    enough for a client. *)
Fixpoint ServeClient (fuel : nat) (c : conn) r : OscRouter T :=
  match fuel with
  | 0 => r
  | S k =>
    if stop_ r then r else
    match ReadFrame c with
    | Some (frame, c') => ServeClient k c' (EnqueueFrame frame r)
    | None => r
    end
  end.

Definition PubPipeClient (c : conn) r : OscRouter T := ServeClient (S (length c.2)) c r.
End Router.

(** ** The ring is a FIFO queue *)

Section Queue.
Context {T : Type} `{RouteStore T}.
Implicit Type r : OscRouter T.

(** The queued packets, oldest first. *)
Definition qview r : list SendEntry :=
  map (fun k => nth ((qHead_ r + k) mod kSendQueueCapacity) (queue_ r) []) (seq 0 (qCount_ r)).

Definition ring_ok r : Prop :=
  length (queue_ r) = kSendQueueCapacity /\ qHead_ r < kSendQueueCapacity /\
  qCount_ r <= kSendQueueCapacity /\
  qTail_ r = (qHead_ r + qCount_ r) mod kSendQueueCapacity.

Definition router_ok r : Prop :=
  ring_ok r /\ rs_ok (routeTable_ r) /\ (0 <= droppedCount_ r < 2 ^ 64)%Z.

Lemma ring_index c a b :
  a < c -> b <= c -> (a + b) mod c = if a + b <? c then a + b else a + b - c.
Proof.
  intros Ha Hb. destruct (Nat.ltb_spec (a + b) c); [by apply Nat.mod_small|].
  replace (a + b) with (a + b - c + 1 * c) at 1 by lia.
  rewrite Nat.Div0.mod_add. apply Nat.mod_small. lia.
Qed.

(** Two live positions of the ring coincide only if they are the same. *)
Lemma ring_index_inj c h i j :
  h < c -> i < c -> j < c -> (h + i) mod c = (h + j) mod c -> i = j.
Proof.
  intros ? ? ?. rewrite !ring_index by lia.
  destruct (Nat.ltb_spec (h + i) c), (Nat.ltb_spec (h + j) c); lia.
Qed.

Lemma nth_insert_eq (l : list SendEntry) i x : i < length l -> nth i (<[i:=x]> l) [] = x.
Proof. intros. by rewrite nth_lookup, list_lookup_insert_eq. Qed.

Lemma nth_insert_ne (l : list SendEntry) i j x : i <> j -> nth j (<[i:=x]> l) [] = nth j l [].
Proof. intros. by rewrite !nth_lookup, list_lookup_insert_ne. Qed.

(** The whole behaviour of [EnqueueLocked]. *)
Lemma EnqueueLocked_spec data r :
  ring_ok r ->
  let '(ok, r') := EnqueueLocked data r in
  ring_ok r' /\ routeTable_ r' = routeTable_ r /\
  (ok = true <-> length (qview r) < kSendQueueCapacity /\ length data <= kSendQueueEntryMaxSize) /\
  qview r' = (if ok then qview r ++ [data] else qview r) /\
  (ok = false -> r' = r).
Proof.
  intros Hr. pose proof Hr as (Hl & Hh & Hc & Ht). unfold EnqueueLocked.
  assert (length (qview r) = qCount_ r) as Hq by (unfold qview; by rewrite length_map, length_seq).
  rewrite Hq. destruct (Nat.leb_spec kSendQueueCapacity (qCount_ r)) as [Hfull|Hfull].
  { conjs; try done; lia. }
  destruct (Nat.ltb_spec kSendQueueEntryMaxSize (length data)) as [Hbig|Hbig].
  { conjs; try done; lia. }
  pose proof (Nat.mod_upper_bound (qHead_ r + qCount_ r) kSendQueueCapacity ltac:(done)) as Htl.
  conjs; [|done|naive_solver| |done]; unfold ring_ok, qview;
    cbn [queue_ qHead_ qCount_ qTail_].
  - split_and!; [by rewrite length_insert|done|lia|].
    rewrite Ht, Nat.Div0.add_mod_idemp_l. f_equal. lia.
  - rewrite Nat.add_1_r, seq_S, map_app. cbn [map Nat.add]. f_equal.
    + apply map_ext_in. intros k Hk%in_seq. apply nth_insert_ne. rewrite Ht.
      intros E%ring_index_inj; lia.
    + f_equal. rewrite <-Ht. apply nth_insert_eq. rewrite Hl, Ht. done.
Qed.

Lemma Dequeue_spec r :
  ring_ok r ->
  match Dequeue r with
  | None => qview r = []
  | Some (e, r') => ring_ok r' /\ routeTable_ r' = routeTable_ r /\ qview r = e :: qview r'
  end.
Proof.
  intros (Hl & Hh & Hc & Ht). unfold Dequeue, qview.
  destruct (Nat.eqb_spec (qCount_ r) 0) as [->|Hn]; [done|].
  pose proof (Nat.mod_upper_bound (qHead_ r + 1) kSendQueueCapacity ltac:(done)) as Hh'.
  split; [|split]; [|done|]; unfold ring_ok; cbn [queue_ qHead_ qCount_ qTail_].
  - split_and!; [done|done|lia|]. rewrite Nat.Div0.add_mod_idemp_l, Ht. f_equal. lia.
  - destruct (qCount_ r) as [|n]; [done|]. cbn [seq map]. rewrite Nat.add_0_r, Nat.mod_small by done.
    f_equal. replace (S n - 1) with n by lia. rewrite <-seq_shift, map_map.
    apply map_ext. intros k. rewrite Nat.Div0.add_mod_idemp_l. do 2 f_equal. lia.
Qed.

(** ** Runs of the router

    The events that touch the router, in whatever order the mutex let them in;
    [effect] is what an observer sees of one: the packets accepted, the packet
    the worker took, and the packets refused for want of room. *)

Inductive event :=
| EvPublish (address typetag : list byte) (args : option (list byte))
| EvRequest (req : router_request)
| EvFrame (frame : list byte)
| EvTurn (sent tick : Z) (stats : option (nat -> Z * Z * Z)).

Definition step r (e : event) : OscRouter T :=
  match e with
  | EvPublish a t args => (PublishOsc a t args r).2
  | EvRequest req => (HandleRequest req r).2
  | EvFrame f => if stop_ r then r else EnqueueFrame f r
  | EvTurn sent tick stats => SendWorkerTurn sent tick stats r
  end.

Definition offer (packet : option (list byte)) (queued : bool) : list SendEntry * nat :=
  match packet with
  | None => ([], 0)
  | Some p => if queued then ([p], 0) else ([], 1)
  end.

Definition packet_of (address typetag : list byte) (args : option (list byte)) : option (list byte) :=
  let p := build_packet address typetag args in if ok_ p then Some (buf p) else None.

Definition request_packet (p : OscPublishReq) : option (list byte) :=
  packet_of (cstr (pub_address p ++ [x00])) (cstr (pub_typetag p ++ [x00]))
    (Some (take (pub_arg_len p) (pub_arg_bytes p ++ pub_beyond p))).

Definition is_success (resp : router_response) : bool :=
  match resp with ResponseSuccess => true | _ => false end.

Definition effect r (e : event) : (list SendEntry * nat) * list SendEntry :=
  match e with
  | EvPublish a t args =>
    (if stop_ r then ([], 0) else offer (packet_of a t args) (PublishOsc a t args r).1, [])
  | EvRequest (RequestOscPublish p) =>
    (offer (request_packet p) (is_success (HandlePublish p r).1), [])
  | EvRequest _ => (([], 0), [])
  | EvFrame f => (if stop_ r then ([], 0) else offer (Some f) (EnqueueLocked f r).1, [])
  | EvTurn _ _ _ =>
    (([], 0), if stop_ r then [] else match Dequeue r with Some (x, _) => [x] | None => [] end)
  end.

(** Two states with the same ring, [r'] having refused [d] packets more. *)
Definition same_queue r r' (d : nat) : Prop :=
  queue_ r' = queue_ r /\ qHead_ r' = qHead_ r /\ qTail_ r' = qTail_ r /\ qCount_ r' = qCount_ r /\
  droppedCount_ r' = u64 (droppedCount_ r + Z.of_nat d).

Lemma same_queue_view r r' d :
  same_queue r r' d -> qview r' = qview r /\ (ring_ok r -> ring_ok r').
Proof. unfold qview, ring_ok. by intros (-> & -> & -> & -> & _). Qed.

Lemma same_queue_ok r r' d :
  same_queue r r' d -> router_ok r -> rs_ok (routeTable_ r') -> router_ok r' /\ qview r' = qview r.
Proof.
  intros Hs (Hr & _ & _) Ht. pose proof (same_queue_view _ _ _ Hs) as [Hv Hr'].
  split; [|done]. split; [by apply Hr'|]. split; [done|].
  destruct Hs as (_ & _ & _ & _ & ->). apply u64_range.
Qed.

Lemma same_queue_refl r : (0 <= droppedCount_ r < 2 ^ 64)%Z -> same_queue r r 0.
Proof. intros. unfold same_queue. rewrite Z.add_0_r, u64_small by done. done. Qed.

Lemma EnqueueLocked_ok data r :
  router_ok r ->
  let '(ok, r') := EnqueueLocked data r in
  router_ok r' /\ qview r' = (if ok then qview r ++ [data] else qview r) /\
  droppedCount_ r' = droppedCount_ r /\ routeTable_ r' = routeTable_ r /\ (ok = false -> r' = r).
Proof.
  intros (Hr & Ht & Hd). pose proof (EnqueueLocked_spec data r Hr) as Hs.
  assert (droppedCount_ (EnqueueLocked data r).2 = droppedCount_ r) as Hdc
    by (unfold EnqueueLocked; by repeat case_match).
  destruct (EnqueueLocked data r) as [ok r']. destruct Hs as (Hr' & Ht' & _ & Hv & He).
  cbn [snd] in Hdc. unfold router_ok. rewrite Ht', Hdc. done.
Qed.

(** Enqueueing a packet, and a refusal that only bumps drop counters. *)
Lemma offer_ok r packet r1 r' (queued : bool) :
  router_ok r -> EnqueueLocked packet r = (queued, r1) ->
  (if queued then r' = r1 else same_queue r1 r' 1 /\ rs_ok (routeTable_ r')) ->
  let '(acc, d) := offer (Some packet) queued in
  router_ok r' /\ qview r' = qview r ++ acc /\
  droppedCount_ r' = u64 (droppedCount_ r + Z.of_nat d).
Proof.
  intros Hr He Hq. pose proof (EnqueueLocked_ok packet r Hr) as Hs. rewrite He in Hs.
  destruct Hs as (Hr1 & Hv & Hd & _ & Hsame). destruct queued; cbn [offer].
  - subst r'. split; [done|]. rewrite Hv, Hd. split; [done|].
    destruct Hr as (_ & _ & ?). by rewrite Z.add_0_r, u64_small.
  - rewrite (Hsame eq_refl) in Hq. destruct Hq as [Hq Ht].
    destruct (same_queue_ok _ _ _ Hq Hr Ht) as [? ->]. rewrite app_nil_r.
    split_and!; [done|done|]. apply Hq.
Qed.

Lemma BuildAndEnqueue_ok a t args r :
  router_ok r ->
  let '(ok, r') := BuildAndEnqueue a t args r in
  let '(acc, d) := offer (packet_of a t args) ok in
  router_ok r' /\ qview r' = qview r ++ acc /\
  droppedCount_ r' = u64 (droppedCount_ r + Z.of_nat d).
Proof.
  intros Hr. unfold BuildAndEnqueue, packet_of.
  destruct (ok_ (build_packet a t args)); cbn [negb].
  2: { cbn [offer]. rewrite app_nil_r. split_and!; [done|done|].
       destruct Hr as (_ & _ & ?). by rewrite Z.add_0_r, u64_small. }
  destruct (EnqueueLocked _ r) as [[] r1] eqn:E.
  - by apply (offer_ok r _ r1 r1 true).
  - apply (offer_ok r _ r1 _ false Hr E).
    pose proof (EnqueueLocked_ok (buf (build_packet a t args)) r Hr) as Hs. rewrite E in Hs.
    destruct Hs as ((_ & Ht & _) & _). split; [done|]. by apply rs_bump_drop_spec.
Qed.

Lemma EnqueueFrame_ok f r :
  router_ok r ->
  let '(acc, d) := offer (Some f) (EnqueueLocked f r).1 in
  router_ok (EnqueueFrame f r) /\ qview (EnqueueFrame f r) = qview r ++ acc /\
  droppedCount_ (EnqueueFrame f r) = u64 (droppedCount_ r + Z.of_nat d).
Proof.
  intros Hr. unfold EnqueueFrame. destruct (EnqueueLocked f r) as [[] r1] eqn:E; cbn [fst].
  - by apply (offer_ok r _ r1 r1 true).
  - apply (offer_ok r _ r1 _ false Hr E).
    pose proof (EnqueueLocked_ok f r Hr) as Hs. rewrite E in Hs.
    destruct Hs as ((_ & Ht & _) & _). by split.
Qed.

Lemma send_entry_ok x sent tick r :
  router_ok r -> router_ok (send_entry x sent tick r) /\ qview (send_entry x sent tick r) = qview r
                 /\ droppedCount_ (send_entry x sent tick r) = droppedCount_ r.
Proof.
  intros Hr. pose proof Hr as (_ & Ht & Hd). unfold send_entry, count_sent.
  destruct (sender_open r && (0 <? length x)); [|done].
  destruct (0 <? sent)%Z; [|done]. cbv zeta.
  assert (forall r', same_queue r r' 0 -> rs_ok (routeTable_ r') ->
            router_ok r' /\ qview r' = qview r /\ droppedCount_ r' = droppedCount_ r) as Hsame.
  { intros r' Hs Ht'. destruct (same_queue_ok _ _ _ Hs Hr Ht') as [? ?]. split_and!; [done..|].
    destruct Hs as (_ & _ & _ & _ & ->). by rewrite Z.add_0_r, u64_small. }
  assert (u64 (droppedCount_ r + 0) = droppedCount_ r) as Hz by (by rewrite Z.add_0_r, u64_small).
  destruct (OscParseMessage x) as [m|]; apply Hsame; unfold same_queue; cbn;
    rewrite ?Hz; try done.
  pose proof (rs_dispatch_spec (address m) tick (routeTable_ r) Ht) as Hds.
  destruct (rs_dispatch _ _ _). by destruct Hds.
Qed.

Lemma publish_stats_ok st r :
  router_ok r -> router_ok (publish_stats st r) /\ qview (publish_stats st r) = qview r /\
                 droppedCount_ (publish_stats st r) = droppedCount_ r.
Proof. intros Hr. destruct st; simpl; [|done]. by destruct (shmemReady_ r). Qed.

Lemma Dequeue_ok r x r' :
  router_ok r -> Dequeue r = Some (x, r') ->
  router_ok r' /\ qview r = x :: qview r' /\ droppedCount_ r' = droppedCount_ r.
Proof.
  intros (Hr & Ht & Hd) E. pose proof (Dequeue_spec r Hr) as Hs. rewrite E in Hs.
  destruct Hs as (Hr' & Ht' & Hv).
  assert (droppedCount_ r' = droppedCount_ r) as Hdc.
  { unfold Dequeue in E. case_match; [done|]. by injection E as _ <-. }
  unfold router_ok. by rewrite Ht', Hdc.
Qed.

(** One event: what it accepts goes to the back, what it takes leaves the front. *)
Lemma step_effect r e :
  router_ok r ->
  let '((acc, d), con) := effect r e in
  router_ok (step r e) /\ qview r ++ acc = con ++ qview (step r e) /\
  droppedCount_ (step r e) = u64 (droppedCount_ r + Z.of_nat d).
Proof.
  intros Hr. pose proof Hr as (Hring & Ht & Hd).
  assert (router_ok r /\ qview r ++ [] = [] ++ qview r /\
          droppedCount_ r = u64 (droppedCount_ r + Z.of_nat 0)) as Hskip.
  { rewrite app_nil_r, Z.add_0_r, u64_small by done. done. }
  assert (forall t, rs_ok t ->
    router_ok (set_table t r) /\ qview r ++ [] = [] ++ qview (set_table t r) /\
    droppedCount_ (set_table t r) = u64 (droppedCount_ r + Z.of_nat 0)) as Htable.
  { intros t Ht'. by destruct Hskip as (_ & ? & ?). }
  destruct e as [a t args|[id en pat|id|p| |]|f|sent tick st]; cbn [step effect HandleRequest snd];
    try exact Hskip.
  - unfold PublishOsc. destruct (stop_ r); [exact Hskip|].
    pose proof (BuildAndEnqueue_ok a t args r Hr) as Hb.
    destruct (BuildAndEnqueue a t args r) as [ok r']. cbn [fst snd].
    destruct (offer _ ok) as [acc d]. by destruct Hb as (? & -> & ?).
  - unfold HandleSubscribe.
    pose proof (rs_subscribe_spec id pat (sub_label id) (routeTable_ r) Ht) as Hs.
    destruct (rs_subscribe _ _ _ _) as [ok t]. cbn [snd]. apply Htable. by destruct Hs.
  - unfold HandleUnsubscribe. cbn [snd]. apply Htable. by apply rs_unsubscribe_spec.
  - unfold HandlePublish. fold (request_packet p).
    pose proof (BuildAndEnqueue_ok (cstr (pub_address p ++ [x00])) (cstr (pub_typetag p ++ [x00]))
      (Some (take (pub_arg_len p) (pub_arg_bytes p ++ pub_beyond p))) r Hr) as Hb.
    fold (request_packet p) in Hb.
    destruct (BuildAndEnqueue _ _ _ r) as [ok r']. cbn [fst snd].
    replace (is_success (reply ok)) with ok by (by destruct ok).
    destruct (offer _ ok) as [acc d]. by destruct Hb as (? & -> & ?).
  - unfold HandleGetStats. destruct (ReadGlobalStats _); exact Hskip.
  - destruct (stop_ r); [exact Hskip|]. pose proof (EnqueueFrame_ok f r Hr) as Hb.
    destruct (offer _ _) as [acc d]. by destruct Hb as (? & -> & ?).
  - unfold SendWorkerTurn. destruct (stop_ r); [exact Hskip|].
    rewrite Z.add_0_r, app_nil_r. destruct (Dequeue r) as [[x r1]|] eqn:E.
    + destruct (Dequeue_ok r x r1 Hr E) as (H1 & H2 & H3).
      destruct (send_entry_ok x sent tick r1 H1) as (H4 & H5 & H6).
      destruct (publish_stats_ok st _ H4) as (H7 & H8 & H9).
      rewrite H2, H8, H5, H9, H6, H3, u64_small by done. done.
    + destruct (publish_stats_ok st r Hr) as (H7 & H8 & H9).
      rewrite H8, H9, u64_small by done. done.
Qed.

(** A run collects what was accepted, taken and refused. *)
Fixpoint run r (es : list event) : OscRouter T * list SendEntry * list SendEntry * nat :=
  match es with
  | [] => (r, [], [], 0)
  | e :: es' =>
    let '((acc, d), con) := effect r e in
    let '(r', acc', con', d') := run (step r e) es' in (r', acc ++ acc', con ++ con', d + d')
  end.

Lemma run_fifo r es :
  router_ok r ->
  let '(r', acc, con, d) := run r es in
  router_ok r' /\ qview r ++ acc = con ++ qview r' /\
  droppedCount_ r' = u64 (droppedCount_ r + Z.of_nat d).
Proof.
  revert r. induction es as [|e es IH]; intros r Hr; cbn [run].
  { rewrite app_nil_r, Z.add_0_r. split_and!; [done|done|].
    destruct Hr as (_ & _ & ?). by rewrite u64_small. }
  pose proof (step_effect r e Hr) as Hs. destruct (effect r e) as [[acc d] con].
  destruct Hs as (Hr1 & Hv1 & Hd1). specialize (IH _ Hr1).
  destruct (run (step r e) es) as [[[r' acc'] con'] d']. destruct IH as (Hr' & Hv' & Hd').
  split_and!; [done| |].
  - rewrite app_assoc, Hv1, <-!app_assoc. by rewrite Hv'.
  - rewrite Hd', Hd1. unfold u64. rewrite Z.add_mod_idemp_l by lia. f_equal. lia.
Qed.

Lemma Init_ok mapping udp : router_ok (Init mapping udp) /\ qview (Init mapping udp) = [].
Proof.
  split; [|done]. split; [|split; [apply rs_new_spec|cbn; lia]].
  unfold ring_ok, Init. cbn [queue_ qHead_ qCount_ qTail_].
  unfold kSendQueueCapacity. split_and!; [by rewrite length_replicate|lia|lia|done].
Qed.

Lemma qview_length r : length (qview r) = qCount_ r.
Proof. unfold qview. by rewrite length_map, length_seq. Qed.
End Queue.

(** ** From a publish call to the receiver *)

Section EndToEnd.
Context {T : Type} `{RouteStore T}.
Implicit Type r : OscRouter T.

Lemma WriteRawArgs_nil N p : pos_ p <= N -> WriteRawArgs N [] p = p.
Proof.
  intros Hp. unfold WriteRawArgs, Append. destruct p as [b []]; cbn [ok_ negb]; [|done].
  unfold pos_ in *. cbn [buf length] in *. rewrite Nat.add_0_r, app_nil_r.
  destruct (Nat.ltb_spec N (length b)); [lia|done].
Qed.

Lemma build_packet_raw a t args :
  build_packet a t args =
  WriteRawArgs kSendQueueEntryMaxSize (default [] args) (Begin kSendQueueEntryMaxSize a t packet_init).
Proof.
  pose proof (run_ops_init kSendQueueEntryMaxSize [OpStr a; OpStr t] ltac:(done)) as (Hp & _ & _).
  unfold build_packet. destruct args as [[|c w]|]; cbn [default]; [|reflexivity|];
    symmetry; by apply WriteRawArgs_nil.
Qed.

(** What [BuildAndEnqueue] puts in the queue is the message it was given. *)
Lemma packet_of_message a t args x :
  nul_free a -> nul_free t -> packet_of a t args = Some x ->
  OscParseMessage x = Some (mkMsg a t (default [] args)) /\
  0 < length x <= kSendQueueEntryMaxSize.
Proof.
  intros Ha Ht. unfold packet_of. rewrite build_packet_raw.
  destruct (ok_ _) eqn:Hok; [|done]. intros [= <-]. by apply message_decode.
Qed.

(** An accepted publication is the message it was given, at the back of the
    queue, and it is accepted exactly when it fits and there is room. *)
Lemma BuildAndEnqueue_message a t args r :
  nul_free a -> nul_free t -> router_ok r ->
  let '(ok, r') := BuildAndEnqueue a t args r in
  (ok = true <->
    length (osc_message a t (default [] args)) <= kSendQueueEntryMaxSize /\
    length (qview r) < kSendQueueCapacity) /\
  (ok = true -> routeTable_ r' = routeTable_ r /\ exists x, qview r' = qview r ++ [x] /\ 0 < length x /\
    OscParseMessage x = Some (mkMsg a t (default [] args))).
Proof.
  intros Ha Ht Hr.
  pose proof (run_ops_init kSendQueueEntryMaxSize [OpStr a; OpStr t; OpRaw (default [] args)]
                ltac:(done)) as (_ & Hfit & Hover).
  cbn [run_ops foldl run_op map concat op_bytes] in *.
  rewrite (cstr_id a), (cstr_id t), app_nil_r in * by done.
  change (WriteRawArgs _ (default [] args) _) with
    (WriteRawArgs kSendQueueEntryMaxSize (default [] args)
       (Begin kSendQueueEntryMaxSize a t packet_init)) in *.
  rewrite <-build_packet_raw in *. fold (osc_message a t (default [] args)) in *.
  unfold BuildAndEnqueue. destruct (ok_ (build_packet a t args)) eqn:Hok; cbn [negb].
  2: { split; [|done]. split; [done|]. intros [Hl _]. by rewrite Hfit in Hok by done. }
  pose proof (packet_of_message a t args (buf (build_packet a t args)) Ha Ht) as Hm.
  unfold packet_of in Hm. rewrite Hok in Hm. destruct (Hm eq_refl) as [Hparse Hlen].
  pose proof (EnqueueLocked_spec (buf (build_packet a t args)) r (proj1 Hr)) as Hs.
  assert (length (osc_message a t (default [] args)) <= kSendQueueEntryMaxSize) as Hfits.
  { destruct (decide (length (osc_message a t (default [] args)) <= kSendQueueEntryMaxSize)); [done|].
    discriminate Hover. lia. }
  destruct (EnqueueLocked _ r) as [ok r1]. destruct Hs as (_ & Htab & Hiff & Hv & _).
  destruct ok; (split; [|try done]).
  - naive_solver.
  - intros _. split; [done|]. eexists. split; [exact Hv|]. naive_solver lia.
  - split; [done|]. intros [_ ?]. apply Hiff. naive_solver lia.
Qed.

(** The worker's turn on the oldest packet of the queue. *)
Lemma SendWorkerTurn_head x q sent tick r :
  router_ok r -> stop_ r = false -> sender_open r = true -> (0 < sent)%Z ->
  qview r = x :: q -> 0 < length x ->
  let r' := SendWorkerTurn sent tick None r in
  qview r' = q /\ packetsSent_ r' = u64 (packetsSent_ r + 1) /\
  bytesSent_ r' = u64 (bytesSent_ r + sent) /\
  rs_view (routeTable_ r') =
    match OscParseMessage x with
    | Some m => spec_match (address m) tick <$> rs_view (routeTable_ r)
    | None => rs_view (routeTable_ r)
    end.
Proof.
  intros Hr Hstop Hopen Hsent Hq Hx. unfold SendWorkerTurn. rewrite Hstop.
  pose proof (Dequeue_spec r (proj1 Hr)) as Hs.
  destruct (Dequeue r) as [[y r1]|] eqn:E; [|congruence].
  destruct (Dequeue_ok r y r1 Hr E) as (Hr1 & Hv & _).
  destruct Hs as (_ & Htab & _). rewrite Hq in Hv. injection Hv as <- ->.
  cbn [publish_stats]. destruct (send_entry_ok x sent tick r1 Hr1) as (_ & -> & _).
  assert (sender_open r1 = true /\ packetsSent_ r1 = packetsSent_ r /\ bytesSent_ r1 = bytesSent_ r)
    as (Ho & Hp & Hb).
  { unfold Dequeue in E. case_match; [done|]. by injection E as _ <-. }
  unfold send_entry. rewrite Ho, (proj2 (Nat.ltb_lt _ _) Hx), (proj2 (Z.ltb_lt _ _) Hsent).
  cbn [andb]. unfold count_sent. rewrite Hp, Hb.
  destruct (OscParseMessage x) as [m|]; cbn; rewrite ?Htab; [|done].
  destruct Hr as (_ & Ht & _).
  pose proof (rs_dispatch_spec (address m) tick (routeTable_ r) Ht) as Hds.
  destruct (rs_dispatch _ _ _) as [b t']. cbn [snd]. by destruct Hds as (_ & ? & _).
Qed.
End EndToEnd.

(** ** Framing on the publish pipe *)

(** A frame with the sizes of the reads that deliver it: one read each for the
    source id and the length, any number for the body. *)
Record framed := mkFramed { f_id : list byte; f_body : list byte; f_h1 : nat; f_h2 : nat; f_bs : list nat }.

Definition framed_ok (f : framed) : Prop :=
  length (f_id f) = 32 /\ 0 < length (f_body f) <= kSendQueueEntryMaxSize /\
  32 <= f_h1 f /\ 4 <= f_h2 f /\
  Forall (fun k => 0 < k) (f_bs f) /\ sum_list (f_bs f) = length (f_body f).

Definition frame_bytes (f : framed) : list byte :=
  f_id f ++ le32 (Z.of_nat (length (f_body f))) ++ f_body f.

Definition frame_reads (f : framed) : list nat := f_h1 f :: f_h2 f :: f_bs f.

Lemma ReadFile_at n k s rest ks :
  0 < length s -> Nat.min n k = length s -> ReadFile n (s ++ rest, k :: ks) = Some (s, (rest, ks)).
Proof.
  intros Hs Hn. unfold ReadFile. cbn [fst snd]. rewrite Hn, take_app_length, drop_app_length.
  destruct s; [simpl in Hs; lia|done].
Qed.

Lemma ReadExact_at n k s rest ks :
  0 < n -> length s = n -> n <= k -> ReadExact n (s ++ rest, k :: ks) = Some (s, (rest, ks)).
Proof.
  intros Hn Hs Hk. unfold ReadExact. rewrite ReadFile_at by lia.
  by rewrite (proj2 (Nat.eqb_eq _ _) Hs).
Qed.

Lemma ReadLoop_at bs fuel acc body rest ks :
  Forall (fun k => 0 < k) bs -> sum_list bs = length body -> length bs < fuel ->
  ReadLoop fuel (length acc + length body) acc (body ++ rest, bs ++ ks) =
  Some (acc ++ body, (rest, ks)).
Proof.
  intros Hbs. revert fuel acc body. induction Hbs as [|k bs Hk _ IH];
    intros [|fuel] acc body Hsum Hf; cbn [sum_list_with id length] in *; try lia.
  - destruct body; [|done]. cbn [ReadLoop]. rewrite app_nil_r, (proj2 (Nat.leb_le _ _)) by (simpl; lia).
    done.
  - cbn [ReadLoop]. rewrite (proj2 (Nat.leb_gt _ _)) by lia.
    assert (body ++ rest = take k body ++ (drop k body ++ rest)) as ->
      by (by rewrite app_assoc, take_drop).
    cbn [app].
    rewrite ReadFile_at by (rewrite length_take; lia).
    replace (length acc + length body) with (length (acc ++ take k body) + length (drop k body))
      by (rewrite length_app, length_take, length_drop; lia).
    rewrite IH by (rewrite ?length_drop; lia). by rewrite <-app_assoc, take_drop.
Qed.

Lemma ReadFrame_at f rest ks :
  framed_ok f ->
  ReadFrame (frame_bytes f ++ rest, frame_reads f ++ ks) = Some (f_body f, (rest, ks)).
Proof.
  intros (Hid & Hb & H1 & H2 & Hbs & Hsum). unfold ReadFrame, frame_bytes, frame_reads.
  rewrite <-!app_assoc. cbn [app]. rewrite ReadExact_at by lia.
  rewrite ReadExact_at by (reflexivity || lia).
  destruct (le32 (Z.of_nat (length (f_body f)))) as [|a [|b [|d [|e [|]]]]] eqn:E; try done.
  apply of_le32_le32 in E. unfold kSendQueueEntryMaxSize in Hb.
  rewrite E, u32_small, Nat2Z.id by lia.
  rewrite (proj2 (Nat.eqb_neq _ _)), (proj2 (Nat.ltb_ge _ _)) by (unfold kSendQueueEntryMaxSize; lia).
  cbn [orb snd]. change (length (f_body f)) with (length (@nil byte) + length (f_body f)) at 1.
  apply (ReadLoop_at _ _ []); [done|done|]. rewrite length_app. lia.
Qed.

Section Pipe.
Context {T : Type} `{RouteStore T}.
Implicit Type r : OscRouter T.

Lemma EnqueueFrame_stop f r : stop_ (EnqueueFrame f r) = stop_ r.
Proof. unfold EnqueueFrame, EnqueueLocked. by repeat case_match; simplify_eq. Qed.

Lemma ServeClient_frames fs fuel r :
  Forall framed_ok fs -> stop_ r = false -> length fs < fuel ->
  ServeClient fuel (concat (map frame_bytes fs), concat (map frame_reads fs)) r =
  foldl (fun r f => EnqueueFrame (f_body f) r) r fs.
Proof.
  intros Hfs. revert fuel r. induction Hfs as [|f fs Hf _ IH];
    intros [|fuel] r Hstop Hlen; try (simpl in Hlen; lia); cbn [ServeClient]; rewrite Hstop; [done|].
  cbn [map concat foldl]. rewrite ReadFrame_at by done. apply IH; [|simpl in Hlen; lia].
  by rewrite EnqueueFrame_stop.
Qed.
End Pipe.

(** ** Properties *)

(** C3: In any interleaving of publications, IPC requests, pipe frames and
    worker turns, the router is a bounded FIFO: what was accepted is exactly what
    the worker took followed by what is still queued, in order; the ring never
    holds more than 1024 packets; and every refusal for want of room is counted. *)
Theorem router_fifo {T} `{RouteStore T} mapping udp es :
  let r0 : OscRouter T := Init mapping udp in
  let '(r, accepted, taken, refused) := run r0 es in
  accepted = taken ++ qview r /\ length (qview r) <= kSendQueueCapacity /\
  droppedCount_ r = u64 (Z.of_nat refused) /\ router_ok r.
Proof.
  cbv zeta. destruct (Init_ok (T := T) mapping udp) as [Hr Hq].
  pose proof (run_fifo (Init mapping udp) es Hr) as Hrun.
  destruct (run (Init mapping udp) es) as [[[r acc] con] d].
  destruct Hrun as (Hr' & Hv & Hd). rewrite Hq in Hv.
  split_and!; [done| |done|done]. rewrite qview_length. apply Hr'.
Qed.

(** A publication is accepted exactly when its encoding fits 512 bytes and
    the queue has room, and then the packet at the back of the queue parses to
    the address, type tag and arguments given; once it is at the front, the
    worker's turn sends it, counts it, and bumps exactly the matching routes. *)
Theorem publish_to_send {T} `{RouteStore T} a t args (r : OscRouter T)
  (Ha : nul_free a) (Ht : nul_free t) (Hr : router_ok r) (Hstop : stop_ r = false) :
  let '(ok, r1) := PublishOsc a t args r in
  (ok = true <->
    length (osc_message a t (default [] args)) <= kSendQueueEntryMaxSize /\
    length (qview r) < kSendQueueCapacity) /\
  (ok = true -> exists x, qview r1 = qview r ++ [x] /\ 0 < length x /\
    OscParseMessage x = Some (mkMsg a t (default [] args)) /\
    forall sent tick q r2, (0 < sent)%Z -> router_ok r2 -> stop_ r2 = false -> sender_open r2 = true ->
      qview r2 = x :: q ->
      let r3 := SendWorkerTurn sent tick None r2 in
      qview r3 = q /\ packetsSent_ r3 = u64 (packetsSent_ r2 + 1) /\
      rs_view (routeTable_ r3) = spec_match a tick <$> rs_view (routeTable_ r2)).
Proof.
  unfold PublishOsc. rewrite Hstop.
  pose proof (BuildAndEnqueue_message a t args r Ha Ht Hr) as Hb.
  destruct (BuildAndEnqueue a t args r) as [ok r1]. destruct Hb as [Hiff Hmsg].
  split; [done|]. intros Hok. destruct (Hmsg Hok) as (_ & x & Hv & Hx & Hparse).
  exists x. do 3 (split; [done|]). intros sent tick q r2 Hsent Hr2 Hs2 Ho2 Hq.
  destruct (SendWorkerTurn_head x q sent tick r2 Hr2 Hs2 Ho2 Hsent Hq Hx) as (H1 & H2 & _ & H4).
  rewrite Hparse in H4. done.
Qed.

Example publish_to_send_witness :
  let r0 : OscRouter (list RouteEntry) := Init (Some fresh_mapping) true in
  let r1 := (PublishOsc (str "/a") (str ",i") (Some (be32 1)) r0).2 in
  map OscParseMessage (qview r1) = [Some (mkMsg (str "/a") (str ",i") (be32 1))].
Proof.
  cbv zeta.
  pose proof (publish_to_send (str "/a") (str ",i") (Some (be32 1))
    (Init (Some fresh_mapping) true : OscRouter (list RouteEntry))
    ltac:(solve_nul_free) ltac:(solve_nul_free) (proj1 (Init_ok _ _)) eq_refl) as Hp.
  destruct (PublishOsc _ _ _ _) as [ok r1]. destruct Hp as [Hiff Hok].
  assert (ok = true) as Hsent.
  { apply Hiff. split; [apply (proj1 (Nat.leb_le _ _))|apply (proj1 (Nat.ltb_lt _ _))];
      vm_compute; reflexivity. }
  destruct (Hok Hsent) as (x & Hv & _ & Hm & _).
  cbn [snd]. rewrite Hv, (proj2 (Init_ok _ _)). cbn [app map]. by rewrite Hm.
Defined.

(** A client of the publish pipe that writes, for every packet of 1 to 512
    bytes, a 32-byte source id, a little-endian length and the packet has exactly
    its packets enqueued in order, however the packets' bytes are split over the
    reads. *)
Theorem pipe_frames_delivered {T} `{RouteStore T} fs (r : OscRouter T)
  (Hfs : Forall framed_ok fs) (Hstop : stop_ r = false) :
  PubPipeClient (concat (map frame_bytes fs), concat (map frame_reads fs)) r =
  foldl (fun r f => EnqueueFrame (f_body f) r) r fs.
Proof.
  unfold PubPipeClient. apply ServeClient_frames; [done|done|]. cbn [snd].
  clear Hfs. induction fs as [|f fs IH]; [simpl; lia|].
  cbn [map concat length]. rewrite length_app. unfold frame_reads at 1. cbn [length]. lia.
Qed.

Example pipe_frames_delivered_witness :
  let f := mkFramed (replicate 32 x00) (str "/abc") 32 4 [3; 1] in
  let r0 : OscRouter (list RouteEntry) := Init None false in
  qview (PubPipeClient (concat (map frame_bytes [f; f]), concat (map frame_reads [f; f])) r0)
  = [str "/abc"; str "/abc"].
Proof.
  cbv zeta. rewrite pipe_frames_delivered;
    [vm_compute; reflexivity| |reflexivity].
  repeat constructor; vm_compute; lia.
Defined.

(** A publish request whose [arg_len] is within the 32-byte argument array
    publishes exactly those argument bytes; a larger [arg_len], which nothing
    rejects, publishes the bytes that follow the array in memory as well. *)
Theorem HandlePublish_args {T} `{RouteStore T} p (r : OscRouter T)
  (Hr : router_ok r)
  (Hmem : pub_arg_len p <= length (pub_arg_bytes p) + length (pub_beyond p)) :
  let '(resp, r') := HandlePublish p r in
  resp = ResponseSuccess ->
  exists x m, qview r' = qview r ++ [x] /\ OscParseMessage x = Some m /\
    address m = cstr (pub_address p) /\ typetag m = cstr (pub_typetag p) /\
    length (arg_data m) = pub_arg_len p /\
    arg_data m = take (pub_arg_len p) (pub_arg_bytes p) ++
                 take (pub_arg_len p - length (pub_arg_bytes p)) (pub_beyond p).
Proof.
  unfold HandlePublish.
  assert (forall s, cstr (s ++ [x00]) = cstr s) as Hc.
  { intros s. unfold cstr. induction s as [|c s IH]; [done|]. cbn [app strnlen].
    case_decide; [done|]. cbn [take]. by rewrite IH. }
  pose proof (BuildAndEnqueue_message (cstr (pub_address p ++ [x00])) (cstr (pub_typetag p ++ [x00]))
    (Some (take (pub_arg_len p) (pub_arg_bytes p ++ pub_beyond p))) r
    (cstr_nul_free _) (cstr_nul_free _) Hr) as Hb.
  destruct (BuildAndEnqueue _ _ _ _) as [[] r']; [|done]. destruct Hb as [_ Hb]. intros _.
  destruct (Hb eq_refl) as (_ & x & Hv & _ & Hm). rewrite !Hc in Hm.
  eexists x, _. split; [exact Hv|]. split; [exact Hm|].
  cbn [address typetag arg_data]. cbn [default]. unfold id.
  split_and!; [done|done| |apply take_app].
  rewrite length_take, length_app. lia.
Qed.

Example HandlePublish_args_witness :
  let secret := str "leak" in
  let p := mkPublish (str "/a") (str ",i") 36 (replicate 32 x00) secret in
  let r0 : OscRouter (list RouteEntry) := Init None false in
  exists x m, qview (HandlePublish p r0).2 = [] ++ [x] /\ OscParseMessage x = Some m /\
    arg_data m = replicate 32 x00 ++ secret.
Proof.
  cbv zeta.
  pose proof (HandlePublish_args (mkPublish (str "/a") (str ",i") 36 (replicate 32 x00) (str "leak"))
    (Init None false : OscRouter (list RouteEntry)) (proj1 (Init_ok _ _)) ltac:(vm_compute; lia)) as Hp.
  assert ((HandlePublish (mkPublish (str "/a") (str ",i") 36 (replicate 32 x00) (str "leak"))
    (Init None false : OscRouter (list RouteEntry))).1 = ResponseSuccess) as Hok by (vm_compute; reflexivity).
  destruct (HandlePublish _ _) as [resp r']. cbn [fst snd] in *.
  destruct (Hp Hok) as (x & m & Hv & Hm & _ & _ & _ & Harg).
  exists x, m. split; [rewrite Hv; by rewrite (proj2 (Init_ok _ _))|]. split; [done|].
  rewrite Harg. vm_compute. reflexivity.
Defined.
