(* ===== verification/Publisher.v ===== *)
(** * Captions publisher (modules/captions/src/host/RouterPublisher.{h,cpp}, ChatboxPacer.{h,cpp})

    The chatbox encoder, the truncation to VRChat's limit, the connection state
    machine with its retry, and the rate limiter; the last part composes the
    publisher with the router's pipe reader. *)

From S2P Require Import Prelude Floats OscWire OscRouter RouteTable.

(** ** Encoding *)

Definition Pad4 (n : nat) : nat := Z.to_nat (Z.land (Z.of_nat n + 3) (2 ^ 32 - 4)).

(** The bytes [WriteOscString] appends. *)
Definition WriteOscString (s : list byte) : list byte :=
  let len := length (cstr s) + 1 in
  cstr s ++ [x00] ++ replicate (Pad4 len - len) x00.

Definition chatbox_address : list byte := str "/chatbox/input".

(** [snprintf(typetag, 8, ",s%c%c", ...)] *)
Definition chatbox_typetag (send_immediate notify : bool) : list byte :=
  str ",s" ++ [if send_immediate then "T"%byte else "F"%byte; if notify then "T"%byte else "F"%byte].

(** The written bytes; the empty list is the error return 0. *)
Definition EncodeChatboxPacket (buf_size : nat) (text : list byte) (send_immediate notify : bool)
  : list byte :=
  let typetag := chatbox_typetag send_immediate notify in
  let total := Pad4 (length chatbox_address + 1) + Pad4 (length typetag + 1)
               + Pad4 (length (cstr text) + 1) in
  if buf_size <? total then []
  else WriteOscString chatbox_address ++ WriteOscString typetag ++ WriteOscString text.

(** ** Truncation *)

Definition is_cut_space (c : byte) : bool :=
  bool_decide (c = " "%byte \/ c = "009"%byte \/ c = "013"%byte \/ c = "010"%byte).

(** The loop: the largest position up to [cut] holding a blank, or 0. *)
Fixpoint cut_back (text : list byte) (cut : nat) : nat :=
  match cut with
  | 0 => 0
  | S k => if is_cut_space (nth cut text x00) then cut else cut_back text k
  end.

Definition kLimit : nat := 144.

Definition TruncateToVrchatLimit (text : list byte) : list byte :=
  if length text <=? kLimit then text else
  let cut := cut_back text kLimit in
  let cut := if cut =? 0 then kLimit else cut in
  take cut text ++ str "...".

(** ** Connection

    [pipe_] holds the bytes written so far on the open connection; [closed] the
    streams of the connections given up.  The operating system's answers are an
    oracle: [Ok], or a failure after [n] bytes got out. *)

Inductive io := IoOk | IoFail (n : nat).

Record RouterPublisher := mkPub {
  pipe_ : option (list byte);
  identified_ : bool;
  backoff_ms_ : Z;
  closed : list (list byte) }.

Definition publisher_init : RouterPublisher := mkPub None false 500 [].

Definition kMaxBackoffMs : Z := 15000.
Definition kSourceId : list byte := str "translator" ++ replicate 22 x00.

Definition Disconnect (p : RouterPublisher) : RouterPublisher :=
  mkPub None false (backoff_ms_ p) (closed p ++ match pipe_ p with Some s => [s] | None => [] end).

(** An exhausted oracle fails. *)
Definition next_io (os : list io) : io * list io :=
  match os with [] => (IoFail 0, []) | o :: os' => (o, os') end.

Definition Write (data : list byte) (os : list io) (p : RouterPublisher)
  : bool * list io * RouterPublisher :=
  match next_io os with
  | (IoOk, os') => (true, os', mkPub (s ← pipe_ p; Some (s ++ data)) (identified_ p) (backoff_ms_ p) (closed p))
  | (IoFail n, os') =>
    (false, os', mkPub (s ← pipe_ p; Some (s ++ take n data)) (identified_ p) (backoff_ms_ p) (closed p))
  end.

(** The first answer is [CreateFileA]'s. *)
Definition Connect (os : list io) (p : RouterPublisher) : bool * list io * RouterPublisher :=
  let p0 := Disconnect p in
  match next_io os with
  | (IoFail _, os1) => (false, os1, p0)
  | (IoOk, os1) =>
    let p1 := mkPub (Some []) (identified_ p0) (backoff_ms_ p0) (closed p0) in
    match Write kSourceId os1 p1 with
    | (false, os2, p2) => (false, os2, Disconnect p2)
    | (true, os2, p2) => (true, os2, mkPub (pipe_ p2) true 500 (closed p2))
    end
  end.

Definition double_backoff (p : RouterPublisher) : RouterPublisher :=
  mkPub (pipe_ p) (identified_ p) (Z.min (backoff_ms_ p * 2) kMaxBackoffMs) (closed p).

(** [for (attempt = 0; attempt < 2; ++attempt)]: [n] attempts are left. *)
Fixpoint publish_attempts (n : nat) (text : list byte) (si nt : bool) (os : list io)
    (p : RouterPublisher) : bool * list io * RouterPublisher :=
  match n with
  | 0 => (false, os, double_backoff p)
  | S k =>
    let '(up, os1, p1) :=
      if bool_decide (pipe_ p = None) || negb (identified_ p) then Connect os p else (true, os, p) in
    if negb up then (false, os1, double_backoff p1) else
    let pkt := EncodeChatboxPacket 1024 text si nt in
    if length pkt =? 0 then (false, os1, p1) else
    let '(ok1, os2, p2) := Write (le32 (Z.of_nat (length pkt))) os1 p1 in
    let '(ok2, os3, p3) := if ok1 then Write pkt os2 p2 else (false, os2, p2) in
    if ok1 && ok2 then (true, os3, p3)
    else publish_attempts k text si nt os3 (Disconnect p3)
  end.

Definition PublishChatbox (text_in : list byte) (si nt : bool) (os : list io) (p : RouterPublisher)
  : bool * list io * RouterPublisher :=
  publish_attempts 2 (TruncateToVrchatLimit text_in) si nt os p.

(** ** ChatboxPacer

    [now] is the steady clock in nanoseconds. *)

Record Entry := mkEntry { text_ : list byte; send_immediate_ : bool; notify_ : bool }.

Definition kQueueCap : nat := 8.

Record ChatboxPacer := mkPacer {
  min_gap_sec_ : double; queue_ : list Entry; last_send_ : Z; first_send_ : bool }.

Definition pacer_init (gap : double) : ChatboxPacer := mkPacer gap [] 0 true.

Definition Enqueue (e : Entry) (q : ChatboxPacer) : ChatboxPacer :=
  let pending := if kQueueCap <=? length (queue_ q) then drop 1 (queue_ q) else queue_ q in
  mkPacer (min_gap_sec_ q) (pending ++ [e]) (last_send_ q) (first_send_ q).

(** [duration<double>(now - last_send_).count()] *)
Definition elapsed_sec (ns : Z) : double := d_div (d_of_Z ns) (d_of_Z 1000000000).

Definition Dequeue (now : Z) (q : ChatboxPacer) : option (Entry * ChatboxPacer) :=
  match queue_ q with
  | [] => None
  | e :: es =>
    if negb (first_send_ q) && flt (elapsed_sec (now - last_send_ q)) (min_gap_sec_ q) then None
    else Some (e, mkPacer (min_gap_sec_ q) es now false)
  end.

(** ** Lemmas *)

Lemma WriteOscString_osc_str s :
  nul_free s -> (Z.of_nat (length s) < 2 ^ 32 - 8)%Z -> WriteOscString s = osc_str s.
Proof.
  intros Hs Hl. unfold WriteOscString. rewrite cstr_id by done.
  rewrite osc_str_split, <-app_assoc by done. done.
Qed.

Lemma cut_back_le text n : cut_back text n <= n.
Proof. induction n as [|n IH]; simpl; [done|]. case_match; lia. Qed.

Lemma Truncate_length text :
  length (TruncateToVrchatLimit text) <= kLimit + 3 /\
  (length text <= kLimit -> TruncateToVrchatLimit text = text).
Proof.
  unfold TruncateToVrchatLimit. destruct (Nat.leb_spec (length text) kLimit) as [H|H]; [split; [lia|done]|].
  split; [|lia]. rewrite length_app, length_take. pose proof (cut_back_le text kLimit).
  change (length (str "...")) with 3.
  destruct (cut_back text kLimit =? 0); lia.
Qed.

Lemma Truncate_nul_free text : nul_free text -> nul_free (TruncateToVrchatLimit text).
Proof.
  intros H. unfold TruncateToVrchatLimit. case_match; [done|].
  apply list.Forall_app; split; [by apply Forall_take|solve_nul_free].
Qed.

(** The packet of a text that has been truncated. *)
Definition chatbox_packet (text : list byte) (si nt : bool) : list byte :=
  osc_message chatbox_address (chatbox_typetag si nt) (osc_str text).

Lemma Encode_packet text si nt :
  nul_free text -> length text <= 147 ->
  EncodeChatboxPacket 1024 text si nt = chatbox_packet text si nt /\
  length (chatbox_packet text si nt) <= 172 /\ 24 <= length (chatbox_packet text si nt).
Proof.
  intros Ht Hl. unfold EncodeChatboxPacket, chatbox_packet, osc_message.
  rewrite cstr_id by done.
  change Pad4 with OscPad4.
  pose proof (OscPad4_bounds (length text + 1) ltac:(lia)) as Hb.
  pose proof (OscPad4_mod (length text + 1) ltac:(lia)) as Hm.
  assert (length (chatbox_typetag si nt) = 4) as Htag by done.
  assert (length (osc_str text) = OscPad4 (length text + 1)) as Hs.
  { unfold osc_str. rewrite length_app, length_replicate. lia. }
  rewrite (proj2 (Nat.ltb_ge _ _)).
  2: { rewrite Htag. change (length chatbox_address) with 14.
       change (OscPad4 (14 + 1)) with 16. change (OscPad4 (4 + 1)) with 8. lia. }
  rewrite !WriteOscString_osc_str; [|done|lia|by destruct si, nt; solve_nul_free|cbn; lia|solve_nul_free|cbn; lia].
  split; [done|]. rewrite !length_app, Hs.
  change (length (osc_str chatbox_address)) with 16.
  assert (length (osc_str (chatbox_typetag si nt)) = 8) as -> by (by destruct si, nt).
  assert (OscPad4 (length text + 1) <= 148).
  { pose proof (Nat.div_mod_eq (OscPad4 (length text + 1)) 4). lia. }
  lia.
Qed.

Lemma Write_true data os p os' p' :
  Write data os p = (true, os', p') ->
  pipe_ p' = (s ← pipe_ p; Some (s ++ data)) /\ identified_ p' = identified_ p.
Proof. unfold Write. by destruct (next_io os) as [[] ?]; intros [= <- <-]. Qed.

Lemma Connect_true os p os' p' :
  Connect os p = (true, os', p') -> pipe_ p' = Some kSourceId /\ identified_ p' = true.
Proof.
  unfold Connect. destruct (next_io os) as [[] os1]; [|done].
  destruct (Write _ _ _) as [[[] os2] p2] eqn:E; [|done]. intros [= <- <-].
  apply Write_true in E as [E _]. by rewrite E.
Qed.

(** The state of the connection before a frame: fresh, or as the call found it. *)
Definition ready (p0 p : RouterPublisher) (s : list byte) : Prop :=
  pipe_ p = Some s /\ identified_ p = true /\ (s = kSourceId \/ pipe_ p0 = Some s /\ identified_ p0 = true).

Lemma publish_attempts_true n text si nt os p0 p os' p' :
  (pipe_ p <> None -> identified_ p = true -> pipe_ p = pipe_ p0 /\ identified_ p0 = true) ->
  publish_attempts n text si nt os p = (true, os', p') ->
  let pkt := EncodeChatboxPacket 1024 text si nt in
  0 < length pkt /\
  exists s, (s = kSourceId \/ pipe_ p0 = Some s /\ identified_ p0 = true) /\
    pipe_ p' = Some (s ++ le32 (Z.of_nat (length pkt)) ++ pkt) /\ identified_ p' = true.
Proof.
  revert os p. induction n as [|n IH]; intros os p Hp; [done|]. cbn [publish_attempts].
  destruct (if bool_decide (pipe_ p = None) || negb (identified_ p)
            then Connect os p else (true, os, p)) as [[up os1] p1] eqn:Eup.
  destruct up; [|done]. cbn [negb].
  assert (exists s, ready p0 p1 s) as (s & Hs & Hid & Hsrc).
  { case_match eqn:Ec.
    - apply Connect_true in Eup as [? ?]. exists kSourceId. repeat split; auto.
    - injection Eup as <- <-. apply orb_false_iff in Ec as [Ec1%bool_decide_eq_false Ec2%negb_false_iff].
      destruct (Hp Ec1 Ec2) as [Hp0 Hid0]. destruct (pipe_ p) as [s|] eqn:Es; [|done].
      exists s. repeat split; auto. }
  destruct (Nat.eqb_spec (length (EncodeChatboxPacket 1024 text si nt)) 0) as [|Hne]; [done|].
  destruct (Write (le32 _) os1 p1) as [[ok1 os2] p2] eqn:E1.
  destruct ok1; cbn [andb].
  2: { intros H. eapply IH; [|exact H]. done. }
  destruct (Write _ os2 p2) as [[ok2 os3] p3] eqn:E2. destruct ok2; cbn [andb].
  2: { intros H. eapply IH; [|exact H]. done. }
  intros [= <- <-]. apply Write_true in E1 as [H1 H1'], E2 as [H2 H2'].
  split; [lia|]. exists s. split; [done|].
  rewrite H2, H1, Hs, H2', H1'. cbn. by rewrite <-app_assoc.
Qed.

(** ** The publisher against the router's pipe reader *)

(** What the second frame of a connection looks like to a reader that expects a
    source id again: the id swallows the length, the address, the type tag and
    four bytes of text, and the length field is the next four bytes of text. *)
Lemma chatbox_header_shape text si nt :
  nul_free text -> 8 <= length text <= 147 ->
  exists hd tl a b c d,
    le32 (Z.of_nat (length (chatbox_packet text si nt))) ++ chatbox_packet text si nt
    = hd ++ [a; b; c; d] ++ tl /\ length hd = 32 /\ [a; b; c; d] = take 4 (drop 4 text).
Proof.
  intros Ht Hl. unfold chatbox_packet, osc_message.
  destruct text as [|t0 [|t1 [|t2 [|t3 [|t4 [|t5 [|t6 [|t7 rest]]]]]]]]; cbn [length] in Hl; try lia.
  set (s := t0 :: _). unfold osc_str at 3.
  exists (le32 (Z.of_nat (length (osc_str chatbox_address ++ osc_str (chatbox_typetag si nt) ++
            (s ++ replicate (OscPad4 (length s + 1) - length s) x00)))) ++
          osc_str chatbox_address ++ osc_str (chatbox_typetag si nt) ++ [t0; t1; t2; t3]),
    (rest ++ replicate (OscPad4 (length s + 1) - length s) x00), t4, t5, t6, t7.
  split_and!; [|by destruct si, nt|done].
  rewrite <-!app_assoc. unfold s at 4. cbn [app]. done.
Qed.

Lemma reader_rejects_text text a b c d :
  nul_free text -> [a; b; c; d] = take 4 (drop 4 text) ->
  (Z.of_nat kSendQueueEntryMaxSize < of_le32 a b c d)%Z.
Proof.
  intros Ht E. assert (d <> x00) as Hd.
  { assert (nul_free [a; b; c; d]) as Hf by (rewrite E; by apply Forall_take, Forall_drop).
    unfold nul_free in Hf. rewrite !list.Forall_cons in Hf. naive_solver. }
  rewrite of_le32_sum.
  pose proof (bz_range a); pose proof (bz_range b); pose proof (bz_range c); pose proof (bz_range d).
  assert (bz d <> 0)%Z by (intros Hz; apply Hd; by apply bz_inj).
  unfold kSendQueueEntryMaxSize. lia.
Qed.

(** The reads of a pipe that always has at least 512 bytes to hand over. *)
Lemma ReadExact_stream n s rest ks :
  0 < n -> n <= 512 -> length s = n -> Forall (fun k => 512 <= k) ks -> ks <> [] ->
  ReadExact n (s ++ rest, ks) = Some (s, (rest, tail ks)).
Proof.
  intros ? ? Hs Hks Hne. destruct ks as [|k ks]; [done|]. apply list.Forall_cons in Hks as [Hk _].
  apply ReadExact_at; [done|done|lia].
Qed.

Section Desync.
Context {T : Type} `{RouteStore T}.

Lemma ServeClient_second_lost text1 text2 si1 nt1 si2 nt2 fuel k1 k2 k3 ks (r : OscRouter T) :
  nul_free text1 -> length text1 <= 147 -> nul_free text2 -> 8 <= length text2 <= 147 ->
  512 <= k1 -> 512 <= k2 -> 512 <= k3 ->
  Forall (fun k => 512 <= k) ks -> 2 <= length ks -> stop_ r = false -> 2 <= fuel ->
  let p1 := chatbox_packet text1 si1 nt1 in
  let p2 := chatbox_packet text2 si2 nt2 in
  ServeClient fuel (kSourceId ++ (le32 (Z.of_nat (length p1)) ++ p1) ++
                    (le32 (Z.of_nat (length p2)) ++ p2), k1 :: k2 :: k3 :: ks) r =
  EnqueueFrame p1 r.
Proof.
  intros H1 Hl1 H2 Hl2 Hk1 Hk2 Hk3 Hks Hlen Hstop Hfuel p1 p2.
  destruct (Encode_packet text1 si1 nt1 H1 Hl1) as (_ & Hp1a & Hp1b). fold p1 in Hp1a, Hp1b.
  destruct fuel as [|[|fuel]]; [lia..|].
  change (ServeClient (S (S fuel)) ?c r) with
    (if stop_ r then r else match ReadFrame c with
       | Some (frame, c') => ServeClient (S fuel) c' (EnqueueFrame frame r) | None => r end).
  rewrite Hstop.
  set (rest := le32 (Z.of_nat (length p2)) ++ p2).
  (* the first frame is read in full by three reads *)
  assert (ReadFrame (kSourceId ++ (le32 (Z.of_nat (length p1)) ++ p1) ++ rest, k1 :: k2 :: k3 :: ks)
          = Some (p1, (rest, ks))) as ->.
  { unfold ReadFrame. rewrite ReadExact_at by (reflexivity || lia). rewrite <-app_assoc.
    rewrite ReadExact_at by (reflexivity || lia).
    destruct (le32 (Z.of_nat (length p1))) as [|a [|b [|c [|d [|]]]]] eqn:E; try done.
    apply of_le32_le32 in E. rewrite E, u32_small, Nat2Z.id by lia.
    rewrite (proj2 (Nat.eqb_neq _ _)), (proj2 (Nat.ltb_ge _ _))
      by (unfold kSendQueueEntryMaxSize; lia).
    cbn [orb snd length ReadLoop].
    rewrite (proj2 (Nat.leb_gt _ _)), Nat.sub_0_r by lia.
    rewrite ReadFile_at by lia. cbn [app]. by rewrite Nat.leb_refl. }
  cbn [ServeClient]. rewrite EnqueueFrame_stop, Hstop.
  destruct (chatbox_header_shape text2 si2 nt2 H2 Hl2) as (hd & tl & a & b & c & d & Hsh & Hhd & Htxt).
  unfold rest. fold p2 in Hsh. rewrite Hsh. unfold ReadFrame.
  rewrite (ReadExact_stream 32) by (done || lia || (destruct ks; [simpl in Hlen; lia|done])).
  destruct ks as [|k ks]; [simpl in Hlen; lia|]. apply list.Forall_cons in Hks as [_ Hks].
  cbn [tail].
  rewrite (ReadExact_stream 4 [a; b; c; d]) by (done || lia || (destruct ks; [simpl in Hlen; lia|done])).
  pose proof (reader_rejects_text text2 a b c d H2 Htxt) as Hbig.
  rewrite (proj2 (Nat.ltb_lt _ _)) by (unfold kSendQueueEntryMaxSize in *; lia).
  by rewrite orb_true_r.
Qed.
End Desync.

(** ** Properties *)

(** Whatever the pipe does, a [PublishChatbox] that returns true ends with
    the length prefix and one complete packet on the open connection, directly
    behind a fresh source id or what the connection already carried; and the
    packet is the [/chatbox/input] message of the truncated text. *)
Theorem PublishChatbox_delivers text si nt os p os' p'
  (Htext : nul_free text)
  (Hrun : PublishChatbox text si nt os p = (true, os', p')) :
  let t := TruncateToVrchatLimit text in
  let pkt := chatbox_packet t si nt in
  (exists s, (s = kSourceId \/ pipe_ p = Some s /\ identified_ p = true) /\
    pipe_ p' = Some (s ++ le32 (Z.of_nat (length pkt)) ++ pkt) /\ identified_ p' = true) /\
  OscParseMessage pkt = Some (mkMsg chatbox_address (chatbox_typetag si nt) (osc_str t)).
Proof.
  cbv zeta. unfold PublishChatbox in Hrun.
  pose proof (Truncate_nul_free text Htext) as Hnf.
  pose proof (proj1 (Truncate_length text)) as Hlen. unfold kLimit in Hlen.
  destruct (Encode_packet (TruncateToVrchatLimit text) si nt Hnf ltac:(lia)) as (He & Hl & _).
  apply (publish_attempts_true 2 _ si nt os p) in Hrun; [|by auto].
  rewrite He in Hrun. split; [by apply Hrun|].
  unfold chatbox_packet, osc_message in *. rewrite !length_app in Hl.
  apply OscParseMessage_encode; try (by destruct si, nt; solve_nul_free);
    destruct si, nt; cbn; lia.
Qed.

Example PublishChatbox_delivers_witness :
  exists s, pipe_ (PublishChatbox (str "hello") true false [IoFail 0; IoOk; IoOk; IoOk; IoOk; IoOk]
    (mkPub (Some kSourceId) true 500 [])).2 = Some (s ++ le32 32 ++ chatbox_packet (str "hello") true false)
    /\ OscParseMessage (chatbox_packet (str "hello") true false) =
       Some (mkMsg chatbox_address (str ",sTF") (osc_str (str "hello"))).
Proof.
  destruct (PublishChatbox (str "hello") true false [IoFail 0; IoOk; IoOk; IoOk; IoOk; IoOk]
    (mkPub (Some kSourceId) true 500 [])) as [[ok os'] p'] eqn:E.
  assert (ok = true) as -> by (vm_compute in E; by injection E).
  destruct (PublishChatbox_delivers (str "hello") true false _ _ _ _ ltac:(solve_nul_free) E)
    as [(s & _ & Hs & _) Hp].
  exists s. split; [exact Hs|exact Hp].
Defined.

(** The publisher writes its source id once per connection while the
    router reads one per frame, so of two captions sent over one connection the
    router enqueues only the first: the second one's bytes are taken for a
    header, its text for a length, and the connection is given up. *)
Theorem second_caption_lost {T} `{RouteStore T} text1 text2 si1 nt1 si2 nt2 k1 k2 k3 ks (r : OscRouter T)
  (H1 : nul_free text1) (H2 : nul_free text2) (Hl2 : 8 <= length (TruncateToVrchatLimit text2))
  (Hks : Forall (fun k => 512 <= k) (k1 :: k2 :: k3 :: ks)) (Hlen : 2 <= length ks)
  (Hstop : stop_ r = false) :
  let '(ok1, _, p1) := PublishChatbox text1 si1 nt1 [IoOk; IoOk; IoOk; IoOk] publisher_init in
  let '(ok2, _, p2) := PublishChatbox text2 si2 nt2 [IoOk; IoOk] p1 in
  ok1 = true /\ ok2 = true /\
  PubPipeClient (default [] (pipe_ p2), k1 :: k2 :: k3 :: ks) r =
  EnqueueFrame (chatbox_packet (TruncateToVrchatLimit text1) si1 nt1) r.
Proof.
  pose proof (Truncate_nul_free text1 H1) as Hn1. pose proof (Truncate_nul_free text2 H2) as Hn2.
  pose proof (proj1 (Truncate_length text1)) as Ht1. pose proof (proj1 (Truncate_length text2)) as Ht2.
  unfold kLimit in *. unfold PublishChatbox.
  set (t1 := TruncateToVrchatLimit text1) in *. set (t2 := TruncateToVrchatLimit text2) in *.
  destruct (Encode_packet t1 si1 nt1 Hn1 ltac:(lia)) as (He1 & Hp1a & Hp1b).
  destruct (Encode_packet t2 si2 nt2 Hn2 ltac:(lia)) as (He2 & Hp2a & Hp2b).
  cbn [publish_attempts]. rewrite He1, He2.
  rewrite !(proj2 (Nat.eqb_neq _ _)) by lia. cbn -[le32 chatbox_packet PubPipeClient kSourceId].
  split_and!; [done..|]. unfold PubPipeClient. cbn [snd].
  rewrite !list.Forall_cons in Hks. destruct Hks as (? & ? & ? & ?).
  rewrite <-!app_assoc.
  pose proof (ServeClient_second_lost t1 t2 si1 nt1 si2 nt2 (S (length (k1 :: k2 :: k3 :: ks)))
    k1 k2 k3 ks r Hn1 ltac:(lia) Hn2 ltac:(lia)) as Hlost.
  cbv zeta in Hlost. setoid_rewrite <-app_assoc in Hlost.
  apply Hlost; (done || simpl; lia).
Qed.

Example second_caption_lost_witness :
  let r0 : OscRouter (list RouteEntry) := Init None true in
  let '(_, _, p1) := PublishChatbox (str "first caption") true false [IoOk; IoOk; IoOk; IoOk] publisher_init in
  let '(_, _, p2) := PublishChatbox (str "second caption") true false [IoOk; IoOk] p1 in
  PubPipeClient (default [] (pipe_ p2), replicate 6 512) r0 =
  EnqueueFrame (chatbox_packet (str "first caption") true false) r0.
Proof.
  cbv zeta.
  pose proof (second_caption_lost (str "first caption") (str "second caption") true false true false
    512 512 512 (replicate 3 512) (Init None true : OscRouter (list RouteEntry))
    ltac:(solve_nul_free) ltac:(solve_nul_free) ltac:(apply Nat.leb_le; reflexivity)
    ltac:(repeat (apply List.Forall_cons; [lia|]); apply List.Forall_nil) ltac:(apply Nat.leb_le; reflexivity) eq_refl) as H.
  destruct (PublishChatbox (str "first caption") _ _ _ _) as [[ok1 os1] p1].
  destruct (PublishChatbox (str "second caption") _ _ _ _) as [[ok2 os2] p2].
  destruct H as (_ & _ & H). exact H.
Defined.

(** Truncation keeps texts of at most 144 bytes, never yields more than
    147 bytes, and cuts at a blank when there is one; without a blank it does
    yield 147 bytes, three more than the limit it is meant to enforce. *)
Theorem Truncate_exact text :
  (length text <= kLimit -> TruncateToVrchatLimit text = text) /\
  length (TruncateToVrchatLimit text) <= kLimit + 3 /\
  (kLimit < length text ->
   (forall i, 0 < i <= kLimit -> is_cut_space (nth i text x00) = false) ->
   TruncateToVrchatLimit text = take kLimit text ++ str "..." /\
   length (TruncateToVrchatLimit text) = kLimit + 3) /\
  (kLimit < length text -> forall i, 0 < i <= kLimit -> is_cut_space (nth i text x00) = true ->
   (forall j, i < j <= kLimit -> is_cut_space (nth j text x00) = false) ->
   TruncateToVrchatLimit text = take i text ++ str "...").
Proof.
  assert (forall n, (forall i, 0 < i <= n -> is_cut_space (nth i text x00) = false) ->
            cut_back text n = 0) as Hnone.
  { induction n as [|n IH]; intros Hn; [done|]. cbn [cut_back]. rewrite Hn by lia.
    apply IH. intros; apply Hn; lia. }
  assert (forall n i, 0 < i <= n -> is_cut_space (nth i text x00) = true ->
            (forall j, i < j <= n -> is_cut_space (nth j text x00) = false) ->
            cut_back text n = i) as Hsome.
  { induction n as [|n IH]; intros i Hi Hs Hn; [lia|]. cbn [cut_back].
    destruct (decide (i = S n)) as [->|Hne]; [by rewrite Hs|].
    rewrite Hn by lia. apply IH; [lia|done|]. intros; apply Hn; lia. }
  destruct (Truncate_length text) as [H1 H2]. split; [done|]. split; [done|].
  unfold TruncateToVrchatLimit. split.
  - intros Hl Hn. rewrite (proj2 (Nat.leb_gt _ _)), Hnone by done. cbn [Nat.eqb].
    split; [done|]. rewrite length_app, length_take. change (length (str "...")) with 3. lia.
  - intros Hl i Hi Hs Hn. rewrite (proj2 (Nat.leb_gt _ _)) by done.
    rewrite (Hsome kLimit i) by done. by rewrite (proj2 (Nat.eqb_neq _ _)) by lia.
Qed.

Example Truncate_exact_witness :
  length (TruncateToVrchatLimit (replicate 150 "x"%byte)) = 147.
Proof.
  destruct (Truncate_exact (replicate 150 "x"%byte)) as (_ & _ & H & _).
  apply H; [apply Nat.ltb_lt; reflexivity|]. intros i Hi.
  rewrite nth_lookup. unfold kLimit in Hi. rewrite lookup_replicate_2 by lia. reflexivity.
Defined.

(** A history of the pacer: messages pushed and polls at given times, with the
    entries sent and when. *)
Inductive pacer_op := Push (e : Entry) | Poll (now : Z).

Fixpoint pacer_run (q : ChatboxPacer) (ops : list pacer_op) : ChatboxPacer * list (Z * Entry) :=
  match ops with
  | [] => (q, [])
  | Push e :: ops' => pacer_run (Enqueue e q) ops'
  | Poll now :: ops' =>
    match Dequeue now q with
    | Some (e, q') => let '(q'', sent) := pacer_run q' ops' in (q'', (now, e) :: sent)
    | None => pacer_run q ops'
    end
  end.

(** Consecutive sends are at least the gap apart. *)
Fixpoint spaced (gap : double) (prev : option Z) (sent : list (Z * Entry)) : Prop :=
  match sent with
  | [] => True
  | (t, _) :: sent' =>
    match prev with Some t0 => flt (elapsed_sec (t - t0)) gap = false | None => True end /\
    spaced gap (Some t) sent'
  end.

Definition last_sent (q : ChatboxPacer) : option Z := if first_send_ q then None else Some (last_send_ q).

Lemma pacer_run_spaced ops q :
  length (queue_ q) <= kQueueCap ->
  let '(q', sent) := pacer_run q ops in
  length (queue_ q') <= kQueueCap /\ spaced (min_gap_sec_ q) (last_sent q) sent /\
  sublist (map snd sent) (queue_ q ++ omap (fun o => match o with Push e => Some e | _ => None end) ops).
Proof.
  revert q. induction ops as [|[e|now] ops IH]; intros q Hq; cbn [pacer_run].
  - split_and!; [done|done|]. apply sublist_nil_l.
  - assert (length (queue_ (Enqueue e q)) <= kQueueCap) as Hq'.
    { unfold Enqueue. cbn [queue_]. rewrite length_app. cbn [length].
      destruct (Nat.leb_spec kQueueCap (length (queue_ q))); rewrite ?length_drop; unfold kQueueCap in *; lia. }
    specialize (IH _ Hq'). destruct (pacer_run (Enqueue e q) ops) as [q' sent].
    destruct IH as (H1 & H2 & H3). split_and!; [done|done|].
    etrans; [exact H3|]. cbn [omap list_omap]. rewrite (cons_middle e), app_assoc.
    apply sublist_app; [|done]. unfold Enqueue. cbn [queue_]. apply sublist_app; [|done].
    case_match; [|done]. apply sublist_drop.
  - unfold Dequeue. destruct (queue_ q) as [|e es] eqn:Eq; [rewrite <-Eq in *; by apply IH|].
    destruct (negb (first_send_ q) && _) eqn:Eg; [rewrite <-Eq in *; by apply IH|].
    specialize (IH (mkPacer (min_gap_sec_ q) es now false) ltac:(cbn in *; lia)).
    destruct (pacer_run _ ops) as [q' sent]. destruct IH as (H1 & H2 & H3).
    split_and!; [done| |by apply sublist_skip]. cbn [spaced]. split; [|exact H2].
    unfold last_sent. destruct (first_send_ q); [done|]. by cbn in Eg.
Qed.

(** In every history of pushes and polls the pacer keeps at most eight
    pending messages, never sends two messages less than the minimum gap apart,
    and sends a subsequence of what was pushed, in order. *)
Theorem pacer_rate_limit gap ops :
  let '(q, sent) := pacer_run (pacer_init gap) ops in
  length (queue_ q) <= kQueueCap /\ spaced gap None sent /\
  sublist (map snd sent) (omap (fun o => match o with Push e => Some e | _ => None end) ops).
Proof. apply (pacer_run_spaced ops (pacer_init gap)). cbn. unfold kQueueCap. lia. Qed.
