(* ===== verification/Supervisor.v ===== *)
(** * Host supervisor (core/src/common/HostSupervisorBase.{h,cpp})

    The supervisor's shared state, [Spawn], [Kill], [Restart], [Stop], and the
    monitor thread as a state machine whose phases are the points where it does
    not hold [process_mutex_]; other threads' calls and the host's own death
    interleave with it at those points.  The answers of the operating system
    (pipe, mutex, CreateProcess, clock) are inputs of the steps. *)

From S2P Require Import Prelude.

(** ** Image names *)

Definition lower_ascii (c : Z) : Z := if (65 <=? c)%Z && (c <=? 90)%Z then (c - 65 + 97)%Z else c.

Definition is_slash (c : byte) : bool := bool_decide (c = "\"%byte \/ c = "/"%byte).

(** The text behind the last slash; [acc] is the candidate so far. *)
Fixpoint after_last_slash (acc s : list byte) : list byte :=
  match s with
  | [] => acc
  | c :: t => if is_slash c then after_last_slash t t else after_last_slash acc t
  end.

Definition ExtractImageName (full_path : list byte) : list byte :=
  map (fun c => zb (lower_ascii (bz c))) (after_last_slash full_path full_path).

(** [w]: 16-bit code units up to the NUL; code units from 128 on are dropped. *)
Definition LowerAscii (w : list Z) : list byte :=
  map (fun c => zb (lower_ascii c)) (filter (fun c => (c < 128)%Z) w).

(** ** State *)

Inductive callback := HostReady | HostExited.

(** [procs]: every process the supervisor created, with its exit code once it
    is gone. *)
Record sup := mkSup {
  host_exe_path_ : list byte;
  stop_requested_ : bool;
  running_ : bool;
  process_handle_ : option nat;
  attached_to_existing_ : bool;
  consecutive_fast_exits_ : nat;
  halted_ : bool;
  last_exit_code_ : Z;
  procs : gmap nat (option Z);
  next_pid : nat;
  calls : list callback }.

Definition sup_init (path : list byte) : sup :=
  mkSup path false false None false 0 false 0 ∅ 0 [].

Definition kFastExitThresholdMs : Z := 2000.
Definition kCircuitBreakerThreshold : nat := 5.
Definition kBackoffStartMs : Z := 1000.
Definition kBackoffMaxMs : Z := 30000.

(** What the operating system answers during one call. *)
Record env := mkEnv {
  can_connect : bool;      (* CanConnectToHost *)
  mutex_named : bool;      (* SingletonMutexName is not empty *)
  mutex_held : bool;       (* IsSingletonMutexHeld, given a name *)
  path_converts : bool;    (* MultiByteToWideChar returned wlen > 0 *)
  create_ok : bool;        (* CreateProcessW *)
  uptime_ms : Z            (* now - spawn_time *) }.

Definition IsSingletonMutexHeld (e : env) : bool := mutex_named e && mutex_held e.

Definition IsCleanSingletonExit (code : Z) : bool := (code =? 3)%Z || (code =? 4)%Z.

(** [WaitForSingleObject(h, 0) == WAIT_TIMEOUT] on a tracked process. *)
Definition alive (s : sup) (pid : nat) : bool :=
  match procs s !! pid with Some None => true | _ => false end.

Definition tracked (s : sup) : bool :=
  match process_handle_ s with Some h => alive s h | None => false end.

Definition STILL_ACTIVE : Z := 259.

Definition exit_code (s : sup) (pid : nat) : Z :=
  match procs s !! pid with Some (Some c) => c | _ => STILL_ACTIVE end.

(** *** Updates of the members the operations write *)

Definition call (c : callback) (s : sup) : sup :=
  mkSup (host_exe_path_ s) (stop_requested_ s) (running_ s) (process_handle_ s)
    (attached_to_existing_ s) (consecutive_fast_exits_ s) (halted_ s) (last_exit_code_ s)
    (procs s) (next_pid s) (calls s ++ [c]).

Definition set_running (b : bool) (s : sup) : sup :=
  mkSup (host_exe_path_ s) (stop_requested_ s) b (process_handle_ s)
    (attached_to_existing_ s) (consecutive_fast_exits_ s) (halted_ s) (last_exit_code_ s)
    (procs s) (next_pid s) (calls s).

Definition set_attached (b : bool) (s : sup) : sup :=
  mkSup (host_exe_path_ s) (stop_requested_ s) (running_ s) (process_handle_ s)
    b (consecutive_fast_exits_ s) (halted_ s) (last_exit_code_ s)
    (procs s) (next_pid s) (calls s).

Definition set_handle (h : option nat) (s : sup) : sup :=
  mkSup (host_exe_path_ s) (stop_requested_ s) (running_ s) h
    (attached_to_existing_ s) (consecutive_fast_exits_ s) (halted_ s) (last_exit_code_ s)
    (procs s) (next_pid s) (calls s).

Definition set_breaker (exits : nat) (halted : bool) (s : sup) : sup :=
  mkSup (host_exe_path_ s) (stop_requested_ s) (running_ s) (process_handle_ s)
    (attached_to_existing_ s) exits halted (last_exit_code_ s)
    (procs s) (next_pid s) (calls s).

Definition set_stop (b : bool) (s : sup) : sup :=
  mkSup (host_exe_path_ s) b (running_ s) (process_handle_ s)
    (attached_to_existing_ s) (consecutive_fast_exits_ s) (halted_ s) (last_exit_code_ s)
    (procs s) (next_pid s) (calls s).

Definition set_exit_code (c : Z) (s : sup) : sup :=
  mkSup (host_exe_path_ s) (stop_requested_ s) (running_ s) (process_handle_ s)
    (attached_to_existing_ s) (consecutive_fast_exits_ s) (halted_ s) c
    (procs s) (next_pid s) (calls s).

Definition set_procs (ps : gmap nat (option Z)) (n : nat) (s : sup) : sup :=
  mkSup (host_exe_path_ s) (stop_requested_ s) (running_ s) (process_handle_ s)
    (attached_to_existing_ s) (consecutive_fast_exits_ s) (halted_ s) (last_exit_code_ s)
    ps n (calls s).

(** A process ends by itself. *)
Definition Dies (pid : nat) (code : Z) (s : sup) : sup :=
  if alive s pid then set_procs (<[pid := Some code]> (procs s)) (next_pid s) s else s.

(** ** Operations *)

Definition Spawn (e : env) (s : sup) : bool * sup :=
  if tracked s then (true, s)
  else if can_connect e && (negb (mutex_named e) || IsSingletonMutexHeld e) then
    (true, call HostReady (set_running true (set_attached true s)))
  else if path_converts e && create_ok e then
    let pid := next_pid s in
    (true, call HostReady (set_running true (set_attached false (set_handle (Some pid)
             (set_procs (<[pid := None]> (procs s)) (S pid) s)))))
  else (false, s).

(** The process is terminated with code 0; the handle is closed. *)
Definition Kill (s : sup) : sup :=
  match process_handle_ s with
  | None => s
  | Some h =>
    let s1 := if attached_to_existing_ s then s else Dies h 0 s in
    set_running false (set_attached false (set_handle None s1))
  end.

(** [Start]: the second component is whether the monitor thread runs. *)
Definition Start (e : env) (s : sup) : bool * sup :=
  match host_exe_path_ s with
  | [] => (false, s)
  | _ => Spawn e (set_attached false (set_breaker 0 false (set_stop false s)))
  end.

(** [Stop] up to the join of the monitor thread, and the reset after it. *)
Definition StopRequest (s : sup) : sup := Kill (set_stop true s).
Definition StopFinish (s : sup) : sup := set_breaker 0 false s.

Definition Restart (e : env) (s : sup) : sup :=
  let s1 := Kill (call HostExited (set_breaker 0 false s)) in
  if stop_requested_ s1 then s1 else (Spawn e s1).2.

(** ** The monitor thread

    [Top] is the loop condition, [Waiting h] the wait on the handle read under
    the lock, [Woken] the moment between a satisfied wait and the next lock,
    [Delay] the backoff sleep before a respawn and [AttachDelay] the one after
    an attached host vanished. *)

Inductive phase := Top | Waiting (h : nat) | Woken | Delay (clean : bool) | AttachDelay | Finished.

#[export] Instance phase_eqdec : EqDecision phase.
Proof. solve_decision. Defined.

Record monitor := mkMon { ph : phase; backoff_ms : Z }.

Definition respawn (e : env) (m : monitor) (s : sup) : monitor * sup :=
  let '(ok, s') := Spawn e s in
  (mkMon Top (if ok then kBackoffStartMs else Z.min (backoff_ms m * 2) kBackoffMaxMs), s').

(** The exit bookkeeping behind a satisfied wait. *)
Definition reap (e : env) (m : monitor) (s : sup) : monitor * sup :=
  match process_handle_ s with
  | None => (mkMon Top (backoff_ms m), set_running false s)
  | Some h =>
    let code := exit_code s h in
    let s1 := set_exit_code code (call HostExited (set_running false (set_handle None s))) in
    if IsCleanSingletonExit code then (mkMon (Delay true) (backoff_ms m), s1)
    else
      let exits := if (uptime_ms e <? kFastExitThresholdMs)%Z
                   then S (consecutive_fast_exits_ s1) else 0 in
      if kCircuitBreakerThreshold <=? exits
      then (mkMon Top (backoff_ms m), set_breaker exits true s1)
      else (mkMon (Delay false) (backoff_ms m), set_breaker exits (halted_ s1) s1)
  end.

Definition MonitorStep (e : env) (m : monitor) (s : sup) : monitor * sup :=
  match ph m with
  | Finished => (m, s)
  | Top =>
    if stop_requested_ s then (mkMon Finished (backoff_ms m), s)
    else if halted_ s then (m, s)
    else match process_handle_ s with
    | None =>
      if attached_to_existing_ s then
        if can_connect e then (m, call HostReady s)
        else (mkMon AttachDelay (backoff_ms m),
              call HostExited (set_attached false (set_running false s)))
      else (m, s)
    | Some h => (mkMon (Waiting h) (backoff_ms m), call HostReady s)
    end
  | Waiting h =>
    if stop_requested_ s then (mkMon Finished (backoff_ms m), s)
    else if alive s h then (mkMon Top (backoff_ms m), s)
    else (mkMon Woken (backoff_ms m), s)
  | Woken => reap e m s
  | Delay _ =>
    if stop_requested_ s then (mkMon Finished (backoff_ms m), s) else respawn e m s
  | AttachDelay =>
    if stop_requested_ s then (mkMon Top (backoff_ms m), s) else respawn e m s
  end.

(** How long the sleep or wait of a phase lasts at most. *)
Definition wait_limit (m : monitor) : Z :=
  if (1000 <? backoff_ms m)%Z then backoff_ms m else 1000.

Definition delay_ms (m : monitor) : Z :=
  match ph m with
  | Delay clean => if clean then 0 else backoff_ms m
  | AttachDelay => backoff_ms m
  | _ => 0
  end.

(** ** Interleavings *)

Inductive label :=
| LMonitor (e : env)
| LDies (pid : nat) (code : Z)
| LRestart (e : env)
| LStop.

Definition world : Type := monitor * sup.

Definition wstep (w : world) (l : label) : world :=
  let '(m, s) := w in
  match l with
  | LMonitor e => MonitorStep e m s
  | LDies pid code => (m, Dies pid code s)
  | LRestart e => (m, Restart e s)
  | LStop => (m, StopRequest s)
  end.

Definition wrun (w : world) (ls : list label) : world := foldl wstep w ls.

Definition started (e : env) (path : list byte) : bool * world :=
  let '(ok, s) := Start e (sup_init path) in (ok, (mkMon Top kBackoffStartMs, s)).

(** ** Cleaning up a wedged host *)

Record process_entry := mkEntry {
  szExeFile : list Z; th32ProcessID : nat; can_open : bool; can_terminate : bool }.

(** The image's processes that are terminated, in snapshot order. *)
Fixpoint terminate_matching (image_lc : list byte) (own : nat) (ps : list process_entry) : list nat :=
  match ps with
  | [] => []
  | p :: ps' =>
    let rest := terminate_matching image_lc own ps' in
    if negb (bool_decide (LowerAscii (szExeFile p) = image_lc)) then rest
    else if th32ProcessID p =? own then rest
    else if negb (can_open p) then rest
    else if can_terminate p then th32ProcessID p :: rest else rest
  end.

(** [snap] is [None] when the snapshot fails; the result is the list of the
    terminated processes, whose length the source returns. *)
Definition CleanupStaleHostIfWedged (e : env) (path : list byte) (own : nat)
    (snap : option (list process_entry)) : list nat :=
  if negb (mutex_named e) then []
  else if negb (IsSingletonMutexHeld e) then []
  else if can_connect e then []
  else match ExtractImageName path with
       | [] => []
       | image_lc => match snap with
                     | None => []
                     | Some ps => terminate_matching image_lc own ps
                     end
       end.

(** ** Invariant of every interleaving *)

(** The backoff is one of 1, 2, 4, 8, 16 and 30 seconds. *)
Definition backoff_ok (b : Z) : Prop := b ∈ [1000; 2000; 4000; 8000; 16000; 30000]%Z.

Record world_ok (w : world) : Prop := {
  wk_backoff : backoff_ok (backoff_ms w.1);
  wk_halted : halted_ w.2 = true ->
    (ph w.1 = Top \/ ph w.1 = Finished) /\ kCircuitBreakerThreshold <= consecutive_fast_exits_ w.2;
  wk_handle : forall h, process_handle_ w.2 = Some h -> h < next_pid w.2;
  wk_procs : forall pid, is_Some (procs w.2 !! pid) -> pid < next_pid w.2 }.

Lemma backoff_double b : backoff_ok b -> backoff_ok (Z.min (b * 2) kBackoffMaxMs).
Proof.
  unfold backoff_ok, kBackoffMaxMs. rewrite !elem_of_cons, elem_of_nil.
  intros H. repeat destruct H as [->|H]; try done; vm_compute; tauto.
Qed.

(** What an operation may change: [keeps] for those that neither create a
    process nor touch the breaker. *)
Definition procs_ok (s : sup) : Prop :=
  (forall h, process_handle_ s = Some h -> h < next_pid s) /\
  (forall pid, is_Some (procs s !! pid) -> pid < next_pid s).

Lemma Dies_fields pid code s :
  let s' := Dies pid code s in
  process_handle_ s' = process_handle_ s /\ next_pid s' = next_pid s /\ halted_ s' = halted_ s /\
  attached_to_existing_ s' = attached_to_existing_ s /\ stop_requested_ s' = stop_requested_ s /\
  consecutive_fast_exits_ s' = consecutive_fast_exits_ s /\ running_ s' = running_ s /\
  (forall p, is_Some (procs s' !! p) -> is_Some (procs s !! p)).
Proof.
  unfold Dies, alive. destruct (procs s !! pid) as [[c|]|] eqn:E; cbn; split_and!; try done.
  intros p. destruct (decide (p = pid)) as [->|]; [by rewrite E; eauto|by rewrite lookup_insert_ne].
Qed.

Lemma Kill_fields s :
  let s' := Kill s in
  process_handle_ s' = None /\ next_pid s' = next_pid s /\ halted_ s' = halted_ s /\
  (process_handle_ s <> None -> attached_to_existing_ s' = false) /\
  (process_handle_ s = None -> s' = s) /\ stop_requested_ s' = stop_requested_ s /\
  consecutive_fast_exits_ s' = consecutive_fast_exits_ s /\
  (forall p, is_Some (procs s' !! p) -> is_Some (procs s !! p)).
Proof.
  unfold Kill. destruct (process_handle_ s) as [h|] eqn:E; [|by split_and!].
  pose proof (Dies_fields h 0 s) as (_ & H2 & H3 & _ & H5 & H6 & _ & H8). cbv zeta in *.
  destruct (attached_to_existing_ s); cbn; by split_and!.
Qed.

Lemma Spawn_fields e s :
  let '(ok, s') := Spawn e s in
  halted_ s' = halted_ s /\ consecutive_fast_exits_ s' = consecutive_fast_exits_ s /\
  stop_requested_ s' = stop_requested_ s /\ (ok = false -> s' = s) /\
  (procs_ok s -> procs_ok s').
Proof.
  unfold Spawn, procs_ok. destruct (tracked s); [by split_and!|].
  destruct (can_connect e && _); [by split_and!|].
  destruct (path_converts e && create_ok e); [|by split_and!].
  cbn. split_and!; try done. intros [H1 H2]. split.
  - intros h [= <-]. lia.
  - intros pid. destruct (decide (pid = next_pid s)) as [->|]; [lia|].
    rewrite lookup_insert_ne by done. intros Hp. specialize (H2 _ Hp). lia.
Qed.

Lemma Restart_fields e s :
  procs_ok s -> procs_ok (Restart e s) /\ halted_ (Restart e s) = false.
Proof.
  intros [H1 H2]. unfold Restart.
  pose proof (Kill_fields (call HostExited (set_breaker 0 false s))) as (K1 & K2 & K3 & _ & _ & K5 & _ & K7).
  cbv zeta in *. set (s1 := Kill _) in *.
  assert (procs_ok s1) as Hs1.
  { split; [by rewrite K1|]. intros pid Hp. rewrite K2. apply H2, (K7 _ Hp). }
  destruct (stop_requested_ s1); [by split|].
  pose proof (Spawn_fields e s1) as Hs. destruct (Spawn e s1) as [ok s2]. cbn [snd].
  destruct Hs as (Hh & _ & _ & _ & Hp). rewrite Hh, K3. split; [by apply Hp|done].
Qed.

Lemma world_ok_split m s :
  backoff_ok (backoff_ms m) -> procs_ok s ->
  (halted_ s = true -> (ph m = Top \/ ph m = Finished) /\
                       kCircuitBreakerThreshold <= consecutive_fast_exits_ s) ->
  world_ok (m, s).
Proof. intros ? [? ?] ?. by constructor. Qed.

Lemma respawn_ok e m s :
  backoff_ok (backoff_ms m) -> procs_ok s -> halted_ s = false -> world_ok (respawn e m s).
Proof.
  intros Hb Hp Hh. unfold respawn. pose proof (Spawn_fields e s) as Hs.
  destruct (Spawn e s) as [ok s']. destruct Hs as (H1 & _ & _ & _ & H2).
  apply world_ok_split; [|by apply H2|congruence].
  destruct ok; cbn [backoff_ms]; [by left|by apply backoff_double].
Qed.

Lemma reap_ok e m s :
  backoff_ok (backoff_ms m) -> procs_ok s -> halted_ s = false -> world_ok (reap e m s).
Proof.
  intros Hb [Hp1 Hp2] Hh. unfold reap. destruct (process_handle_ s) as [h|] eqn:Eh.
  2: { apply world_ok_split; [done|by split; [cbn; rewrite Eh|]|]. cbn. by rewrite Hh. }
  destruct (IsCleanSingletonExit _); [|case_match]; (apply world_ok_split; [done|by split|]); cbn.
  - by rewrite Hh.
  - intros _. split; [by left|]. by apply Nat.leb_le.
  - by rewrite Hh.
Qed.

Lemma wstep_ok w l : world_ok w -> world_ok (wstep w l).
Proof.
  destruct w as [m s]. intros [Hb Hh H1 H2]. cbn [fst snd] in *.
  assert (procs_ok s) as Hp by (by split).
  assert (forall p s', halted_ s' = halted_ s -> p = Top \/ p = Finished \/ halted_ s = false ->
            procs_ok s' -> consecutive_fast_exits_ s' = consecutive_fast_exits_ s ->
            world_ok (mkMon p (backoff_ms m), s')) as Hsame.
  { intros p s' E Hph Hp' Ec. apply world_ok_split; [done|done|]. rewrite E, Ec. intros Hhs.
    destruct (Hh Hhs) as [_ ?]. split; [|done]. destruct Hph as [?|[?|?]]; [by left|by right|congruence]. }
  destruct l as [e|pid code|e|]; cbn [wstep].
  - unfold MonitorStep. destruct (halted_ s) eqn:Ehs.
    { destruct (Hh eq_refl) as [[Ep|Ep] Hf]; rewrite Ep.
      - destruct (stop_requested_ s); [apply Hsame; auto|by constructor; rewrite ?Ep; auto].
      - by constructor; rewrite ?Ep; auto. }
    assert (forall w', w' = (m, s) -> world_ok w') as Hid by (intros ? ->; constructor; cbn; auto; congruence).
    destruct (ph m) eqn:Ep; try (destruct (stop_requested_ s); [by apply Hsame; auto|]); auto;
      try (by apply respawn_ok); try (by apply reap_ok).
    + destruct (process_handle_ s); [apply Hsame; auto|].
      destruct (attached_to_existing_ s); [|auto]. destruct (can_connect e); [|apply Hsame; auto].
      apply world_ok_split; [done|done|]. cbn. by rewrite Ehs.
    + destruct (alive s h); apply Hsame; auto.
  - pose proof (Dies_fields pid code s) as (D1 & D2 & D3 & _ & _ & D6 & _ & D8). cbv zeta in *.
    apply world_ok_split; [done| |by rewrite D3, D6].
    split; [by rewrite D1, D2|]. intros p ?. rewrite D2. auto.
  - destruct (Restart_fields e s Hp) as [Hp' Hh']. apply world_ok_split; [done|done|congruence].
  - unfold StopRequest.
    pose proof (Kill_fields (set_stop true s)) as (K1 & K2 & K3 & _ & _ & _ & K6 & K7). cbv zeta in *.
    apply world_ok_split; [done| |by rewrite K3, K6].
    split; [by rewrite K1|]. intros p ?. rewrite K2. apply H2, K7. done.
Qed.

Lemma wrun_ok w ls : world_ok w -> world_ok (wrun w ls).
Proof.
  revert w. induction ls as [|l ls IH]; intros w Hw; [done|]. by apply IH, wstep_ok.
Qed.

Lemma started_ok e path : world_ok (started e path).2.
Proof.
  unfold started, Start. assert (procs_ok (sup_init path)) as Hp.
  { split; [done|]. intros pid [? H]. by change (procs (sup_init path)) with (∅ : gmap nat (option Z)) in H; rewrite lookup_empty in H. }
  destruct (host_exe_path_ (sup_init path)).
  { apply world_ok_split; [by left|done|done]. }
  set (s0 := set_attached _ _). pose proof (Spawn_fields e s0) as Hs.
  destruct (Spawn e s0) as [ok s]. destruct Hs as (H1 & _ & _ & _ & H2).
  apply world_ok_split; [by left|by apply H2|]. by rewrite H1.
Qed.

(** ** Runs without a restart

    [crashed] is a reap of a process that did not exit with a clean code;
    [timely] says that a turn of the loop takes less than a second more than the
    wait it makes. *)

Definition crashed (w : world) : bool :=
  match ph w.1, process_handle_ w.2 with
  | Woken, Some h => negb (IsCleanSingletonExit (exit_code w.2 h))
  | _, _ => false
  end.

Definition crash_step (w : world) (l : label) : nat :=
  match l with LMonitor _ => if crashed w then 1 else 0 | _ => 0 end.

Fixpoint crashes (w : world) (ls : list label) : nat :=
  match ls with
  | [] => 0
  | l :: ls' => crash_step w l + crashes (wstep w l) ls'
  end.

Definition timely_step (w : world) (l : label) : Prop :=
  match l with
  | LMonitor e => (uptime_ms e < wait_limit w.1 + 1000)%Z
  | LRestart _ => False
  | _ => True
  end.

Fixpoint timely (w : world) (ls : list label) : Prop :=
  match ls with
  | [] => True
  | l :: ls' => timely_step w l /\ timely (wstep w l) ls'
  end.

Record counting (n : nat) (w : world) : Prop := {
  ct_backoff : ph w.1 = Finished \/ backoff_ms w.1 = kBackoffStartMs \/
    (ph w.1 = Top) /\ process_handle_ w.2 = None /\ attached_to_existing_ w.2 = false;
  ct_attached : process_handle_ w.2 <> None -> attached_to_existing_ w.2 = false;
  ct_delay : (exists c, ph w.1 = Delay c) \/ ph w.1 = AttachDelay ->
    process_handle_ w.2 = None /\ attached_to_existing_ w.2 = false;
  ct_exits : consecutive_fast_exits_ w.2 = n;
  ct_halted : halted_ w.2 = true <-> kCircuitBreakerThreshold <= n;
  ct_live : halted_ w.2 = true -> ph w.1 = Top \/ ph w.1 = Finished }.

Lemma respawn_counting e n b s c :
  backoff_ms (mkMon c b) = kBackoffStartMs ->
  process_handle_ s = None -> attached_to_existing_ s = false ->
  consecutive_fast_exits_ s = n -> (halted_ s = true <-> kCircuitBreakerThreshold <= n) ->
  counting n (respawn e (mkMon c b) s).
Proof.
  cbn. intros -> Hh Ha He Hn. unfold respawn, Spawn, tracked. rewrite Hh.
  destruct (can_connect e && _); [|destruct (path_converts e && create_ok e)];
    constructor; cbn; try done; try (by right; left); try (by left); try (by intros [[]|]).
  - by right; right.
Qed.

Lemma counting_top n s b :
  (b = kBackoffStartMs \/ process_handle_ s = None /\ attached_to_existing_ s = false) ->
  (process_handle_ s <> None -> attached_to_existing_ s = false) ->
  consecutive_fast_exits_ s = n -> (halted_ s = true <-> kCircuitBreakerThreshold <= n) ->
  counting n (mkMon Top b, s).
Proof. intros. constructor; cbn; auto; try naive_solver. Qed.

Lemma counting_at n p s :
  halted_ s = false -> (process_handle_ s <> None -> attached_to_existing_ s = false) ->
  ((exists c, p = Delay c) \/ p = AttachDelay ->
   process_handle_ s = None /\ attached_to_existing_ s = false) ->
  consecutive_fast_exits_ s = n -> (halted_ s = true <-> kCircuitBreakerThreshold <= n) ->
  counting n (mkMon p kBackoffStartMs, s).
Proof. intros Hh. constructor; cbn; auto. by rewrite Hh. Qed.

Lemma counting_not_live n w : counting n w -> ph w.1 <> Top -> ph w.1 <> Finished -> halted_ w.2 = false.
Proof. intros [_ _ _ _ _ Hl] H1 H2. destruct (halted_ w.2); [|done]. by destruct Hl. Qed.

Lemma counting_backoff n m s :
  counting n (m, s) -> ph m <> Top -> ph m <> Finished -> m = mkMon (ph m) kBackoffStartMs.
Proof. intros [[|[Hb|[? _]]] _ _ _ _ _] H1 H2; try done. cbn in Hb. destruct m. cbn in *. by subst. Qed.

Lemma reap_counting e n s :
  let m := mkMon Woken kBackoffStartMs in
  (uptime_ms e < wait_limit m + 1000)%Z ->
  counting n (m, s) -> counting (crash_step (m, s) (LMonitor e) + n) (reap e m s).
Proof.
  intros m Ht Hc. pose proof (counting_not_live _ _ Hc ltac:(done) ltac:(done)) as Hnh.
  destruct Hc as [_ Ha _ He Hn _]. cbn [fst snd] in *.
  assert ((uptime_ms e <? kFastExitThresholdMs)%Z = true) as Hfast by (by apply Z.ltb_lt).
  unfold crash_step, crashed, reap. cbn [fst snd ph m]. rewrite Hfast.
  destruct (process_handle_ s) as [h|] eqn:Eh; [|apply counting_top; cbn; rewrite ?Eh; auto].
  specialize (Ha ltac:(done)).
  destruct (IsCleanSingletonExit _); cbn [negb Nat.add backoff_ms]; [by apply counting_at|].
  cbn [consecutive_fast_exits_ set_exit_code call set_running set_handle]. rewrite He.
  destruct (Nat.leb_spec kCircuitBreakerThreshold (S n)) as [H5|H5].
  - apply counting_top; cbn; auto. by split.
  - apply counting_at; cbn; auto. rewrite Hnh. split; [done|lia].
Qed.

Lemma finished_counting n m s : counting n (m, s) -> counting n (mkMon Finished (backoff_ms m), s).
Proof. intros [_ Ha _ He Hn _]. constructor; cbn; auto. intros [[? ?]|?]; done. Qed.

Lemma MonitorStep_counting e n m s :
  (uptime_ms e < wait_limit m + 1000)%Z -> counting n (m, s) ->
  counting (crash_step (m, s) (LMonitor e) + n) (MonitorStep e m s).
Proof.
  intros Ht Hc. destruct (decide (ph m = Woken)) as [Ew|Hnw].
  { pose proof (counting_backoff _ _ _ Hc) as Hm. rewrite Ew in Hm.
    rewrite Hm in * by done. by apply reap_counting. }
  assert (crash_step (m, s) (LMonitor e) = 0) as ->
    by (unfold crash_step, crashed; cbn [fst]; by destruct (ph m)).
  cbn [Nat.add]. pose proof Hc as [Hb Ha Hd He Hn Hl]. cbn [fst snd] in *.
  pose proof (counting_backoff _ _ _ Hc) as Hm. pose proof (counting_not_live _ _ Hc) as Hnh.
  cbn [fst snd] in Hnh. pose proof (finished_counting _ _ _ Hc) as Hfin.
  unfold MonitorStep. destruct (ph m) as [|h| |c| |] eqn:Eph;
    try (destruct (stop_requested_ s); [done|]); try done.
  - destruct m as [p b]. cbn in Eph, Hb. subst p.
    destruct (halted_ s) eqn:Ehs; [done|].
    destruct (process_handle_ s) as [h|] eqn:Eh.
    + assert (b = kBackoffStartMs) as -> by naive_solver.
      apply counting_at; cbn; rewrite ?Eh, ?Ehs; auto. intros [[? ?]|?]; done.
    + destruct (attached_to_existing_ s) eqn:Eat; [|done].
      assert (b = kBackoffStartMs) as -> by naive_solver.
      destruct (can_connect e); [apply counting_top|apply counting_at]; cbn; rewrite ?Eh, ?Ehs; auto; done.
  - rewrite Hm by done. cbn [backoff_ms]. specialize (Hnh ltac:(done) ltac:(done)).
    destruct (alive s h); apply counting_at; auto; intros [[? ?]|?]; done.
  - rewrite Hm by done. destruct Hd as [? ?]; [by left; eexists|]. by apply respawn_counting.
  - destruct Hd as [? ?]; [by right|]. rewrite Hm by done.
    destruct (stop_requested_ s); [apply counting_top; auto|]. by apply respawn_counting.
Qed.

Lemma wstep_counting n w l :
  timely_step w l -> counting n w -> counting (crash_step w l + n) (wstep w l).
Proof.
  destruct w as [m s]. intros Ht Hc. pose proof Hc as [Hb Ha Hd He Hn Hl]. cbn [fst snd] in *.
  destruct l as [e|pid code|e|]; cbn [wstep]; [by apply MonitorStep_counting| |done|]; cbn [crash_step Nat.add].
  - pose proof (Dies_fields pid code s) as (D1 & _ & D3 & D4 & _ & D6 & _). cbv zeta in *.
    constructor; cbn [fst snd]; rewrite ?D1, ?D3, ?D4, ?D6; auto.
  - unfold StopRequest.
    pose proof (Kill_fields (set_stop true s)) as (K1 & _ & K3 & K4 & K5 & _ & K6 & _). cbv zeta in *.
    assert (attached_to_existing_ (Kill (set_stop true s)) = attached_to_existing_ s \/
            attached_to_existing_ (Kill (set_stop true s)) = false) as HK.
    { destruct (process_handle_ s) eqn:Eh; [right; apply K4; cbn; by rewrite Eh|left; by rewrite K5]. }
    constructor; cbn [fst snd]; rewrite ?K1, ?K3, ?K6; auto.
    + destruct Hb as [?|[?|(? & ? & ?)]]; [by left|by right; left|right; right].
      split_and!; [done|done|]. destruct HK; congruence.
    + intros Hph. destruct (Hd Hph). split; [done|]. destruct HK; congruence.
Qed.

Lemma wrun_counting n w ls :
  timely w ls -> counting n w -> counting (crashes w ls + n) (wrun w ls).
Proof.
  revert n w. induction ls as [|l ls IH]; intros n w; [done|]. intros [Ht Hts] Hc.
  cbn [crashes wrun foldl].
  replace (crash_step w l + crashes (wstep w l) ls + n)
    with (crashes (wstep w l) ls + (crash_step w l + n)) by lia.
  apply IH; [done|]. by apply wstep_counting.
Qed.

(** ** Idling *)

(** A monitor with nothing tracked and nothing attached. *)
Definition idle (w : world) : Prop :=
  ph w.1 = Top /\ process_handle_ w.2 = None /\ attached_to_existing_ w.2 = false.

Definition no_restart (l : label) : Prop := match l with LRestart _ => False | _ => True end.

Lemma idle_step w l :
  no_restart l -> idle w ->
  (idle (wstep w l) \/ ph (wstep w l).1 = Finished) /\ next_pid (wstep w l).2 = next_pid w.2 /\
  process_handle_ (wstep w l).2 = None.
Proof.
  destruct w as [m s]. intros Hl (Hp & Hh & Ha). cbn [fst snd] in *. unfold idle.
  destruct l as [e|pid code|e|]; cbn [wstep]; [| |done|].
  - unfold MonitorStep. rewrite Hp, Hh, Ha.
    destruct (stop_requested_ s); [by split_and!; auto|]. destruct (halted_ s); by auto.
  - pose proof (Dies_fields pid code s) as (D1 & D2 & _ & D4 & _). cbv zeta in *.
    cbn [fst snd]. rewrite D1, D2, D4. by auto.
  - unfold StopRequest, Kill. cbn. rewrite Hh. cbn. by auto.
Qed.

Lemma finished_step w l :
  no_restart l -> ph w.1 = Finished -> process_handle_ w.2 = None ->
  ph (wstep w l).1 = Finished /\ next_pid (wstep w l).2 = next_pid w.2 /\
  process_handle_ (wstep w l).2 = None.
Proof.
  destruct w as [m s]. intros Hl Hp Hh. cbn [fst snd] in *.
  destruct l as [e|pid code|e|]; cbn [wstep]; [| |done|].
  - unfold MonitorStep. by rewrite Hp.
  - pose proof (Dies_fields pid code s) as (D1 & D2 & _). cbv zeta in *. cbn. by rewrite D1, D2.
  - unfold StopRequest, Kill. cbn. by rewrite Hh.
Qed.

Lemma idle_run ls w :
  Forall no_restart ls -> idle w ->
  next_pid (wrun w ls).2 = next_pid w.2 /\ process_handle_ (wrun w ls).2 = None.
Proof.
  intros Hls Hw. assert (idle w \/ ph w.1 = Finished) as Hi by (by left).
  destruct Hw as (_ & Hh & _). revert w Hi Hh. induction Hls as [|l ls Hl _ IH]; intros w Hi Hh; [done|].
  cbn [wrun foldl]. destruct Hi as [Hi|Hi].
  - destruct (idle_step w l Hl Hi) as (H1 & H2 & H3). rewrite <-H2. by apply IH.
  - destruct (finished_step w l Hl Hi Hh) as (H1 & H2 & H3). rewrite <-H2. apply IH; auto.
Qed.

(** ** Properties *)

(** C7: In every interleaving of the monitor thread with restarts, stop and
    host deaths: the backoff stays on its ladder of 1 to 30 seconds, a halted
    supervisor has seen at least five counted crashes and is not about to
    respawn, and every tracked or recorded process is one it created. *)
Theorem supervisor_invariant e path ls : world_ok (wrun (started e path).2 ls).
Proof. apply wrun_ok, started_ok. Qed.

(** Without restarts, and when the loop's own overhead stays below a
    second, the breaker counts every unclean exit of the host, whatever the
    host's uptime was: the fifth one halts the supervisor. *)
Theorem breaker_counts_every_crash e path w ls
  (Hstart : started e path = (true, w)) (Ht : timely w ls) :
  consecutive_fast_exits_ (wrun w ls).2 = crashes w ls /\
  (halted_ (wrun w ls).2 = true <-> kCircuitBreakerThreshold <= crashes w ls).
Proof.
  assert (counting 0 w) as Hc.
  { unfold started, Start in Hstart. cbn [host_exe_path_ sup_init] in Hstart.
    destruct path as [|c path]; [done|].
    unfold Spawn, tracked in Hstart. cbn [process_handle_ set_attached set_breaker set_stop sup_init] in Hstart.
    destruct (can_connect e && _); [|destruct (path_converts e && create_ok e); [|done]];
      injection Hstart as <-; apply counting_top; cbn; try done; try (by left); try (split; [done|unfold kCircuitBreakerThreshold; lia]). }
  destruct (wrun_counting 0 w ls Ht Hc) as [_ _ _ He Hn _]. by rewrite Nat.add_0_r in *.
Qed.

(** An environment in which nothing answers on the pipe and spawning works. *)
Definition env_spawn (up : Z) : env := mkEnv false false false true true up.

(** One life of host [pid] as the monitor sees it: the wait times out [n] times,
    then the process dies with code 1 and is replaced. *)
Definition life (pid n : nat) (up : Z) : list label :=
  concat (replicate n [LMonitor (env_spawn 0); LMonitor (env_spawn 0)]) ++
  [LMonitor (env_spawn 0); LDies pid 1; LMonitor (env_spawn 0); LMonitor (env_spawn up);
   LMonitor (env_spawn 0)].

Example breaker_counts_every_crash_witness :
  let w := (started (env_spawn 0) (str "host.exe")).2 in
  halted_ (wrun w (life 0 20 900 ++ life 1 20 900 ++ life 2 20 900 ++ life 3 20 900
                   ++ life 4 20 900)).2 = true.
Proof.
  cbv zeta.
  destruct (started (env_spawn 0) (str "host.exe")) as [ok w] eqn:E.
  assert (ok = true) as -> by (vm_compute in E; by injection E).
  apply (breaker_counts_every_crash (env_spawn 0) (str "host.exe") w
    (life 0 20 900 ++ life 1 20 900 ++ life 2 20 900 ++ life 3 20 900 ++ life 4 20 900) E).
  - vm_compute in E. injection E as <-. vm_compute. tauto.
  - vm_compute in E. injection E as <-. vm_compute. reflexivity.
Defined.

(** A respawn that fails is not retried: whatever happens afterwards short
    of a restart, no process is created and nothing is tracked. *)
Theorem failed_respawn_idles e m s ls
  (Hph : ph m = AttachDelay \/ exists c, ph m = Delay c)
  (Hh : process_handle_ s = None) (Ha : attached_to_existing_ s = false)
  (Hstop : stop_requested_ s = false) (Hfail : (Spawn e s).1 = false)
  (Hls : Forall no_restart ls) :
  let w := wstep (m, s) (LMonitor e) in
  backoff_ms w.1 = Z.min (backoff_ms m * 2) kBackoffMaxMs /\
  next_pid (wrun w ls).2 = next_pid s /\ process_handle_ (wrun w ls).2 = None.
Proof.
  cbv zeta. cbn [wstep].
  assert (MonitorStep e m s = (mkMon Top (Z.min (backoff_ms m * 2) kBackoffMaxMs), s)) as ->.
  { assert (MonitorStep e m s = respawn e m s) as ->
      by (unfold MonitorStep; destruct Hph as [->|[c ->]]; by rewrite Hstop).
    unfold respawn. pose proof (Spawn_fields e s) as Hs. destruct (Spawn e s) as [ok s'].
    cbn in Hfail. subst ok. destruct Hs as (_ & _ & _ & Hsame & _). by rewrite Hsame. }
  split; [done|]. by apply (idle_run ls (_, s)).
Qed.

Definition env_fail : env := mkEnv false false false true false 0.

(** The first host died and its respawn is about to be tried. *)
Definition before_respawn : world :=
  wrun (started (env_spawn 0) (str "host.exe")).2
    [LMonitor (env_spawn 0); LDies 0 1; LMonitor (env_spawn 0); LMonitor (env_spawn 0)].

Example failed_respawn_idles_witness :
  let w := wstep (before_respawn.1, before_respawn.2) (LMonitor env_fail) in
  next_pid (wrun w (replicate 1000 (LMonitor (env_spawn 0)))).2 = next_pid before_respawn.2.
Proof.
  refine (proj1 (proj2 (failed_respawn_idles env_fail before_respawn.1 before_respawn.2
    (replicate 1000 (LMonitor (env_spawn 0))) _ _ _ _ _ _)));
    [right; exists false; vm_compute; reflexivity|vm_compute; reflexivity..|].
  apply Forall_replicate. exact I.
Defined.

(** The exit bookkeeping reaps whatever process is tracked when it gets the
    lock, not the one whose exit was awaited: a restart in between makes it
    close the handle of the live replacement and count a crash for it. *)
Theorem restart_race_orphans e m s pid
  (Hph : ph m = Woken) (Hh : process_handle_ s = Some pid) (Halive : alive s pid = true) :
  let w := wstep (m, s) (LMonitor e) in
  process_handle_ w.2 = None /\ alive w.2 pid = true /\ last_exit_code_ w.2 = STILL_ACTIVE /\
  ((uptime_ms e < kFastExitThresholdMs)%Z ->
   consecutive_fast_exits_ w.2 = S (consecutive_fast_exits_ s)).
Proof.
  cbv zeta. cbn [wstep]. unfold MonitorStep. rewrite Hph. unfold reap. rewrite Hh.
  assert (exit_code s pid = STILL_ACTIVE) as ->.
  { unfold alive in Halive. unfold exit_code. by destruct (procs s !! pid) as [[]|]. }
  change (IsCleanSingletonExit STILL_ACTIVE) with false. cbv iota.
  destruct (Z.ltb_spec (uptime_ms e) kFastExitThresholdMs) as [Hu|Hu]; case_match; cbn;
    split_and!; try done; intros; lia.
Qed.

(** Host 0 died and woke the monitor, but a restart got the lock first. *)
Definition before_reap : world :=
  wrun (started (env_spawn 0) (str "host.exe")).2
    [LMonitor (env_spawn 0); LDies 0 0; LMonitor (env_spawn 0); LRestart (env_spawn 0)].

Example restart_race_orphans_witness :
  let w := wstep (before_reap.1, before_reap.2) (LMonitor (env_spawn 5)) in
  process_handle_ w.2 = None /\ alive w.2 1 = true /\
  consecutive_fast_exits_ w.2 = S (consecutive_fast_exits_ before_reap.2).
Proof.
  destruct (restart_race_orphans (env_spawn 5) before_reap.1 before_reap.2 1) as (H1 & H2 & _ & H4);
    [vm_compute; reflexivity..|].
  split; [exact H1|]. split; [exact H2|]. apply H4. reflexivity.
Defined.

(** The cleanup before a start terminates nothing unless the singleton
    mutex is held and the pipe is dead, and then only processes of the host's
    image name that are not the caller itself. *)
Theorem cleanup_only_wedged e path own snap pid :
  pid ∈ CleanupStaleHostIfWedged e path own snap ->
  mutex_named e = true /\ mutex_held e = true /\ can_connect e = false /\ pid <> own /\
  exists ps p, snap = Some ps /\ p ∈ ps /\ th32ProcessID p = pid /\
    LowerAscii (szExeFile p) = ExtractImageName path.
Proof.
  unfold CleanupStaleHostIfWedged, IsSingletonMutexHeld.
  destruct (mutex_named e); [|by intros ?%elem_of_nil].
  destruct (mutex_held e); [|by intros ?%elem_of_nil].
  destruct (can_connect e); [by intros ?%elem_of_nil|]. cbn [negb andb].
  destruct (ExtractImageName path) as [|c image] eqn:Ei; [by intros ?%elem_of_nil|].
  destruct snap as [ps|]; [|by intros ?%elem_of_nil]. intros Hin.
  assert (pid <> own /\ exists p, p ∈ ps /\ th32ProcessID p = pid /\
            LowerAscii (szExeFile p) = c :: image) as (Hne & p & H1 & H2 & H3).
  { induction ps as [|p ps IH]; [by apply elem_of_nil in Hin|]. cbn [terminate_matching] in Hin.
    destruct (bool_decide_reflect (LowerAscii (szExeFile p) = c :: image)) as [Em|]; cbn [negb] in Hin;
      [|destruct (IH Hin) as (? & q & ? & ?); split; [done|]; exists q; split; [by right|done]].
    destruct (Nat.eqb_spec (th32ProcessID p) own);
      [destruct (IH Hin) as (? & q & ? & ?); split; [done|]; exists q; split; [by right|done]|].
    destruct (can_open p), (can_terminate p); cbn [negb] in Hin;
      try (destruct (IH Hin) as (? & q & ? & ?); split; [done|]; exists q; split; [by right|done]).
    apply elem_of_cons in Hin as [->|Hin].
    - split; [done|]. exists p. by split; [left|].
    - destruct (IH Hin) as (? & q & ? & ?). split; [done|]. exists q. by split; [right|]. }
  split_and!; try done. by exists ps, p.
Qed.

Example cleanup_only_wedged_witness :
  let ps := [mkEntry [72; 111; 115; 116; 46; 69; 88; 69]%Z 42 true true;
             mkEntry [120]%Z 43 true true] in
  42 ∈ CleanupStaleHostIfWedged (mkEnv false true true true true 0) (str "C:\dir\Host.exe") 7 (Some ps) /\
  42 <> 7.
Proof.
  cbv zeta. split; [vm_compute; by left|].
  refine (proj1 (proj2 (proj2 (proj2 (cleanup_only_wedged (mkEnv false true true true true 0)
    (str "C:\dir\Host.exe") 7 (Some [mkEntry [72; 111; 115; 116; 46; 69; 88; 69]%Z 42 true true]) 42 _))))).
  vm_compute. by left.
Defined.
