(* ===== verification/Isometry.v ===== *)
(** * Isometries and the motion gate (core/src/driver/IsometryTransform.h, core/src/common/MotionGate.h)

    The vector and quaternion operations are Eigen's: a class of operations,
    whose only documented laws are those a theorem names.  [IsoTransform] and
    its operations are the source's, over that class. *)

From S2P Require Import Prelude Floats.
Open Scope fl_scope.

Record Vector3d := V3 { v_x : double; v_y : double; v_z : double }.
Record Quaterniond := Q4 { q_w : double; q_x : double; q_y : double; q_z : double }.

Class Eigen := {
  v_add : Vector3d -> Vector3d -> Vector3d;
  v_sub : Vector3d -> Vector3d -> Vector3d;
  v_scale : Vector3d -> double -> Vector3d;
  v_norm : Vector3d -> double;
  q_mul : Quaterniond -> Quaterniond -> Quaterniond;
  q_rotate : Quaterniond -> Vector3d -> Vector3d;
  q_normalized : Quaterniond -> Quaterniond;
  q_slerp : Quaterniond -> double -> Quaterniond -> Quaterniond;
  q_angularDistance : Quaterniond -> Quaterniond -> double }.

Definition v_zero : Vector3d := V3 fzero fzero fzero.
Definition q_identity : Quaterniond := Q4 d_one fzero fzero fzero.

(** A concrete instance for the witnesses: componentwise arithmetic, Hamilton's
    product, and an angular distance read off the first components. *)
Definition eigen_sample : Eigen := {|
  v_add a b := V3 (v_x a + v_x b) (v_y a + v_y b) (v_z a + v_z b);
  v_sub a b := V3 (v_x a - v_x b) (v_y a - v_y b) (v_z a - v_z b);
  v_scale a k := V3 (v_x a * k) (v_y a * k) (v_z a * k);
  v_norm a := d_sqrt (v_x a * v_x a + v_y a * v_y a + v_z a * v_z a);
  q_mul a b :=
    Q4 (q_w a * q_w b - q_x a * q_x b - q_y a * q_y b - q_z a * q_z b)
       (q_w a * q_x b + q_x a * q_w b + q_y a * q_z b - q_z a * q_y b)
       (q_w a * q_y b + q_y a * q_w b + q_z a * q_x b - q_x a * q_z b)
       (q_w a * q_z b + q_z a * q_w b + q_x a * q_y b - q_y a * q_x b);
  q_rotate q v := v;
  q_normalized q := q;
  q_slerp a t b := if flt t d_one then a else b;
  q_angularDistance a b := SFabs (q_w a - q_w b) |}.

(** ** IsoTransform *)

Record IsoTransform := mkIso { rotation : Quaterniond; translation : Vector3d }.

#[export] Instance iso_settable : Settable IsoTransform := fun t => mkIso (rotation t) (translation t).

Definition iso_default : IsoTransform := mkIso q_identity v_zero.

Section Iso.
Context `{Eigen}.

Definition pretranslate (t : Vector3d) (a : IsoTransform) : IsoTransform :=
  a <| translation ::= fun p => v_add p t |>.

Definition iso_mul (a b : IsoTransform) : IsoTransform :=
  let rot := q_normalized (q_mul (rotation a) (rotation b)) in
  let trans := v_add (translation a) (q_rotate (rotation a) (translation b)) in
  mkIso rot trans.

Definition iso_apply (a : IsoTransform) (p : Vector3d) : Vector3d :=
  v_add (translation a) (q_rotate (rotation a) p).

Definition interpolateAround (a : IsoTransform) (lerp : double) (target : IsoTransform)
    (localPoint : Vector3d) : IsoTransform :=
  let initialPos := iso_apply a localPoint in
  let finalPos := v_add (v_scale initialPos (d_one - lerp)) (v_scale (iso_apply target localPoint) lerp) in
  let newRotation := q_normalized (q_slerp (rotation a) lerp (rotation target)) in
  let newTranslation := v_sub finalPos (q_rotate newRotation localPoint) in
  mkIso newRotation newTranslation.
End Iso.

(** ** MotionGate *)

Module MotionGate.
Inductive Regime := Tiny | Normal | Large.

Definition kTinyMaxPosMm : double := d_of_Z 1.
Definition kTinyMaxRotDeg : double := d_lit 5 100.
Definition kLargeMinPosMm : double := d_of_Z 5.
Definition kLargeMinRotDeg : double := d_lit 5 10.
Definition kTinyStillFloor : double := d_lit 10 100.
Definition kNormalStillFloor : double := d_lit 50 100.
Definition kLargeStillFloor : double := d_lit 90 100.

Definition ClassifyCorrection (posDeltaMm rotDeltaDeg : double) : Regime :=
  if fgt posDeltaMm kLargeMinPosMm || fgt rotDeltaDeg kLargeMinRotDeg then Large
  else if fle posDeltaMm kTinyMaxPosMm && fle rotDeltaDeg kTinyMaxRotDeg then Tiny
  else Normal.

Definition StillFloor (regime : Regime) : double :=
  match regime with
  | Tiny => kTinyStillFloor
  | Normal => kNormalStillFloor
  | Large => kLargeStillFloor
  end.

Definition ShouldBlendCycle (inContinuousState isFreshlyAdopted snapThisCycle : bool) : bool :=
  inContinuousState && negb isFreshlyAdopted && negb snapThisCycle.

Lemma StillFloor_bounds r : fle fzero (StillFloor r) = true /\ fle (StillFloor r) d_one = true.
Proof. destruct r; split; reflexivity. Qed.
End MotionGate.
