(* ===== verification/FallbackTable.v ===== *)
(** * The tracking-system fallback table (core/src/driver/ServerTrackedDeviceProvider)

    The fixed array of [FallbackSlot]s: names are kept in a NUL-padded buffer
    and found by a linear scan.  The table refines a partial map from names to
    fallbacks of at most eight keys, over an arbitrary type of fallbacks. *)

From S2P Require Import Prelude.

Definition MaxTrackingSystemNameLen : nat := 32.
Definition MaxFallbackSlots : nat := 8.

Section Table.
Context {T : Type} (fresh : T).

Record FallbackSlot := mkSlot { system_name : list byte; slot_tf : T; occupied : bool }.

#[export] Instance slot_settable : Settable FallbackSlot :=
  fun s => mkSlot (system_name s) (slot_tf s) (occupied s).

Definition name_len_ok (name : list byte) : bool :=
  negb (length name =? 0) && (length name <=? MaxTrackingSystemNameLen).

(** [memcmp] of the first [len] bytes, then the sentinel NUL.  [None]: a byte
    past the end of the slot's array is read. *)
Definition slot_matches (name : list byte) (s : FallbackSlot) : option bool :=
  if length (system_name s) <? length name then None
  else if negb (bool_decide (take (length name) (system_name s) = name)) then Some false
  else if length name =? MaxTrackingSystemNameLen then Some true
  else c ← system_name s !! length name; Some (bool_decide (c = x00)).

Fixpoint scan_slots (name : list byte) (i : nat) (l : list FallbackSlot) : option (option nat) :=
  match l with
  | [] => Some None
  | s :: l =>
    if negb (occupied s) then scan_slots name (S i) l
    else m ← slot_matches name s; if m : bool then Some (Some i) else scan_slots name (S i) l
  end.

(** The position of the slot found, for the pointer into the array. *)
Definition FindFallbackSlot (name : list byte) (l : list FallbackSlot) : option (option nat) :=
  if negb (name_len_ok name) then Some None else scan_slots name 0 l.

(** The name copied into the cleared array of a slot; [None]: past its end. *)
Definition copy_name (name : list byte) : option (list byte) :=
  if MaxTrackingSystemNameLen <? length name then None
  else Some (name ++ replicate (MaxTrackingSystemNameLen - length name) x00).

Definition AcquireFallbackSlot (name : list byte) (l : list FallbackSlot) : option (option nat * list FallbackSlot) :=
  if negb (name_len_ok name) then Some (None, l) else
  found ← FindFallbackSlot name l;
  match found with
  | Some i => Some (Some i, l)
  | None =>
    match list_find (fun s => occupied s = false) l with
    | Some (i, _) => bytes ← copy_name name; Some (Some i, <[i := mkSlot bytes fresh true]> l)
    | None => Some (None, l)
    end
  end.

Definition empty_table : list FallbackSlot :=
  replicate MaxFallbackSlots (mkSlot (replicate MaxTrackingSystemNameLen x00) fresh false).

(** The fallback a lookup of [name] reads, if any, and a write through the slot. *)
Definition slot_at (found : option nat) (l : list FallbackSlot) : option T := i ← found; slot_tf <$> l !! i.

Definition write_fallback (f : T -> T) (i : nat) (l : list FallbackSlot) : list FallbackSlot :=
  alter (fun s => s <| slot_tf ::= f |>) i l.

(** ** The table as it is meant *)

Definition padded (name : list byte) : list byte :=
  name ++ replicate (MaxTrackingSystemNameLen - length name) x00.

Definition slot_named (name : list byte) (s : FallbackSlot) : bool :=
  bool_decide (take (length name) (system_name s) = name)
  && ((length name =? MaxTrackingSystemNameLen)
      || bool_decide (system_name s !! length name = Some x00)).

Definition find_named (name : list byte) (l : list FallbackSlot) : option nat :=
  if negb (name_len_ok name) then None
  else fst <$> list_find (fun s => is_true (occupied s && slot_named name s)) l.

Definition fallback_of (name : list byte) (l : list FallbackSlot) : option T := slot_at (find_named name l) l.

Definition acquire_named (name : list byte) (l : list FallbackSlot) : option nat * list FallbackSlot :=
  if negb (name_len_ok name) then (None, l) else
  match find_named name l with
  | Some i => (Some i, l)
  | None =>
    match list_find (fun s => occupied s = false) l with
    | Some (i, _) => (Some i, <[i := mkSlot (padded name) fresh true]> l)
    | None => (None, l)
    end
  end.

(** ** Invariant *)

Definition valid_name (name : list byte) : Prop := name_len_ok name = true /\ nul_free name.

Definition slot_ok (s : FallbackSlot) : Prop :=
  occupied s = true -> exists name, valid_name name /\ system_name s = padded name.

Record table_ok (l : list FallbackSlot) : Prop := {
  table_len : length l = MaxFallbackSlots;
  table_slots : Forall slot_ok l;
  table_inj : forall i j si sj, l !! i = Some si -> l !! j = Some sj ->
    occupied si = true -> occupied sj = true -> system_name si = system_name sj -> i = j }.

Lemma valid_len name : valid_name name -> 0 < length name <= MaxTrackingSystemNameLen.
Proof. intros [H _]. unfold name_len_ok in H. bool_prop. lia. Qed.

Lemma padded_length name : valid_name name -> length (padded name) = MaxTrackingSystemNameLen.
Proof. intros H%valid_len. unfold padded. rewrite length_app, length_replicate. lia. Qed.

Lemma padded_cstr name : valid_name name -> cstr (padded name) = name.
Proof.
  intros Hv. pose proof (valid_len _ Hv). unfold padded.
  destruct (MaxTrackingSystemNameLen - length name) as [|k].
  - rewrite app_nil_r. apply cstr_id, Hv.
  - simpl. apply cstr_app_nul, Hv.
Qed.

Lemma padded_inj n m : valid_name n -> valid_name m -> padded n = padded m -> n = m.
Proof. intros Hn Hm H. by rewrite <-(padded_cstr n), H, padded_cstr. Qed.

Lemma slot_named_padded n m s :
  valid_name n -> valid_name m -> system_name s = padded m ->
  slot_named n s = true <-> n = m.
Proof.
  intros Hn Hm Hs. unfold slot_named. rewrite Hs. split.
  - intros H. bool_prop. pose proof (valid_len _ Hn) as Ln. pose proof (valid_len _ Hm) as Lm.
    rewrite bool_decide_eq_true in *.
    match goal with H : take _ _ = _ |- _ => rename H into Ht end.
    apply (f_equal cstr) in Ht as Hc. rewrite (cstr_id n) in Hc by apply Hn.
    match goal with H : (_ || _)%bool = true |- _ => apply orb_true_iff in H as [He|Hz] end.
    + bool_prop. rewrite take_ge in Hc by (rewrite padded_length; [lia|done]).
      by rewrite padded_cstr in Hc.
    + apply bool_decide_eq_true in Hz.
      assert (padded m = n ++ x00 :: drop (S (length n)) (padded m)) as Hp.
      { rewrite <-Ht at 1. rewrite <-(take_drop_middle _ _ _ Hz) at 1. done. }
      apply (f_equal cstr) in Hp. rewrite padded_cstr, cstr_app_nul in Hp by apply Hm || apply Hn. done.
  - intros <-. unfold padded. rewrite bool_decide_eq_true_2 by apply take_app_length. simpl.
    destruct (length n =? MaxTrackingSystemNameLen) eqn:E; [done|]. simpl.
    pose proof (valid_len _ Hn). bool_prop. apply bool_decide_eq_true_2.
    rewrite lookup_app_r, Nat.sub_diag by lia. apply lookup_replicate. split; [done|lia].
Qed.

Lemma find_spec name l i :
  table_ok l -> valid_name name ->
  find_named name l = Some i <->
  exists s, l !! i = Some s /\ occupied s = true /\ system_name s = padded name.
Proof.
  intros Hl Hn. unfold find_named. rewrite (proj1 Hn). simpl.
  assert (forall s j, l !! j = Some s -> is_true (occupied s && slot_named name s) <->
            occupied s = true /\ system_name s = padded name) as Hm.
  { intros s j Hs. unfold is_true. rewrite andb_true_iff. split; intros [Ho H]; split; try done;
      destruct (Forall_lookup_1 _ _ _ _ (table_slots _ Hl) Hs Ho) as (m & Hv & Hsm).
    - apply (slot_named_padded name m s Hn Hv Hsm) in H as ->. done.
    - apply (slot_named_padded name m s Hn Hv Hsm). apply padded_inj; [done..|congruence]. }
  split.
  - intros ([j s] & H & ->)%fmap_Some. apply list_find_Some in H as (Hs & Hp & _).
    exists s. split; [done|]. by apply (Hm s j).
  - intros (s & Hs & Hp). destruct (list_find _ l) as [[j s']|] eqn:E.
    + apply list_find_Some in E as (Hs' & Hp' & _). apply (Hm s' j Hs') in Hp' as [Ho' Hn'].
      simpl. f_equal. destruct Hp as [Ho Hnm].
      by apply (table_inj _ Hl j i s' s); [..|congruence].
    + apply list_find_None in E. apply (Forall_lookup_1 _ _ _ _ E) in Hs as Hc.
      destruct Hc. by apply (Hm s i).
Qed.

Lemma find_none name l :
  table_ok l -> valid_name name -> find_named name l = None ->
  forall i s, l !! i = Some s -> occupied s = true -> system_name s <> padded name.
Proof.
  intros Hl Hn H i s Hs Ho He.
  assert (find_named name l = Some i) as H'; [|congruence].
  apply find_spec; eauto.
Qed.

Lemma empty_table_ok : table_ok empty_table.
Proof.
  split; [done|by repeat constructor|].
  intros i j si sj Hi _ Ho. apply lookup_replicate in Hi as [-> _]. done.
Qed.

Lemma fallback_of_spec name l t :
  table_ok l -> valid_name name ->
  fallback_of name l = Some t <->
  exists i s, l !! i = Some s /\ occupied s = true /\ system_name s = padded name /\ slot_tf s = t.
Proof.
  intros Hl Hn. unfold fallback_of, slot_at. rewrite bind_Some. split.
  - intros (i & (s & Hs & Ho & Hp)%(find_spec _ _ _ Hl Hn) & Ht).
    rewrite Hs in Ht. injection Ht as <-. by exists i, s.
  - intros (i & s & Hs & Ho & Hp & <-). exists i. split; [apply find_spec; eauto|]. by rewrite Hs.
Qed.

Lemma write_fallback_ok f i l : table_ok l -> table_ok (write_fallback f i l).
Proof.
  intros Hl. unfold write_fallback. split.
  - rewrite length_alter. apply Hl.
  - apply Forall_alter; [apply Hl|]. by intros s _ H.
  - intros j k sj sk Hj Hk Hoj Hok Hn.
    assert (forall j sj, alter (fun s => s <| slot_tf ::= f |>) i l !! j = Some sj ->
      exists s, l !! j = Some s /\ occupied s = occupied sj /\ system_name s = system_name sj) as Ha.
    { intros j' s'. destruct (decide (j' = i)) as [->|]; [|rewrite list_lookup_alter_ne by done; eauto].
      rewrite list_lookup_alter_eq. intros (s & Hs & ->)%fmap_Some. by exists s. }
    destruct (Ha _ _ Hj) as (s1 & ? & ? & ?), (Ha _ _ Hk) as (s2 & ? & ? & ?).
    apply (table_inj _ Hl j k s1 s2); congruence.
Qed.

Lemma acquire_ok name l i l' :
  table_ok l -> valid_name name -> acquire_named name l = (Some i, l') ->
  table_ok l' /\ find_named name l' = Some i /\
  fallback_of name l' = Some (default fresh (fallback_of name l)) /\
  (forall m, valid_name m -> m <> name -> fallback_of m l' = fallback_of m l).
Proof.
  intros Hl Hn. unfold acquire_named. rewrite (proj1 Hn). simpl.
  destruct (find_named name l) as [j|] eqn:Ef.
  { intros [= -> <-]. split; [done|]. split; [done|]. split; [|done].
    apply (find_spec _ _ _ Hl Hn) in Ef as (s & Hs & Ho & Hp).
    assert (fallback_of name l = Some (slot_tf s)) as ->; [|done]. apply fallback_of_spec; eauto 8. }
  destruct (list_find _ l) as [[j s0]|] eqn:E; [|done]. intros [= -> <-].
  apply list_find_Some in E as (Hs0 & Ho0 & _).
  pose proof (lookup_lt_Some _ _ _ Hs0) as Hlt.
  pose proof (find_none _ _ Hl Hn Ef) as Hnone.
  assert (table_ok (<[i:=mkSlot (padded name) fresh true]> l)) as Hok.
  { split.
    - rewrite length_insert. apply Hl.
    - apply Forall_insert; [apply Hl|]. intros _. by exists name.
    - intros a b sa sb Ha Hb Hoa Hob Hab.
      apply list_lookup_insert_Some in Ha as [(-> & <- & _)|[Hna Ha]], Hb as [(-> & <- & _)|[Hnb Hb]].
      + done.
      + by destruct (Hnone _ _ Hb Hob).
      + by destruct (Hnone _ _ Ha Hoa).
      + by apply (table_inj _ Hl a b sa sb). }
  split; [done|]. split; [|split].
  - apply find_spec; [done..|]. eexists. by rewrite list_lookup_insert_eq.
  - assert (fallback_of name l = None) as -> by (unfold fallback_of; by rewrite Ef).
    apply fallback_of_spec; [done..|]. eexists i, _. by rewrite list_lookup_insert_eq.
  - intros m Hm Hne. apply option_eq. intros t. rewrite !fallback_of_spec by done. split.
    + intros (k & s & Hs & Ho & Hp & Ht).
      apply list_lookup_insert_Some in Hs as [(-> & <- & _)|[Hk Hs]]; [|by eauto 10].
      destruct Hne. by apply padded_inj.
    + intros (k & s & Hs & Ho & Hp & Ht). exists k, s.
      rewrite list_lookup_insert_ne; [done|]. intros ->. congruence.
Qed.

Lemma write_fallback_lookup f name l i m :
  table_ok l -> valid_name name -> find_named name l = Some i -> valid_name m ->
  fallback_of m (write_fallback f i l) =
  if decide (m = name) then f <$> fallback_of m l else fallback_of m l.
Proof.
  intros Hl Hn Hi Hm. pose proof (write_fallback_ok f i l Hl) as Hl'.
  apply (find_spec _ _ _ Hl Hn) in Hi as (s & Hs & Ho & Hp).
  apply option_eq. intros t. rewrite fallback_of_spec by done. unfold write_fallback.
  assert (m <> name -> forall k s', l !! k = Some s' -> occupied s' = true ->
    system_name s' = padded m -> k <> i) as Hki.
  { intros Hne k s' Hk _ Hpm ->. simplify_eq. destruct Hne. apply padded_inj; congruence. }
  case_decide as Hd.
  - subst m. split.
    + intros (k & s' & Hs' & Ho' & Hp' & <-).
      destruct (decide (k = i)) as [->|Hne].
      * rewrite list_lookup_alter_eq, Hs in Hs'. injection Hs' as <-. simpl in *.
        apply fmap_Some. exists (slot_tf s). split; [|done]. apply fallback_of_spec; eauto 8.
      * rewrite list_lookup_alter_ne in Hs' by done.
        destruct Hne. by apply (table_inj _ Hl k i s' s); [..|congruence].
    + intros (t0 & (k & s' & Hs' & Ho' & Hp' & <-)%(fallback_of_spec _ _ _ Hl Hn) & ->)%fmap_Some.
      assert (k = i) as -> by (by apply (table_inj _ Hl k i s' s); [..|congruence]). simplify_eq.
      eexists i, _. by rewrite list_lookup_alter_eq, Hs.
  - rewrite fallback_of_spec by done. split; intros (k & s' & Hs' & Ho' & Hp' & <-).
    + destruct (decide (k = i)) as [->|Hne].
      * rewrite list_lookup_alter_eq, Hs in Hs'. injection Hs' as <-. simpl in *.
        destruct Hd. apply padded_inj; congruence.
      * rewrite list_lookup_alter_ne in Hs' by done. eauto 10.
    + exists k, s'. rewrite list_lookup_alter_ne; [done|]. intros ->. by eapply Hki.
Qed.

(** Acquiring fails only when eight other names hold the slots. *)
Lemma acquire_full name l l' :
  table_ok l -> valid_name name -> acquire_named name l = (None, l') ->
  l' = l /\ fallback_of name l = None /\ Forall (fun s => occupied s = true) l.
Proof.
  intros Hl Hn. unfold acquire_named, fallback_of, slot_at. rewrite (proj1 Hn). simpl.
  destruct (find_named name l) as [j|] eqn:Ef; [done|].
  destruct (list_find _ l) as [[j s0]|] eqn:E; [done|]. intros [= <-].
  apply list_find_None in E. split; [done|]. split; [done|].
  eapply Forall_impl; [|exact E]. intros s. simpl. by destruct (occupied s).
Qed.

(** *** No access leaves the arrays *)

Lemma slot_matches_named name s :
  length (system_name s) = MaxTrackingSystemNameLen -> length name <= MaxTrackingSystemNameLen ->
  slot_matches name s = Some (slot_named name s).
Proof.
  intros Hs Hn. unfold slot_matches, slot_named. rewrite (proj2 (Nat.ltb_ge _ _)) by lia.
  destruct (bool_decide (take _ _ = name)); [|done]. cbn [negb andb].
  destruct (Nat.eqb_spec (length name) MaxTrackingSystemNameLen) as [|Hne]; [done|]. cbn [orb].
  destruct (lookup_lt_is_Some_2 (system_name s) (length name)) as [c Hc]; [lia|]. rewrite Hc. cbn. f_equal.
  by apply bool_decide_ext; split; [intros ->|intros [= ->]].
Qed.

Lemma slot_length s : slot_ok s -> occupied s = true -> length (system_name s) = MaxTrackingSystemNameLen.
Proof. intros Hs Ho. destruct (Hs Ho) as (m & Hm & ->). by apply padded_length. Qed.

Lemma scan_named name l i :
  Forall slot_ok l -> length name <= MaxTrackingSystemNameLen ->
  scan_slots name i l = Some ((fun j => i + j) <$> (fst <$> list_find (fun s => is_true (occupied s && slot_named name s)) l)).
Proof.
  intros Hl Hn. revert i. induction Hl as [|s l Hs Hl IH]; intros i; [done|]. cbn [scan_slots list_find].
  destruct (occupied s) eqn:Ho; cbn [negb andb].
  - rewrite slot_matches_named by (done || by apply slot_length). cbn [mbind option_bind].
    destruct (slot_named name s) eqn:Hm.
    + rewrite decide_True by done. cbn. by rewrite Nat.add_0_r.
    + rewrite decide_False by done. rewrite IH. destruct (list_find _ l) as [[j s']|]; cbn; [do 2 f_equal; lia|done].
  - rewrite decide_False by done. rewrite IH. destruct (list_find _ l) as [[j s']|]; cbn; [do 2 f_equal; lia|done].
Qed.

(** Names of any length are looked up within the arrays. *)
Lemma find_total name l : Forall slot_ok l -> FindFallbackSlot name l = Some (find_named name l).
Proof.
  intros Hl. unfold FindFallbackSlot, find_named. destruct (name_len_ok name) eqn:Hn; [|done]. cbn [negb].
  unfold name_len_ok in Hn. bool_prop. rewrite scan_named by (done || lia). by destruct (list_find _ l) as [[j s]|].
Qed.

Lemma acquire_total name l : Forall slot_ok l -> AcquireFallbackSlot name l = Some (acquire_named name l).
Proof.
  intros Hl. unfold AcquireFallbackSlot, acquire_named. rewrite find_total by done.
  destruct (name_len_ok name) eqn:Hn; [|done]. cbn [negb mbind option_bind].
  destruct (find_named name l); [done|]. destruct (list_find _ l) as [[i s]|]; [|done].
  unfold name_len_ok in Hn. bool_prop. unfold copy_name. by rewrite (proj2 (Nat.ltb_ge _ _)) by lia.
Qed.
End Table.
Arguments FallbackSlot : clear implicits.
