(* ===== verification/PoseProvider.v ===== *)
(** * The pose provider (core/src/driver/ServerTrackedDeviceProvider.{h,cpp})

    Per-device calibration transforms, prediction suppression, the fallbacks of
    whole tracking systems, and the pose hook that applies them.  A request of
    the IPC thread and a stretch of the hook between two operations on
    [stateMutex] are one step each; the hook gives the mutex up once, around
    the property query ([PQuery] below), and resumes on whatever state the
    other thread left.  Readings of the performance counter are arguments. *)

From S2P Require Import Prelude Floats Shmem Isometry FallbackTable.
Open Scope fl_scope.

(** ** Requests and poses *)

Record AlignmentSpeedParams := mkASP {
  thr_trans_tiny : double; thr_trans_small : double; thr_trans_large : double;
  thr_rot_tiny : double; thr_rot_small : double; thr_rot_large : double;
  align_speed_tiny : double; align_speed_small : double; align_speed_large : double }.

Record SetDeviceTransform_req := mkSDT {
  sd_openVRID : Z; sd_enabled : bool; sd_updateTranslation : bool; sd_updateRotation : bool;
  sd_updateScale : bool; sd_translation : Vector3d; sd_rotation : Quaterniond; sd_scale : double;
  sd_lerp : bool; sd_quash : bool; sd_target_system : list byte;
  sd_predictionSmoothness : Z; sd_recalibrateOnMovement : bool }.

Record SetDevicePrediction_req := mkSDP {
  sp_openVRID : Z; sp_predictionSmoothness : Z; sp_smart_enabled : Z }.

Record SetTrackingSystemFallback_req := mkSTF {
  sf_system_name : list byte; sf_enabled : bool; sf_translation : Vector3d; sf_rotation : Quaterniond;
  sf_scale : double; sf_predictionSmoothness : Z; sf_recalibrateOnMovement : bool }.

(** The fields of [vr::DriverPose_t] the provider reads or writes. *)
Record DriverPose := mkDP {
  poseTimeOffset : double;
  qWorldFromDriverRotation : Quaterniond; vecWorldFromDriverTranslation : Vector3d;
  qRotation : Quaterniond; vecPosition : Vector3d; vecVelocity : Vector3d; vecAcceleration : Vector3d;
  vecAngularVelocity : Vector3d; vecAngularAcceleration : Vector3d;
  poseIsValid : bool; deviceIsConnected : bool }.

#[export] Instance pose_settable : Settable DriverPose := fun p =>
  mkDP (poseTimeOffset p) (qWorldFromDriverRotation p) (vecWorldFromDriverTranslation p) (qRotation p)
    (vecPosition p) (vecVelocity p) (vecAcceleration p) (vecAngularVelocity p) (vecAngularAcceleration p)
    (poseIsValid p) (deviceIsConnected p).

(** ** State *)

Inductive DeltaSize := TINY | SMALL | LARGE.
Inductive LookupState := NotTried | Cached | Failed.

#[export] Instance delta_eqdec : EqDecision DeltaSize.
Proof. solve_decision. Defined.
#[export] Instance lookup_eqdec : EqDecision LookupState.
Proof. solve_decision. Defined.

Record DeviceTransform := mkDT {
  enabled : bool; quash : bool; prevQuash : bool;
  transform : IsoTransform; targetTransform : IsoTransform; scale : double;
  lastPoll : Z; currentRate : DeltaSize; fallbackActive : bool;
  predictionSmoothness : Z; smartEnabled : bool; smartMotionEma : double;
  recalibrateOnMovement : bool;
  lastBlendWorldPos : Vector3d; lastBlendWorldRot : Quaterniond; blendMotionInitialized : bool }.

#[export] Instance dt_settable : Settable DeviceTransform := fun d =>
  mkDT (enabled d) (quash d) (prevQuash d) (transform d) (targetTransform d) (scale d) (lastPoll d)
    (currentRate d) (fallbackActive d) (predictionSmoothness d) (smartEnabled d) (smartMotionEma d)
    (recalibrateOnMovement d) (lastBlendWorldPos d) (lastBlendWorldRot d) (blendMotionInitialized d).

Definition dt_default : DeviceTransform :=
  mkDT false false false iso_default iso_default d_one 0 TINY false 0 false fzero false v_zero q_identity false.

Record FallbackTransform := mkFT {
  fb_enabled : bool; fb_transform : IsoTransform; fb_scale : double;
  fb_predictionSmoothness : Z; fb_recalibrateOnMovement : bool }.

#[export] Instance ft_settable : Settable FallbackTransform := fun f =>
  mkFT (fb_enabled f) (fb_transform f) (fb_scale f) (fb_predictionSmoothness f) (fb_recalibrateOnMovement f).

Definition fb_default : FallbackTransform := mkFT false iso_default d_one 0 false.

Record Provider := mkProvider {
  transforms : list DeviceTransform;
  deviceSystem : list (list byte);
  lookupState : list LookupState;
  lastLookupAttempt : list Z;
  systemFallbacks : list (FallbackSlot FallbackTransform);
  qpcFreq : Z;
  alignmentSpeedParams : AlignmentSpeedParams;
  debugTransform : Vector3d; debugRotation : Quaterniond;
  shmem : option (PoseShmem DriverPose) }.

#[export] Instance provider_settable : Settable Provider := fun s =>
  mkProvider (transforms s) (deviceSystem s) (lookupState s) (lastLookupAttempt s) (systemFallbacks s)
    (qpcFreq s) (alignmentSpeedParams s) (debugTransform s) (debugRotation s) (shmem s).

Definition provider_init (freq : Z) (asp : AlignmentSpeedParams)
    (seg : option (PoseShmem DriverPose)) : Provider :=
  let n := k_unMaxTrackedDeviceCount in
  mkProvider (replicate n dt_default) (replicate n []) (replicate n NotTried) (replicate n 0%Z)
    (empty_table fb_default) freq asp v_zero q_identity seg.

(** The index of an array of [k_unMaxTrackedDeviceCount] entries, when in range. *)
Definition device_index (openVRID : Z) : option nat :=
  if (Z.of_nat k_unMaxTrackedDeviceCount <=? openVRID)%Z then None else Some (Z.to_nat openVRID).

(** ** SetDeviceTransform *)

(** The entry of [transforms], by the statements of the function in order. *)
Definition set_transform (req : SetDeviceTransform_req) (now : Z) (tf0 : DeviceTransform) : DeviceTransform :=
  let wasEnabled := enabled tf0 in
  let tf := tf0 <| enabled := sd_enabled req |> in
  let tf := tf <| fallbackActive := false |> in
  let tf := if recalibrateOnMovement tf && negb (sd_recalibrateOnMovement req)
            then tf <| blendMotionInitialized := false |> else tf in
  let tf := tf <| recalibrateOnMovement := sd_recalibrateOnMovement req |> in
  let tf := if sd_updateTranslation req then
              let tf := tf <| targetTransform ::= fun t => t <| translation := sd_translation req |> |> in
              if sd_lerp req then tf
              else tf <| transform ::= fun t => t <| translation := translation (targetTransform tf) |> |>
            else tf in
  let tf := if sd_updateRotation req then
              let tf := tf <| targetTransform ::= fun t => t <| rotation := sd_rotation req |> |> in
              if sd_lerp req then tf
              else tf <| transform ::= fun t => t <| rotation := rotation (targetTransform tf) |> |>
            else tf in
  let tf := if sd_updateScale req then tf <| scale := sd_scale req |> else tf in
  let tf := tf <| quash := sd_quash req |> in
  let tf := if negb wasEnabled && enabled tf then tf <| transform := targetTransform tf |> else tf in
  let tf := if wasEnabled && negb (enabled tf) then tf <| targetTransform := transform tf |> else tf in
  tf <| lastPoll := now |> <| currentRate := TINY |>.

Definition SetDeviceTransform (req : SetDeviceTransform_req) (now : Z) (s : Provider) : Provider :=
  match device_index (sd_openVRID req) with
  | None => s
  | Some i =>
    let sys := cstr (sd_target_system req) in
    let s := s <| deviceSystem ::= <[i := sys]> |> in
    let s := s <| lookupState ::= <[i := if (0 <? length sys)%nat then Cached else NotTried]> |> in
    s <| transforms ::= alter (set_transform req now) i |>
  end.

(** ** SetDevicePrediction *)

Definition set_prediction (cfg : SetDevicePrediction_req) (tf : DeviceTransform) : DeviceTransform :=
  let oldSmart := smartEnabled tf in
  let newSmart := negb (sp_smart_enabled cfg =? 0)%Z in
  let tf := tf <| predictionSmoothness := sp_predictionSmoothness cfg |> <| smartEnabled := newSmart |> in
  if newSmart && negb oldSmart then tf <| smartMotionEma := fzero |> else tf.

Definition SetDevicePrediction (cfg : SetDevicePrediction_req) (s : Provider) : Provider :=
  match device_index (sp_openVRID cfg) with
  | None => s
  | Some i => s <| transforms ::= alter (set_prediction cfg) i |>
  end.

(** ** SetTrackingSystemFallback *)

(** [now id] is the counter read for device [id]. *)
Definition drop_follower (now : Z) (tf : DeviceTransform) : DeviceTransform :=
  tf <| fallbackActive := false |> <| targetTransform := transform tf |>
     <| currentRate := TINY |> <| lastPoll := now |>.

Definition drop_followers (name : list byte) (now : nat -> Z) (systems : list (list byte))
    (tfs : list DeviceTransform) : list DeviceTransform :=
  imap (fun id tf =>
    if negb (fallbackActive tf) then tf
    else if bool_decide (systems !! id = Some name) then drop_follower (now id) tf else tf) tfs.

Definition store_fallback (req : SetTrackingSystemFallback_req) (f : FallbackTransform) : FallbackTransform :=
  f <| fb_enabled := true |>
    <| fb_transform := mkIso (sf_rotation req) (sf_translation req) |>
    <| fb_scale := sf_scale req |>
    <| fb_recalibrateOnMovement := sf_recalibrateOnMovement req |>.

Definition disable_fallback (f : FallbackTransform) : FallbackTransform := f <| fb_enabled := false |>.

(** [None]: the name is searched or copied past the end of an array. *)
Definition set_fallback (req : SetTrackingSystemFallback_req) (now : nat -> Z) (s : Provider) : option Provider :=
  let name := cstr (sf_system_name req) in
  if length name =? 0 then Some s else
  if negb (sf_enabled req) then
    slot ← FindFallbackSlot name (systemFallbacks s);
    let s := match slot with
             | Some i => s <| systemFallbacks ::= write_fallback disable_fallback i |>
             | None => s
             end in
    Some (s <| transforms := drop_followers name now (deviceSystem s) (transforms s) |>)
  else
    '(slot, l) ← AcquireFallbackSlot fb_default name (systemFallbacks s);
    match slot with
    | None => Some s
    | Some i => Some (s <| systemFallbacks := write_fallback (store_fallback req) i l |>)
    end.

(** The request as the other components call it: [pose_hook_total] shows that it
    stays within the arrays in every reachable state. *)
Definition SetTrackingSystemFallback (req : SetTrackingSystemFallback_req) (now : nat -> Z) (s : Provider) : Provider :=
  default s (set_fallback req now s).

Definition HandleSetAlignmentSpeedParams (params : AlignmentSpeedParams) (s : Provider) : Provider :=
  s <| alignmentSpeedParams := params |>.

(** [init] is the vector drawn from the random device. *)
Definition HandleApplyRandomOffset `{Eigen} (init : Vector3d) (s : Provider) : Provider :=
  s <| debugTransform := v_scale init (d_lit 1 4) |> <| debugRotation := q_identity |>.

(** ** The pose hook *)

Definition kSmartLinearStill : double := d_lit 5 100.
Definition kSmartLinearMoving : double := d_lit 60 100.
Definition kSmartAngularStill : double := d_lit 10 100.
Definition kSmartAngularMoving : double := d_of_Z 2.
Definition kSmartEmaAlpha : double := d_lit 15 100.

Definition v_finite (v : Vector3d) : bool := isfinite (v_x v) && isfinite (v_y v) && isfinite (v_z v).

Definition v_length (v : Vector3d) : double :=
  d_sqrt (v_x v * v_x v + v_y v * v_y v + v_z v * v_z v).

Definition ComputeSmartMotionRamp (p : DriverPose) : double :=
  if negb (v_finite (vecVelocity p)) || negb (v_finite (vecAngularVelocity p)) then fzero else
  let linear := v_length (vecVelocity p) in
  let angular := v_length (vecAngularVelocity p) in
  let posRamp := std_clamp ((linear - kSmartLinearStill) / (kSmartLinearMoving - kSmartLinearStill)) fzero d_one in
  let rotRamp := std_clamp ((angular - kSmartAngularStill) / (kSmartAngularMoving - kSmartAngularStill)) fzero d_one in
  std_max posRamp rotRamp.

Definition v_mul (v : Vector3d) (k : double) : Vector3d := V3 (v_x v * k) (v_y v * k) (v_z v * k).

Definition scale_prediction (factor : double) (p : DriverPose) : DriverPose :=
  p <| vecVelocity ::= fun v => v_mul v factor |>
    <| vecAcceleration ::= fun v => v_mul v factor |>
    <| vecAngularVelocity ::= fun v => v_mul v factor |>
    <| vecAngularAcceleration ::= fun v => v_mul v factor |>
    <| poseTimeOffset ::= fun t => t * factor |>.

(** The smoothness in force: the device's, or its tracking system's. *)
Definition effective_smoothness (tf : DeviceTransform) (sys : list byte)
    (l : list (FallbackSlot FallbackTransform)) : option Z :=
  let smoothness := predictionSmoothness tf in
  if (smoothness =? 0)%Z && negb (enabled tf) && negb (length sys =? 0) then
    slot ← FindFallbackSlot sys l;
    Some match slot_at slot l with
         | Some fb => if fb_enabled fb && (0 <? fb_predictionSmoothness fb)%Z
                      then fb_predictionSmoothness fb else smoothness
         | None => smoothness
         end
  else Some smoothness.

Definition suppress_prediction (smoothness : Z) (tf : DeviceTransform) (p : DriverPose)
    : DeviceTransform * DriverPose :=
  if (smoothness <=? 0)%Z then (tf, p) else
  let smoothness := if (100 <? smoothness)%Z then 100%Z else smoothness in
  let factor := d_one - d_of_Z smoothness / d_of_Z 100 in
  if smartEnabled tf then
    let motion := ComputeSmartMotionRamp p in
    let tf := tf <| smartMotionEma ::= fun e => (d_one - kSmartEmaAlpha) * e + kSmartEmaAlpha * motion |> in
    let factor := factor + (d_one - factor) * smartMotionEma tf in
    (tf, scale_prediction factor p)
  else (tf, scale_prediction factor p).

Section Hook.
Context `{Eigen}.

Definition toIsoWorldTransform (p : DriverPose) : IsoTransform :=
  mkIso (qWorldFromDriverRotation p) (vecWorldFromDriverTranslation p).

Definition toIsoPose (p : DriverPose) : IsoTransform :=
  iso_mul (toIsoWorldTransform p) (mkIso (qRotation p) (vecPosition p)).

(** The comparison of an [enum DeltaSize]. *)
Definition delta_rank (d : DeltaSize) : nat := match d with TINY => 0 | SMALL => 1 | LARGE => 2 end.
Definition delta_max (a b : DeltaSize) : DeltaSize := if (delta_rank a <? delta_rank b)%nat then b else a.

Definition delta_level (delta thr_large thr_small : double) : DeltaSize :=
  if fgt delta thr_large then LARGE else if fgt delta thr_small then SMALL else TINY.

Definition GetTransformDeltaSize (asp : AlignmentSpeedParams) (prior_delta : DeltaSize)
    (deviceWorldPose src target : IsoTransform) : DeltaSize :=
  let src_pose := iso_mul src deviceWorldPose in
  let target_pose := iso_mul target deviceWorldPose in
  let trans_delta := v_norm (v_sub (translation src_pose) (translation target_pose)) in
  let rot_delta := q_angularDistance (rotation src_pose) (rotation target_pose) in
  let trans_level := delta_level trans_delta (thr_trans_large asp) (thr_trans_small asp) in
  let rot_level := delta_level rot_delta (thr_rot_large asp) (thr_rot_small asp) in
  if bool_decide (trans_level = TINY) && bool_decide (rot_level = TINY) then TINY
  else delta_max prior_delta (delta_max trans_level rot_level).

Definition GetTransformRate (asp : AlignmentSpeedParams) (delta : DeltaSize) : double :=
  match delta with
  | TINY => align_speed_tiny asp
  | SMALL => align_speed_small asp
  | LARGE => align_speed_large asp
  end.

Definition kPosFullScale : double := d_lit 5 1000.
Definition kRotFullScale : double := d_lit 175 10000.
(** The double nearest to pi. *)
Definition M_PI : double := d_lit 884279719003555 281474976710656.

Definition motion_gate (device : DeviceTransform) (deviceWorldPose : IsoTransform) : double :=
  let devPosDelta := v_norm (v_sub (translation deviceWorldPose) (lastBlendWorldPos device)) in
  let devRotDelta := q_angularDistance (rotation deviceWorldPose) (lastBlendWorldRot device) in
  std_min d_one (std_max (devPosDelta / kPosFullScale) (devRotDelta / kRotFullScale)).

Definition correction_regime (device : DeviceTransform) : MotionGate.Regime :=
  let correctionPosMm :=
    v_norm (v_sub (translation (targetTransform device)) (translation (transform device))) * d_of_Z 1000 in
  let correctionRotDeg :=
    q_angularDistance (rotation (targetTransform device)) (rotation (transform device)) * d_of_Z 180 / M_PI in
  MotionGate.ClassifyCorrection correctionPosMm correctionRotDeg.

Definition effective_gate (device : DeviceTransform) (deviceWorldPose : IsoTransform) : double :=
  std_max (motion_gate device deviceWorldPose) (MotionGate.StillFloor (correction_regime device)).

Definition clamp_lerp (lerp : double) : double :=
  let lerp := if fgt lerp d_one then d_one else lerp in
  if flt lerp fzero || is_nan lerp then fzero else lerp.

(** The lerp factor of [BlendTransform] and the device with its motion
    reference updated, before the interpolation. *)
Definition blend_lerp (freq : Z) (asp : AlignmentSpeedParams) (now : Z) (device : DeviceTransform)
    (deviceWorldPose : IsoTransform) : double * DeviceTransform :=
  let lerp := d_of_Z (now - lastPoll device) / d_of_Z freq in
  let device := device <| lastPoll := now |> in
  let lerp := lerp * GetTransformRate asp (currentRate device) in
  let note_pose d := d <| lastBlendWorldPos := translation deviceWorldPose |>
                       <| lastBlendWorldRot := rotation deviceWorldPose |> in
  let '(lerp, device) :=
    if recalibrateOnMovement device then
      if negb (blendMotionInitialized device) then
        (fzero, (note_pose device) <| blendMotionInitialized := true |>)
      else (lerp * effective_gate device deviceWorldPose, note_pose device)
    else if blendMotionInitialized device then (lerp, device <| blendMotionInitialized := false |>)
    else (lerp, device) in
  (clamp_lerp lerp, device).

Definition BlendTransform (freq : Z) (asp : AlignmentSpeedParams) (now : Z) (device : DeviceTransform)
    (deviceWorldPose : IsoTransform) : DeviceTransform :=
  let '(lerp, device) := blend_lerp freq asp now device deviceWorldPose in
  device <| transform ::= fun t =>
    interpolateAround t lerp (targetTransform device) (translation deviceWorldPose) |>.

Definition ApplyTransform (device : DeviceTransform) (p : DriverPose) : DriverPose :=
  let w := iso_mul (transform device) (toIsoWorldTransform p) in
  p <| vecWorldFromDriverTranslation := translation w |> <| qWorldFromDriverRotation := rotation w |>.

(** The readings of the counter the hook may make. *)
Record Clock := mkClock {
  t_pose : Z; t_backoff : Z; t_failed : Z; t_snap : Z; t_blend : Z }.

Definition debug_pose (openVRID : nat) (s : Provider) (p : DriverPose) : DriverPose :=
  if (0 <? openVRID)%nat then
    let dbgPos := v_add (vecPosition p) (debugTransform s) in
    let dbgRot := q_mul (qRotation p) (debugRotation s) in
    p <| qRotation := dbgRot |> <| vecPosition := dbgPos |>
  else p.

Definition bump (f : TelemetryField) (s : Provider) : Provider :=
  s <| shmem ::= fmap (fun d => mkPose (IncrementTelemetry f (ps_telemetry d)) (ps_index d) (ps_poses d)) |>.

Definition scale_position (k : double) (p : DriverPose) : DriverPose :=
  p <| vecPosition ::= fun v => v_mul v k |>.

(** The device with its rate and transform advanced, and the pose it yields. *)
Definition blend_and_apply (s : Provider) (now : Z) (tf : DeviceTransform) (p : DriverPose)
    : DeviceTransform * DriverPose :=
  let p := scale_position (scale tf) p in
  let deviceWorldPose := toIsoPose p in
  let tf := tf <| currentRate :=
    GetTransformDeltaSize (alignmentSpeedParams s) (currentRate tf) deviceWorldPose
      (transform tf) (targetTransform tf) |> in
  let tf := BlendTransform (qpcFreq s) (alignmentSpeedParams s) now tf deviceWorldPose in
  (tf, ApplyTransform tf p).

(** The entry a fallback drives, before the blend. *)
Definition follow_fallback (fb : FallbackTransform) (snap : Z) (tf : DeviceTransform) : DeviceTransform :=
  let tf := tf <| targetTransform := fb_transform fb |> <| scale := fb_scale fb |> in
  let tf := if recalibrateOnMovement tf && negb (fb_recalibrateOnMovement fb)
            then tf <| blendMotionInitialized := false |> else tf in
  let tf := tf <| recalibrateOnMovement := fb_recalibrateOnMovement fb |> in
  if negb (fallbackActive tf) then
    tf <| transform := fb_transform fb |> <| fallbackActive := true |>
       <| currentRate := TINY |> <| lastPoll := snap |>
  else tf.

(** Line 934 to the end: the tail once the tracking system has been looked up. *)
Definition fallback_tail (id : nat) (clk : Clock) (s : Provider) (p : DriverPose)
    : option (Provider * DriverPose) :=
  sys ← deviceSystem s !! id; tf ← transforms s !! id;
  if length sys =? 0 then Some (s, p) else
  slot ← FindFallbackSlot sys (systemFallbacks s);
  match slot_at slot (systemFallbacks s) with
  | Some fb =>
    if fb_enabled fb then
      let '(tf, p) := blend_and_apply s (t_blend clk) (follow_fallback fb (t_snap clk) tf) p in
      Some (bump TELEMETRY_FALLBACK_APPLY (s <| transforms ::= <[id := tf]> |>), p)
    else if fallbackActive tf then
      Some (s <| transforms ::= <[id := drop_follower (t_snap clk) tf]> |>, p)
    else Some (s, p)
  | None =>
    if fallbackActive tf then
      Some (s <| transforms ::= <[id := drop_follower (t_snap clk) tf]> |>, p)
    else Some (s, p)
  end.

Inductive pose_status := PDone (s : Provider) (p : DriverPose) | PQuery (s : Provider) (p : DriverPose).

(** Whether the property store is asked for the device's tracking system. *)
Definition should_query (id : nat) (clk : Clock) (s : Provider) : option bool :=
  sys ← deviceSystem s !! id; ls ← lookupState s !! id; att ← lastLookupAttempt s !! id;
  Some ((length sys =? 0) && negb (bool_decide (ls = Cached))
    && negb (bool_decide (ls = Failed) && (0 <? qpcFreq s)%Z && (t_backoff clk - att <? qpcFreq s)%Z)).

(** Up to the end, or to the point where the mutex is released for the query.
    [None]: an array is indexed out of its bounds, the names of the fallback
    table included. *)
Definition pose_begin (id : nat) (clk : Clock) (s : Provider) (p : DriverPose) : option pose_status :=
  let p := debug_pose id s p in
  tf ← transforms s !! id; sys ← deviceSystem s !! id;
  smoothness ← effective_smoothness tf sys (systemFallbacks s);
  let '(tf, p) := suppress_prediction smoothness tf p in
  let s := s <| shmem ::= SetPose (Z.of_nat id) p (t_pose clk) |> in
  let tf := tf <| prevQuash := quash tf |> in
  let s := s <| transforms ::= <[id := tf]> |> in
  if quash tf then
    Some (PDone (bump TELEMETRY_QUASH_APPLY s) (p <| poseIsValid := false |> <| deviceIsConnected := false |>))
  else if enabled tf then
    let '(tf, p) := blend_and_apply s (t_blend clk) tf p in
    Some (PDone (bump TELEMETRY_PER_ID_APPLY (s <| transforms ::= <[id := tf]> |>)) p)
  else
    ask ← should_query id clk s;
    if (ask : bool) then Some (PQuery s p)
    else '(s, p) ← fallback_tail id clk s p; Some (PDone s p).

(** After the mutex is taken again; [answer] is the name the property store
    gave, [None] when the query failed or the name was empty. *)
Definition note_answer (id : nat) (clk : Clock) (answer : option (list byte)) (s : Provider) : option Provider :=
  ls ← lookupState s !! id;
  if bool_decide (ls = Cached) then Some s else
  match answer with
  | Some sys => Some (s <| deviceSystem ::= <[id := sys]> |> <| lookupState ::= <[id := Cached]> |>)
  | None => Some (s <| lookupState ::= <[id := Failed]> |> <| lastLookupAttempt ::= <[id := t_failed clk]> |>)
  end.

Definition pose_resume (id : nat) (clk : Clock) (answer : option (list byte)) (s : Provider) (p : DriverPose)
    : option (Provider * DriverPose) :=
  s ← note_answer id clk answer s; fallback_tail id clk s p.

(** The hook with no other thread in the gap. *)
Definition HandleDevicePoseUpdated (id : nat) (clk : Clock) (answer : option (list byte))
    (s : Provider) (p : DriverPose) : option (Provider * DriverPose) :=
  match pose_begin id clk s p with
  | Some (PDone s p) => Some (s, p)
  | Some (PQuery s p) => pose_resume id clk answer s p
  | None => None
  end.
End Hook.

(** ** The two overlays on one device *)

Lemma set_prediction_eq cfg tf :
  set_prediction cfg tf =
  tf <| predictionSmoothness := sp_predictionSmoothness cfg |>
     <| smartEnabled := negb (sp_smart_enabled cfg =? 0)%Z |>
     <| smartMotionEma := if negb (sp_smart_enabled cfg =? 0)%Z && negb (smartEnabled tf)
                          then fzero else smartMotionEma tf |>.
Proof. unfold set_prediction. by destruct (_ =? _)%Z, (smartEnabled tf) eqn:E; destruct tf; simpl in *. Qed.

(** Every test of [set_transform] decided. *)
Ltac set_transform_cases tf req :=
  destruct tf as [en ? ? [] [] ? ? ? ? ? ? ? rc], req as [? en' ut ur us ? ? ? le ? ? ? rc'];
  destruct en, en', ut, ur, us, le, rc, rc'.

Lemma set_transform_prediction req now tf a b c :
  set_transform req now (tf <| predictionSmoothness := a |> <| smartEnabled := b |> <| smartMotionEma := c |>)
  = (set_transform req now tf) <| predictionSmoothness := a |> <| smartEnabled := b |> <| smartMotionEma := c |>.
Proof. set_transform_cases tf req; reflexivity. Qed.

Lemma set_transform_frame req now tf :
  let tf' := set_transform req now tf in
  predictionSmoothness tf' = predictionSmoothness tf /\ smartEnabled tf' = smartEnabled tf /\
  smartMotionEma tf' = smartMotionEma tf /\ prevQuash tf' = prevQuash tf /\
  lastBlendWorldPos tf' = lastBlendWorldPos tf /\ lastBlendWorldRot tf' = lastBlendWorldRot tf.
Proof. set_transform_cases tf req; repeat split. Qed.

Lemma set_transform_prediction_comm req now cfg tf :
  set_prediction cfg (set_transform req now tf) = set_transform req now (set_prediction cfg tf).
Proof.
  rewrite !set_prediction_eq, set_transform_prediction.
  by destruct (set_transform_frame req now tf) as (_ & -> & -> & _).
Qed.

(** The Space Calibrator and Smoothing overlays do not clobber each other:
    a [SetDeviceTransform] and a [SetDevicePrediction] request leave the same
    state in either order, for any devices, transforms, flags and smoothness
    values (out-of-range device ids included). *)
Theorem overlays_commute req now cfg s :
  SetDevicePrediction cfg (SetDeviceTransform req now s) =
  SetDeviceTransform req now (SetDevicePrediction cfg s).
Proof.
  unfold SetDevicePrediction, SetDeviceTransform.
  destruct (device_index (sp_openVRID cfg)) as [j|], (device_index (sd_openVRID req)) as [i|];
    simpl; try done. f_equal.
  destruct (decide (i = j)) as [->|Hne].
  - rewrite !list_alter_alter_eq. apply list_alter_ext; [|done].
    intros tf _. apply set_transform_prediction_comm.
  - by apply list_alter_alter_ne.
Qed.

Lemma device_index_Some z i : device_index z = Some i -> i = Z.to_nat z /\ (z < 64)%Z.
Proof. unfold device_index. change (Z.of_nat k_unMaxTrackedDeviceCount) with 64%Z. case_match; [done|]. intros [= <-]. bool_prop. split; [done|lia]. Qed.

(** The branches of [set_transform]. *)
Lemma set_transform_spec req now tf :
  let tf' := set_transform req now tf in
  enabled tf' = sd_enabled req /\ fallbackActive tf' = false /\ currentRate tf' = TINY /\ lastPoll tf' = now /\
  quash tf' = sd_quash req /\ recalibrateOnMovement tf' = sd_recalibrateOnMovement req /\
  scale tf' = (if sd_updateScale req then sd_scale req else scale tf) /\
  (sd_enabled req = true \/ enabled tf = false ->
   targetTransform tf' =
     mkIso (if sd_updateRotation req then sd_rotation req else rotation (targetTransform tf))
           (if sd_updateTranslation req then sd_translation req else translation (targetTransform tf))) /\
  (sd_enabled req <> enabled tf -> transform tf' = targetTransform tf') /\
  (sd_enabled req = enabled tf -> sd_lerp req = true -> transform tf' = transform tf).
Proof.
  set_transform_cases tf req; vm_compute; conjs; first [reflexivity | by intros [] | done].
Qed.

(** [SetDeviceTransform] on a device in range: the device takes the
    request's flags, scale and target; it snaps to the target when it is being
    enabled, drops the pending target when it is being disabled, and otherwise
    keeps its active transform while [lerp] is set; the clock and rate restart,
    the fallback is no longer followed, the prediction settings are not
    touched, the tracking system is recorded, and no other device changes.  A
    device id out of range leaves the whole state as it is. *)
Theorem SetDeviceTransform_spec req now s i tf :
  (0 <= sd_openVRID req)%Z -> length (transforms s) = 64 -> length (deviceSystem s) = 64 ->
  Z.to_nat (sd_openVRID req) = i ->
  ((64 <= sd_openVRID req)%Z -> SetDeviceTransform req now s = s) /\
  (transforms s !! i = Some tf ->
   exists tf', transforms (SetDeviceTransform req now s) !! i = Some tf' /\
    enabled tf' = sd_enabled req /\ fallbackActive tf' = false /\
    (sd_enabled req = true \/ enabled tf = false ->
     targetTransform tf' =
       mkIso (if sd_updateRotation req then sd_rotation req else rotation (targetTransform tf))
             (if sd_updateTranslation req then sd_translation req else translation (targetTransform tf))) /\
    (sd_enabled req <> enabled tf -> transform tf' = targetTransform tf') /\
    (sd_enabled req = enabled tf -> sd_lerp req = true -> transform tf' = transform tf) /\
    currentRate tf' = TINY /\ lastPoll tf' = now /\
    predictionSmoothness tf' = predictionSmoothness tf /\ smartMotionEma tf' = smartMotionEma tf /\
    deviceSystem (SetDeviceTransform req now s) !! i = Some (cstr (sd_target_system req)) /\
    (forall j, j <> i ->
     transforms (SetDeviceTransform req now s) !! j = transforms s !! j /\
     deviceSystem (SetDeviceTransform req now s) !! j = deviceSystem s !! j)).
Proof.
  intros H0 Ht Hs Hi. unfold SetDeviceTransform, device_index.
  change (Z.of_nat k_unMaxTrackedDeviceCount) with 64%Z. split.
  { intros Hge. by rewrite (proj2 (Z.leb_le 64 _) Hge). }
  intros Htf. pose proof (lookup_lt_Some _ _ _ Htf) as Hlt.
  rewrite (proj2 (Z.leb_gt 64 _)) by lia. rewrite Hi. simpl.
  exists (set_transform req now tf). rewrite list_lookup_alter_eq, Htf.
  destruct (set_transform_spec req now tf) as (? & ? & ? & ? & _ & _ & _ & ? & ? & ?).
  destruct (set_transform_frame req now tf) as (? & _ & ? & _).
  conjs; try done.
  - rewrite list_lookup_insert_eq by lia. done.
  - intros j Hj. by rewrite list_lookup_alter_ne, list_lookup_insert_ne.
Qed.

(** ** The blend *)

Lemma min_one_le x : fle (std_min d_one x) d_one = true /\ is_nan (std_min d_one x) = false.
Proof.
  unfold std_min. destruct (flt x d_one) eqn:E; [|done].
  split; [by apply flt_fle|by apply flt_not_nan in E as []].
Qed.

Lemma max_bounds a b hi :
  is_nan a = false -> fle a hi = true -> fle b hi = true ->
  fle b (std_max a b) = true /\ fle (std_max a b) hi = true.
Proof.
  intros Ha H1 H2. destruct (fle_not_nan _ _ H2) as [Hb _].
  split; [by apply std_max_ge|]. unfold std_max. by destruct (flt a b).
Qed.

Lemma gate_bounds `{Eigen} d pose :
  fle (MotionGate.StillFloor (correction_regime d)) (effective_gate d pose) = true /\
  fle (effective_gate d pose) d_one = true.
Proof.
  unfold effective_gate, motion_gate. destruct (min_one_le (std_max
    (v_norm (v_sub (translation pose) (lastBlendWorldPos d)) / kPosFullScale)
    (q_angularDistance (rotation pose) (lastBlendWorldRot d) / kRotFullScale))).
  apply max_bounds; [done..|]. apply MotionGate.StillFloor_bounds.
Qed.

Lemma clamped_unit l : fle fzero (clamp_lerp l) = true /\ fle (clamp_lerp l) d_one = true.
Proof.
  unfold clamp_lerp. destruct (fgt l d_one) eqn:E; [done|].
  destruct (flt l fzero) eqn:E1; [done|]. destruct (is_nan l) eqn:E2; [done|]. simpl.
  split; by apply flt_false_fle.
Qed.

(** Whatever the clock, the frequency, the alignment speeds and the poses
    (NaN and infinities included), the factor [BlendTransform] interpolates by
    lies in [0, 1]; the gate a motion-gated device multiplies it by lies
    between the still floor of its correction and 1; and on the first frame
    after motion gating is switched on the factor is exactly zero. *)
Theorem blend_factor_bounds `{Eigen} freq asp now d pose :
  let '(lerp, d') := blend_lerp freq asp now d pose in
  fle fzero lerp = true /\ fle lerp d_one = true /\
  fle (MotionGate.StillFloor (correction_regime d)) (effective_gate d pose) = true /\
  fle (effective_gate d pose) d_one = true /\
  (recalibrateOnMovement d = true -> blendMotionInitialized d = false -> lerp = fzero) /\
  lastPoll d' = now /\ blendMotionInitialized d' = recalibrateOnMovement d.
Proof.
  unfold blend_lerp. destruct (gate_bounds d pose) as [Hg1 Hg2].
  destruct (recalibrateOnMovement d) eqn:Er, (blendMotionInitialized d) eqn:Eb; simpl;
    rewrite ?Er, ?Eb; simpl; conjs; rewrite ?Er, ?Eb; first [done | apply clamped_unit].
Qed.

(** ** The fallbacks of the tracking systems *)

(** What a request does to the fallback of each name, the table seen as a map. *)
Definition fallback_spec (req : SetTrackingSystemFallback_req) (full : bool) (m : list byte)
    (cur : option FallbackTransform) : option FallbackTransform :=
  if decide (m = cstr (sf_system_name req)) then
    if sf_enabled req then
      match cur with
      | Some f => Some (store_fallback req f)
      | None => if full then None else Some (store_fallback req fb_default)
      end
    else disable_fallback <$> cur
  else cur.

Lemma req_name_valid req : length (sf_system_name req) = 32 ->
  cstr (sf_system_name req) <> [] -> valid_name (cstr (sf_system_name req)).
Proof.
  intros Hl Hne. split; [|apply cstr_nul_free]. unfold name_len_ok, MaxTrackingSystemNameLen.
  assert (length (cstr (sf_system_name req)) <= 32).
  { unfold cstr. rewrite length_take. lia. }
  rewrite (proj2 (Nat.leb_le _ 32)) by done.
  by destruct (cstr (sf_system_name req)).
Qed.

(** The request over the table as it is meant. *)
Definition set_named (req : SetTrackingSystemFallback_req) (now : nat -> Z) (s : Provider) : Provider :=
  let name := cstr (sf_system_name req) in
  if length name =? 0 then s else
  if negb (sf_enabled req) then
    let s := match find_named name (systemFallbacks s) with
             | Some i => s <| systemFallbacks ::= write_fallback disable_fallback i |>
             | None => s
             end in
    s <| transforms := drop_followers name now (deviceSystem s) (transforms s) |>
  else
    match acquire_named fb_default name (systemFallbacks s) with
    | (None, _) => s
    | (Some i, l) => s <| systemFallbacks := write_fallback (store_fallback req) i l |>
    end.

Lemma set_fallback_total req now s : Forall slot_ok (systemFallbacks s) -> set_fallback req now s = Some (set_named req now s).
Proof.
  intros Hl. unfold set_fallback, set_named. cbv zeta. rewrite find_total, acquire_total by done.
  destruct (length _ =? 0)%nat; [done|]. destruct (negb (sf_enabled req)); [done|].
  by destruct (acquire_named _ _ _) as [[i|] l].
Qed.

Lemma set_fallback_named req now s : Forall slot_ok (systemFallbacks s) -> SetTrackingSystemFallback req now s = set_named req now s.
Proof. intros Hl. unfold SetTrackingSystemFallback. by rewrite set_fallback_total. Qed.

Lemma acquire_empty_false l name i l' :
  table_ok l -> valid_name name -> acquire_named fb_default name l = (Some i, l') ->
  fallback_of name l = None -> forallb occupied l = false.
Proof.
  intros Hl Hn Ha Hf. destruct (forallb occupied l) eqn:E; [|done].
  unfold acquire_named in Ha. rewrite (proj1 Hn) in Ha. simpl in Ha.
  destruct (find_named name l) as [j|] eqn:Ef.
  - pose proof (proj1 (find_spec _ _ _ Hl Hn) Ef) as (s & Hs & _).
    unfold fallback_of, slot_at in Hf. rewrite Ef in Hf. simpl in Hf. by rewrite Hs in Hf.
  - destruct (list_find _ l) as [[j s0]|] eqn:El; [|done].
    apply list_find_Some in El as (Hj & Ho & _).
    rewrite forallb_forall in E. rewrite E in Ho; [done|]. apply list_elem_of_In.
    by eapply list_elem_of_lookup_2.
Qed.

Lemma SetTrackingSystemFallback_table req now s m :
  table_ok (systemFallbacks s) -> length (sf_system_name req) = 32 -> valid_name m ->
  table_ok (systemFallbacks (SetTrackingSystemFallback req now s)) /\
  fallback_of m (systemFallbacks (SetTrackingSystemFallback req now s)) =
    fallback_spec req (forallb occupied (systemFallbacks s)) m (fallback_of m (systemFallbacks s)).
Proof.
  intros Ht Hl Hm. rewrite set_fallback_named by apply Ht. unfold set_named, fallback_spec.
  destruct (length (cstr (sf_system_name req)) =? 0)%nat eqn:E0.
  { bool_prop. split; [done|]. rewrite decide_False; [done|]. intros ->.
    apply valid_len in Hm. lia. }
  assert (valid_name (cstr (sf_system_name req))) as Hn.
  { apply req_name_valid; [done|]. intros Hc. by rewrite Hc in E0. }
  set (n := cstr (sf_system_name req)) in *. destruct (sf_enabled req); simpl.
  - destruct (acquire_named fb_default n (systemFallbacks s)) as [[i|] l'] eqn:Ea; simpl.
    + destruct (acquire_ok _ _ _ _ _ Ht Hn Ea) as (Hok & Hf & Hget & Hoth).
      split; [by apply write_fallback_ok|]. rewrite (write_fallback_lookup _ n) by done.
      case_decide as Hd; [|by apply Hoth]. subst m. rewrite Hget. simpl.
      destruct (fallback_of n (systemFallbacks s)) eqn:Eg; [done|].
      by rewrite (acquire_empty_false _ _ _ _ Ht Hn Ea Eg).
    + destruct (acquire_full _ _ _ _ Ht Hn Ea) as (-> & Hg & Hall). split; [done|].
      case_decide; [|done]. subst m. rewrite Hg.
      rewrite (proj2 (forallb_forall _ _)); [done|]. intros x Hx.
      rewrite Forall_forall in Hall. by apply Hall.
  - destruct (find_named n (systemFallbacks s)) as [i|] eqn:Ef; simpl.
    + split; [by apply write_fallback_ok|]. by apply write_fallback_lookup.
    + split; [done|]. case_decide; [|done]. subst m. unfold fallback_of, slot_at. by rewrite Ef.
Qed.

(** C35: The eight-slot table of NUL-padded names is a map from tracking-system
    names to fallbacks: whatever was stored before, a request changes only the
    fallback of its own name, as [fallback_spec] says (enable stores transform,
    scale and motion gating; disable clears the flag and keeps the rest; a name
    that finds no free slot is ignored), and no name is ever stored twice. *)
Theorem fallback_table_refines_map req now s m :
  table_ok (systemFallbacks s) -> length (sf_system_name req) = 32 -> valid_name m ->
  table_ok (systemFallbacks (SetTrackingSystemFallback req now s)) /\
  fallback_of m (systemFallbacks (SetTrackingSystemFallback req now s)) =
    fallback_spec req (forallb occupied (systemFallbacks s)) m (fallback_of m (systemFallbacks s)).
Proof. apply SetTrackingSystemFallback_table. Qed.

(** ** Reachable states *)

Section Reach.
Context `{Eigen}.

Definition status_state (st : pose_status) : Provider :=
  match st with PDone s _ | PQuery s _ => s end.

(** One turn of the IPC thread, or of a pose hook between two operations on the
    mutex.  Hooks of several devices may be suspended at once, so a resumption
    is possible in any state. *)
Inductive provider_step : Provider -> Provider -> Prop :=
| step_transform req now s : (0 <= sd_openVRID req)%Z -> provider_step s (SetDeviceTransform req now s)
| step_prediction cfg s : (0 <= sp_openVRID cfg)%Z -> provider_step s (SetDevicePrediction cfg s)
| step_fallback req now s : length (sf_system_name req) = 32 ->
    provider_step s (SetTrackingSystemFallback req now s)
| step_speed asp s : provider_step s (HandleSetAlignmentSpeedParams asp s)
| step_offset v s : provider_step s (HandleApplyRandomOffset v s)
| step_begin id clk s p st : pose_begin id clk s p = Some st -> provider_step s (status_state st)
| step_resume id clk answer s p s' p' : pose_resume id clk answer s p = Some (s', p') -> provider_step s s'.

Inductive reachable (freq : Z) (asp : AlignmentSpeedParams) (seg : option (PoseShmem DriverPose)) :
    Provider -> Prop :=
| reach_init : reachable freq asp seg (provider_init freq asp seg)
| reach_step s s' : reachable freq asp seg s -> provider_step s s' -> reachable freq asp seg s'.

Record provider_ok (s : Provider) : Prop := {
  ok_transforms : length (transforms s) = 64;
  ok_system : length (deviceSystem s) = 64;
  ok_lookup : length (lookupState s) = 64;
  ok_attempt : length (lastLookupAttempt s) = 64;
  ok_table : table_ok (systemFallbacks s);
  ok_zero : Forall (fun sl => fb_predictionSmoothness (slot_tf sl) = 0%Z) (systemFallbacks s) }.

(** What the hook leaves alone. *)
Definition same_shape (s s' : Provider) : Prop :=
  length (transforms s') = length (transforms s) /\ length (deviceSystem s') = length (deviceSystem s) /\
  length (lookupState s') = length (lookupState s) /\
  length (lastLookupAttempt s') = length (lastLookupAttempt s) /\
  systemFallbacks s' = systemFallbacks s.

Lemma same_shape_refl s : same_shape s s.
Proof. done. Qed.

Lemma same_shape_trans s1 s2 s3 : same_shape s1 s2 -> same_shape s2 s3 -> same_shape s1 s3.
Proof. unfold same_shape. intros (?&?&?&?&?) (?&?&?&?&?). repeat split; congruence. Qed.

Lemma same_shape_ok s s' : same_shape s s' -> provider_ok s -> provider_ok s'.
Proof. intros (?&?&?&?&E) []. split; rewrite ?E; congruence || done. Qed.

Ltac shape := unfold same_shape; simpl; rewrite ?length_insert, ?length_alter; repeat split.

Lemma fallback_tail_shape id clk s p s' p' :
  fallback_tail id clk s p = Some (s', p') -> same_shape s s'.
Proof.
  unfold fallback_tail. intros (sys & _ & (tf & _ & Ht)%bind_Some)%bind_Some. revert Ht.
  case_match; [by intros [= <- _]|]. intros (slot & _ & Ht)%bind_Some. revert Ht. destruct (slot_at _ _) as [fb|].
  - destruct (fb_enabled fb).
    + destruct (blend_and_apply _ _ _ _) as [tf' q]. intros [= <- _]. shape.
    + destruct (fallbackActive tf); intros [= <- _]; shape.
  - destruct (fallbackActive tf); intros [= <- _]; shape.
Qed.

Lemma note_answer_shape id clk answer s s' : note_answer id clk answer s = Some s' -> same_shape s s'.
Proof.
  unfold note_answer. intros (ls & _ & Hn)%bind_Some. revert Hn.
  case_match; [by intros [= <-]|]. destruct answer; intros [= <-]; shape.
Qed.

Lemma pose_begin_shape id clk s p st : pose_begin id clk s p = Some st -> same_shape s (status_state st).
Proof.
  unfold pose_begin. intros (tf & _ & (sys & _ & (smoothness & _ & Hb)%bind_Some)%bind_Some)%bind_Some. revert Hb.
  destruct (suppress_prediction _ _ _) as [tf' q].
  destruct (quash (tf' <| prevQuash := quash tf' |>)); [intros [= <-]; shape|].
  destruct (enabled (tf' <| prevQuash := quash tf' |>)).
  - destruct (blend_and_apply _ _ _ _) as [tf'' q']. intros [= <-]. shape.
  - intros (ask & _ & Ha)%bind_Some. revert Ha. destruct ask; [intros [= <-]; shape|].
    intros ([s2 p2] & Hf%fallback_tail_shape & [= <-])%bind_Some.
    eapply same_shape_trans; [|exact Hf]. shape.
Qed.

Lemma pose_resume_shape id clk answer s p s' p' :
  pose_resume id clk answer s p = Some (s', p') -> same_shape s s'.
Proof.
  unfold pose_resume. intros (s1 & H1%note_answer_shape & H2%fallback_tail_shape)%bind_Some.
  by eapply same_shape_trans.
Qed.

Lemma write_zero f i (l : list (FallbackSlot FallbackTransform)) :
  (forall t, fb_predictionSmoothness (f t) = fb_predictionSmoothness t) ->
  Forall (fun sl => fb_predictionSmoothness (slot_tf sl) = 0%Z) l ->
  Forall (fun sl => fb_predictionSmoothness (slot_tf sl) = 0%Z) (write_fallback f i l).
Proof. intros Hf Hl. apply Forall_alter; [done|]. intros sl _ Hs. simpl. by rewrite Hf. Qed.

Lemma acquire_zero name l i l' :
  Forall (fun sl => fb_predictionSmoothness (slot_tf sl) = 0%Z) l ->
  acquire_named fb_default name l = (i, l') ->
  Forall (fun sl => fb_predictionSmoothness (slot_tf sl) = 0%Z) l'.
Proof.
  intros Hl. unfold acquire_named. repeat case_match; intros [= _ <-]; try done.
  by apply Forall_insert.
Qed.

Lemma set_fallback_zero req now s :
  Forall slot_ok (systemFallbacks s) ->
  Forall (fun sl => fb_predictionSmoothness (slot_tf sl) = 0%Z) (systemFallbacks s) ->
  Forall (fun sl => fb_predictionSmoothness (slot_tf sl) = 0%Z)
    (systemFallbacks (SetTrackingSystemFallback req now s)).
Proof.
  intros Hslots Hl. rewrite set_fallback_named by done. unfold set_named. case_match; [done|]. case_match; simpl.
  - case_match; simpl; [|done]. by apply write_zero.
  - destruct (acquire_named _ _ _) as [[i|] l'] eqn:Ea; simpl; [|done].
    apply write_zero; [done|]. by eapply acquire_zero.
Qed.

Lemma provider_step_ok s s' : provider_step s s' -> provider_ok s -> provider_ok s'.
Proof.
  intros Hs Ho. destruct Hs as [req now s|cfg s|req now s Hl|asp s|v s|? ? ? ? ? Hb|? ? ? ? ? ? ? Hr].
  - apply (same_shape_ok s); [|done]. unfold SetDeviceTransform. case_match; shape.
  - apply (same_shape_ok s); [|done]. unfold SetDevicePrediction. case_match; shape.
  - pose proof (fun m Hm =>
      SetTrackingSystemFallback_table req now s m (ok_table _ Ho) Hl Hm) as Hsp.
    assert (valid_name (str "a")) as Hv by (split; [done|solve_nul_free]).
    destruct (Hsp _ Hv) as [Htab _]. pose proof (set_fallback_zero req now s (table_slots _ (ok_table _ Ho)) (ok_zero _ Ho)).
    rewrite set_fallback_named in * by apply Ho.
    destruct Ho. split; [..|done|done].
    all: unfold set_named; repeat case_match; simpl;
      rewrite ?length_imap; try done; unfold drop_followers; rewrite ?length_imap; done.
  - apply (same_shape_ok s); [shape|done].
  - apply (same_shape_ok s); [shape|done].
  - eapply same_shape_ok; [by eapply pose_begin_shape|done].
  - eapply same_shape_ok; [by eapply pose_resume_shape|done].
Qed.

Lemma provider_init_ok freq asp seg : provider_ok (provider_init freq asp seg).
Proof.
  split; [reflexivity..|apply empty_table_ok|by repeat constructor].
Qed.

Lemma provider_reachable_ok freq asp seg s : reachable freq asp seg s -> provider_ok s.
Proof. induction 1; [apply provider_init_ok|by eapply provider_step_ok]. Qed.

Lemma slot_at_zero slot l fb :
  Forall (fun sl => fb_predictionSmoothness (slot_tf sl) = 0%Z) l ->
  slot_at slot l = Some fb -> fb_predictionSmoothness fb = 0%Z.
Proof.
  intros Hl. unfold slot_at. intros (i & _ & (sl & Hi & ->)%fmap_Some)%bind_Some.
  by apply (Forall_lookup_1 _ _ _ _ Hl Hi).
Qed.

Lemma lookup_64 {A} (l : list A) i : length l = 64 -> i < 64 -> is_Some (l !! i).
Proof. intros. apply lookup_lt_is_Some. lia. Qed.

Lemma fallback_tail_total id clk s p :
  provider_ok s -> id < 64 -> exists r, fallback_tail id clk s p = Some r.
Proof.
  intros Ho Hid. unfold fallback_tail.
  destruct (lookup_64 _ id (ok_system _ Ho) Hid) as [sys ->].
  destruct (lookup_64 _ id (ok_transforms _ Ho) Hid) as [tf ->]. cbn [mbind option_bind].
  rewrite find_total by apply (ok_table _ Ho). cbn [mbind option_bind].
  repeat case_match; eauto.
Qed.

Lemma smoothness_own tf sys s :
  provider_ok s -> effective_smoothness tf sys (systemFallbacks s) = Some (predictionSmoothness tf).
Proof.
  intros Ho. unfold effective_smoothness. case_match; [|done]. rewrite find_total by apply (ok_table _ Ho). cbn [mbind option_bind].
  destruct (slot_at _ _) as [fb|] eqn:E; [|done].
  rewrite (slot_at_zero _ _ _ (ok_zero _ Ho) E). by rewrite andb_false_r.
Qed.

Lemma pose_resume_total id clk answer s p :
  provider_ok s -> id < 64 -> exists r, pose_resume id clk answer s p = Some r.
Proof.
  intros Ho Hid. unfold pose_resume.
  assert (exists s1, note_answer id clk answer s = Some s1) as [s1 H1].
  { unfold note_answer. destruct (lookup_64 _ id (ok_lookup _ Ho) Hid) as [ls ->]. simpl.
    repeat case_match; eauto. }
  rewrite H1. simpl. apply fallback_tail_total; [|done].
  eapply same_shape_ok; [by eapply note_answer_shape|done].
Qed.

Lemma pose_begin_total id clk s p :
  provider_ok s -> id < 64 -> exists st, pose_begin id clk s p = Some st.
Proof.
  intros Ho Hid. unfold pose_begin.
  destruct (lookup_64 _ id (ok_system _ Ho) Hid) as [sys ->].
  destruct (lookup_64 _ id (ok_transforms _ Ho) Hid) as [tf ->]. cbn [mbind option_bind].
  rewrite smoothness_own by done. cbn [mbind option_bind]. destruct (suppress_prediction _ _ _) as [tf' q].
  destruct (quash _); [eauto|]. destruct (enabled _); [destruct (blend_and_apply _ _ _ _); eauto|].
  match goal with |- exists _, (should_query _ _ ?s1 ≫= _) = _ => set (s' := s1) end.
  assert (provider_ok s') as Ho' by (apply (same_shape_ok s); [shape|done]).
  unfold should_query.
  destruct (lookup_64 _ id (ok_system _ Ho') Hid) as [? ->].
  destruct (lookup_64 _ id (ok_lookup _ Ho') Hid) as [? ->].
  destruct (lookup_64 _ id (ok_attempt _ Ho') Hid) as [? ->]. cbn [mbind option_bind].
  case_match; [eauto|]. destruct (fallback_tail_total id clk s' q Ho' Hid) as [[s2 p2] ->]. simpl. eauto.
Qed.
End Reach.


(** No reachable state holds a fallback with a prediction smoothness, so
    the smoothness in force is always the device's own: the branch of the hook
    that inherits it from the tracking system never changes anything. *)
Theorem fallback_smoothness_unused `{Eigen} freq asp seg s tf sys :
  reachable freq asp seg s ->
  effective_smoothness tf sys (systemFallbacks s) = Some (predictionSmoothness tf).
Proof. intros Ho%provider_reachable_ok. by apply smoothness_own. Qed.

(** ** The smart motion ramp *)

Lemma v_length_nonneg v : v_finite v = true -> nonneg (v_length v) = true.
Proof.
  unfold v_finite, v_length. intros. bool_prop.
  apply d_sqrt_nonneg. repeat apply d_add_nonneg; by apply d_mul_self_nonneg.
Qed.

Lemma ramp_axis v still span s m e :
  v_finite v = true -> isfinite still = true -> span = S754_finite s m e ->
  let r := std_clamp ((v_length v - still) / span) fzero d_one in
  fle fzero r = true /\ fle r d_one = true.
Proof.
  intros Hv Hs ->. apply std_clamp_bounds; [|done].
  by apply d_div_not_nan, d_sub_not_nan; [apply nonneg_not_nan, v_length_nonneg|].
Qed.

(** For every pose, however its velocity fields are filled (NaN, either
    infinity, values whose squares overflow), the motion ramp is a number in
    [0, 1], so it can neither poison nor saturate the average it feeds; with a
    non-finite component it is exactly zero. *)
Theorem smart_ramp_bounds p :
  fle fzero (ComputeSmartMotionRamp p) = true /\ fle (ComputeSmartMotionRamp p) d_one = true /\
  (v_finite (vecVelocity p) && v_finite (vecAngularVelocity p) = false ->
   ComputeSmartMotionRamp p = fzero).
Proof.
  unfold ComputeSmartMotionRamp.
  destruct (v_finite (vecVelocity p)) eqn:E1; [|done].
  destruct (v_finite (vecAngularVelocity p)) eqn:E2; [|done]. cbn [negb orb].
  edestruct (ramp_axis (vecVelocity p) kSmartLinearStill
    (kSmartLinearMoving - kSmartLinearStill)) as [Ha1 Ha2]; [done|reflexivity|vm_compute; reflexivity|].
  edestruct (ramp_axis (vecAngularVelocity p) kSmartAngularStill
    (kSmartAngularMoving - kSmartAngularStill)) as [Hb1 Hb2]; [done|reflexivity|vm_compute; reflexivity|].
  split; [|split; [|done]].
  - eapply fle_trans; [exact Ha1|]. apply std_max_ge; [by apply fle_not_nan in Ha2 as []|by apply fle_not_nan in Hb2 as []].
  - apply max_bounds; [by apply fle_not_nan in Ha2 as []|done..].
Qed.

(** ** A request that arrives while the hook is suspended *)

Lemma blend_and_apply_frame `{Eigen} s now tf p :
  let tf' := (blend_and_apply s now tf p).1 in
  targetTransform tf' = targetTransform tf /\ enabled tf' = enabled tf /\
  fallbackActive tf' = fallbackActive tf /\ scale tf' = scale tf /\ quash tf' = quash tf /\
  predictionSmoothness tf' = predictionSmoothness tf.
Proof.
  unfold blend_and_apply, BlendTransform, blend_lerp. simpl.
  destruct (recalibrateOnMovement tf), (blendMotionInitialized tf); done.
Qed.

#[local] Arguments set_transform : simpl never.
#[local] Arguments follow_fallback : simpl never.
#[local] Arguments blend_and_apply : simpl never.

Lemma follow_fallback_spec fb snap tf :
  let tf' := follow_fallback fb snap tf in
  targetTransform tf' = fb_transform fb /\ scale tf' = fb_scale fb /\ fallbackActive tf' = true /\
  enabled tf' = enabled tf.
Proof. unfold follow_fallback. by destruct tf as [? ? ? ? ? ? ? ? [] ? ? ? []], fb as [? ? ? ? []]. Qed.

Lemma set_device_lookups req now s id :
  provider_ok s -> id < 64 -> sd_openVRID req = Z.of_nat id -> cstr (sd_target_system req) <> [] ->
  let s1 := SetDeviceTransform req now s in
  exists tf, transforms s1 !! id = Some (set_transform req now tf) /\
    deviceSystem s1 !! id = Some (cstr (sd_target_system req)) /\
    lookupState s1 !! id = Some Cached /\ systemFallbacks s1 = systemFallbacks s.
Proof.
  intros Ho Hid Hr Hne. destruct (lookup_64 _ id (ok_transforms _ Ho) Hid) as [tf Htf]. exists tf.
  unfold SetDeviceTransform, device_index. rewrite Hr, Nat2Z.id.
  rewrite (proj2 (Z.leb_gt _ _)) by (change (Z.of_nat k_unMaxTrackedDeviceCount) with 64%Z; lia).
  conjs; [| | |done].
  - change (alter (set_transform req now) id (transforms s) !! id = Some (set_transform req now tf)).
    by rewrite list_lookup_alter_eq, Htf.
  - apply list_lookup_insert_eq. rewrite (ok_system _ Ho). lia.
  - change (<[id := if (0 <? length (cstr (sd_target_system req)))%nat then Cached else NotTried]>
      (lookupState s) !! id = Some Cached).
    destruct (cstr (sd_target_system req)); [done|]. apply list_lookup_insert_eq. rewrite (ok_lookup _ Ho). lia.
Qed.

(** A request that arrives while the hook of its device waits for the
    property store is overridden.  The hook re-checks the lookup state when it
    takes the mutex again, but not whether the device has been enabled: the
    device stays enabled with the tracking system's fallback as its target and
    scale, in place of the calibration just sent. *)
Theorem late_request_overridden `{Eigen} id clk answer req now s p fb :
  provider_ok s -> id < 64 ->
  sd_openVRID req = Z.of_nat id -> sd_enabled req = true ->
  cstr (sd_target_system req) <> [] ->
  fallback_of (cstr (sd_target_system req)) (systemFallbacks s) = Some fb -> fb_enabled fb = true ->
  exists s' p' tf',
    pose_resume id clk answer (SetDeviceTransform req now s) p = Some (s', p') /\
    transforms s' !! id = Some tf' /\ enabled tf' = true /\
    targetTransform tf' = fb_transform fb /\ scale tf' = fb_scale fb /\ fallbackActive tf' = true.
Proof.
  intros Ho Hid Hr He Hne Hf Hfe.
  destruct (set_device_lookups req now s id Ho Hid Hr Hne) as (tf & Htf & Hsys & Hls & Hfb).
  destruct (set_transform_spec req now tf) as (Hen & _).
  set (tf0 := set_transform req now tf) in *. clearbody tf0.
  set (s1 := SetDeviceTransform req now s) in *. clearbody s1. rewrite <-Hfb in Hf.
  unfold pose_resume, note_answer. rewrite Hls. cbn [mbind option_bind].
  rewrite bool_decide_eq_true_2 by done. cbn [mbind option_bind].
  unfold fallback_tail. rewrite Hsys, Htf. cbn [mbind option_bind].
  destruct (length (cstr (sd_target_system req)) =? 0)%nat eqn:E0.
  { bool_prop. by destruct (cstr (sd_target_system req)). }
  rewrite find_total by (rewrite Hfb; apply (ok_table _ Ho)). cbn [mbind option_bind]. unfold fallback_of in Hf. rewrite Hf, Hfe.
  destruct (follow_fallback_spec fb (t_snap clk) tf0) as (F1 & F2 & F3 & F4).
  set (tf1 := follow_fallback fb (t_snap clk) tf0) in *. clearbody tf1.
  pose proof (blend_and_apply_frame s1 (t_blend clk) tf1 p) as (H1 & H2 & H3 & H4 & _).
  destruct (blend_and_apply s1 (t_blend clk) tf1 p) as [tf2 p2].
  cbn [fst] in H1, H2, H3, H4. eexists _, p2, tf2. split; [reflexivity|].
  split; [|by rewrite H1, H2, H3, H4, F1, F2, F3, F4, Hen, He].
  apply lookup_lt_Some in Htf. by apply (list_lookup_insert_eq (transforms s1)).
Qed.

(** ** Witnesses *)

Definition asp_sample : AlignmentSpeedParams :=
  mkASP d_one d_one d_one d_one d_one d_one d_one d_one d_one.
Definition sys_sample : list byte := str "lighthouse" ++ replicate 22 x00.
Definition iso_sample : IsoTransform := mkIso q_identity (V3 d_one d_one d_one).
Definition sdt_sample : SetDeviceTransform_req :=
  mkSDT 3 true true true false (translation iso_sample) (rotation iso_sample) d_one false false sys_sample 0 false.
Definition stf_sample : SetTrackingSystemFallback_req :=
  mkSTF sys_sample true v_zero q_identity d_one 40 false.
Definition provider_sample : Provider :=
  SetTrackingSystemFallback stf_sample (fun _ => 0%Z) (provider_init 1000 asp_sample None).
Definition clock_sample : Clock := mkClock 1 2 3 4 5.
Definition pose_sample : DriverPose :=
  mkDP fzero q_identity v_zero q_identity v_zero v_zero v_zero v_zero v_zero true true.

Lemma provider_sample_reachable : reachable (H := eigen_sample) 1000 asp_sample None provider_sample.
Proof. eapply reach_step; [apply reach_init|]. by apply step_fallback. Qed.

Lemma SetDeviceTransform_spec_witness :
  exists tf', transforms (SetDeviceTransform sdt_sample 7 provider_sample) !! 3 = Some tf' /\
    enabled tf' = true /\ transform tf' = iso_sample.
Proof.
  destruct (SetDeviceTransform_spec sdt_sample 7 provider_sample 3 dt_default
    ltac:(simpl; lia) eq_refl eq_refl eq_refl) as [_ Hs].
  destruct (Hs eq_refl) as (tf' & H1 & H2 & _ & H3 & H4 & _).
  exists tf'. split; [exact H1|]. split; [exact H2|].
  rewrite H4 by discriminate. apply H3. by left.
Defined.

Lemma fallback_table_refines_map_witness :
  table_ok (systemFallbacks provider_sample) /\
  fallback_of (str "lighthouse") (systemFallbacks provider_sample) =
    Some (store_fallback stf_sample fb_default).
Proof.
  destruct (fallback_table_refines_map stf_sample (fun _ => 0%Z) (provider_init 1000 asp_sample None)
    (str "lighthouse") (empty_table_ok fb_default) eq_refl
    ltac:(split; [reflexivity|solve_nul_free])) as [H1 H2].
  split; [exact H1|]. etransitivity; [exact H2|]. vm_compute. reflexivity.
Defined.


Lemma fallback_smoothness_unused_witness :
  effective_smoothness dt_default (str "lighthouse") (systemFallbacks provider_sample) = Some 0%Z.
Proof.
  apply (fallback_smoothness_unused (H := eigen_sample) 1000 asp_sample None provider_sample).
  apply provider_sample_reachable.
Defined.

Lemma late_request_overridden_witness :
  exists s' p' tf',
    pose_resume (H := eigen_sample) 3 clock_sample None
      (SetDeviceTransform sdt_sample 7 provider_sample) pose_sample = Some (s', p') /\
    transforms s' !! 3 = Some tf' /\ enabled tf' = true /\
    targetTransform tf' = iso_default /\ scale tf' = d_one /\ fallbackActive tf' = true.
Proof.
  apply (late_request_overridden (H := eigen_sample) 3 clock_sample None sdt_sample 7 provider_sample
    pose_sample (store_fallback stf_sample fb_default));
    [eapply provider_reachable_ok, provider_sample_reachable|lia|reflexivity|reflexivity|discriminate
    |vm_compute; reflexivity|reflexivity].
Defined.
