(* ===== verification/InputConfig.v ===== *)
(** * Input configuration (core/src/common/inputhealth/PathClassifier.h,
      core/src/driver/ServerTrackedDeviceProvider.cpp)

    The classification of input paths, the two configurations packed in atomic
    words, and the store of learned compensation entries keyed by device and
    path.  A packed [uint64_t] is the list of its eight bytes, as the code
    addresses it. *)

From S2P Require Import Prelude Floats.

(** ** Path classification *)

Fixpoint starts_with (pat s : list byte) : bool :=
  match pat, s with
  | [], _ => true
  | p :: pat, c :: s => bool_decide (p = c) && starts_with pat s
  | _ :: _, [] => false
  end.

(** [s.find(pat) != npos] *)
Fixpoint contains (pat s : list byte) : bool :=
  starts_with pat s || match s with [] => false | _ :: t => contains pat t end.

Definition ends_with (pat s : list byte) : bool :=
  (length pat <=? length s) && bool_decide (drop (length s - length pat) s = pat).

Inductive PathClass := Trigger | StickAxis | ControllerButton | DiagnosticsOnly | Unsupported.

Definition IsCompensationPath (cls : PathClass) : bool :=
  match cls with Trigger | StickAxis | ControllerButton => true | _ => false end.

Definition IsDiagnosticsOnlyPath (cls : PathClass) : bool :=
  match cls with DiagnosticsOnly => true | _ => false end.

Definition IsTriggerLikePath (path : list byte) : bool :=
  if contains (str "/click") path || contains (str "/touch") path then false
  else if contains (str "trigger") path || contains (str "Trigger") path then true
  else if ends_with (str "/force") path then true
  else if ends_with (str "/pressure") path then true
  else if contains (str "/grip/value") path then true
  else contains (str "/squeeze/value") path.

Definition is_axis_suffix (path : list byte) : bool :=
  ends_with (str "/x") path || ends_with (str "/X") path ||
  ends_with (str "/y") path || ends_with (str "/Y") path.

Definition ClassifyInputPath (path : list byte) : PathClass :=
  if length path =? 0 then Unsupported
  else if contains (str "/eye") path || contains (str "/face") path then DiagnosticsOnly
  else if contains (str "/pupil") path || contains (str "proximity") path || contains (str "/imu") path
  then Unsupported
  else if IsTriggerLikePath path then Trigger
  else if is_axis_suffix path &&
    (contains (str "stick") path || contains (str "joystick") path || contains (str "trackpad") path
     || contains (str "thumbstick") path || contains (str "touchpad") path)
  then StickAxis
  else if contains (str "/input/") path then ControllerButton
  else Unsupported.

(** ** Serial hash *)

Definition Fnv1a64 (bytes : list byte) : Z :=
  foldl (fun h b => u64 (Z.lxor h (bz b) * 0x100000001b3)) 0xcbf29ce484222325%Z bytes.

Definition kSerialHashAllDevices : Z := 0.

(** ** Finger smoothing *)

Record FingerSmoothingConfig := mkFinger {
  fs_master_enabled : bool; fs_smoothness : byte; fs_finger_mask : Z; fs_reserved : byte;
  per_finger_smoothness : list byte; fs_reserved2 : byte * byte }.

Definition finger_zero : FingerSmoothingConfig :=
  mkFinger false x00 0 x00 (replicate 10 x00) (x00, x00).

Definition nth_byte (l : list byte) (i : nat) : byte := nth i l x00.

Definition PackFingerHeader (cfg : FingerSmoothingConfig) : list byte :=
  [ zb (if fs_master_enabled cfg then 1 else 0); fs_smoothness cfg;
    zb (Z.land (fs_finger_mask cfg) 0xFF); zb (Z.land (Z.shiftr (fs_finger_mask cfg) 8) 0xFF);
    x00; nth_byte (per_finger_smoothness cfg) 8; nth_byte (per_finger_smoothness cfg) 9; x00 ].

Definition PackFingerLow (cfg : FingerSmoothingConfig) : list byte := take 8 (per_finger_smoothness cfg).

Definition UnpackFingerSmoothing (header low : list byte) : FingerSmoothingConfig :=
  mkFinger (negb (bz (nth_byte header 0) =? 0)%Z) (nth_byte header 1)
    (u16 (Z.lor (bz (nth_byte header 2)) (Z.shiftl (bz (nth_byte header 3)) 8)))
    x00 (low ++ [nth_byte header 5; nth_byte header 6]) (x00, x00).

(** The two atomics. *)
Record FingerAtomics := mkFA { fingerCfgPacked : list byte; perFingerSmoothness0to7Packed : list byte }.

Definition finger_atomics_init : FingerAtomics := mkFA (replicate 8 x00) (replicate 8 x00).

Definition exchange_header cfg (a : FingerAtomics) : FingerAtomics :=
  mkFA (PackFingerHeader cfg) (perFingerSmoothness0to7Packed a).
Definition exchange_low cfg (a : FingerAtomics) : FingerAtomics :=
  mkFA (fingerCfgPacked a) (PackFingerLow cfg).

Definition SetFingerSmoothingConfig cfg (a : FingerAtomics) : FingerAtomics :=
  exchange_low cfg (exchange_header cfg a).

Definition GetFingerSmoothingConfig (a : FingerAtomics) : FingerSmoothingConfig :=
  UnpackFingerSmoothing (fingerCfgPacked a) (perFingerSmoothness0to7Packed a).

(** ** Input-health configuration *)

Record InputHealthConfig := mkIHC {
  ihc_master_enabled : bool; ihc_diagnostics_only : bool;
  ihc_enable_rest_recenter : bool; ihc_enable_trigger_remap : bool; ihc_reserved : byte * byte }.

Definition bool_byte (b : bool) : byte := zb (if b then 1 else 0).

Definition SetInputHealthConfig (cfg : InputHealthConfig) : list byte :=
  [ bool_byte (ihc_master_enabled cfg); bool_byte (ihc_diagnostics_only cfg);
    bool_byte (ihc_enable_rest_recenter cfg); bool_byte (ihc_enable_trigger_remap cfg);
    (ihc_reserved cfg).1; (ihc_reserved cfg).2; x00; x00 ].

Definition byte_bool (b : byte) : bool := negb (bz b =? 0)%Z.

Definition GetInputHealthConfig (packed : list byte) : InputHealthConfig :=
  mkIHC (byte_bool (nth_byte packed 0)) (byte_bool (nth_byte packed 1)) (byte_bool (nth_byte packed 2))
    (byte_bool (nth_byte packed 3)) (nth_byte packed 4, nth_byte packed 5).

(** ** Compensation entries *)

Definition INPUTHEALTH_PATH_LEN : nat := 64.

Record InputHealthCompensationEntry := mkComp {
  device_serial_hash : Z; comp_path : list byte; comp_kind : Z; comp_enabled : Z;
  learned_rest_offset : float; learned_trigger_min : float; learned_trigger_max : float;
  learned_deadzone_radius : float; learned_debounce_us : Z }.

Definition InputHealthPathString (path : list byte) : list byte := cstr (take INPUTHEALTH_PATH_LEN path).

Abbreviation CompStore := (gmap Z (gmap (list byte) InputHealthCompensationEntry)).

Definition comp_accepted (e : InputHealthCompensationEntry) : bool :=
  let path := InputHealthPathString (comp_path e) in
  negb ((device_serial_hash e =? 0)%Z || (length path =? 0)) && IsCompensationPath (ClassifyInputPath path).

Definition SetInputHealthCompensation (e : InputHealthCompensationEntry) (m : CompStore) : CompStore :=
  let path := InputHealthPathString (comp_path e) in
  let serial := device_serial_hash e in
  if (serial =? 0)%Z || (length path =? 0) then m
  else if negb (IsCompensationPath (ClassifyInputPath path)) then m
  else if (comp_enabled e =? 0)%Z then
    match m !! serial with
    | Some inner =>
      let inner := delete path inner in
      if bool_decide (inner = ∅) then delete serial m else <[serial := inner]> m
    | None => m
    end
  else <[serial := <[path := e]> (default ∅ (m !! serial))]> m.

(** The entry when the function returns true. *)
Definition LookupInputHealthCompensation (serial : Z) (path : list byte) (m : CompStore)
    : option InputHealthCompensationEntry :=
  if (serial =? 0)%Z || (length path =? 0) then None else
  inner ← m !! serial; out ← inner !! path;
  if (comp_enabled out =? 0)%Z then None else Some out.

Definition ClearInputHealthCompensation (serial : Z) (m : CompStore) : CompStore :=
  if (serial =? kSerialHashAllDevices)%Z then ∅ else delete serial m.

(** ** Configurations *)

Lemma finger_mask_bytes m :
  (0 <= m < 2 ^ 16)%Z ->
  u16 (Z.lor (bz (zb (Z.land m 0xFF))) (Z.shiftl (bz (zb (Z.land (Z.shiftr m 8) 0xFF))) 8)) = m.
Proof.
  intros H. rewrite !zb_land255, !bz_zb.
  rewrite (lor_shiftl_add _ _ 8) by (try apply Z.mod_pos_bound; lia).
  rewrite Z.shiftr_div_pow2 by lia. unfold u16.
  change (2 ^ 8)%Z with 256%Z; change (2 ^ 16)%Z with 65536%Z in *.
  Z.to_euclidean_division_equations; lia.
Qed.

Lemma finger_last l : length l = 10 -> take 8 l ++ [nth_byte l 8; nth_byte l 9] = l.
Proof. do 10 (destruct l as [|? l]; [done|]). by destruct l. Qed.

(** The finger detour's two loads see, between any two writes of the
    configuration, the flags, mask and fingers 8 and 9 of the one and fingers 0
    to 7 of the other, each exactly as the overlay set it; with no write in
    between, the whole configuration comes back (its padding cleared). *)
Theorem finger_config_read a b x :
  length (per_finger_smoothness a) = 10 -> length (per_finger_smoothness b) = 10 ->
  (0 <= fs_finger_mask b < 2 ^ 16)%Z ->
  GetFingerSmoothingConfig (exchange_header b (SetFingerSmoothingConfig a x)) =
    mkFinger (fs_master_enabled b) (fs_smoothness b) (fs_finger_mask b) x00
      (take 8 (per_finger_smoothness a) ++ drop 8 (per_finger_smoothness b)) (x00, x00) /\
  GetFingerSmoothingConfig (SetFingerSmoothingConfig b x) =
    mkFinger (fs_master_enabled b) (fs_smoothness b) (fs_finger_mask b) x00
      (per_finger_smoothness b) (x00, x00).
Proof.
  intros Ha Hb Hm.
  assert (forall low, UnpackFingerSmoothing (PackFingerHeader b) low =
    mkFinger (fs_master_enabled b) (fs_smoothness b) (fs_finger_mask b) x00
      (low ++ [nth_byte (per_finger_smoothness b) 8; nth_byte (per_finger_smoothness b) 9]) (x00, x00)) as Hu.
  { intros low. unfold UnpackFingerSmoothing. cbn [nth_byte nth PackFingerHeader].
    rewrite finger_mask_bytes by done. f_equal. by destruct (fs_master_enabled b). }
  unfold GetFingerSmoothingConfig, SetFingerSmoothingConfig. cbn [fingerCfgPacked perFingerSmoothness0to7Packed exchange_header exchange_low].
  rewrite !Hu. unfold PackFingerLow. rewrite (finger_last _ Hb). split; [|done].
  f_equal. f_equal. rewrite <-(finger_last _ Hb) at 3. rewrite drop_app_length'; [done|].
  rewrite length_take. lia.
Qed.

Lemma input_health_roundtrip cfg : GetInputHealthConfig (SetInputHealthConfig cfg) = cfg.
Proof. by destruct cfg as [[] [] [] [] []]. Qed.

(** ** The store *)

Definition comp_key (e : InputHealthCompensationEntry) : Z * list byte :=
  (device_serial_hash e, InputHealthPathString (comp_path e)).

(** Every entry is enabled, of an accepted path, and stored under its own key;
    no device has an empty table. *)
Record store_ok (m : CompStore) : Prop := {
  store_inner : forall serial inner, m !! serial = Some inner -> inner <> ∅;
  store_entries : forall serial inner path e, m !! serial = Some inner -> inner !! path = Some e ->
    comp_accepted e = true /\ comp_enabled e <> 0%Z /\ comp_key e = (serial, path) }.

Inductive comp_op := CompSet (e : InputHealthCompensationEntry) | CompClear (serial : Z).

Definition run_comp (ops : list comp_op) : CompStore :=
  foldl (fun m o => match o with
                    | CompSet e => SetInputHealthCompensation e m
                    | CompClear h => ClearInputHealthCompensation h m
                    end) ∅ ops.

(** The flat specification: what the last operation on a key leaves. *)
Definition comp_spec_step (k : Z * list byte) (cur : option InputHealthCompensationEntry) (o : comp_op)
    : option InputHealthCompensationEntry :=
  match o with
  | CompSet e =>
    if comp_accepted e && bool_decide (comp_key e = k)
    then if (comp_enabled e =? 0)%Z then None else Some e else cur
  | CompClear h => if (h =? kSerialHashAllDevices)%Z || (h =? k.1)%Z then None else cur
  end.

Definition flat (m : CompStore) (k : Z * list byte) : option InputHealthCompensationEntry :=
  inner ← m !! k.1; inner !! k.2.

Definition comp_step (m : CompStore) (o : comp_op) : CompStore :=
  match o with
  | CompSet e => SetInputHealthCompensation e m
  | CompClear h => ClearInputHealthCompensation h m
  end.

Lemma lookup_flat m serial path :
  store_ok m -> serial <> 0%Z -> path <> [] ->
  LookupInputHealthCompensation serial path m = flat m (serial, path).
Proof.
  intros Hm Hs Hp. unfold LookupInputHealthCompensation, flat.
  rewrite (proj2 (Z.eqb_neq _ _)) by done. destruct path as [|c path]; [done|]. simpl.
  destruct (m !! serial) as [inner|] eqn:E1; simpl; [|done].
  destruct (inner !! (c :: path)) as [e|] eqn:E2; simpl; [|done].
  destruct (store_entries _ Hm _ _ _ _ E1 E2) as (_ & He & _).
  by rewrite (proj2 (Z.eqb_neq _ _)).
Qed.

(** The accepted branches of [SetInputHealthCompensation]. *)
Lemma set_comp_accepted e m :
  comp_accepted e = true ->
  SetInputHealthCompensation e m =
  let '(serial, path) := comp_key e in
  if (comp_enabled e =? 0)%Z then
    match m !! serial with
    | Some inner => if bool_decide (delete path inner = ∅) then delete serial m
                    else <[serial := delete path inner]> m
    | None => m
    end
  else <[serial := <[path := e]> (default ∅ (m !! serial))]> m.
Proof.
  unfold comp_accepted, SetInputHealthCompensation, comp_key.
  intros [H1%negb_true_iff H2]%andb_true_iff. by rewrite H1, H2.
Qed.

Lemma set_comp_rejected e m : comp_accepted e = false -> SetInputHealthCompensation e m = m.
Proof.
  unfold comp_accepted, SetInputHealthCompensation. intros H.
  destruct (_ || _)%bool; [done|]. simpl in H. by rewrite H.
Qed.

Lemma flat_insert serial inner m k :
  flat (<[serial := inner]> m) k = if decide (k.1 = serial) then inner !! k.2 else flat m k.
Proof.
  unfold flat. case_decide as H; [by rewrite <-H, lookup_insert_eq|by rewrite lookup_insert_ne].
Qed.

Lemma flat_delete serial m k :
  flat (delete serial m) k = if decide (k.1 = serial) then None else flat m k.
Proof.
  unfold flat. case_decide as H; [by rewrite <-H, lookup_delete_eq|by rewrite lookup_delete_ne].
Qed.

Lemma comp_step_flat m o k :
  flat (comp_step m o) k = comp_spec_step k (flat m k) o.
Proof.
  destruct k as [s p], o as [e|h]; simpl.
  - destruct (comp_accepted e) eqn:Ea; [|by rewrite set_comp_rejected].
    rewrite set_comp_accepted by done. destruct (comp_key e) as [serial path]. simpl.
    destruct (comp_enabled e =? 0)%Z.
    + destruct (m !! serial) as [inner|] eqn:Em.
      * assert (flat (if bool_decide (delete path inner = ∅) then delete serial m
                      else <[serial:=delete path inner]> m) (s, p) =
                if decide (s = serial) then delete path inner !! p else flat m (s, p)) as ->.
        { case_bool_decide as He; [rewrite flat_delete; simpl; by rewrite He|by rewrite flat_insert]. }
        case_decide as Hs; simpl.
        -- subst s. unfold flat. simpl. rewrite Em. simpl.
           destruct (decide (path = p)) as [->|Hp].
           ++ by rewrite lookup_delete_eq, bool_decide_eq_true_2.
           ++ rewrite lookup_delete_ne, bool_decide_eq_false_2 by congruence. done.
        -- by rewrite bool_decide_eq_false_2 by congruence.
      * case_bool_decide as Hk; [|done]. injection Hk as -> ->. unfold flat. simpl. by rewrite Em.
    + rewrite flat_insert. simpl. case_decide as Hs.
      * subst s. destruct (decide (path = p)) as [->|Hp].
        -- by rewrite lookup_insert_eq, bool_decide_eq_true_2.
        -- rewrite lookup_insert_ne, bool_decide_eq_false_2 by congruence. unfold flat. simpl.
           by destruct (m !! serial).
      * by rewrite bool_decide_eq_false_2 by congruence.
  - unfold ClearInputHealthCompensation. destruct (h =? kSerialHashAllDevices)%Z; [done|]. simpl.
    rewrite flat_delete. simpl. destruct (Z.eqb_spec h s); case_decide; congruence.
Qed.

Lemma comp_step_ok m o : store_ok m -> store_ok (comp_step m o).
Proof.
  intros Hm. split.
  - intros serial inner H. destruct o as [e|h]; simpl in H.
    + destruct (comp_accepted e) eqn:Ea; [|rewrite set_comp_rejected in H by done; by eapply store_inner].
      rewrite set_comp_accepted in H by done. destruct (comp_key e) as [s p]. revert H.
      destruct (comp_enabled e =? 0)%Z.
      * destruct (m !! s) as [i0|] eqn:Es; [|intros; by eapply store_inner].
        case_bool_decide as He.
        -- intros (_ & H)%lookup_delete_Some. by eapply store_inner.
        -- intros [(<- & <-)|(_ & H)]%lookup_insert_Some; [done|by eapply store_inner].
      * intros [(<- & <-)|(_ & H)]%lookup_insert_Some; [apply insert_non_empty|by eapply store_inner].
    + unfold ClearInputHealthCompensation in H. destruct (h =? _)%Z; [done|].
      apply lookup_delete_Some in H as [_ H]. by eapply store_inner.
  - intros serial inner path e H1 H2.
    assert (flat (comp_step m o) (serial, path) = Some e) as Hf.
    { unfold flat. simpl. by rewrite H1. }
    rewrite comp_step_flat in Hf.
    assert (flat m (serial, path) = Some e ->
      comp_accepted e = true /\ comp_enabled e <> 0%Z /\ comp_key e = (serial, path)) as Hold.
    { unfold flat. intros (i & Hi & He)%bind_Some. by eapply store_entries. }
    destruct o as [e'|h]; simpl in Hf.
    + destruct (comp_accepted e' && _)%bool eqn:Ek; [|by apply Hold].
      bool_prop. rewrite bool_decide_eq_true in *.
      destruct (Z.eqb_spec (comp_enabled e') 0); [done|]. injection Hf as <-. done.
    + destruct (_ || _)%bool; [done|by apply Hold].
Qed.

Lemma run_comp_spec ops k :
  store_ok (run_comp ops) /\ flat (run_comp ops) k = foldl (comp_spec_step k) None ops.
Proof.
  change (run_comp ops) with (foldl comp_step ∅ ops).
  assert (store_ok ∅ /\ flat ∅ k = None) as H0.
  { split; [split|]; try done. }
  revert H0. generalize (∅ : CompStore) (@None InputHealthCompensationEntry).
  induction ops as [|o ops IH]; intros m cur [Hm Hf]; [done|]. simpl. apply IH.
  split; [by apply comp_step_ok|]. by rewrite comp_step_flat, Hf.
Qed.

(** C34: After any sequence of compensation requests (enabling, disabling and
    clearing, accepted or rejected), a lookup gives exactly what the last
    accepted request on that device and path left there, no device keeps an
    empty table, and every stored entry is enabled, of a path the classifier
    accepts, and filed under its own device and path. *)
Theorem comp_store_refines ops serial path :
  serial <> 0%Z -> path <> [] ->
  LookupInputHealthCompensation serial path (run_comp ops) =
    foldl (comp_spec_step (serial, path)) None ops /\
  store_ok (run_comp ops).
Proof.
  intros Hs Hp. destruct (run_comp_spec ops (serial, path)) as [Hok Hf].
  by rewrite lookup_flat, Hf.
Qed.

(** The boolean half of a squeeze ([/input/squeeze/click]) is a button that
    may carry compensation, the force axis of a touchpad is not an analog
    trigger axis (the [/touch] filter catches the word "touchpad"), while the
    same axis of a trackpad is one. *)
Lemma squeeze_click_compensated :
  ClassifyInputPath (str "/input/squeeze/click") = ControllerButton /\
  IsCompensationPath (ClassifyInputPath (str "/input/squeeze/click")) = true /\
  ClassifyInputPath (str "/input/touchpad/force") = ControllerButton /\
  ClassifyInputPath (str "/input/trackpad/force") = Trigger.
Proof. vm_compute. done. Qed.

Definition comp_sample : InputHealthCompensationEntry :=
  mkComp 77 (str "/input/trigger/value" ++ replicate 44 x00) 0 1 fzero (f_lit 1 10) (f_lit 9 10) fzero 0.

Lemma comp_store_refines_witness :
  LookupInputHealthCompensation 77 (str "/input/trigger/value")
    (run_comp [CompSet comp_sample; CompClear 5]) = Some comp_sample.
Proof.
  destruct (comp_store_refines [CompSet comp_sample; CompClear 5] 77 (str "/input/trigger/value")
    ltac:(discriminate) ltac:(discriminate)) as [H _].
  etransitivity; [exact H|]. vm_compute. reflexivity.
Defined.

Definition finger_sample : FingerSmoothingConfig :=
  mkFinger true (zb 50) 0x3FF x00 (zb <$> seqZ 1 10) (x00, x00).

Lemma finger_config_read_witness :
  GetFingerSmoothingConfig (SetFingerSmoothingConfig finger_sample finger_atomics_init) = finger_sample.
Proof.
  apply (finger_config_read finger_zero finger_sample finger_atomics_init); [reflexivity|reflexivity|].
  split; [discriminate|reflexivity].
Defined.
