(* ===== verification/Driver.v ===== *)
(** * The driver shell (core/src/driver/FeatureFlags.cpp, DriverModule.h,
      ServerTrackedDeviceProvider.cpp, IPCServer.cpp and the driver modules)

    Feature detection, the start and the tear-down of the driver, and the path
    of a request from a feature's pipe to the module that owns it.  A module is
    the record of its virtual functions over the driver's state, as the code
    reaches it through the abstract class. *)

From S2P Require Import Prelude Shmem PoseProvider InputConfig RouteTable OscRouter.

(** ** Feature flags *)

Definition kFeatureCalibration : Z := Z.shiftl 1 0.
Definition kFeatureSmoothing : Z := Z.shiftl 1 1.
Definition kFeatureInputHealth : Z := Z.shiftl 1 2.
Definition kFeatureFaceTracking : Z := Z.shiftl 1 3.
Definition kFeatureOscRouter : Z := Z.shiftl 1 4.
Definition kFeatureCaptions : Z := Z.shiftl 1 5.

Definition MAX_PATH : nat := 260.
Definition wstr (s : list byte) : list Z := map bz s.

(** The characters before the last slash or backslash. *)
Fixpoint parent_dir (path : list Z) : option (list Z) :=
  match path with
  | [] => None
  | c :: t =>
    match parent_dir t with
    | Some p => Some (c :: p)
    | None => if (c =? 92)%Z || (c =? 47)%Z then Some [] else None
    end
  end.

(** [module_path] is what the operating system reports for the DLL. *)
Definition GetResourcesDir (module_path : option (list Z)) : list Z :=
  match module_path with
  | None => []
  | Some buf =>
    if (length buf =? 0) || (MAX_PATH <=? length buf) then [] else
    match (p1 ← parent_dir buf; p2 ← parent_dir p1; parent_dir p2) with
    | Some root => root ++ wstr (str "\resources")
    | None => []
    end
  end.

(** [attr path] is [Some d] when the path exists, [d] when it is a directory. *)
Definition FlagFileExists (attr : list Z -> option bool) (dir : list Z) (flagName : list byte) : bool :=
  match attr (dir ++ wstr (str "\") ++ wstr flagName) with
  | Some d => negb d
  | None => false
  end.

Definition flag_if (b : bool) (f flags : Z) : Z := if b then Z.lor flags f else flags.

Definition DetectFeatureFlags (module_path : option (list Z)) (attr : list Z -> option bool) : Z :=
  let dir := GetResourcesDir module_path in
  if length dir =? 0 then 0%Z else
  let on := FlagFileExists attr dir in
  let capOn := on (str "enable_captions.flag") || on (str "enable_translator.flag") in
  flag_if capOn kFeatureCaptions
    (flag_if (on (str "enable_oscrouter.flag")) kFeatureOscRouter
      (flag_if (on (str "enable_facetracking.flag")) kFeatureFaceTracking
        (flag_if (on (str "enable_inputhealth.flag")) kFeatureInputHealth
          (flag_if (on (str "enable_smoothing.flag")) kFeatureSmoothing
            (flag_if (on (str "enable_calibration.flag")) kFeatureCalibration 0))))).

(** ** Requests *)

Definition Version : Z := 18.

Record FaceTrackingConfig := mkFTC { ftc_active_module_uuid : list byte; ftc_rest : list byte }.

Record CaptionsConfig := mkCC {
  cc_master_enabled : Z; cc_mode : Z; cc_notify_sound : Z; cc_transcript_logging : Z; cc_chatbox_port : Z;
  cc_source_lang : list byte; cc_target_lang : list byte; cc_chatbox_address : list byte }.

Record CaptionsSupervisorStatus := mkCSS {
  host_halted : bool; last_exit_code : Z; last_exit_description : list byte }.

Inductive Request :=
| RequestInvalid
| RequestHandshake
| RequestSetDeviceTransform (r : SetDeviceTransform_req)
| RequestSetAlignmentSpeedParams (p : AlignmentSpeedParams)
| RequestDebugOffset
| RequestSetTrackingSystemFallback (r : SetTrackingSystemFallback_req)
| RequestSetFingerSmoothing (c : FingerSmoothingConfig)
| RequestSetInputHealthConfig (c : InputHealthConfig)
| RequestResetInputHealthStats (hash : Z) (passive active curves : Z)
| RequestSetInputHealthCompensation (e : InputHealthCompensationEntry)
| RequestSetDevicePrediction (c : SetDevicePrediction_req)
| RequestSetFaceTrackingConfig (c : FaceTrackingConfig)
| RequestSetFaceCalibrationCommand (op : Z)
| RequestSetFaceActiveModule (uuid : list byte)
| RequestFaceHostRestart
| RequestOsc (r : router_request)
| RequestSetCaptionsConfig (c : CaptionsConfig)
| RequestCaptionsRestartHost
| RequestCaptionsGetSupervisorStatus.

Inductive Response :=
| RespInvalid
| RespHandshake (version : Z)
| RespSuccess
| RespOscRouterStats (s : OscStats.OscRouterStats)
| RespCaptionsSupervisorStatus (s : CaptionsSupervisorStatus).

(** ** Modules *)

Record DriverModule (S : Type) := mkModule {
  Name : list byte;
  FeatureMask : Z;
  ModuleInit : S -> bool * S;
  ModuleShutdown : S -> S;
  HandleRequest : Request -> S -> option (Response * S) }.
Arguments mkModule {S}.
Arguments Name {S}.
Arguments FeatureMask {S}.
Arguments ModuleInit {S}.
Arguments ModuleShutdown {S}.
Arguments HandleRequest {S}.

Inductive driver_event :=
| EvInit (name : list byte) (ok : bool)
| EvShutdown (name : list byte)
| EvRun (mask : Z)
| EvStop (mask : Z)
| EvHooks (ok : bool)
| EvUnhook
| EvShmemClose
| EvContext
| EvContextCleanup.

Section Shell.
Context {S : Type}.

(** [servers]: the feature masks of the IPC servers allocated; [running]: of
    those whose thread runs. *)
Record Driver := mkDriver {
  featureFlags : Z; activeModules : list (DriverModule S);
  servers : list Z; running : list Z; hooked : bool; env : S; trace : list driver_event }.

#[export] Instance driver_settable : Settable Driver := fun d =>
  mkDriver (featureFlags d) (activeModules d) (servers d) (running d) (hooked d) (env d) (trace d).

Definition driver_init (s : S) : Driver := mkDriver 0 [] [] [] false s [].

Definition emit (e : driver_event) (d : Driver) : Driver := d <| trace ::= fun t => t ++ [e] |>.

Definition activateModule (d : Driver) (m : DriverModule S) : Driver :=
  if (Z.land (featureFlags d) (FeatureMask m) =? 0)%Z then d else
  let '(ok, s) := ModuleInit m (env d) in
  let d := emit (EvInit (Name m) ok) (d <| env := s |>) in
  if ok then d <| activeModules ::= fun l => l ++ [m] |> else d.

(** The order of the servers in [Init]. *)
Definition server_masks : list Z :=
  [kFeatureCalibration; kFeatureSmoothing; kFeatureInputHealth; kFeatureFaceTracking;
   kFeatureOscRouter; kFeatureCaptions].

Definition RunServer (d : Driver) (mask : Z) : Driver :=
  if (Z.land (featureFlags d) mask =? 0)%Z then d
  else emit (EvRun mask) (d <| servers ::= fun l => l ++ [mask] |> <| running ::= fun l => l ++ [mask] |>).

(** [if (server) server->Stop()]: nothing to do unless its thread is joinable. *)
Definition StopServer (d : Driver) (mask : Z) : Driver :=
  if bool_decide (mask ∈ servers d) && bool_decide (mask ∈ running d)
  then emit (EvStop mask) (d <| running ::= filter (fun m => m <> mask) |>) else d.

(** [created] lists the modules built into the driver, in the order of [Init];
    [mh_ok] is the outcome of the hooking library's initialisation, asked for
    when a feature is on. *)
Definition Init (created : list (DriverModule S)) (flags : Z) (mh_ok : bool) (d : Driver) : bool * Driver :=
  let d := emit EvContext d in
  let d := d <| featureFlags := flags |> <| activeModules := [] |> in
  let d := foldl activateModule d created in
  let d := foldl RunServer d server_masks in
  let ok := (flags =? 0)%Z || mh_ok in
  let d := emit (EvHooks ok) (d <| hooked := negb (flags =? 0)%Z && mh_ok |>) in
  if ok then (true, d)
  else (false, emit EvContextCleanup (emit EvShmemClose (foldl StopServer d server_masks))).

Definition ShutdownModule (d : Driver) (m : DriverModule S) : Driver :=
  emit (EvShutdown (Name m)) (d <| env ::= ModuleShutdown m |>).

Definition DisableHooks (d : Driver) : Driver :=
  if hooked d then emit EvUnhook (d <| hooked := false |>) else d.

Definition Cleanup (d : Driver) : Driver :=
  let d := DisableHooks d in
  let d := foldl ShutdownModule d (reverse (activeModules d)) in
  let d := d <| activeModules := [] |> in
  let d := foldl StopServer d (reverse server_masks) in
  emit EvContextCleanup (emit EvShmemClose d).

(** ** Requests of a pipe *)

Fixpoint dispatch (featureMask : Z) (request : Request) (modules : list (DriverModule S)) (s : S)
    : option (Response * S) :=
  match modules with
  | [] => None
  | m :: rest =>
    if (Z.land (FeatureMask m) featureMask =? 0)%Z then dispatch featureMask request rest s
    else match HandleRequest m request s with
         | Some r => Some r
         | None => dispatch featureMask request rest s
         end
  end.

Definition HandleIpcRequest (featureMask : Z) (request : Request) (d : Driver) : option (Response * Driver) :=
  match request with
  | RequestHandshake => Some (RespHandshake Version, d)
  | _ => '(resp, s) ← dispatch featureMask request (activeModules d) (env d);
         Some (resp, d <| env := s |>)
  end.

(** [IPCServer::HandleRequest] *)
Definition IPCServer_HandleRequest (featureMask : Z) (request : Request) (d : Driver) : Response * Driver :=
  match HandleIpcRequest featureMask request d with
  | Some r => r
  | None => (RespInvalid, d)
  end.
End Shell.
Arguments Driver : clear implicits.

(** ** The modules of the driver *)

(** Calls into parts modelled elsewhere, or not modelled. *)
Inductive module_call :=
| CallFaceModuleUuid (uuid : list byte)
| CallFaceCalibReset (op : Z)
| CallFaceRestart
| CallCaptionsConfig (cmd : list byte)
| CallCaptionsRestart
| CallResetStats (hash : Z) (passive active curves : Z).

Record ModuleState := mkMS {
  ms_provider : Provider;
  ms_finger : FingerAtomics;
  ms_ih_config : list byte;
  ms_comp : CompStore;
  ms_cal : bool; ms_smo : bool; ms_ih : bool;
  ms_face_config : FaceTrackingConfig;
  ms_captions_config : CaptionsConfig;
  ms_captions_status : CaptionsSupervisorStatus;
  ms_router : OscRouter RouteTable;
  ms_now : Z;
  ms_random : Isometry.Vector3d;
  ms_calls : list module_call }.

#[export] Instance ms_settable : Settable ModuleState := fun m =>
  mkMS (ms_provider m) (ms_finger m) (ms_ih_config m) (ms_comp m) (ms_cal m) (ms_smo m) (ms_ih m)
    (ms_face_config m) (ms_captions_config m) (ms_captions_status m) (ms_router m) (ms_now m)
    (ms_random m) (ms_calls m).

Definition call (c : module_call) (s : ModuleState) : ModuleState := s <| ms_calls ::= fun l => l ++ [c] |>.

Definition with_provider (f : Provider -> Provider) (s : ModuleState) : option (Response * ModuleState) :=
  Some (RespSuccess, s <| ms_provider ::= f |>).

Section Modules.
Context `{Isometry.Eigen}.

Definition CalibrationModule : DriverModule ModuleState :=
  mkModule (str "Space Calibrator") kFeatureCalibration
    (fun s => (true, s <| ms_cal := true |>)) (fun s => s <| ms_cal := false |>)
    (fun req s =>
      if negb (ms_cal s) then None else
      match req with
      | RequestSetDeviceTransform r => with_provider (SetDeviceTransform r (ms_now s)) s
      | RequestDebugOffset => with_provider (HandleApplyRandomOffset (ms_random s)) s
      | RequestSetAlignmentSpeedParams p => with_provider (HandleSetAlignmentSpeedParams p) s
      | RequestSetTrackingSystemFallback r =>
        with_provider (SetTrackingSystemFallback r (fun _ => ms_now s)) s
      | _ => None
      end).

Definition SmoothingModule : DriverModule ModuleState :=
  mkModule (str "Smoothing") kFeatureSmoothing
    (fun s => (true, s <| ms_smo := true |>)) (fun s => s <| ms_smo := false |>)
    (fun req s =>
      if negb (ms_smo s) then None else
      match req with
      | RequestSetFingerSmoothing c => Some (RespSuccess, s <| ms_finger ::= SetFingerSmoothingConfig c |>)
      | RequestSetDevicePrediction c => with_provider (SetDevicePrediction c) s
      | _ => None
      end).

Definition InputHealthModule : DriverModule ModuleState :=
  mkModule (str "Input Health") kFeatureInputHealth
    (fun s => (true, s <| ms_ih := true |>)) (fun s => s <| ms_ih := false |>)
    (fun req s =>
      if negb (ms_ih s) then None else
      match req with
      | RequestSetInputHealthConfig c => Some (RespSuccess, s <| ms_ih_config := SetInputHealthConfig c |>)
      | RequestResetInputHealthStats h p a c => Some (RespSuccess, call (CallResetStats h p a c) s)
      | RequestSetInputHealthCompensation e =>
        Some (RespSuccess, s <| ms_comp ::= SetInputHealthCompensation e |>)
      | _ => None
      end).

(** Only the request handling of the face-tracking and captions modules. *)
Definition face_handle (req : Request) (s : ModuleState) : option (Response * ModuleState) :=
  match req with
  | RequestSetFaceTrackingConfig c =>
    Some (RespSuccess, call (CallFaceModuleUuid (cstr (ftc_active_module_uuid c))) (s <| ms_face_config := c |>))
  | RequestSetFaceCalibrationCommand op => Some (RespSuccess, call (CallFaceCalibReset op) s)
  | RequestSetFaceActiveModule uuid => Some (RespSuccess, call (CallFaceModuleUuid (cstr uuid)) s)
  | RequestFaceHostRestart => Some (RespSuccess, call CallFaceRestart s)
  | _ => None
  end.

Definition BuildHostConfigCommand (config : CaptionsConfig) : list byte :=
  str "config:" ++
  str "src=" ++ cstr (cc_source_lang config) ++
  str ",tgt=" ++ cstr (cc_target_lang config) ++
  str ",mode=" ++ decimal 10 (cc_mode config) ++
  str ",addr=" ++ cstr (cc_chatbox_address config) ++
  str ",port=" ++ decimal 10 (cc_chatbox_port config) ++
  str ",log=" ++ decimal 10 (cc_transcript_logging config) ++
  [zb 10].

Definition captions_handle (req : Request) (s : ModuleState) : option (Response * ModuleState) :=
  match req with
  | RequestSetCaptionsConfig c =>
    Some (RespSuccess, call (CallCaptionsConfig (BuildHostConfigCommand c)) (s <| ms_captions_config := c |>))
  | RequestCaptionsRestartHost =>
    Some (RespSuccess, call (CallCaptionsConfig (BuildHostConfigCommand (ms_captions_config s)))
                         (call CallCaptionsRestart s))
  | RequestCaptionsGetSupervisorStatus =>
    let st := ms_captions_status s in
    Some (RespCaptionsSupervisorStatus
            (mkCSS (host_halted st) (last_exit_code st) (copy_field 128 (last_exit_description st))), s)
  | _ => None
  end.

Definition router_reply (r : router_response) : Response :=
  match r with
  | ResponseInvalid => RespInvalid
  | ResponseSuccess => RespSuccess
  | ResponseOscRouterStats st => RespOscRouterStats st
  end.

Definition router_handle (req : Request) (s : ModuleState) : option (Response * ModuleState) :=
  match req with
  | RequestOsc r =>
    match OscRouter.HandleRequest r (ms_router s) with
    | (Some resp, router) => Some (router_reply resp, s <| ms_router := router |>)
    | (None, _) => None
    end
  | _ => None
  end.

Definition kept (s : ModuleState) : bool * ModuleState := (true, s).

Definition FaceModule : DriverModule ModuleState :=
  mkModule (str "FaceTracking") kFeatureFaceTracking kept id face_handle.
Definition CaptionsModule : DriverModule ModuleState :=
  mkModule (str "Captions") kFeatureCaptions kept id captions_handle.
Definition RouterModule : DriverModule ModuleState :=
  mkModule (str "OscRouter") kFeatureOscRouter kept id router_handle.

(** The order of [Init]: the router first, for the modules that publish. *)
Definition created_modules : list (DriverModule ModuleState) :=
  [RouterModule; CalibrationModule; SmoothingModule; InputHealthModule; FaceModule; CaptionsModule].
End Modules.

(** ** Start and tear-down *)

Definition inited (t : list driver_event) : list (list byte) :=
  omap (fun e => match e with EvInit n true => Some n | _ => None end) t.
Definition shut (t : list driver_event) : list (list byte) :=
  omap (fun e => match e with EvShutdown n => Some n | _ => None end) t.
Definition ran (t : list driver_event) : list Z :=
  omap (fun e => match e with EvRun m => Some m | _ => None end) t.
Definition stopped (t : list driver_event) : list Z :=
  omap (fun e => match e with EvStop m => Some m | _ => None end) t.

(** The servers the flags ask for. *)
Definition asked (flags : Z) (ms : list Z) : list Z := filter (fun m => Z.land flags m <> 0%Z) ms.

Section Lifecycle.
Context {S : Type}.
Implicit Types (d : Driver S) (m : DriverModule S).

Lemma filter_ext_in {A} (P Q : A -> Prop) `{!forall x, Decision (P x), !forall x, Decision (Q x)} (l : list A) :
  (forall x, x ∈ l -> P x <-> Q x) -> filter P l = filter Q l.
Proof.
  induction l as [|x l IH]; intros Hpq; [done|]. rewrite !filter_cons.
  rewrite IH by (intros y Hy; apply Hpq; by right).
  destruct (Hpq x ltac:(by left)) as [H1 H2].
  by destruct (decide (P x)), (decide (Q x)); try tauto.
Qed.

Lemma activate_fold ms d :
  exists evs, let d' := foldl activateModule d ms in
  trace d' = trace d ++ evs /\ shut evs = [] /\ ran evs = [] /\ stopped evs = [] /\
  map Name (activeModules d') = map Name (activeModules d) ++ inited evs /\
  featureFlags d' = featureFlags d /\ servers d' = servers d /\ running d' = running d /\
  hooked d' = hooked d.
Proof.
  revert d. induction ms as [|m ms IH]; intros d; [exists []; by rewrite !app_nil_r|]. simpl.
  remember (activateModule d m) as d1 eqn:Ed. unfold activateModule in Ed.
  destruct (_ =? _)%Z; [subst d1; apply IH|].
  destruct (IH d1) as (evs & H1 & H2 & H3 & H4 & H5 & H6 & H7 & H8 & H9).
  destruct (ModuleInit m (env d)) as [[] s]; subst d1.
  - exists (EvInit (Name m) true :: evs). simpl in *. rewrite H1, H5, map_app, <-!app_assoc. done.
  - exists (EvInit (Name m) false :: evs). simpl in *. rewrite H1, H5, <-!app_assoc. done.
Qed.

Lemma run_fold ms d :
  let d' := foldl RunServer d ms in let on := asked (featureFlags d) ms in
  trace d' = trace d ++ map EvRun on /\ servers d' = servers d ++ on /\ running d' = running d ++ on /\
  featureFlags d' = featureFlags d /\ activeModules d' = activeModules d /\ hooked d' = hooked d.
Proof.
  revert d. induction ms as [|a ms IH]; intros d; simpl; [by rewrite !app_nil_r|].
  remember (RunServer d a) as d1 eqn:Ed. unfold RunServer in Ed. unfold asked. rewrite filter_cons.
  destruct (IH d1) as (-> & -> & -> & -> & -> & ->). unfold asked.
  destruct (Z.eqb_spec (Z.land (featureFlags d) a) 0) as [E|E]; subst d1.
  - by rewrite decide_False by tauto.
  - rewrite decide_True by done. simpl. by rewrite <-!app_assoc.
Qed.

Lemma stop_fold ms d :
  NoDup ms ->
  let d' := foldl StopServer d ms in
  trace d' = trace d ++ map EvStop (filter (fun k => k ∈ servers d /\ k ∈ running d) ms) /\
  running d' = filter (fun k => ~ (k ∈ ms /\ k ∈ servers d)) (running d) /\
  servers d' = servers d /\ activeModules d' = activeModules d.
Proof.
  revert d. induction ms as [|a ms IH]; intros d Hnd; simpl.
  - rewrite app_nil_r. split; [done|]. split; [|done].
    symmetry. rewrite (filter_ext_in _ (fun _ => True)).
    + induction (running d) as [|x l IHl]; [done|]. rewrite filter_cons. by rewrite decide_True, IHl.
    + intros x _. rewrite elem_of_nil. tauto.
  - apply list.NoDup_cons in Hnd as [Ha Hnd]. rewrite filter_cons.
    remember (StopServer d a) as d1 eqn:Ed. unfold StopServer in Ed.
    destruct (IH d1 Hnd) as (-> & -> & -> & ->).
    destruct (decide (a ∈ servers d /\ a ∈ running d)) as [[E1 E2]|Hn].
    + rewrite !bool_decide_eq_true_2 in Ed by done. subst d1. simpl.
      rewrite <-app_assoc. simpl. split; [|split; [|done]].
      * do 3 f_equal. apply filter_ext_in. intros x Hx. rewrite list_elem_of_filter.
        assert (x <> a) by congruence. tauto.
      * rewrite list_filter_filter. apply filter_ext_in. intros x Hx. rewrite elem_of_cons.
        destruct (decide (x = a)) as [->|]; tauto.
    + assert (d1 = d) as ->.
      { subst d1. destruct (bool_decide (a ∈ servers d)) eqn:B1; [|done].
        destruct (bool_decide (a ∈ running d)) eqn:B2; [|done].
        rewrite bool_decide_eq_true in *. tauto. }
      split; [done|]. split; [|done]. apply filter_ext_in. intros x Hx. rewrite elem_of_cons.
      destruct (decide (x = a)) as [->|]; tauto.
Qed.

Lemma shutdown_fold ms d :
  let d' := foldl ShutdownModule d ms in
  trace d' = trace d ++ map EvShutdown (map Name ms) /\ servers d' = servers d /\
  running d' = running d /\ activeModules d' = activeModules d.
Proof.
  revert d. induction ms as [|m ms IH]; intros d; simpl; [by rewrite app_nil_r|].
  destruct (IH (ShutdownModule d m)) as (-> & -> & -> & ->). simpl. by rewrite <-app_assoc.
Qed.
End Lifecycle.

Lemma events_app t1 t2 :
  inited (t1 ++ t2) = inited t1 ++ inited t2 /\ shut (t1 ++ t2) = shut t1 ++ shut t2 /\
  ran (t1 ++ t2) = ran t1 ++ ran t2 /\ stopped (t1 ++ t2) = stopped t1 ++ stopped t2.
Proof. unfold inited, shut, ran, stopped. by rewrite !omap_app. Qed.

Lemma events_run ms :
  inited (map EvRun ms) = [] /\ shut (map EvRun ms) = [] /\ ran (map EvRun ms) = ms /\
  stopped (map EvRun ms) = [].
Proof. induction ms as [|k ms (?&?&?&?)]; [done|]. simpl. repeat split; by try f_equal. Qed.

Lemma events_stop ms :
  inited (map EvStop ms) = [] /\ shut (map EvStop ms) = [] /\ ran (map EvStop ms) = [] /\
  stopped (map EvStop ms) = ms.
Proof. induction ms as [|k ms (?&?&?&?)]; [done|]. simpl. repeat split; by try f_equal. Qed.

Lemma events_shut ns :
  inited (map EvShutdown ns) = [] /\ shut (map EvShutdown ns) = ns /\ ran (map EvShutdown ns) = [] /\
  stopped (map EvShutdown ns) = [].
Proof. induction ns as [|k ns (?&?&?&?)]; [done|]. simpl. repeat split; by try f_equal. Qed.

#[local] Arguments server_masks : simpl never.

Lemma server_masks_nodup : NoDup server_masks.
Proof. dec_true. Qed.

Ltac events_norm :=
  repeat match goal with
  | |- context [shut (?a ++ ?b)] => destruct (events_app a b) as (_ & -> & _ & _)
  | |- context [stopped (?a ++ ?b)] => destruct (events_app a b) as (_ & _ & _ & ->)
  | |- context [ran (?a ++ ?b)] => destruct (events_app a b) as (_ & _ & -> & _)
  | |- context [inited (?a ++ ?b)] => destruct (events_app a b) as (-> & _ & _ & _)
  | |- context [shut (map EvStop ?l)] => destruct (events_stop l) as (_ & -> & _ & _)
  | |- context [stopped (map EvStop ?l)] => destruct (events_stop l) as (_ & _ & _ & ->)
  | |- context [ran (map EvStop ?l)] => destruct (events_stop l) as (_ & _ & -> & _)
  | |- context [inited (map EvStop ?l)] => destruct (events_stop l) as (-> & _ & _ & _)
  | |- context [shut (map EvShutdown ?l)] => destruct (events_shut l) as (_ & -> & _ & _)
  | |- context [stopped (map EvShutdown ?l)] => destruct (events_shut l) as (_ & _ & _ & ->)
  end.

(** Stopping every server, in either order. *)
Lemma stop_all {S} flags ms (d : Driver S) :
  (forall k, k ∈ ms <-> k ∈ server_masks) -> NoDup ms ->
  servers d = asked flags server_masks -> running d = asked flags server_masks ->
  let d' := foldl StopServer d ms in
  trace d' = trace d ++ map EvStop (asked flags ms) /\ running d' = [] /\
  activeModules d' = activeModules d.
Proof.
  intros Hms Hnd Hs Hr. destruct (stop_fold ms d Hnd) as (T1 & T2 & _ & T4).
  cbv zeta. rewrite T1, T2, T4, Hs, Hr. split; [|split; [|done]].
  - do 2 f_equal. apply filter_ext_in. intros k Hk%Hms. unfold asked.
    rewrite !list_elem_of_filter. tauto.
  - assert (forall l, (forall k, k ∈ l -> k ∈ ms /\ k ∈ asked flags server_masks) ->
      filter (fun k => ~ (k ∈ ms /\ k ∈ asked flags server_masks)) l = []) as Hno.
    { induction l as [|k l IH]; intros Hl; [done|]. rewrite filter_cons, decide_False.
      - apply IH. intros x Hx. apply Hl. by right.
      - intros Hn. apply Hn, Hl. by left. }
    apply Hno. intros k Hk. split; [|done]. apply Hms. unfold asked in Hk.
    by apply list_elem_of_filter in Hk as [_ ?].
Qed.

(** Everything [Init] does before the hooks. *)
Lemma started {S} (created : list (DriverModule S)) flags (d0 : Driver S) evs0 :
  featureFlags d0 = flags -> activeModules d0 = [] -> servers d0 = [] -> running d0 = [] ->
  trace d0 = evs0 -> inited evs0 = [] /\ shut evs0 = [] /\ ran evs0 = [] /\ stopped evs0 = [] ->
  let d := foldl RunServer (foldl activateModule d0 created) server_masks in
  servers d = asked flags server_masks /\ running d = asked flags server_masks /\
  inited (trace d) = map Name (activeModules d) /\ shut (trace d) = [] /\
  ran (trace d) = asked flags server_masks /\ stopped (trace d) = [].
Proof.
  intros Hf Ha Hs Hr Ht (E1 & E2 & E3 & E4).
  destruct (activate_fold created d0) as (evs & H1 & H2 & H3 & H4 & H5 & H6 & H7 & H8 & _).
  destruct (run_fold server_masks (foldl activateModule d0 created)) as (R1 & R2 & R3 & _ & R5 & _).
  cbv zeta. rewrite R1, R2, R3, R5, H1, H5, H6, H7, H8, Hf, Ha, Hs, Hr, Ht.
  set (on := asked flags server_masks). clearbody on.
  destruct (events_app (evs0 ++ evs) (map EvRun on)) as (-> & -> & -> & ->).
  destruct (events_app evs0 evs) as (-> & -> & -> & ->).
  destruct (events_run on) as (-> & -> & -> & ->).
  by rewrite E1, E2, E3, E4, H2, H3, H4, !app_nil_r.
Qed.

(** [Cleanup] of a driver that started. *)
Lemma cleanup_stops {S} flags (d : Driver S) :
  servers d = asked flags server_masks -> running d = asked flags server_masks ->
  stopped (trace d) = [] -> shut (trace d) = [] ->
  let d' := Cleanup d in
  shut (trace d') = reverse (map Name (activeModules d)) /\
  stopped (trace d') = reverse (asked flags server_masks) /\
  activeModules d' = [] /\ running d' = [] /\
  exists evs, trace d' = trace d ++ (if hooked d then [EvUnhook] else []) ++ evs.
Proof.
  intros Hs Hr Hst Hsh. unfold Cleanup.
  assert (activeModules (DisableHooks d) = activeModules d /\ servers (DisableHooks d) = servers d /\
    running (DisableHooks d) = running d /\
    trace (DisableHooks d) = trace d ++ if hooked d then [EvUnhook] else []) as (D1 & D2 & D3 & D4).
  { unfold DisableHooks. destruct (hooked d); [done|]. by rewrite app_nil_r. }
  set (d3 := DisableHooks d) in *. clearbody d3.
  destruct (shutdown_fold (reverse (activeModules d3)) d3) as (S1 & S2 & S3 & _).
  set (d4 := foldl ShutdownModule d3 (reverse (activeModules d3))) in *. clearbody d4.
  match goal with |- context [foldl StopServer ?d5 (reverse server_masks)] =>
    destruct (stop_all flags (reverse server_masks) d5) as (T1 & T2 & T4);
      [intros k; apply elem_of_reverse|dec_true
      |simpl; congruence|simpl; congruence|];
    set (d6 := foldl StopServer d5 (reverse server_masks)) in *; clearbody d6 end.
  simpl in *. rewrite T1, S1, D4, D1, T2, T4. events_norm. rewrite Hst, Hsh.
  assert (shut (if hooked d then [EvUnhook] else []) = [] /\
          stopped (if hooked d then [EvUnhook] else []) = []) as [-> ->] by by case_match.
  simpl. rewrite !app_nil_r. unfold asked. rewrite filter_reverse. conjs; try done.
  - apply (fmap_reverse Name).
  - rewrite <-!app_assoc. by eexists.
Qed.

(** The projections of an emission. *)
Lemma emit_spec {S} e (d : Driver S) :
  trace (emit e d) = trace d ++ [e] /\ running (emit e d) = running d /\
  servers (emit e d) = servers d /\ activeModules (emit e d) = activeModules d.
Proof. done. Qed.


(** ** Routing *)

Section Routing.
Context `{Isometry.Eigen}.

(** The feature whose pipe a request belongs to. *)
Definition owner (r : Request) : option Z :=
  match r with
  | RequestSetDeviceTransform _ | RequestDebugOffset | RequestSetAlignmentSpeedParams _
  | RequestSetTrackingSystemFallback _ => Some kFeatureCalibration
  | RequestSetFingerSmoothing _ | RequestSetDevicePrediction _ => Some kFeatureSmoothing
  | RequestSetInputHealthConfig _ | RequestResetInputHealthStats _ _ _ _
  | RequestSetInputHealthCompensation _ => Some kFeatureInputHealth
  | RequestSetFaceTrackingConfig _ | RequestSetFaceCalibrationCommand _ | RequestSetFaceActiveModule _
  | RequestFaceHostRestart => Some kFeatureFaceTracking
  | RequestOsc RequestOther => None
  | RequestOsc _ => Some kFeatureOscRouter
  | RequestSetCaptionsConfig _ | RequestCaptionsRestartHost
  | RequestCaptionsGetSupervisorStatus => Some kFeatureCaptions
  | RequestInvalid | RequestHandshake => None
  end.

Definition module_of (mask : Z) : DriverModule ModuleState :=
  if (mask =? kFeatureCalibration)%Z then CalibrationModule
  else if (mask =? kFeatureSmoothing)%Z then SmoothingModule
  else if (mask =? kFeatureInputHealth)%Z then InputHealthModule
  else if (mask =? kFeatureFaceTracking)%Z then FaceModule
  else if (mask =? kFeatureOscRouter)%Z then RouterModule
  else CaptionsModule.

(** The modules [Init] leaves active when each one initialises. *)
Definition active_for (flags : Z) : list (DriverModule ModuleState) :=
  filter (fun m => Z.land flags (FeatureMask m) <> 0%Z) created_modules.

Lemma dispatch_skip mask req m ms (P : DriverModule ModuleState -> Prop) `{!forall x, Decision (P x)} s :
  Z.land (FeatureMask m) mask = 0%Z ->
  dispatch mask req (filter P (m :: ms)) s = dispatch mask req (filter P ms) s.
Proof. intros Hm. rewrite filter_cons. case_decide; [|done]. simpl. by rewrite Hm. Qed.

Lemma dispatch_take mask req m ms (P : DriverModule ModuleState -> Prop) `{!forall x, Decision (P x)} s :
  Z.land (FeatureMask m) mask <> 0%Z -> dispatch mask req (filter P ms) s = None ->
  dispatch mask req (filter P (m :: ms)) s = if decide (P m) then HandleRequest m req s else None.
Proof.
  intros Hm Hr. rewrite filter_cons. case_decide; [|done]. simpl.
  rewrite (proj2 (Z.eqb_neq _ _) Hm), Hr. by destruct (HandleRequest m req s).
Qed.

Lemma dispatch_active flags mask req s :
  mask ∈ server_masks ->
  dispatch mask req (active_for flags) s =
  if decide (Z.land flags mask <> 0%Z) then HandleRequest (module_of mask) req s else None.
Proof.
  intros Hm. unfold active_for, created_modules.
  assert (forall k m, FeatureMask m = k -> module_of k = m ->
    (if decide (Z.land flags (FeatureMask m) <> 0%Z) then HandleRequest m req s else None) =
    if decide (Z.land flags k <> 0%Z) then HandleRequest (module_of k) req s else None) as Hk
    by (by intros ? ? <- ->).
  unfold server_masks in Hm.
  repeat (apply elem_of_cons in Hm as [->|Hm]); [..|by apply elem_of_nil in Hm].
  all: repeat rewrite dispatch_skip by reflexivity.
  all: rewrite dispatch_take; [by apply Hk|by vm_compute|].
  all: by repeat rewrite dispatch_skip by reflexivity.
Qed.

Lemma owned_handled req mask s :
  mask ∈ server_masks -> ms_cal s = true -> ms_smo s = true -> ms_ih s = true -> req <> RequestHandshake ->
  if decide (owner req = Some mask)
  then is_Some (HandleRequest (module_of mask) req s)
  else HandleRequest (module_of mask) req s = None.
Proof.
  intros Hm Hc Hs Hi Hne. unfold server_masks in Hm.
  repeat (apply elem_of_cons in Hm as [->|Hm]); [..|by apply elem_of_nil in Hm].
  all: destruct req as [| | | | | | | | | | | | | | |[]| | |]; try done; simpl; rewrite ?Hc, ?Hs, ?Hi;
    try (by eexists); try done.
  all: repeat case_match; simplify_eq; by eexists.
Qed.

(** C6: A request reaches a module only through its own feature's pipe.  On a
    driver whose modules are those the flags ask for, a request sent on its
    owner's pipe is answered by that module alone; on any other pipe, or when
    the feature is off, the answer is [ResponseInvalid] and nothing changes;
    the handshake is answered with the protocol version on every pipe. *)
Theorem request_routing flags mask req (d : Driver ModuleState) :
  mask ∈ server_masks -> activeModules d = active_for flags ->
  ms_cal (env d) = true -> ms_smo (env d) = true -> ms_ih (env d) = true ->
  IPCServer_HandleRequest mask RequestHandshake d = (RespHandshake 18, d) /\
  (req <> RequestHandshake ->
   if decide (owner req = Some mask /\ Z.land flags mask <> 0%Z)
   then exists resp s, HandleRequest (module_of mask) req (env d) = Some (resp, s) /\
          IPCServer_HandleRequest mask req d = (resp, d <| env := s |>)
   else IPCServer_HandleRequest mask req d = (RespInvalid, d)).
Proof.
  intros Hm Ha Hc Hs Hi. split; [done|]. intros Hne.
  pose proof (owned_handled req mask (env d) Hm Hc Hs Hi Hne) as Ho.
  assert (HandleIpcRequest mask req d =
    '(resp, s) ← dispatch mask req (activeModules d) (env d); Some (resp, d <| env := s |>)) as Hd
    by (by destruct req).
  unfold IPCServer_HandleRequest. rewrite Hd, Ha, dispatch_active by done.
  destruct (decide (Z.land flags mask <> 0%Z)) as [Hf|Hf].
  - destruct (decide (owner req = Some mask)) as [Hw|Hw].
    + destruct Ho as [[resp s] Ho]. rewrite Ho, decide_True by done. exists resp, s. done.
    + by rewrite Ho, decide_False by tauto.
  - by rewrite decide_False by tauto.
Qed.
End Routing.

(** ** Feature detection *)

(** Each feature bit is set exactly when the driver's resources directory
    is known and the feature's flag file is there as a file (either of two
    names for captions), and no other bit is ever set. *)
Theorem detected_features module_path attr :
  let dir := GetResourcesDir module_path in
  let on name := negb (length dir =? 0) && FlagFileExists attr dir name in
  let flags := DetectFeatureFlags module_path attr in
  (0 <= flags < 2 ^ 6)%Z /\
  Z.testbit flags 0 = on (str "enable_calibration.flag") /\
  Z.testbit flags 1 = on (str "enable_smoothing.flag") /\
  Z.testbit flags 2 = on (str "enable_inputhealth.flag") /\
  Z.testbit flags 3 = on (str "enable_facetracking.flag") /\
  Z.testbit flags 4 = on (str "enable_oscrouter.flag") /\
  Z.testbit flags 5 = on (str "enable_captions.flag") || on (str "enable_translator.flag").
Proof.
  cbv zeta. unfold DetectFeatureFlags. set (dir := GetResourcesDir module_path). clearbody dir.
  destruct (length dir =? 0)%nat; [done|]. cbn [negb andb].
  generalize (FlagFileExists attr dir). intros on.
  destruct (on (str "enable_calibration.flag")), (on (str "enable_smoothing.flag")),
    (on (str "enable_inputhealth.flag")), (on (str "enable_facetracking.flag")),
    (on (str "enable_oscrouter.flag")), (on (str "enable_captions.flag")),
    (on (str "enable_translator.flag")); vm_compute; repeat split; discriminate.
Qed.

(** ** Witness *)

Definition state_sample : ModuleState :=
  mkMS provider_sample finger_atomics_init (replicate 8 x00) ∅ true true true (mkFTC [] [])
    (mkCC 0 0 0 0 9000 [] [] []) (mkCSS false 0 []) (OscRouter.Init None false) 0 Isometry.v_zero [].

Definition driver_sample : Driver ModuleState :=
  mkDriver 3 (active_for (H := Isometry.eigen_sample) 3) [kFeatureCalibration; kFeatureSmoothing]
    [kFeatureCalibration; kFeatureSmoothing] true state_sample [].

(** A prediction request on the calibration pipe, and a handshake. *)
Lemma request_routing_witness :
  IPCServer_HandleRequest kFeatureCalibration RequestHandshake driver_sample =
    (RespHandshake 18, driver_sample) /\
  IPCServer_HandleRequest kFeatureCalibration (RequestSetDevicePrediction (mkSDP 3 50 0)) driver_sample =
    (RespInvalid, driver_sample).
Proof.
  destruct (request_routing (H := Isometry.eigen_sample) 3 kFeatureCalibration
    (RequestSetDevicePrediction (mkSDP 3 50 0)) driver_sample
    ltac:(dec_true) eq_refl eq_refl eq_refl eq_refl) as [H1 H2].
  split; [exact H1|].
  specialize (H2 ltac:(discriminate)). rewrite decide_False in H2; [exact H2|]. by intros [[=] _].
Defined.
