(* ===== verification/Ipc.v ===== *)
(** * The IPC server (core/src/driver/IPCServer.{h,cpp})

    One pipe server of the driver: [RunThread] with its accept loop, the
    completion routines of each connected client, the thread guard, and the
    steps of [Stop] on the driver's own thread.  The answers of Win32 (handles,
    wait results, completions) are the inputs of the steps; a handle or an
    object the system returns is one not in use.  [open_] is the set of kernel
    handles the server has opened and not closed. *)

From S2P Require Import Prelude Driver.

(** ** State *)

Inductive HANDLE := NullHandle | InvalidHandle | Handle (h : nat).

#[export] Instance HANDLE_eqdec : EqDecision HANDLE.
Proof. solve_decision. Defined.

(** The overlapped operation an instance has outstanding. *)
Inductive io_op := IoRead | IoWrite.

#[export] Instance io_op_eqdec : EqDecision io_op.
Proof. solve_decision. Defined.

Inductive wake := WakeEvent | WakeApc | WakeFail.

#[export] Instance wake_eqdec : EqDecision wake.
Proof. solve_decision. Defined.

(** Where [RunThread] is: before [CreateEvent], before a call of
    [CreateAndConnectInstance], at the loop condition, in the wait, behind it,
    before the guard's destructor, and gone. *)
Inductive thread_pc := PEntry | PConnect | PTop | PWait | PWoken (w : wake) | PExit | PDone.

#[export] Instance thread_pc_eqdec : EqDecision thread_pc.
Proof. solve_decision. Defined.

(** Where [Stop] is: not called, flag set, event handle read, event set, joined. *)
Inductive stop_pc := SIdle | SFlag | SRead (ev : HANDLE) | SSet | SJoined.

(** What [CreateNamedPipe], [ConnectNamedPipe] and [SetEvent] answered in one
    call of [CreateAndConnectInstance]; [sig] is the event after a failure. *)
Inductive connect_result :=
| CreateFailed
| IoPending (h : nat)
| PipeConnected (h : nat) (set_ok : bool)
| ConnectFailed (h : nat) (sig : bool).

Section Server.
Context {Req Resp D : Type} (HandleRequest : Req -> D -> Resp * D).
Context (req0 : Req) (resp0 : Resp) (sizeof_Request sizeof_Response : Z).

Record PipeInstance := mkInst {
  overlap_io : option io_op; pipe : HANDLE; request : Req; response : Resp }.

#[export] Instance inst_settable : Settable PipeInstance := fun i =>
  mkInst (overlap_io i) (pipe i) (request i) (response i).

(** [answered]: the requests handled, with their answers and whether the answer
    was handed to [WriteFileEx]; [freed_busy]: the instances deleted with an
    operation outstanding. *)
Record server := mkServer {
  pc : thread_pc;
  stop_pc_ : stop_pc;
  running : bool;
  stop : bool;
  pipes : gmap nat PipeInstance;
  connectEvent : HANDLE;
  signaled : bool;
  nextPipe : HANDLE;
  connectPending : bool;
  drv : D;
  open_ : gset nat;
  answered : list (nat * Req * Resp * bool);
  freed_busy : gset nat }.

#[export] Instance server_settable : Settable server := fun s =>
  mkServer (pc s) (stop_pc_ s) (running s) (stop s) (pipes s) (connectEvent s) (signaled s)
    (nextPipe s) (connectPending s) (drv s) (open_ s) (answered s) (freed_busy s).

(** A server whose [Run] has just started the thread. *)
Definition Run (d : D) : server :=
  mkServer PEntry SIdle false false ∅ NullHandle false NullHandle false d ∅ [] ∅.

(** ** Operations *)

Definition CloseHandle (h : HANDLE) (s : server) : server :=
  match h with Handle n => s <| open_ ::= fun o => o ∖ {[n]} |> | _ => s end.

Definition is_open (h : HANDLE) (s : server) : bool :=
  match h with Handle n => bool_decide (n ∈ open_ s) | _ => false end.

Definition CreatePipeInstance (p : nat) (h : HANDLE) (s : server) : server :=
  s <| pipes ::= <[p := mkInst None h req0 resp0]> |>.

Definition ClosePipeInstance (p : nat) (s : server) : server :=
  match pipes s !! p with
  | Some i => (CloseHandle (pipe i) s) <| pipes ::= delete p |>
  | None => s
  end.

(** [ReadFileEx]/[WriteFileEx] on the instance [p]; never succeeds on a handle
    that is not open. *)
Definition issue (ok : bool) (op : io_op) (p : nat) (s : server) : bool * server :=
  match pipes s !! p with
  | Some i =>
    if ok && is_open (pipe i) s
    then (true, s <| pipes ::= <[p := i <| overlap_io := Some op |>]> |>)
    else (false, s)
  | None => (false, s)
  end.

Definition CompletedWriteCallback (err bytesWritten : Z) (read_ok : bool) (p : nat) (s : server) : server :=
  let '(success, s) :=
    if (err =? 0)%Z && (bytesWritten =? sizeof_Response)%Z then issue read_ok IoRead p s else (false, s) in
  if success then s else ClosePipeInstance p s.

Definition CompletedReadCallback (err bytesRead : Z) (write_ok : bool) (p : nat) (s : server) : server :=
  let '(success, s) :=
    if (err =? 0)%Z && (bytesRead =? sizeof_Request)%Z then
      match pipes s !! p with
      | Some i =>
        let '(resp, d) := HandleRequest (request i) (drv s) in
        let '(ok, s') := issue write_ok IoWrite p
          (s <| drv := d |> <| pipes ::= <[p := i <| response := resp |>]> |>) in
        (ok, s' <| answered ::= fun l => l ++ [(p, request i, resp, ok)] |>)
      | None => (false, s)
      end
    else (false, s) in
  if success then s else ClosePipeInstance p s.

(** A completion the system delivers in the alertable wait: the operation of
    [c_inst] ends; for a read, [c_data] is what its buffer then holds. *)
Record completion := mkCompletion {
  c_inst : nat; c_err : Z; c_bytes : Z; c_data : Req; c_issue : bool }.

Definition complete (c : completion) (s : server) : option server :=
  i ← pipes s !! c_inst c;
  match overlap_io i with
  | Some IoRead => Some (CompletedReadCallback (c_err c) (c_bytes c) (c_issue c) (c_inst c)
      (s <| pipes ::= <[c_inst c := i <| overlap_io := None |> <| request := c_data c |>]> |>))
  | Some IoWrite => Some (CompletedWriteCallback (c_err c) (c_bytes c) (c_issue c) (c_inst c)
      (s <| pipes ::= <[c_inst c := i <| overlap_io := None |>]> |>))
  | None => None
  end.

Fixpoint complete_all (cs : list completion) (s : server) : option server :=
  match cs with [] => Some s | c :: cs => s' ← complete c s; complete_all cs s' end.

Definition CreateAndConnectInstance (r : connect_result) (s : server) : bool * HANDLE * server :=
  match r with
  | CreateFailed => (false, InvalidHandle, s)
  | IoPending h => (true, Handle h, s <| open_ ::= fun o => {[h]} ∪ o |> <| signaled := false |>)
  | PipeConnected h true => (false, Handle h, s <| open_ ::= fun o => {[h]} ∪ o |> <| signaled := true |>)
  | PipeConnected h false =>
    (false, InvalidHandle, CloseHandle (Handle h) (s <| open_ ::= fun o => {[h]} ∪ o |> <| signaled := false |>))
  | ConnectFailed h sig =>
    (false, InvalidHandle, CloseHandle (Handle h) (s <| open_ ::= fun o => {[h]} ∪ o |> <| signaled := sig |>))
  end.

(** A handle the system returns is not one of the server's. *)
Definition fresh_result (r : connect_result) (s : server) : bool :=
  match r with
  | CreateFailed => true
  | IoPending h | PipeConnected h _ | ConnectFailed h _ => bool_decide (h ∉ open_ s)
  end.

Definition busy (i : PipeInstance) : Prop := is_Some (overlap_io i).

#[export] Instance busy_dec i : Decision (busy i).
Proof. unfold busy. apply _. Defined.

Definition free_instance (s : server) (e : nat * PipeInstance) : server :=
  CloseHandle (pipe e.2) (if decide (busy e.2) then s <| freed_busy ::= fun f => {[e.1]} ∪ f |> else s).

(** [~ThreadGuard] *)
Definition guard (s : server) : server :=
  let s := foldl free_instance (s <| pipes := ∅ |>) (map_to_list (pipes s)) in
  let s := s <| running := false |> in
  match connectEvent s with
  | Handle h => CloseHandle (Handle h) (s <| connectEvent := InvalidHandle |>)
  | _ => s
  end.

(** Behind the wait: [ov] is [GetOverlappedResult]'s answer, [p] the address of
    a new instance and [read_ok] the answer of its first [ReadFileEx]. *)
Definition woken (w : wake) (ov : bool) (p : nat) (read_ok : bool) (s : server) : server :=
  if stop s then s <| pc := PExit |> else
  match w with
  | WakeEvent =>
    if connectPending s && negb ov then
      (CloseHandle (nextPipe s) s) <| nextPipe := InvalidHandle |> <| pc := PExit |>
    else
      (CompletedWriteCallback 0 sizeof_Response read_ok p (CreatePipeInstance p (nextPipe s) s))
        <| pc := PConnect |>
  | WakeApc => s <| pc := PTop |>
  | WakeFail => s <| pc := PExit |>
  end.

(** A sequential server: the requests are answered one after the other. *)
Fixpoint answer_all (d : D) (rs : list (nat * Req)) : list (nat * Req * Resp) * D :=
  match rs with
  | [] => ([], d)
  | (p, r) :: rs => let '(a, d) := HandleRequest r d in let '(l, d) := answer_all d rs in ((p, r, a) :: l, d)
  end.

(** ** Steps *)

Inductive label :=
| LEnter (ev : option nat)
| LConnect (r : connect_result)
| LTest
| LWait (w : wake) (cs : list completion)
| LWoken (ov : bool) (p : nat) (read_ok : bool)
| LGuard
| LClientConnects
| LStop.

Definition thread_label (l : label) : bool :=
  match l with LClientConnects | LStop => false | _ => true end.

(** [Stop], on the thread that stops the driver. *)
Definition stop_step (s : server) : option server :=
  match stop_pc_ s with
  | SIdle => Some (s <| stop := true |> <| stop_pc_ := SFlag |>)
  | SFlag => Some (s <| stop_pc_ := SRead (connectEvent s) |>)
  | SRead (Handle h) =>
    Some (s <| signaled ::= fun b => b || is_open (Handle h) s |> <| stop_pc_ := SSet |>)
  | SRead _ => Some (s <| stop_pc_ := SSet |>)
  | SSet => if decide (pc s = PDone) then Some (s <| stop_pc_ := SJoined |>) else None
  | SJoined => None
  end.

(** [None]: the step is not possible in the state. *)
Definition step (l : label) (s : server) : option server :=
  match l, pc s with
  | LEnter None, PEntry =>
    Some (s <| running := true |> <| connectEvent := NullHandle |> <| pc := PExit |>)
  | LEnter (Some h), PEntry =>
    if decide (h ∈ open_ s) then None else
    Some (s <| running := true |> <| connectEvent := Handle h |> <| open_ ::= fun o => {[h]} ∪ o |>
            <| signaled := true |> <| pc := PConnect |>)
  | LConnect r, PConnect =>
    if fresh_result r s then
      let '(pending, h, s) := CreateAndConnectInstance r s in
      Some (s <| connectPending := pending |> <| nextPipe := h |> <| pc := PTop |>)
    else None
  | LTest, PTop => Some (s <| pc := if stop s then PExit else PWait |>)
  | LWait WakeEvent [], PWait => if signaled s then Some (s <| pc := PWoken WakeEvent |>) else None
  | LWait WakeApc (c :: cs), PWait => s' ← complete_all (c :: cs) s; Some (s' <| pc := PWoken WakeApc |>)
  | LWait WakeFail [], PWait => Some (s <| pc := PWoken WakeFail |>)
  | LWoken ov p read_ok, PWoken w =>
    if decide (pipes s !! p = None) then Some (woken w ov p read_ok s) else None
  | LGuard, PExit => Some ((guard s) <| pc := PDone |>)
  | LClientConnects, (PTop | PWait | PWoken _) =>
    if connectPending s then Some (s <| signaled := true |>) else None
  | LStop, _ => stop_step s
  | _, _ => None
  end.

Fixpoint run (ls : list label) (s : server) : option server :=
  match ls with [] => Some s | l :: ls => s' ← step l s; run ls s' end.

(** ** Handle accounting

    Each open handle has exactly one owner: the event, the pipe that waits for
    a client ([own]: the thread still owns it), or one instance. *)

Inductive holder := HEvent | HNext | HInst (p : nat).

Definition holds (own : bool) (s : server) (x : holder) (h : nat) : Prop :=
  match x with
  | HEvent => connectEvent s = Handle h
  | HNext => own = true /\ nextPipe s = Handle h
  | HInst p => exists i, pipes s !! p = Some i /\ pipe i = Handle h
  end.

Definition acct (own : bool) (s : server) : Prop :=
  (forall h, h ∈ open_ s <-> exists x, holds own s x h) /\
  (forall x y h, holds own s x h -> holds own s y h -> x = y).

Definition all_busy (s : server) : Prop := map_Forall (fun _ i => busy i) (pipes s).

(** What the completion routines leave alone. *)
Definition control (s : server) :=
  (pc s, stop_pc_ s, running s, stop s, connectEvent s, signaled s, nextPipe s, connectPending s,
   freed_busy s).

Lemma acct_same own s s' :
  open_ s' = open_ s -> connectEvent s' = connectEvent s -> nextPipe s' = nextPipe s ->
  pipe <$> pipes s' = pipe <$> pipes s -> acct own s -> acct own s'.
Proof.
  intros Ho He Hn Hp [H1 H2].
  assert (forall x h, holds own s' x h <-> holds own s x h) as Hh.
  { intros [| |p] h; simpl; rewrite ?He, ?Hn; [done..|].
    apply (f_equal (fun m => m !! p)) in Hp. rewrite !lookup_fmap in Hp.
    destruct (pipes s' !! p), (pipes s !! p); simpl in Hp; simplify_eq; [|done].
    split; intros (? & [= <-] & <-); by eexists. }
  split.
  - intros h. rewrite Ho, H1. by setoid_rewrite Hh.
  - intros x y h. rewrite !Hh. apply H2.
Qed.

Lemma acct_update own s p i j :
  pipes s !! p = Some i -> pipe j = pipe i -> acct own s -> acct own (s <| pipes ::= <[p := j]> |>).
Proof.
  intros Hp Hj. apply acct_same; try done. simpl. rewrite fmap_insert, Hj.
  apply insert_id. by rewrite lookup_fmap, Hp.
Qed.

Lemma ClosePipeInstance_control p s : control (ClosePipeInstance p s) = control s.
Proof. unfold ClosePipeInstance. destruct (pipes s !! p) as [i|]; [|done]. by destruct (pipe i). Qed.

Lemma ClosePipeInstance_pipes p s : pipes (ClosePipeInstance p s) = delete p (pipes s).
Proof.
  unfold ClosePipeInstance. destruct (pipes s !! p) as [i|] eqn:E; [by destruct (pipe i)|].
  by rewrite delete_id.
Qed.

Lemma ClosePipeInstance_open p s h :
  h ∈ open_ (ClosePipeInstance p s) <->
  h ∈ open_ s /\ ~ exists i, pipes s !! p = Some i /\ pipe i = Handle h.
Proof.
  unfold ClosePipeInstance. destruct (pipes s !! p) as [i|] eqn:E.
  2:{ split; [|tauto]. intros Ho. split; [done|]. by intros (? & ? & ?). }
  destruct (pipe i) as [| |n] eqn:Ei; cbn.
  1,2: split; [|tauto]; intros Ho; (split; [done|]); intros (j & [= <-] & Hj); congruence.
  rewrite elem_of_difference, elem_of_singleton.
  split; intros [H1 H2]; (split; [done|]); [intros (j & [= <-] & Hj); congruence|].
  intros ->. apply H2. by eexists.
Qed.

Lemma ClosePipeInstance_acct own p s : acct own s -> acct own (ClosePipeInstance p s).
Proof.
  intros [H1 H2]. pose proof (ClosePipeInstance_control p s) as Hc.
  injection Hc as _ _ _ _ He _ Hn _ _.
  assert (forall x h, holds own (ClosePipeInstance p s) x h <-> holds own s x h /\ x <> HInst p) as Hh.
  { intros [| |q] h; simpl; rewrite ?He, ?Hn; [naive_solver..|].
    rewrite ClosePipeInstance_pipes. destruct (decide (q = p)) as [->|].
    - rewrite lookup_delete_eq. naive_solver.
    - rewrite lookup_delete_ne by congruence. naive_solver. }
  split.
  - intros h. rewrite ClosePipeInstance_open, H1. setoid_rewrite Hh. split.
    + intros [[x Hx] Hn']. exists x. split; [done|]. intros ->. by apply Hn'.
    + intros (x & Hx & Hne). split; [by exists x|]. intros Hi. apply Hne. by apply (H2 x (HInst p) h).
  - intros x y h. rewrite !Hh. intros [? _] [? _]. by eapply H2.
Qed.

(** *** The completion routines *)

Lemma issue_spec ok op p s :
  issue ok op p s = (false, s) \/
  exists i, pipes s !! p = Some i /\
    issue ok op p s = (true, s <| pipes ::= <[p := i <| overlap_io := Some op |>]> |>).
Proof.
  unfold issue. destruct (pipes s !! p) as [i|]; [|by left].
  destruct (ok && is_open (pipe i) s); [right; by exists i|by left].
Qed.

(** A routine that ends by closing [p] or by leaving an operation of [p]. *)
Definition routine_ok (p : nat) (s s' : server) : Prop :=
  control s' = control s /\ (forall own, acct own s -> acct own s') /\
  ((forall q i, q <> p -> pipes s !! q = Some i -> busy i) -> all_busy s').

Lemma close_routine p s : routine_ok p s (ClosePipeInstance p s).
Proof.
  split; [apply ClosePipeInstance_control|]. split; [intros; by apply ClosePipeInstance_acct|].
  intros Hb q i. rewrite ClosePipeInstance_pipes, lookup_delete_Some. intros []. eauto.
Qed.

Lemma issue_routine op p s i :
  pipes s !! p = Some i -> routine_ok p s (s <| pipes ::= <[p := i <| overlap_io := Some op |>]> |>).
Proof.
  intros Hp. split; [done|]. split; [intros own; by apply acct_update with i|].
  intros Hb q j. simpl. destruct (decide (q = p)) as [->|].
  - rewrite lookup_insert_eq. intros [= <-]. by eexists.
  - rewrite lookup_insert_ne by congruence. eauto.
Qed.

Lemma CompletedWriteCallback_ok err n ok p s : routine_ok p s (CompletedWriteCallback err n ok p s).
Proof.
  unfold CompletedWriteCallback. destruct (_ && _); [|apply close_routine].
  destruct (issue_spec ok IoRead p s) as [->|(i & Hi & ->)]; [apply close_routine|by apply issue_routine].
Qed.

Lemma routine_ok_pre p s s1 s' :
  control s1 = control s -> (forall own, acct own s -> acct own s1) ->
  (forall q, q <> p -> pipes s1 !! q = pipes s !! q) -> routine_ok p s1 s' -> routine_ok p s s'.
Proof.
  intros Hc Ha Hp (R1 & R2 & R3). split; [congruence|]. split; [auto|].
  intros Hb. apply R3. intros q i Hq. rewrite Hp by done. by apply Hb.
Qed.

Lemma CompletedReadCallback_ok err n ok p s : routine_ok p s (CompletedReadCallback err n ok p s).
Proof.
  unfold CompletedReadCallback. destruct (_ && _); [|apply close_routine].
  destruct (pipes s !! p) as [i|] eqn:Hp; [|apply close_routine].
  destruct (HandleRequest (request i) (drv s)) as [resp d].
  set (s1 := s <| drv := d |> <| pipes ::= <[p := i <| response := resp |>]> |>).
  assert (pipes s1 !! p = Some (i <| response := resp |>)) as Hp1 by (apply lookup_insert_eq).
  apply (routine_ok_pre p s s1); [done| | |].
  { intros own Ha. apply (acct_update own (s <| drv := d |>) p i); [done..|].
    by apply (acct_same own s). }
  { intros q Hq. simpl. by rewrite lookup_insert_ne. }
  clearbody s1.
  destruct (issue_spec ok IoWrite p s1) as [->|(j & Hj & ->)]; cbn [fst snd];
    [set (s2 := s1 <| answered ::= _ |>)|set (s2 := s1 <| answered ::= fun l => l ++ [(p, request i, resp, true)] |>)].
  all: assert (forall own, acct own s1 -> acct own s2) by (intros own; by apply acct_same).
  - apply (routine_ok_pre p s1 s2); [done..|apply close_routine].
  - apply (routine_ok_pre p s1 s2); [done..|]. by apply (issue_routine IoWrite p s2 j).
Qed.

Lemma complete_ok c s s' :
  complete c s = Some s' -> routine_ok (c_inst c) s s'.
Proof.
  unfold complete. intros H. apply bind_Some in H as (i & Hp & H).
  destruct (overlap_io i) as [[]|]; [| |done]; injection H as <-.
  all: match goal with |- routine_ok _ _ (_ _ _ _ _ ?s1) => apply (routine_ok_pre _ s s1) end; try done.
  all: try (intros own; by apply acct_update with i).
  all: try (intros q Hq; simpl; by rewrite lookup_insert_ne).
  - apply CompletedReadCallback_ok.
  - apply CompletedWriteCallback_ok.
Qed.

Lemma complete_all_ok cs s s' :
  complete_all cs s = Some s' ->
  control s' = control s /\ (forall own, acct own s -> acct own s') /\ (all_busy s -> all_busy s').
Proof.
  revert s. induction cs as [|c cs IH]; intros s; simpl; [by intros [= <-]|].
  intros H. apply bind_Some in H as (s1 & H1 & H2).
  apply complete_ok in H1 as (A1 & A2 & A3). apply IH in H2 as (B1 & B2 & B3).
  split; [congruence|]. split; [auto|]. intros Hb. apply B3, A3. intros q i _. apply Hb.
Qed.

(** *** The guard *)

Lemma free_instance_fields e s :
  connectEvent (free_instance s e) = connectEvent s /\ nextPipe (free_instance s e) = nextPipe s /\
  pipes (free_instance s e) = pipes s /\ stop (free_instance s e) = stop s /\
  stop_pc_ (free_instance s e) = stop_pc_ s.
Proof. unfold free_instance. by case_decide; destruct (pipe e.2). Qed.

Lemma free_instance_sets e s h q :
  (h ∈ open_ (free_instance s e) <-> h ∈ open_ s /\ pipe e.2 <> Handle h) /\
  (q ∈ freed_busy (free_instance s e) <-> q ∈ freed_busy s \/ (q = e.1 /\ busy e.2)).
Proof.
  unfold free_instance.
  case_decide; destruct (pipe e.2) as [| |n]; cbn; split;
    rewrite ?elem_of_difference, ?elem_of_union, ?elem_of_singleton; naive_solver.
Qed.

Lemma free_all l s :
  let s' := foldl free_instance s l in
  connectEvent s' = connectEvent s /\ nextPipe s' = nextPipe s /\ pipes s' = pipes s /\
  stop s' = stop s /\ stop_pc_ s' = stop_pc_ s /\
  (forall h, h ∈ open_ s' <-> h ∈ open_ s /\ Forall (fun e => pipe e.2 <> Handle h) l) /\
  (forall q, q ∈ freed_busy s' <-> q ∈ freed_busy s \/ exists i, (q, i) ∈ l /\ busy i).
Proof.
  revert s. induction l as [|e l IH]; intros s; cbv zeta; cbn [foldl].
  { split_and!; try done; [by intros h; split; [|intros []]|].
    intros q. split; [by left|]. intros [?|(i & Hi & _)]; [done|]. by apply elem_of_nil in Hi. }
  pose proof (free_instance_fields e s) as (F1 & F2 & F3 & F4 & F5).
  destruct (IH (free_instance s e)) as (I1 & I2 & I3 & I4 & I5 & I6 & I7).
  split_and!; try congruence.
  - intros h. rewrite I6, (proj1 (free_instance_sets e s h 0)), list.Forall_cons. tauto.
  - intros q. rewrite I7, (proj2 (free_instance_sets e s 0 q)). destruct e as [p i]. cbn. split.
    + intros [[?|[-> ?]]|(j & ? & ?)]; [by left|right; exists i|right; exists j];
        (split; [|done]); by constructor.
    + intros [?|(j & [[= -> ->]|?]%elem_of_cons & ?)]; [by left; left|by left; right|right; by exists j].
Qed.

Lemma guard_spec s :
  acct true s ->
  pipes (guard s) = ∅ /\ running (guard s) = false /\ (forall h, connectEvent (guard s) <> Handle h) /\
  nextPipe (guard s) = nextPipe s /\ stop (guard s) = stop s /\ stop_pc_ (guard s) = stop_pc_ s /\
  (forall h, h ∈ open_ (guard s) <-> nextPipe s = Handle h) /\
  (forall q, q ∈ freed_busy (guard s) <-> q ∈ freed_busy s \/ exists i, pipes s !! q = Some i /\ busy i).
Proof.
  intros [A1 A2]. unfold guard.
  destruct (free_all (map_to_list (pipes s)) (s <| pipes := ∅ |>)) as (I1 & I2 & I3 & I4 & I5 & I6 & I7).
  set (s1 := foldl _ _ _) in *. clearbody s1. cbn in I1, I2, I3, I4, I5, I6, I7.
  assert (forall q, q ∈ freed_busy s1 <-> q ∈ freed_busy s \/ exists i, pipes s !! q = Some i /\ busy i) as Hf.
  { intros q. rewrite I7. by split; (intros [?|(i & Hi & ?)]; [by left|right; exists i]);
      rewrite elem_of_map_to_list in *. }
  assert (forall h, h ∈ open_ s1 <-> holds true s HEvent h \/ nextPipe s = Handle h) as Ho.
  { intros h. rewrite I6, A1, list.Forall_forall. split.
    - intros [[[| |p] Hx] Hn]; [by left|by right; apply Hx|].
      destruct Hx as (i & Hp & Hi). exfalso. apply (Hn (p, i)); [by apply elem_of_map_to_list|done].
    - assert (forall x, holds true s x h -> (forall p, x <> HInst p) ->
        forall e, e ∈ map_to_list (pipes s) -> pipe e.2 <> Handle h) as Hx.
      { intros x Hx Hn [p i] Hp Hi. apply elem_of_map_to_list in Hp. apply (Hn p).
        apply (A2 x (HInst p) h); [done|]. by exists i. }
      intros [H|H].
      + split; [by exists HEvent|]. by apply (Hx HEvent).
      + split; [by exists HNext|]. by apply (Hx HNext). }
  cbn [holds] in Ho. rewrite <-I1 in Ho.
  assert (forall h, connectEvent s1 = Handle h -> nextPipe s <> Handle h) as Hd.
  { intros h He Hn. rewrite I1 in He. by specialize (A2 HEvent HNext h He (conj eq_refl Hn)). }
  cbn [connectEvent upd]. destruct (connectEvent s1) as [| |n] eqn:E; cbn; rewrite ?E.
  1,2: split_and!; try done; intros h; rewrite Ho; naive_solver.
  split_and!; try done. intros h. rewrite elem_of_difference, elem_of_singleton, Ho.
  split; [naive_solver|]. intros Hn. split; [by right|]. intros ->. by eapply Hd.
Qed.

Lemma guard_answered s : drv (guard s) = drv s /\ answered (guard s) = answered s.
Proof.
  assert (forall l s0, drv (foldl free_instance s0 l) = drv s0 /\
    answered (foldl free_instance s0 l) = answered s0) as H.
  { induction l as [|e l IH]; intros s0; [done|]. cbn [foldl]. destruct (IH (free_instance s0 e)) as [-> ->].
    unfold free_instance. by case_decide; destruct (pipe e.2). }
  unfold guard. destruct (H (map_to_list (pipes s)) (s <| pipes := ∅ |>)) as [H1 H2].
  set (s1 := foldl _ _ _) in *. clearbody s1. cbn [connectEvent upd].
  by destruct (connectEvent s1).
Qed.

(** ** Invariant of the steps *)

(** Whether [nextPipe] is the thread's own handle. *)
Definition owns (t : thread_pc) : bool := match t with PEntry | PConnect => false | _ => true end.

Definition live (t : thread_pc) : bool := match t with PConnect | PTop | PWait | PWoken _ => true | _ => false end.

Record inv (s : server) : Prop := {
  inv_acct : acct (owns (pc s)) s;
  inv_busy : all_busy s;
  inv_entry : pc s = PEntry -> connectEvent s = NullHandle /\ nextPipe s = NullHandle /\ pipes s = ∅;
  inv_live : live (pc s) = true -> exists h, connectEvent s = Handle h;
  inv_done : pc s = PDone -> pipes s = ∅ /\ running s = false /\ forall h, connectEvent s <> Handle h;
  inv_freed : pc s <> PDone -> freed_busy s = ∅;
  inv_stop : stop s = false <-> stop_pc_ s = SIdle;
  inv_event : pc s = PWait -> match stop_pc_ s with
    | SRead ev => ev = connectEvent s | SSet | SJoined => signaled s = true | _ => True end }.

Lemma Run_inv d : inv (Run d).
Proof.
  constructor; try done; cbn.
  split; [|by intros [| |p] y h; cbn; [|intros []|intros (? & [=] & _)]].
  intros h. split; [intros H; by apply elem_of_empty in H|].
  intros [[| |p] Hx]; cbn in Hx; [done|by destruct Hx|by destruct Hx as (? & [=] & _)].
Qed.

(** A handle the server takes over becomes that of an owner without one. *)
Lemma acct_open own own' s s' x h :
  h ∉ open_ s -> open_ s' = {[h]} ∪ open_ s ->
  (forall y k, holds own' s' y k <-> holds own s y k \/ (y = x /\ k = h)) ->
  acct own s -> acct own' s'.
Proof.
  intros Hf Ho Hh [A1 A2]. split.
  - intros k. rewrite Ho, elem_of_union, elem_of_singleton, A1. setoid_rewrite Hh. naive_solver.
  - assert (forall y, ~ holds own s y h) as Hn by (intros y Hy; apply Hf, A1; by exists y).
    intros y z k. rewrite !Hh. intros [Hy|[-> ->]] [Hz|[-> Hk]]; subst; [by eapply A2| |..].
    + by destruct (Hn y).
    + by destruct (Hn z).
    + done.
Qed.

Lemma acct_holds own own' s s' :
  open_ s' = open_ s -> (forall x h, holds own' s' x h <-> holds own s x h) -> acct own s -> acct own' s'.
Proof.
  intros Ho Hh [A1 A2]. split; [intros h; rewrite Ho, A1; by setoid_rewrite Hh|].
  intros x y h. rewrite !Hh. apply A2.
Qed.

Lemma CreateAndConnectInstance_spec r s pending h s1 (s' := s1 <| connectPending := pending |> <| nextPipe := h |>) :
  fresh_result r s = true -> CreateAndConnectInstance r s = (pending, h, s1) -> acct false s ->
  acct true s' /\ pipes s1 = pipes s /\ connectEvent s1 = connectEvent s /\ stop s1 = stop s /\
  stop_pc_ s1 = stop_pc_ s /\ freed_busy s1 = freed_busy s.
Proof.
  intros Hf Hc Ha.
  assert (h = InvalidHandle -> open_ s1 = open_ s -> pipes s1 = pipes s ->
    connectEvent s1 = connectEvent s -> acct true s') as Hinv.
  { intros -> Ho Hp He. apply (acct_holds false _ s); [done| |done].
    intros [| |p] k; cbn; rewrite ?Hp, ?He; naive_solver. }
  assert (forall n, h = Handle n -> n ∉ open_ s -> open_ s1 = {[n]} ∪ open_ s -> pipes s1 = pipes s ->
    connectEvent s1 = connectEvent s -> acct true s') as Hval.
  { intros n -> Hn Ho Hp He. apply (acct_open false _ s _ HNext n); [done..| |done].
    intros [| |p] k; cbn; rewrite ?Hp, ?He; naive_solver. }
  assert (forall n, n ∉ open_ s -> ({[n]} ∪ open_ s) ∖ {[n]} = open_ s) as Hd by (intros; set_solver).
  destruct r as [|n|n []|n sig]; cbn in Hf, Hc; rewrite ?bool_decide_eq_true in Hf; injection Hc as <- <- <-.
  all: split; [|by cbn].
  - by apply Hinv.
  - by apply (Hval n).
  - by apply (Hval n).
  - apply Hinv; [done|by apply Hd|done..].
  - apply Hinv; [done|by apply Hd|done..].
Qed.

Lemma CreatePipeInstance_acct p s :
  pipes s !! p = None -> acct true s -> acct false (CreatePipeInstance p (nextPipe s) s).
Proof.
  intros Hp [A1 A2].
  set (ren := fun x => match x with HInst q => if decide (q = p) then HNext else HInst q | HNext => HNext | _ => x end).
  assert (forall x h, holds false (CreatePipeInstance p (nextPipe s) s) x h <->
    holds true s (ren x) h /\ x <> HNext) as Hh.
  { intros [| |q] h; cbn; [naive_solver..|]. destruct (decide (q = p)) as [->|].
    - rewrite lookup_insert_eq. cbn. split; [by intros (? & [= <-] & Hi)|]. intros [[_ Hi] _].
      by eexists.
    - rewrite lookup_insert_ne by congruence. cbn. naive_solver. }
  assert (forall h, ~ holds true s (HInst p) h) as Hno by (intros h (i & Hi & _); congruence).
  split.
  - intros h. cbn [open_ CreatePipeInstance upd]. rewrite A1. setoid_rewrite Hh. split.
    + intros [[| |q] Hx]; [by exists HEvent| |].
      * exists (HInst p). unfold ren. by rewrite decide_True.
      * exists (HInst q). unfold ren. rewrite decide_False by (intros ->; by eapply Hno). done.
    + intros (x & Hx & _). by eexists.
  - intros x y h. rewrite !Hh. intros [Hx Hxn] [Hy Hyn].
    pose proof (A2 _ _ _ Hx Hy) as E. unfold ren in E. clear -E Hxn Hyn.
    destruct x, y; repeat case_decide; simplify_eq; done.
Qed.

Lemma control_inv s s' : control s' = control s -> acct (owns (pc s)) s' -> all_busy s' -> inv s -> 
  pc s <> PDone -> pc s <> PEntry -> inv s'.
Proof.
  intros Hc Ha Hb [I1 I2 I3 I4 I5 I6 I7 I8] Hd He. injection Hc as E1 E2 E3 E4 E5 E6 E7 E8 E9.
  constructor; rewrite ?E1, ?E2, ?E4, ?E5, ?E6, ?E9; auto; intros ?; contradiction.
Qed.

(** Moving on from a live point of the thread, with nothing else changed. *)
Lemma move_inv s t :
  inv s -> live (pc s) = true -> t <> PDone -> t <> PEntry -> owns t = owns (pc s) ->
  (t = PWait -> stop s = false) -> inv (s <| pc := t |>).
Proof.
  intros [I1 I2 I3 I4 I5 I6 I7 I8] Hl Hd He Ho Hw. constructor; cbn; try done; auto.
  - rewrite Ho. by apply acct_same with s.
  - intros _. apply I6. by destruct (pc s).
  - intros Ht. apply Hw, I7 in Ht. by rewrite Ht.
Qed.

Lemma woken_inv w ov p ok s :
  pc s = PWoken w -> pipes s !! p = None -> inv s -> inv (woken w ov p ok s).
Proof.
  intros Hpc Hp Hi. unfold woken.
  assert (live (pc s) = true) as Hl by (by rewrite Hpc).
  destruct (stop s) eqn:Hs; [apply move_inv; try done; by rewrite Hpc|].
  destruct w; [|apply move_inv; try done; by rewrite Hpc..].
  pose proof Hi as [I1 I2 I3 I4 I5 I6 I7 I8]. rewrite Hpc in I1, I4, I6. cbn in I1. specialize (I6 ltac:(done)).
  destruct (connectPending s && negb ov).
  - assert (acct true ((CloseHandle (nextPipe s) s) <| nextPipe := InvalidHandle |>)) as Ha.
    { destruct I1 as [A1 A2]. destruct (nextPipe s) as [| |n] eqn:En; cbn.
      1,2: apply (acct_holds true _ s); [done| |done]; intros [| |q] k; cbn; rewrite ?En; naive_solver.
      assert (forall x h, holds true ((CloseHandle (Handle n) s) <| nextPipe := InvalidHandle |>) x h <->
        holds true s x h /\ h <> n) as Hh.
      { intros x h. split.
        - destruct x as [| |q]; [|by intros []|]; intros Hx; (split; [exact Hx|]); intros ->.
          + by specialize (A2 HEvent HNext n Hx (conj eq_refl En)).
          + by specialize (A2 (HInst q) HNext n Hx (conj eq_refl En)).
        - destruct x as [| |q]; [by intros []| |by intros []].
          intros [[_ Hx] Hn]. congruence. }
      split.
      - intros h. cbn [open_ CloseHandle upd]. rewrite elem_of_difference, elem_of_singleton, A1.
        setoid_rewrite Hh. naive_solver.
      - intros x y h. rewrite !Hh. intros [? _] [? _]. by eapply A2. }
    set (s1 := (CloseHandle (nextPipe s) s) <| nextPipe := InvalidHandle |>) in *.
    assert (pipes s1 = pipes s /\ stop s1 = stop s /\ stop_pc_ s1 = stop_pc_ s /\ freed_busy s1 = freed_busy s)
      as (E1 & E2 & E3 & E4) by (unfold s1; by destruct (nextPipe s)).
    clearbody s1. constructor; cbn; [by apply acct_same with s1|..]; unfold all_busy; cbn; rewrite ?E1, ?E2, ?E3, ?E4; done.
  - pose proof (CreatePipeInstance_acct p s Hp I1) as Ha.
    set (s1 := CreatePipeInstance p (nextPipe s) s) in *.
    destruct (CompletedWriteCallback_ok 0 sizeof_Response ok p s1) as (Hc & Hk & Hb).
    set (s2 := CompletedWriteCallback 0 sizeof_Response ok p s1) in *.
    assert (control s2 = control s) as E by (by rewrite Hc). clear Hc.
    assert (all_busy s2) as Hb2.
    { apply Hb. intros q i Hq. unfold s1. cbn. rewrite lookup_insert_ne by congruence. apply I2. }
    specialize (Hk false Ha). clearbody s2. injection E as E1 E2 E3 E4 E5 E6 E7 E8 E9.
    constructor; cbn; [by apply acct_same with s2|done|..]; rewrite ?E2, ?E4, ?E5, ?E9; try done; auto.
Qed.

Lemma step_inv l s s' : step l s = Some s' -> inv s -> inv s'.
Proof.
  intros Hs Hi. pose proof Hi as [I1 I2 I3 I4 I5 I6 I7 I8].
  destruct l as [[h|]|r| |w cs|ov p ok| | |]; cbn [step] in Hs.
  - destruct (pc s) eqn:Hpc; try done. case_decide as Hf; [done|]. injection Hs as <-.
    destruct (I3 eq_refl) as (E1 & E2 & E3).
    constructor; cbn; try done; [|by intros _; exists h|by intros _; apply I6].
    apply (acct_open false _ s _ HEvent h); [done..| |done]. clear - E1 E3.
    intros [| |q] k; cbn; rewrite ?E1, ?E3, ?lookup_empty; naive_solver.
  - destruct (pc s) eqn:Hpc; try done. injection Hs as <-.
    destruct (I3 eq_refl) as (E1 & E2 & E3).
    constructor; cbn; try done; [|by intros _; apply I6].
    apply (acct_holds false _ s); [done| |done]. clear - E1 E2. intros [| |q] k; cbn; rewrite ?E1, ?E2; naive_solver.
  - destruct (pc s) eqn:Hpc; try done. destruct (fresh_result r s) eqn:Hf; [|done].
    destruct (CreateAndConnectInstance r s) as [[pending h] s1] eqn:Hc. injection Hs as <-.
    destruct (CreateAndConnectInstance_spec r s pending h s1 Hf Hc I1) as (Ha & E1 & E2 & E3 & E4 & E5).
    constructor; cbn; [by eapply acct_same; [..|exact Ha]|unfold all_busy; cbn; by rewrite E1|..];
      rewrite ?E2, ?E3, ?E4, ?E5; try done; auto.
  - destruct (pc s) eqn:Hpc; try done. injection Hs as <-.
    apply move_inv; rewrite ?Hpc; try done; by destruct (stop s).
  - destruct w, (pc s) eqn:Hpc; try (by destruct cs).
    + destruct cs; [|done]. destruct (signaled s); [|done]. injection Hs as <-. apply move_inv; by rewrite ?Hpc.
    + destruct cs as [|c cs]; [done|]. apply bind_Some in Hs as (s1 & Hs1 & [= <-]).
      apply complete_all_ok in Hs1 as (Hc & Ha & Hb). assert (pc s1 = PWait) as Hpc1 by (injection Hc; congruence).
      apply move_inv; rewrite ?Hpc1; try done.
      apply control_inv with s; rewrite ?Hpc; try done; auto.
    + destruct cs; [|done]. injection Hs as <-. apply move_inv; by rewrite ?Hpc.
  - destruct (pc s) eqn:Hpc; try done. case_decide; [|done]. injection Hs as <-. by apply woken_inv.
  - destruct (pc s) eqn:Hpc; try done. injection Hs as <-.
    destruct (guard_spec s I1) as (G1 & G2 & G3 & G4 & G5 & G6 & G7 & G8).
    set (g := guard s) in *. clearbody g.
    constructor; cbn; rewrite ?G5, ?G6; try done.
    + split.
      * intros h. cbn [open_ upd]. rewrite G7. split; [intros Hn; exists HNext; cbn; by rewrite G4|].
        intros [[| |q] Hx]; cbn in Hx; [by destruct (G3 h)|rewrite <-G4; apply Hx|].
        destruct Hx as (i & Hq & _). by rewrite G1, lookup_empty in Hq.
      * assert (forall x h, holds true (g <| pc := PDone |>) x h -> x = HNext) as Hx.
        { intros [| |q] h; cbn; [by intros ?%G3|done|]. intros (i & Hq & _). by rewrite G1, lookup_empty in Hq. }
        intros x y h Hxh Hyh. by rewrite (Hx _ _ Hxh), (Hx _ _ Hyh).
    + unfold all_busy. cbn. by rewrite G1.
  - assert (inv (s <| signaled := true |>)) as Hi'.
    { constructor; cbn; try done; try (by apply acct_same with s). intros Hw. specialize (I8 Hw).
      by destruct (stop_pc_ s). }
    destruct (pc s); try done; destruct (connectPending s); try done; by injection Hs as <-.
  - assert (stop_step s = Some s') as Hs' by (by destruct (pc s)). clear Hs.
    assert (pc s = PWait -> exists h, connectEvent s = Handle h /\ h ∈ open_ s) as Hev.
    { intros Hw. destruct (I4 ltac:(by rewrite Hw)) as [h Hh]. exists h. split; [done|].
      apply (proj1 I1). by exists HEvent. }
    unfold stop_step in Hs'.
    destruct (stop_pc_ s) as [| |[| |h]| |] eqn:Est; try (injection Hs' as <-); try done;
      [..|destruct (decide (pc s = PDone)); [|done]; injection Hs' as <-];
      constructor; cbn; try done; try (by apply acct_same with s); try (by rewrite I7);
      intros Hw; specialize (I8 Hw); destruct (Hev Hw) as (k & Hk & Ho); [congruence..|].
    assert (h = k) as -> by congruence. by rewrite bool_decide_eq_true_2, orb_true_r.
Qed.

Lemma run_inv ls s s' : run ls s = Some s' -> inv s -> inv s'.
Proof.
  revert s. induction ls as [|l ls IH]; intros s; cbn; [by intros [= <-]|].
  intros H Hi. apply bind_Some in H as (s1 & H1 & H2). apply (IH s1); [done|]. by eapply step_inv.
Qed.

(** ** Answers *)

(** The buffer a client is being sent is the answer to its last request. *)
Definition last_answer (p : nat) (i : PipeInstance) (l : list (nat * Req * Resp * bool)) : Prop :=
  exists l1 l2, l = l1 ++ (p, request i, response i, true) :: l2 /\ Forall (fun e => e.1.1.1 <> p) l2.

Record conv (d0 : D) (s : server) : Prop := {
  conv_seq : answer_all d0 (map (fun e => e.1.1) (answered s)) = (map fst (answered s), drv s);
  conv_write : forall p i, pipes s !! p = Some i -> overlap_io i = Some IoWrite ->
    last_answer p i (answered s) }.

Lemma answer_all_snoc d p r rs l d' :
  answer_all d rs = (l, d') ->
  answer_all d (rs ++ [(p, r)]) = (l ++ [(p, r, (HandleRequest r d').1)], (HandleRequest r d').2).
Proof.
  revert d l. induction rs as [|[q x] rs IH]; intros d l; cbn.
  - intros [= <- <-]. by destruct (HandleRequest r d).
  - destruct (HandleRequest x d) as [a d1]. destruct (answer_all d1 rs) as [l1 d2] eqn:E.
    intros [= <- <-]. by rewrite (IH d1 l1 E).
Qed.

Lemma conv_frame d0 s s' :
  drv s' = drv s -> answered s' = answered s ->
  (forall p i, pipes s' !! p = Some i -> overlap_io i = Some IoWrite -> pipes s !! p = Some i) ->
  conv d0 s -> conv d0 s'.
Proof. intros Hd Ha Hp [C1 C2]. split; [by rewrite Ha, Hd|]. intros p i Hi Ho. rewrite Ha. auto. Qed.

Lemma conv_close d0 p s : conv d0 s -> conv d0 (ClosePipeInstance p s).
Proof.
  apply conv_frame.
  1,2: unfold ClosePipeInstance; destruct (pipes s !! p) as [i|]; [by destruct (pipe i)|done].
  intros q i. rewrite ClosePipeInstance_pipes, lookup_delete_Some. tauto.
Qed.

Lemma conv_insert d0 p i s :
  overlap_io i <> Some IoWrite -> conv d0 s -> conv d0 (s <| pipes ::= <[p := i]> |>).
Proof.
  intros Hi. apply conv_frame; [done..|]. intros q j. cbn. rewrite lookup_insert_Some.
  intros [[<- <-]|[_ ?]]; [done|auto].
Qed.

Lemma conv_write_callback d0 err n ok p s : conv d0 s -> conv d0 (CompletedWriteCallback err n ok p s).
Proof.
  intros Hc. unfold CompletedWriteCallback. destruct (_ && _); [|by apply conv_close].
  destruct (issue_spec ok IoRead p s) as [->|(i & _ & ->)]; [by apply conv_close|by apply conv_insert].
Qed.

Lemma conv_read_callback d0 err n ok p i s :
  pipes s !! p = Some i -> overlap_io i = None -> conv d0 s -> conv d0 (CompletedReadCallback err n ok p s).
Proof.
  intros Hp Hi [C1 C2]. unfold CompletedReadCallback. destruct (_ && _); [|by apply conv_close].
  rewrite Hp. destruct (HandleRequest (request i) (drv s)) as [resp d] eqn:Eh.
  set (s1 := s <| drv := d |> <| pipes ::= <[p := i <| response := resp |>]> |>).
  assert (forall b s2, answered s2 = answered s ++ [(p, request i, resp, b)] -> drv s2 = d ->
    (forall q j, pipes s2 !! q = Some j -> overlap_io j = Some IoWrite ->
      (q <> p /\ pipes s !! q = Some j) \/ (q = p /\ b = true /\ request j = request i /\ response j = resp)) ->
    conv d0 s2) as Hnew.
  { intros b s2 Ha Hd Hw. split.
    - rewrite Ha, !map_app. cbn. rewrite (answer_all_snoc _ _ _ _ _ _ C1), Hd, Eh. done.
    - intros q j Hq Ho. rewrite Ha. destruct (Hw q j Hq Ho) as [[Hne Hj]|(-> & -> & Hr & Hs)].
      + destruct (C2 q j Hj Ho) as (l1 & l2 & -> & Hl). exists l1, (l2 ++ [(p, request i, resp, b)]).
        split; [by rewrite <-app_assoc|]. apply Forall_app_2; [done|]. by repeat constructor.
      + exists (answered s), []. by rewrite Hr, Hs. }
  destruct (issue_spec ok IoWrite p s1) as [->|(j & Hj & ->)]; cbn [fst snd].
  - apply conv_close, (Hnew false); try done. intros q j. cbn. rewrite lookup_insert_Some.
    intros [[<- <-]|[Hne Hq]] Ho; [cbn in Ho; congruence|by left].
  - apply (Hnew true); try done. intros q k. cbn in Hj |- *. rewrite lookup_insert_eq in Hj. injection Hj as <-.
    rewrite insert_insert_eq, lookup_insert_Some.
    intros [[<- <-]|[Hne Hq]] Ho; [right; by cbn|by left].
Qed.

Lemma conv_complete d0 c s s' : complete c s = Some s' -> conv d0 s -> conv d0 s'.
Proof.
  unfold complete. intros H Hc. apply bind_Some in H as (i & Hp & H).
  destruct (overlap_io i) as [[]|]; [| |done]; injection H as <-.
  - eapply conv_read_callback; [apply lookup_insert_eq|done|by apply conv_insert].
  - by apply conv_write_callback, conv_insert.
Qed.

Lemma conv_complete_all d0 cs s s' : complete_all cs s = Some s' -> conv d0 s -> conv d0 s'.
Proof.
  revert s. induction cs as [|c cs IH]; intros s; cbn; [by intros [= <-]|].
  intros H Hc. apply bind_Some in H as (s1 & H1 & H2). apply (IH s1); [done|]. by eapply conv_complete.
Qed.

Lemma conv_step d0 l s s' : inv s -> step l s = Some s' -> conv d0 s -> conv d0 s'.
Proof.
  intros Hi Hs Hc.
  destruct l as [[h|]|r| |w cs|ov p ok| | |]; cbn [step] in Hs.
  all: try (destruct (pc s) eqn:Hpc; try done; repeat case_decide; try done; simplify_eq; by apply conv_frame with s).
  - destruct (pc s); try done. destruct (fresh_result r s); [|done].
    destruct (CreateAndConnectInstance r s) as [[pending h] s1] eqn:E. injection Hs as <-.
    apply conv_frame with s; [..|done]; destruct r as [|n|n []|n sig]; injection E as <- <- <-; done.
  - destruct w, (pc s), cs as [|c cs]; try done; [destruct (signaled s); [|done]| |];
      [injection Hs as <-; by apply conv_frame with s| |injection Hs as <-; by apply conv_frame with s].
    apply bind_Some in Hs as (s1 & Hs1 & [= <-]).
    apply conv_frame with s1; [done..|]. by eapply conv_complete_all.
  - destruct (pc s) eqn:Hpc; try done. case_decide as Hp; [|done]. injection Hs as <-. unfold woken.
    destruct (stop s); [by apply conv_frame with s|]. destruct w; [|by apply conv_frame with s..].
    destruct (_ && _); [by apply conv_frame with s; [..|done]; destruct (nextPipe s)|].
    eapply conv_frame; [..|apply conv_write_callback, (conv_insert d0 p (mkInst None (nextPipe s) req0 resp0) s); [done|exact Hc]]; done.
  - destruct (pc s) eqn:Hpc; try done. injection Hs as <-.
    destruct (guard_spec s) as (G1 & _); [pose proof (inv_acct s Hi) as Ha; by rewrite Hpc in Ha|].
    destruct (guard_answered s) as [G2 G3].
    eapply conv_frame; [exact G2|exact G3| |done]. cbn. rewrite G1. intros q i. by rewrite lookup_empty.
  - destruct (pc s); try done; destruct (connectPending s); try done; injection Hs as <-; by apply conv_frame with s.
  - assert (stop_step s = Some s') as Hs' by (by destruct (pc s)). unfold stop_step in Hs'.
    destruct (stop_pc_ s) as [| |[]| |]; try done; repeat case_decide; simplify_eq; by apply conv_frame with s.
Qed.

Lemma run_conv d0 ls s s' : inv s -> run ls s = Some s' -> conv d0 s -> conv d0 s'.
Proof.
  revert s. induction ls as [|l ls IH]; intros s Hi; cbn; [by intros [= <-]|].
  intros H Hc. apply bind_Some in H as (s1 & H1 & H2). apply (IH s1); [by eapply step_inv|done|].
  by eapply conv_step.
Qed.

(** ** Termination of [Stop] *)

Definition weight (t : thread_pc) : nat :=
  match t with PEntry => 4 | PConnect => 3 | PTop => 2 | PWait => 3 | PWoken _ => 2 | PExit => 1 | PDone => 0 end.

Lemma thread_step_weight l s s' :
  inv s -> stop s = true -> thread_label l = true -> step l s = Some s' ->
  weight (pc s') < weight (pc s) /\ stop s' = true /\ stop_pc_ s' = stop_pc_ s.
Proof.
  intros Hi Hst Hl Hs.
  destruct l as [[h|]|r| |w cs|ov p ok| | |]; try done; cbn [step] in Hs.
  1,2: destruct (pc s); try done; repeat case_decide; simplify_eq; split; [cbn; lia|done].
  - destruct (pc s); try done. destruct (fresh_result r s); [|done].
    destruct (CreateAndConnectInstance r s) as [[pending h] s1] eqn:E. injection Hs as <-.
    split; [cbn; lia|]. cbn. destruct r as [|n|n []|n sig]; injection E as <- <- <-; done.
  - destruct (pc s); try done. injection Hs as <-. rewrite Hst. split; [cbn; lia|done].
  - destruct w, (pc s) eqn:Hpc, cs as [|c cs]; try done; [destruct (signaled s); [|done]| |].
    1,3: injection Hs as <-; split; [cbn; lia|done].
    apply bind_Some in Hs as (s1 & Hs1 & [= <-]). apply complete_all_ok in Hs1 as (Hc & _ & _).
    injection Hc as _ E2 _ E4 _ _ _ _ _. cbn. split; [lia|]. by rewrite E2, E4.
  - destruct (pc s); try done. case_decide; [|done]. injection Hs as <-. unfold woken. rewrite Hst.
    split; [cbn; lia|done].
  - destruct (pc s) eqn:Hpc; try done. injection Hs as <-.
    destruct (guard_spec s) as (_ & _ & _ & _ & G5 & G6 & _);
      [pose proof (inv_acct s Hi) as Ha; by rewrite Hpc in Ha|].
    cbn. rewrite G5, G6. split; [lia|done].
Qed.

Lemma thread_step_enabled s :
  inv s -> stop_pc_ s = SSet -> pc s <> PDone -> exists l s', thread_label l = true /\ step l s = Some s'.
Proof.
  intros Hi Hst Hd. destruct (pc s) as [| | | |w| |] eqn:Hpc; [..|done].
  - exists (LEnter None). cbn. rewrite Hpc. by eexists.
  - exists (LConnect CreateFailed). cbn. rewrite Hpc. by eexists.
  - exists LTest. cbn. rewrite Hpc. by eexists.
  - exists (LWait WakeEvent []). cbn. rewrite Hpc. pose proof (inv_event s Hi Hpc) as He. rewrite Hst in He.
    rewrite He. by eexists.
  - exists (LWoken true (fresh (dom (pipes s))) true). cbn. rewrite Hpc. rewrite decide_True; [by eexists|].
    apply not_elem_of_dom, is_fresh.
  - exists LGuard. cbn. rewrite Hpc. by eexists.
Qed.

Lemma inv_stopped s : inv s -> stop_pc_ s = SSet -> stop s = true.
Proof. intros Hi Hs. destruct (stop s) eqn:E; [done|]. apply (inv_stop s Hi) in E. congruence. Qed.

Lemma thread_finishes n s :
  weight (pc s) <= n -> inv s -> stop_pc_ s = SSet ->
  exists ls s', Forall (fun l => thread_label l = true) ls /\ run ls s = Some s' /\ pc s' = PDone /\
    stop_pc_ s' = SSet.
Proof.
  revert s. induction n as [|n IH]; intros s Hn Hi Hst.
  all: destruct (decide (pc s = PDone)) as [|Hd]; [by exists [], s|].
  - destruct (pc s); cbn in Hn; try lia. done.
  - destruct (thread_step_enabled s Hi Hst Hd) as (l & s1 & Hl & Hs).
    destruct (thread_step_weight l s s1 Hi (inv_stopped s Hi Hst) Hl Hs) as (Hw & _ & Hp).
    destruct (IH s1) as (ls & s2 & H1 & H2 & H3 & H4); [lia|by eapply step_inv|congruence|].
    exists (l :: ls), s2. split_and!; [by constructor| |done|done]. cbn. by rewrite Hs.
Qed.

Lemma thread_bounded ls s s' :
  inv s -> stop s = true -> Forall (fun l => thread_label l = true) ls -> run ls s = Some s' ->
  length ls <= weight (pc s).
Proof.
  revert s. induction ls as [|l ls IH]; intros s Hi Hst Hl Hr; cbn; [lia|].
  apply list.Forall_cons in Hl as [Hl Hls]. cbn in Hr. apply bind_Some in Hr as (s1 & H1 & H2).
  destruct (thread_step_weight l s s1 Hi Hst Hl H1) as (Hw & Hs1 & _).
  specialize (IH s1 ltac:(by eapply step_inv) Hs1 Hls H2). lia.
Qed.

(** ** Properties *)

(** C8: Every handle the server has opened has exactly one owner, every client
    has exactly one operation outstanding, and the guard, on whatever path the
    thread leaves, closes every handle but the one of the pipe that waits for a
    client: that one stays open, and every client still connected is deleted
    with its operation outstanding. *)
Theorem server_exit d ls s (Hr : run ls (Run d) = Some s) :
  (forall h, h ∈ open_ s <-> exists x, holds (owns (pc s)) s x h) /\
  (forall x y h, holds (owns (pc s)) s x h -> holds (owns (pc s)) s y h -> x = y) /\
  (forall p i, pipes s !! p = Some i -> is_Some (overlap_io i)) /\
  forall s', step LGuard s = Some s' ->
    pipes s' = ∅ /\ running s' = false /\
    (forall h, h ∈ open_ s' <-> nextPipe s = Handle h) /\ freed_busy s' = dom (pipes s).
Proof.
  pose proof (run_inv ls _ _ Hr (Run_inv d)) as Hi.
  split; [apply (inv_acct s Hi)|]. split; [apply (inv_acct s Hi)|]. split; [apply (inv_busy s Hi)|].
  intros s' Hs. cbn in Hs. destruct (pc s) eqn:Hpc; try done. injection Hs as <-.
  destruct (guard_spec s) as (G1 & G2 & _ & _ & _ & _ & G7 & G8);
    [pose proof (inv_acct s Hi) as Ha; by rewrite Hpc in Ha|].
  split_and!; [done..|]. cbn. apply set_eq. intros q. rewrite G8, (inv_freed s Hi), elem_of_dom by congruence.
  split; [intros [Hq|(i & -> & _)]; [by apply elem_of_empty in Hq|by eexists]|].
  intros [i Hq]. right. exists i. split; [done|]. apply (inv_busy s Hi _ _ Hq).
Qed.

(** C9: The asynchronous server answers as a sequential one: whatever the order
    of completions and failures, the answers given are those of one call of
    the handler after the other on the driver's state, and the buffer being
    written to a client is the answer to that client's last request. *)
Theorem server_sequential d ls s (Hr : run ls (Run d) = Some s) :
  answer_all d (map (fun e => e.1.1) (answered s)) = (map fst (answered s), drv s) /\
  forall p i, pipes s !! p = Some i -> overlap_io i = Some IoWrite ->
    exists l1 l2, answered s = l1 ++ (p, request i, response i, true) :: l2 /\
      Forall (fun e => e.1.1.1 <> p) l2.
Proof.
  destruct (run_conv d ls _ s (Run_inv d) Hr) as [C1 C2]; [|by split].
  split; [done|]. intros p i. cbn. by rewrite lookup_empty.
Qed.

(** C10: Once [Stop] has set its flag and signalled the event, the thread never
    blocks again: it can always move on, it ends after at most four of its own
    steps whatever the system answers, and [Stop]'s join then returns. *)
Theorem stop_joins d ls s (Hr : run ls (Run d) = Some s) (Hset : stop_pc_ s = SSet) :
  (exists ls' s', Forall (fun l => thread_label l = true) ls' /\ run ls' s = Some s' /\
     pc s' = PDone /\ step LStop s' = Some (s' <| stop_pc_ := SJoined |>)) /\
  (pc s <> PDone -> exists l s', thread_label l = true /\ step l s = Some s') /\
  forall ls' s', Forall (fun l => thread_label l = true) ls' -> run ls' s = Some s' -> length ls' <= 4.
Proof.
  pose proof (run_inv ls _ _ Hr (Run_inv d)) as Hi.
  split; [|split].
  - destruct (thread_finishes _ s (le_n _) Hi Hset) as (ls' & s' & H1 & H2 & H3 & H4).
    exists ls', s'. split_and!; [done..|]. cbn [step]. unfold stop_step. by rewrite H4, decide_True.
  - by apply thread_step_enabled.
  - intros ls' s' Hl Hr'. pose proof (thread_bounded ls' s s' Hi (inv_stopped s Hi Hset) Hl Hr') as Hb.
    etransitivity; [exact Hb|]. destruct (pc s); cbn; lia.
Qed.
End Server.

(** ** Witnesses *)

Definition calibration_server := IPCServer_HandleRequest (S := ModuleState) kFeatureCalibration.

Definition small_run (ls : list (@label Request)) : option (@server Request Response (Driver ModuleState)) :=
  run calibration_server RequestInvalid RespInvalid 64 32 ls (Run driver_sample).

(** A client connects and shakes hands, a second one is awaited, then [Stop]. *)
Definition handshake_session : list (@label Request) :=
  [LEnter (Some 1); LConnect (IoPending 2); LTest; LClientConnects; LWait WakeEvent []; LWoken true 7 true;
   LConnect (IoPending 3); LTest; LWait WakeApc [mkCompletion 7 0 64 RequestHandshake true];
   LWoken true 0 true; LTest; LStop; LStop; LStop; LWait WakeEvent []; LWoken true 0 true].

Definition session_end := default (Run driver_sample) (small_run handshake_session).

(** Evaluates whether a step is possible without normalising the state. *)
Lemma is_Some_true {A} (x : option A) : (match x with Some _ => true | None => false end) = true -> is_Some x.
Proof. destruct x; [by eexists|done]. Qed.

Lemma session_runs : small_run handshake_session = Some session_end.
Proof.
  unfold session_end.
  assert (is_Some (small_run handshake_session)) as [s ->] by (apply is_Some_true; vm_compute; reflexivity).
  done.
Qed.

(** The pipe that waited for a second client stays open. *)
Lemma server_exit_witness :
  exists s', step calibration_server RequestInvalid RespInvalid 64 32 LGuard session_end = Some s' /\
    3 ∈ open_ s' /\ freed_busy s' = {[7]}.
Proof.
  destruct (server_exit calibration_server RequestInvalid RespInvalid 64 32 driver_sample handshake_session
    session_end session_runs) as (_ & _ & _ & H).
  assert (is_Some (step calibration_server RequestInvalid RespInvalid 64 32 LGuard session_end)) as [s' E]
    by (apply is_Some_true; vm_compute; reflexivity).
  exists s'. split; [exact E|]. destruct (H s' E) as (_ & _ & H1 & H2). split.
  - apply H1. vm_compute. reflexivity.
  - rewrite H2. vm_compute. reflexivity.
Defined.

Lemma server_sequential_witness :
  map fst (answered session_end) = [(7, RequestHandshake, RespHandshake 18)].
Proof.
  destruct (server_sequential calibration_server RequestInvalid RespInvalid 64 32 driver_sample handshake_session
    session_end session_runs) as [H _].
  apply (f_equal fst) in H. cbn [fst] in H. rewrite <-H. vm_compute. reflexivity.
Defined.

Lemma stop_joins_witness :
  exists ls s', Forall (fun l => thread_label l = true) ls /\
    run calibration_server RequestInvalid RespInvalid 64 32 ls session_end = Some s' /\ pc s' = PDone.
Proof.
  destruct (stop_joins calibration_server RequestInvalid RespInvalid 64 32 driver_sample handshake_session
    session_end session_runs) as ((ls & s' & H1 & H2 & H3 & _) & _); [vm_compute; reflexivity|].
  exists ls, s'. split_and!; done.
Defined.
