(* ===== verification/IpcClient.v ===== *)
(** * The overlay's end of a pipe (core/src/overlay/IpcClientBase)

    Connecting with its handshake, a request and its response, and the one
    reconnect after a broken pipe.  The system's answers (opening, writing,
    reading) are functions of the number of the call; what was opened, written,
    read and closed is kept in a log, the newest first.  The texts of the
    exceptions, and the hooks of the subclasses, which only log, are left out. *)

From S2P Require Import Prelude Shmem PoseProvider InputConfig RouteTable OscRouter Driver.
From stdpp Require Import gmap.

Definition ERROR_BROKEN_PIPE : Z := 109.
Definition ERROR_PIPE_NOT_CONNECTED : Z := 233.
Definition ERROR_NO_DATA : Z := 232.
Definition ERROR_MORE_DATA : Z := 234.

Definition IsBrokenPipeError (code : Z) : bool :=
  (code =? ERROR_BROKEN_PIPE)%Z || (code =? ERROR_PIPE_NOT_CONNECTED)%Z || (code =? ERROR_NO_DATA)%Z.

(** ** The system *)

(** A request or a response that is shorter than its struct is not complete. *)
Inductive write_answer := Written (complete : bool) | WriteError (code : Z).
(** The response with the version its union holds; reading a message that is too
    long fails, and the reads that drain it end in one that is no
    [ERROR_MORE_DATA]: [None] when it succeeds, or its error. *)
Inductive read_answer :=
| ReadResponse (complete : bool) (r : Response) (version : Z)
| ReadError (code : Z)
| ReadTooLong (drained : option Z).

Record Os := mkOs {
  os_create : nat -> option Z;  (* [None]: it is open *)
  os_mode : nat -> option Z;
  os_write : nat -> write_answer;
  os_read : nat -> read_answer }.

Inductive event :=
| Opened (h : nat) | Closed (h : nat) | Wrote (h : nat) (r : Request) | ReadBack (h : nat) (r : Response) (version : Z).

(** ** State *)

Inductive MismatchState := Matching | OverlayNewer | DriverNewer.

(** A handle is the number of the call that opened it. *)
Record Client := mkClient {
  pipe_ : option nat; pipeName_ : list byte; connectionGeneration_ : Z; reconnecting_ : bool;
  mismatchState_ : MismatchState; driverVersion_ : Z; calls : nat; log : list event }.
#[export] Instance client_settable : Settable Client := fun c =>
  mkClient (pipe_ c) (pipeName_ c) (connectionGeneration_ c) (reconnecting_ c) (mismatchState_ c) (driverVersion_ c)
    (calls c) (log c).

Definition client_init : Client := mkClient None [] 0 false Matching 0 0 [].

(** The two kinds of exception; the end of the recursion is neither. *)
Inductive exn := BrokenPipeException (code : Z) | RuntimeError | TooDeep.

Definition M (A : Type) : Type := Client -> (exn + A) * Client.
#[export] Instance M_ret : MRet M := fun A a c => (inr a, c).
#[export] Instance M_bind : MBind M := fun A B k m c =>
  match m c with
  | (inr a, c) => k a c
  | (inl x, c) => (inl x, c)
  end.
Definition throw {A} (x : exn) : M A := fun c => (inl x, c).
Definition modify (f : Client -> Client) : M unit := fun c => (inr tt, f c).
Definition gets {A} (f : Client -> A) : M A := fun c => (inr (f c), c).
(** [try m catch (...) h] *)
Definition catch {A} (m : M A) (h : exn -> M A) : M A := fun c =>
  match m c with
  | (inl TooDeep, c) => (inl TooDeep, c)
  | (inl x, c) => h x c
  | r => r
  end.
(** A call of the system: its number. *)
Definition call : M nat := fun c => (inr (calls c), c <| calls ::= S |>).

Definition Close : M unit := modify (fun c =>
  match pipe_ c with
  | Some h => c <| log ::= cons (Closed h) |> <| pipe_ := None |>
  | None => c
  end).

Section Client.
Context (os : Os).

Definition Send (request : Request) : M unit :=
  p ← gets pipe_;
  match p with
  | None => throw RuntimeError
  | Some h =>
    n ← call;
    modify (fun c => c <| log ::= cons (Wrote h request) |>) ;;
    match os_write os n with
    | WriteError err => Close ;; throw (if IsBrokenPipeError err then BrokenPipeException err else RuntimeError)
    | Written true => mret tt
    | Written false => Close ;; throw RuntimeError
    end
  end.

(** A message that is too long leaves the pipe open. *)
Definition Receive : M (Response * Z) :=
  p ← gets pipe_;
  match p with
  | None => throw RuntimeError
  | Some h =>
    n ← call;
    match os_read os n with
    | ReadTooLong (Some code) =>
      if IsBrokenPipeError code then Close ;; throw (BrokenPipeException code) else throw RuntimeError
    | ReadTooLong None => throw RuntimeError
    | ReadError err => Close ;; throw (if IsBrokenPipeError err then BrokenPipeException err else RuntimeError)
    | ReadResponse false _ _ => Close ;; throw RuntimeError
    | ReadResponse true r v => modify (fun c => c <| log ::= cons (ReadBack h r v) |>) ;; mret (r, v)
    end
  end.

(** A handshake that agrees. *)
Definition agrees (r : Response) (version : Z) : bool :=
  match r with RespHandshake _ => (version =? Version)%Z | _ => false end.

Fixpoint SendBlocking (depth : nat) (request : Request) {struct depth} : M (Response * Z) :=
  match depth with
  | O => throw TooDeep
  | S depth =>
    p ← gets pipe_; name ← gets pipeName_;
    match p with
    | Some _ => mret tt
    | None => match name with [] => throw RuntimeError | _ => Connect depth name end
    end ;;
    catch (Send request ;; Receive) (fun x =>
      match x with
      | BrokenPipeException _ =>
        busy ← gets reconnecting_; name ← gets pipeName_;
        match busy, name with
        | true, _ | _, [] => throw x
        | false, _ =>
          Close ;;
          modify (fun c => c <| reconnecting_ := true |>) ;;
          catch (Connect depth name ;; modify (fun c => c <| reconnecting_ := false |>))
            (fun _ => modify (fun c => c <| reconnecting_ := false |>) ;; throw RuntimeError) ;;
          Send request ;; Receive
        end
      | _ => throw x
      end)
  end
with Connect (depth : nat) (pipeName : list byte) {struct depth} : M unit :=
  match depth with
  | O => throw TooDeep
  | S depth =>
    Close ;;
    modify (fun c => c <| pipeName_ := pipeName |>) ;;
    n ← call;
    match os_create os n with
    | Some _ => throw RuntimeError
    | None =>
      modify (fun c => c <| pipe_ := Some n |> <| log ::= cons (Opened n) |>) ;;
      m ← call;
      match os_mode os m with
      | Some _ => Close ;; throw RuntimeError
      | None =>
        r ← SendBlocking depth RequestHandshake;
        let '(response, version) := r : Response * Z in
        if agrees response version then
          modify (fun c => c <| mismatchState_ := Matching |> <| connectionGeneration_ ::= fun g => u64 (g + 1) |>)
        else
          modify (fun c => c <| driverVersion_ := version |>
            <| mismatchState_ := if (version <? Version)%Z then OverlayNewer else DriverNewer |>) ;;
          Close ;; throw RuntimeError
      end
    end
  end.

(** ** Histories *)

Inductive client_op := DoConnect (name : list byte) | DoSend (r : Request) | DoClose.

(** The recursion: a request connects, the handshake reconnects once. *)
Definition kDepth : nat := 5.

Definition client_step (op : client_op) (c : Client) : Client :=
  match op with
  | DoConnect name => (Connect kDepth name c).2
  | DoSend r => (SendBlocking kDepth r c).2
  | DoClose => (Close c).2
  end.
Definition client_run (c : Client) (ops : list client_op) : Client := fold_left (fun c op => client_step op c) ops c.
End Client.

(** ** The log *)

Definition option_list {A} (o : option A) : list A := match o with Some a => [a] | None => [] end.
Definition handle_of (e : event) : nat := match e with Opened h | Closed h | Wrote h _ | ReadBack h _ _ => h end.
Definition is_handshake (r : Request) : bool := match r with RequestHandshake => true | _ => false end.

(** The handles that are open after a log. *)
Fixpoint open_in (l : list event) : list nat :=
  match l with
  | Opened h :: l => h :: open_in l
  | Closed h :: l => List.filter (fun h' => negb (h' =? h)%nat) (open_in l)
  | _ :: l => open_in l
  | [] => []
  end.
(** The handshake on [h] agreed. *)
Definition greeted (l : list event) (h : nat) : bool :=
  existsb (fun e => match e with ReadBack h' r v => (h' =? h)%nat && agrees r v | _ => false end) l.

(** What a log may hold: one handle at a time, each opened once; all that is
    written, read or closed is on the open one; and a request other than the
    handshake is written only after the handshake on its handle agreed. *)
Fixpoint log_ok (l : list event) : Prop :=
  match l with
  | [] => True
  | e :: l =>
    log_ok l /\
    match e with
    | Opened h => open_in l = [] /\ Forall (fun e => handle_of e < h) l
    | Closed h | ReadBack h _ _ => open_in l = [h]
    | Wrote h r => open_in l = [h] /\ is_handshake r || greeted l h = true
    end
  end.

(** The requests that were written, handshakes apart. *)
Definition requests (l : list event) : nat :=
  length (List.filter (fun e => match e with Wrote _ r => negb (is_handshake r) | _ => false end) l).

(** Every message that is too long breaks the pipe. *)
Definition never_too_long (os : Os) : Prop :=
  forall n d, os_read os n = ReadTooLong d -> exists code, d = Some code /\ IsBrokenPipeError code = true.

(** *** The invariant *)

Record sound (c : Client) : Prop := {
  so_log : log_ok (log c);
  so_open : open_in (log c) = option_list (pipe_ c);
  so_fresh : Forall (fun e => handle_of e < calls c) (log c) }.

Section Proofs.
Context (os : Os) (Hos : never_too_long os).

(** What a failure leaves: a closed pipe. *)
Record failed (c c' : Client) (k : nat) : Prop := {
  fa_sound : sound c'; fa_pipe : pipe_ c' = None; fa_busy : reconnecting_ c' = reconnecting_ c;
  fa_requests : requests (log c') <= requests (log c) + k }.
Record done_with (c c' : Client) (k : nat) : Prop := {
  dw_sound : sound c'; dw_busy : reconnecting_ c' = reconnecting_ c;
  dw_requests : requests (log c') <= requests (log c) + k }.

Lemma fresh_more (l : list event) n : Forall (fun e => handle_of e < n) l -> Forall (fun e => handle_of e < S n) l.
Proof. intros Hl. eapply list.Forall_impl; [exact Hl|]. cbn. lia. Qed.

Lemma open_fresh l n h : Forall (fun e => handle_of e < n) l -> In h (open_in l) -> h < n.
Proof.
  induction l as [|e l IH]; intros Hf Hin; [done|]. apply list.Forall_cons in Hf as [He Hl].
  destruct e as [h'|h'|h' r|h' r v]; cbn in *; try (by apply IH).
  - destruct Hin as [->|Hin]; [done|by apply IH].
  - apply filter_In in Hin as [Hin _]. by apply IH.
Qed.

Lemma sound_call c : sound c -> sound (c <| calls ::= S |>).
Proof. intros [S1 S2 S3]. constructor; [done|done|]. by apply fresh_more. Qed.

Lemma sound_handle c h : sound c -> pipe_ c = Some h -> h < calls c /\ open_in (log c) = [h].
Proof.
  intros [S1 S2 S3] Hp. rewrite Hp in S2. cbn in S2. split; [|done]. eapply open_fresh; [exact S3|]. rewrite S2. by left.
Qed.

(** An event on the open handle that leaves it open. *)
Lemma sound_event c e h :
  sound c -> pipe_ c = Some h -> handle_of e = h -> open_in (e :: log c) = [h] -> log_ok (e :: log c) -> sound (c <| log ::= cons e |>).
Proof.
  intros Hs Hp He Ho Hok. destruct (sound_handle c h Hs Hp) as [Hh _]. destruct Hs as [S1 S2 S3].
  constructor; cbn; [done|by rewrite Hp|]. constructor; [by rewrite He|done].
Qed.

Lemma sound_close c : sound c -> let c' := (Close c).2 in
  sound c' /\ pipe_ c' = None /\ reconnecting_ c' = reconnecting_ c /\ pipeName_ c' = pipeName_ c /\ requests (log c') = requests (log c) /\
  calls c' = calls c.
Proof.
  intros Hs. unfold Close, modify. cbn. destruct (pipe_ c) as [h|] eqn:Hp; [|by split_and!].
  destruct (sound_handle c h Hs Hp) as [Hh Ho]. destruct Hs as [S1 S2 S3]. cbn. split_and!; try done. constructor; cbn.
  - by rewrite Ho.
  - rewrite Ho. cbn. by rewrite Nat.eqb_refl.
  - by constructor.
Qed.

(** The contract of an operation: it answers with [Q], or fails with the pipe
    closed; it is never the recursion that ends it. *)
Definition post {A} (k : nat) (c : Client) (r : (exn + A) * Client) (Q : A -> Client -> Prop) : Prop :=
  match r with
  | (inr a, c') => done_with c c' k /\ Q a c'
  | (inl x, c') => x <> TooDeep /\ failed c c' k
  end.

Lemma post_bind {A B} k1 k2 c (m : M A) (f : A -> M B) Q R :
  post k1 c (m c) Q -> (forall a c', done_with c c' k1 -> Q a c' -> post k2 c' (f a c') R) -> post (k1 + k2) c ((m ≫= f) c) R.
Proof.
  intros Hm Hf. unfold post, mbind, M_bind in *. destruct (m c) as [[x|a] c'].
  - destruct Hm as [Hx [F1 F2 F3 F4]]. split; [done|]. constructor; try done. lia.
  - destruct Hm as [Hd Hq]. specialize (Hf a c' Hd Hq). destruct Hd as [D1 D2 D3].
    destruct (f a c') as [[x|b] c''].
    + destruct Hf as [Hx [F1 F2 F3 F4]]. split; [done|]. constructor; try done; [congruence|lia].
    + destruct Hf as [[E1 E2 E3] Hr]. split; [|done]. constructor; try done; [congruence|lia].
Qed.

Lemma post_catch {A} k1 k2 c (m : M A) h Q :
  post k1 c (m c) Q -> (forall x c', x <> TooDeep -> failed c c' k1 -> post k2 c' (h x c') Q) -> post (k1 + k2) c (catch m h c) Q.
Proof.
  intros Hm Hh. unfold post, catch in *. destruct (m c) as [[x|a] c'].
  - destruct Hm as [Hx Hf]. specialize (Hh x c' Hx Hf). destruct Hf as [F1 F2 F3 F4].
    assert (match h x c' with
      | (inr a, c'') => done_with c c'' (k1 + k2) /\ Q a c'' | (inl x, c'') => x <> TooDeep /\ failed c c'' (k1 + k2) end) as Hg.
    { destruct (h x c') as [[y|a] c''].
      - destruct Hh as [Hy [G1 G2 G3 G4]]. split; [done|]. constructor; try done; [congruence|lia].
      - destruct Hh as [[E1 E2 E3] Hr]. split; [|done]. constructor; try done; [congruence|lia]. }
    by destruct x.
  - destruct Hm as [[D1 D2 D3] Hq]. split; [|done]. constructor; try done. lia.
Qed.

Lemma post_weaken {A} k k' c (r : (exn + A) * Client) (Q R : A -> Client -> Prop) :
  post k c r Q -> k <= k' -> (forall a c', Q a c' -> R a c') -> post k' c r R.
Proof.
  intros Hr Hk HQ. unfold post in *. destruct r as [[x|a] c'].
  - destruct Hr as [Hx [F1 F2 F3 F4]]. split; [done|]. constructor; try done. lia.
  - destruct Hr as [[D1 D2 D3] Hq]. split; [|by apply HQ]. constructor; try done. lia.
Qed.

Lemma post_from {A} k c c1 (r : (exn + A) * Client) Q :
  reconnecting_ c1 = reconnecting_ c -> requests (log c1) = requests (log c) -> post k c1 r Q -> post k c r Q.
Proof.
  intros Hb Hr Hp. unfold post in *. destruct r as [[x|a] c'].
  - destruct Hp as [Hx [F1 F2 F3 F4]]. split; [done|]. constructor; try done; [congruence|lia].
  - destruct Hp as [[D1 D2 D3] Hq]. split; [|done]. constructor; try done; [congruence|lia].
Qed.

(** Closing after a failed call of the system on the open pipe. *)
Lemma post_close {A} k c c1 x (Q : A -> Client -> Prop) :
  sound c1 -> reconnecting_ c1 = reconnecting_ c -> requests (log c1) <= requests (log c) + k -> x <> TooDeep ->
  post k c ((Close ;; throw x) c1) Q.
Proof.
  intros Hs Hb Hr Hx. destruct (sound_close c1 Hs) as (C1 & C2 & C3 & C4 & C5 & C6).
  unfold post, mbind, M_bind, throw. unfold Close, modify in *. cbn in *. split; [done|]. constructor; try done; [congruence|by rewrite C5].
Qed.

Definition cost (r : Request) : nat := if is_handshake r then 0 else 1.

Lemma requests_wrote h r l : requests (Wrote h r :: l) = cost r + requests l.
Proof. unfold requests, cost. cbn. by destruct (is_handshake r). Qed.

Lemma Send_post c h r :
  sound c -> pipe_ c = Some h -> is_handshake r || greeted (log c) h = true ->
  post (cost r) c (Send os r c) (fun _ c' => pipe_ c' = Some h /\ greeted (log c') h = greeted (log c) h).
Proof.
  intros Hs Hp Hg. destruct (sound_handle c h Hs Hp) as [Hh Ho]. unfold Send, mbind, M_bind, gets. rewrite Hp.
  cbn [call modify]. set (c1 := (c <| calls ::= S |>) <| log ::= cons (Wrote h r) |>).
  assert (sound c1) as Hs1.
  { apply (sound_event (c <| calls ::= S |>) _ h); [by apply sound_call|done|done|done|]. cbn. split; [apply Hs|done]. }
  assert (requests (log c1) <= requests (log c) + cost r) as Hr1 by (change (log c1) with (Wrote h r :: log c); rewrite requests_wrote; lia).
  destruct (os_write os (calls c)) as [[]|err].
  - split; [constructor; done|]. split; [exact Hp|reflexivity].
  - by apply post_close.
  - apply post_close; [done|done|done|]. by destruct (IsBrokenPipeError err).
Qed.

Lemma Receive_post c h :
  sound c -> pipe_ c = Some h ->
  post 0 c (Receive os c) (fun '(r, v) c' => pipe_ c' = Some h /\
    (greeted (log c) h = true -> greeted (log c') h = true) /\ (agrees r v = true -> greeted (log c') h = true)).
Proof.
  intros Hs Hp. destruct (sound_handle c h Hs Hp) as [Hh Ho]. unfold Receive, mbind, M_bind, gets. rewrite Hp.
  cbn [call]. pose proof (sound_call c Hs) as Hs1. set (c1 := c <| calls ::= S |>) in *.
  assert (requests (log c1) <= requests (log c) + 0) as Hr1 by (change (log c1) with (log c); lia).
  destruct (os_read os (calls c)) as [[] r v|err|d] eqn:Hread.
  - cbn [mbind modify mret]. unfold modify, M_ret. split; [constructor; [|done|]|split; [done|]].
    + apply (sound_event c1 _ h); [done|done|done|done|]. cbn. split; [apply Hs|done].
    + change (requests (ReadBack h r v :: log c1) <= requests (log c) + 0). exact Hr1.
    + assert (greeted (ReadBack h r v :: log c) h = agrees r v || greeted (log c) h) as Hg
        by (unfold greeted; cbn [existsb]; by rewrite Nat.eqb_refl).
      change (log (c1 <| log ::= cons (ReadBack h r v) |>)) with (ReadBack h r v :: log c). rewrite Hg.
      split; intros ->; [by rewrite orb_true_r|done].
  - by apply post_close.
  - apply post_close; [done|done|done|]. by destruct (IsBrokenPipeError err).
  - destruct (Hos _ _ Hread) as (code & -> & ->). by apply post_close.
Qed.

(** Whether [r] may be written on [h]; [g]: only after the handshake. *)
Definition ready (g : bool) (r : Request) (l : list event) (h : nat) : bool := greeted l h || (negb g && is_handshake r).

Definition answered (g : bool) (a : Response * Z) (c : Client) : Prop :=
  exists h, pipe_ c = Some h /\ (g = true -> greeted (log c) h = true) /\
    (agrees a.1 a.2 = true -> greeted (log c) h = true).

Lemma ready_write g r l h : ready g r l h = true -> is_handshake r || greeted l h = true.
Proof. unfold ready. destruct (greeted l h); [by rewrite orb_true_r|]. cbn [orb]. by intros [_ ->]%andb_true_iff. Qed.

Lemma ready_greeted g r l h : greeted l h = true -> ready g r l h = true.
Proof. unfold ready. by intros ->. Qed.

Lemma exchange_post g c h r :
  sound c -> pipe_ c = Some h -> ready g r (log c) h = true ->
  post (cost r) c ((Send os r ;; Receive os) c) (answered g).
Proof.
  intros Hs Hp Hg. eapply post_weaken with (k := (cost r + 0)%nat); [|lia|intros a c' Hq; exact Hq].
  eapply post_bind; [apply (Send_post c h); [done|done|by eapply ready_write]|]. intros [] c1 [D1 D2 D3] [Hp1 Hg1].
  eapply post_weaken; [by apply (Receive_post c1 h)|done|]. intros [v z] c2 (E1 & E2 & E3). exists h. split; [done|].
  rewrite Hg1 in E2. split; [|done]. intros ->. apply E2. unfold ready in Hg. by rewrite orb_false_r in Hg.
Qed.

(** The depth that is enough. *)
Definition send_depth (c : Client) : nat :=
  match reconnecting_ c, pipe_ c with true, Some _ => 1 | true, None => 3 | false, Some _ => 3 | false, None => 5 end.
Definition connect_depth (c : Client) : nat := if reconnecting_ c then 2 else 4.

Lemma gets_bind {A B} (f : Client -> A) (k : A -> M B) c : (gets f ≫= k) c = k (f c) c.
Proof. reflexivity. Qed.
Lemma modify_bind {B} f (k : unit -> M B) c : (modify f ≫= k) c = k tt (f c).
Proof. reflexivity. Qed.
Lemma call_bind {B} (k : nat -> M B) c : (call ≫= k) c = k (calls c) (c <| calls ::= S |>).
Proof. reflexivity. Qed.

Lemma close_bind {B} (k : unit -> M B) c : (Close ≫= k) c = k tt (Close c).2.
Proof. reflexivity. Qed.

Lemma sound_reconnecting b c : sound c -> sound (c <| reconnecting_ := b |>).
Proof. by intros [S1 S2 S3]. Qed.

(** The reconnect after a broken pipe. *)
Lemma reconnect_post (connect : list byte -> M unit) g c r name :
  (forall c' n, sound c' -> reconnecting_ c' = true ->
     post 0 c' (connect n c') (fun _ c' => exists h, pipe_ c' = Some h /\ greeted (log c') h = true)) ->
  sound c -> pipe_ c = None -> reconnecting_ c = false ->
  post (cost r) c ((Close ;;
    modify (fun c => c <| reconnecting_ := true |>) ;;
    catch (connect name ;; modify (fun c => c <| reconnecting_ := false |>))
      (fun _ => modify (fun c => c <| reconnecting_ := false |>) ;; throw RuntimeError) ;;
    Send os r ;; Receive os) c) (answered g).
Proof.
  intros Hconnect Hs Hp Hb.
  assert ((Close c).1 = inr tt /\ (Close c).2 = c) as [_ Hclose] by (unfold Close, modify; cbn; by rewrite Hp).
  unfold Close at 1. rewrite modify_bind, Hp, modify_bind. set (c1 := c <| reconnecting_ := true |>).
  pose proof (Hconnect c1 name (sound_reconnecting true c Hs) eq_refl) as Hc.
  unfold mbind at 1, M_bind at 1, catch. unfold mbind at 1, M_bind at 1.
  unfold post in Hc. destruct (connect name c1) as [[x|[]] c2].
  - destruct Hc as [Hx [F1 F2 F3 F4]]. destruct x; [..|done]; (split; [done|]; constructor; [by apply sound_reconnecting|done|done|];
      change (requests (log c2) <= requests (log c) + 0) in F4; change (requests (log c2) <= requests (log c) + cost r); lia).
  - destruct Hc as [[D1 D2 D3] (h & Hh & Hg)]. cbn [modify].
    assert (post (cost r) (c2 <| reconnecting_ := false |>) ((Send os r ;; Receive os) (c2 <| reconnecting_ := false |>)) (answered g)) as He.
    { apply (exchange_post g _ h); [by apply sound_reconnecting|done|]. by apply ready_greeted. }
    unfold modify. unfold post in He |- *. change (requests (log c2) <= requests (log c) + 0) in D3.
    destruct ((Send os r ;; Receive os) (c2 <| reconnecting_ := false |>)) as [[x|a] c3].
    + destruct He as [Hx [F1 F2 F3 F4]]. split; [done|]. constructor; try done; [by rewrite Hb, F3|].
      change (requests (log c3) <= requests (log c2) + cost r) in F4. lia.
    + destruct He as [[E1 E2 E3] Ha]. split; [|done]. constructor; try done; [by rewrite Hb, E2|].
      change (requests (log c3) <= requests (log c2) + cost r) in E3. lia.
Qed.

Lemma client_contract depth :
  (forall g c r, sound c -> send_depth c <= depth -> (forall h, pipe_ c = Some h -> ready g r (log c) h = true) ->
     post (2 * cost r) c (SendBlocking os depth r c) (answered g)) /\
  (forall c name, sound c -> connect_depth c <= depth ->
     post 0 c (Connect os depth name c) (fun _ c' => exists h, pipe_ c' = Some h /\ greeted (log c') h = true)).
Proof.
  induction depth as [|depth [IHs IHc]]; split.
  - intros g c r _ Hd. unfold send_depth in Hd. by destruct (reconnecting_ c), (pipe_ c); cbn in Hd; lia.
  - intros c name _ Hd. unfold connect_depth in Hd. by destruct (reconnecting_ c); cbn in Hd; lia.
  - intros g c r Hs Hd Hg. cbn [SendBlocking]. rewrite !gets_bind.
    apply (post_bind 0 (2 * cost r) c _ _ (fun _ c' => exists h, pipe_ c' = Some h /\ ready g r (log c') h = true)).
    { destruct (pipe_ c) as [h|] eqn:Hp.
      - split; [constructor; [done..|lia]|]. exists h. split; [done|by apply Hg].
      - destruct (pipeName_ c) as [|b name] eqn:Hn.
        + split; [done|]. constructor; [done..|lia].
        + eapply post_weaken; [apply IHc; [done|]|done|].
          * unfold send_depth, connect_depth in *. rewrite Hp in Hd. destruct (reconnecting_ c); lia.
          * intros _ c' (h & Hh & Hgh). exists h. split; [done|]. by apply ready_greeted. }
    intros [] c1 [D1 D2 _] (h & Hp1 & Hg1). eapply post_weaken with (k := (cost r + cost r)%nat); [|lia|intros a c' Ha; exact Ha].
    apply post_catch; [by apply (exchange_post g c1 h)|]. intros x c2 Hx [F1 F2 F3 F4].
    assert (post (cost r) c2 (throw (A := Response * Z) x c2) (answered g)) as Hthrow by (split; [done|]; constructor; [done..|lia]).
    destruct x; try exact Hthrow. rewrite !gets_bind. destruct (reconnecting_ c2) eqn:Hb; [exact Hthrow|].
    destruct (pipeName_ c2); [exact Hthrow|]. apply (reconnect_post (Connect os depth) g); [|done..].
    intros c' n Hs' Hb'. apply IHc; [done|]. unfold connect_depth, send_depth in *. rewrite Hb'.
    rewrite <-D2, <-F3 in Hd. destruct (pipe_ c); lia.
  - intros c name Hs Hd. cbn [Connect]. destruct (sound_close c Hs) as (C1 & C2 & C3 & _ & C5 & _).
    rewrite close_bind, modify_bind, call_bind. set (c0 := (Close c).2) in *. clearbody c0.
    change (calls (c0 <| pipeName_ := name |>)) with (calls c0). set (n := calls c0).
    destruct (os_create os n).
    { split; [done|]. constructor; [|done|done|change (requests (log c0) <= requests (log c) + 0); lia].
      destruct C1 as [S1 S2 S3]. constructor; [done|done|by apply fresh_more]. }
    rewrite modify_bind, call_bind.
    match goal with |- context [os_mode os (calls ?c1)] => set (c4 := c1) end.
    assert (sound c4) as Hs4.
    { destruct C1 as [S1 S2 S3]. rewrite C2 in S2. constructor; cbn; [done|by rewrite S2|].
      constructor; [cbn; lia|]. by apply fresh_more. }
    assert (requests (log c4) = requests (log c)) as Hr4 by exact C5.
    assert (reconnecting_ c4 = reconnecting_ c) as Hb4 by exact C3.
    assert (pipe_ c4 = Some n) as Hp4 by reflexivity. clearbody c4.
    set (c5 := c4 <| calls ::= S |>). pose proof (sound_call c4 Hs4) as Hs5.
    destruct (os_mode os (calls c4)).
    { apply post_close; [done|done|change (requests (log c4) <= requests (log c) + 0); lia|done]. }
    apply (post_from 0 c c5); [exact Hb4|exact Hr4|].
    apply (post_bind 0 0 c5 _ _ (answered false)).
    { apply (IHs false c5 RequestHandshake Hs5); [|by intros; unfold ready; rewrite orb_true_r]. unfold send_depth, connect_depth in *.
      change (reconnecting_ c5) with (reconnecting_ c4). change (pipe_ c5) with (pipe_ c4). rewrite Hb4, Hp4.
      destruct (reconnecting_ c); lia. }
    clearbody c5. intros [r v] c6 [D1 D2 D3] (h & Hh & _ & Ha). cbn [fst snd] in Ha.
    destruct (agrees r v); cbn [modify].
    + split; [constructor; [by destruct D1|done|change (requests (log c6) <= requests (log c6) + 0); lia]|]. exists h. split; [done|by apply Ha].
    + rewrite modify_bind. apply (post_from 0 c6 (c6 <| driverVersion_ := v |> <| mismatchState_ := if (v <? Version)%Z then OverlayNewer else DriverNewer |>));
        [done|done|].
      apply post_close; [by destruct D1|done|lia|done].
Qed.

(** *** Histories *)

Definition client_ok (c : Client) : Prop :=
  sound c /\ reconnecting_ c = false /\ forall h, pipe_ c = Some h -> greeted (log c) h = true.

Lemma client_ok_init : client_ok client_init.
Proof. split; [by constructor|]. by split. Qed.

Lemma post_ok {A} k c (r : (exn + A) * Client) (Q : A -> Client -> Prop) :
  client_ok c -> post k c r Q -> (forall a c', Q a c' -> forall h, pipe_ c' = Some h -> greeted (log c') h = true) ->
  client_ok r.2 /\ requests (log r.2) <= requests (log c) + k /\ r.1 <> inl TooDeep.
Proof.
  intros (Hs & Hb & Hg) Hp HQ. unfold post in Hp. destruct r as [[x|a] c']; cbn.
  - destruct Hp as [Hx [F1 F2 F3 F4]]. split; [|split; [done|by intros [= ->]]]. split; [done|]. split; [congruence|]. intros h Hh. congruence.
  - destruct Hp as [[D1 D2 D3] Ha]. split; [|done]. split; [done|]. split; [congruence|]. by apply (HQ a).
Qed.

(** The operations from a state between two of them. *)
Lemma send_post c r : client_ok c -> post (2 * cost r) c (SendBlocking os kDepth r c) (answered true).
Proof.
  intros (Hs & Hb & Hg). destruct (client_contract kDepth) as [Hsend _]. apply Hsend; [done| |].
  - unfold send_depth, kDepth. rewrite Hb. destruct (pipe_ c); lia.
  - intros h Hh. by apply ready_greeted, Hg.
Qed.

Lemma cost_one r : (2 * cost r <= 2)%nat.
Proof. unfold cost. destruct (is_handshake r); lia. Qed.

Lemma send_ok c r :
  client_ok c ->
  let res := SendBlocking os kDepth r c in
  client_ok res.2 /\ requests (log res.2) <= requests (log c) + 2 /\ res.1 <> inl TooDeep.
Proof.
  intros Hok. apply (post_ok 2 c _ (answered true)); [done| |].
  - eapply post_weaken; [by apply send_post|apply cost_one|done].
  - intros a c' (h & Hh & Ha & _) h' Hh'. rewrite Hh in Hh'. injection Hh' as <-. by apply Ha.
Qed.

Lemma connect_ok c name :
  client_ok c ->
  let res := Connect os kDepth name c in
  client_ok res.2 /\ requests (log res.2) <= requests (log c) + 0 /\ res.1 <> inl TooDeep.
Proof.
  intros Hok. destruct Hok as (Hs & Hb & Hg). destruct (client_contract kDepth) as [_ Hconnect].
  eapply (post_ok 0 c _ (fun _ c' => exists h, pipe_ c' = Some h /\ greeted (log c') h = true)); [done| |].
  - apply Hconnect; [done|]. unfold connect_depth, kDepth. rewrite Hb. lia.
  - intros _ c' (h & Hh & Ha) h' Hh'. rewrite Hh in Hh'. injection Hh' as <-. exact Ha.
Qed.

Lemma close_ok c : client_ok c -> client_ok (Close c).2.
Proof.
  intros (Hs & Hb & Hg). destruct (sound_close c Hs) as (C1 & C2 & C3 & _). split; [done|]. split; [congruence|].
  intros h Hh. rewrite C2 in Hh. done.
Qed.

Lemma run_ok c ops : client_ok c -> client_ok (client_run os c ops).
Proof.
  revert c. induction ops as [|op ops IH]; intros c Hok; [done|].
  unfold client_run. cbn [fold_left]. apply IH. destruct op as [name|r|]; cbn [client_step].
  - by apply connect_ok.
  - by apply send_ok.
  - by apply close_ok.
Qed.

(** C24: the overlay's end of a pipe over every history of connecting, sending
    any request -- a heartbeat's handshake included -- and closing, whatever the
    system answers, provided no response is too long for its buffer: at most one
    handle is open at a time and it is the client's, everything is written and
    read on the open handle, and no request but the handshake is written on a
    connection before a handshake on it agreed on the version.  Sending ends,
    without exhausting the depth of its recursion; it writes its request at most
    twice, and a failure leaves the connection closed. *)
Theorem client_speaks_to_its_driver ops :
  let c := client_run os client_init ops in
  log_ok (log c) /\ open_in (log c) = option_list (pipe_ c) /\
  (forall h, pipe_ c = Some h -> greeted (log c) h = true) /\
  forall r,
    let '(res, c') := SendBlocking os kDepth r c in
    res <> inl TooDeep /\ requests (log c') <= requests (log c) + 2 * cost r /\ (forall x, res = inl x -> pipe_ c' = None).
Proof.
  pose proof (run_ok client_init ops client_ok_init) as Hok. cbv zeta.
  set (c := client_run os client_init ops) in *. clearbody c. pose proof Hok as (Hs & Hb & Hg).
  split; [by destruct Hs|]. split; [by destruct Hs|]. split; [done|]. intros r.
  pose proof (send_post c r Hok) as Hp. unfold post in Hp.
  destruct (SendBlocking os kDepth r c) as [[x|a] c']; cbn [fst snd] in *.
  - destruct Hp as [Hx [F1 F2 F3 F4]]. split_and!; [congruence|done|]. by intros x' [= <-].
  - destruct Hp as [[D1 D2 D3] _]. by split_and!.
Qed.
End Proofs.

(** ** Samples *)

(** A driver that answers the handshake, then breaks once, and answers again. *)
Definition os_sample : Os := mkOs (fun _ => None) (fun _ => None) (fun n => if (n =? 4)%nat then WriteError ERROR_BROKEN_PIPE else Written true)
  (fun n => if (n =? 10)%nat then ReadResponse true RespSuccess 0 else ReadResponse true (RespHandshake Version) Version).

Lemma client_speaks_to_its_driver_witness :
  never_too_long os_sample /\
  let c := client_run os_sample client_init [DoConnect (str "p"); DoSend RequestDebugOffset; DoSend RequestHandshake] in
  log_ok (log c) /\ open_in (log c) = option_list (pipe_ c) /\
  (forall h, pipe_ c = Some h -> greeted (log c) h = true) /\
  forall r,
    let '(res, c') := SendBlocking os_sample kDepth r c in
    res <> inl TooDeep /\ requests (log c') <= requests (log c) + 2 * cost r /\ (forall x, res = inl x -> pipe_ c' = None).
Proof.
  assert (never_too_long os_sample) as Hos by (intros n d; cbn; by destruct (n =? 10)%nat).
  split; [exact Hos|].
  exact (client_speaks_to_its_driver os_sample Hos [DoConnect (str "p"); DoSend RequestDebugOffset; DoSend RequestHandshake]).
Defined.

(** The request is written on both connections, each after its handshake. *)
Example request_after_reconnect :
  let c := client_run os_sample client_init [DoConnect (str "p"); DoSend RequestDebugOffset] in
  pipe_ c = Some 5 /\ connectionGeneration_ c = 2%Z /\
  rev (log c) =
    [Opened 0; Wrote 0 RequestHandshake; ReadBack 0 (RespHandshake 18) 18; Wrote 0 RequestDebugOffset; Closed 0;
     Opened 5; Wrote 5 RequestHandshake; ReadBack 5 (RespHandshake 18) 18; Wrote 5 RequestDebugOffset; ReadBack 5 RespSuccess 0].
Proof. vm_compute. split_and!; reflexivity. Qed.

(** A handshake answered by a message that is too long fails and leaves the
    pipe open: the next request is written to a driver that never agreed. *)
Definition os_long : Os := mkOs (fun _ => None) (fun _ => None) (fun _ => Written true)
  (fun n => if (n =? 3)%nat then ReadTooLong None else ReadResponse true RespSuccess 0).

Example request_without_handshake :
  let c1 := client_run os_long client_init [DoConnect (str "p")] in
  let c2 := client_run os_long client_init [DoConnect (str "p"); DoSend RequestDebugOffset] in
  fst (Connect os_long kDepth (str "p") client_init) = inl RuntimeError /\ pipe_ c1 = Some 0 /\ greeted (log c1) 0 = false /\
  rev (log c2) = [Opened 0; Wrote 0 RequestHandshake; Wrote 0 RequestDebugOffset; ReadBack 0 RespSuccess 0].
Proof. vm_compute. split_and!; reflexivity. Qed.
