(* ===== verification/Detectors.v ===== *)
(** * Calibration detectors (modules/calibration/src/overlay)

    The decision functions of the continuous calibration, each over the state
    its caller keeps: the rejection watchdog, the wedge detector, the
    geometry-shift detectors with the tick that runs them, and the tracker
    liveness detector with the gate it forms in [CalibrationTick].  Times and
    measurements are [double]s as the overlay passes them. *)

From S2P Require Import Prelude Floats.
From stdpp Require Import sorting.
Open Scope fl_scope.

(** ** WatchdogDecisions.h, StallDecisions.h, StateTransitions.h *)

Definition kMaxConsecutiveRejections : Z := 50.
Definition kHealthyPriorErrorMaxMeters : double := d_lit 5 1000.

Definition IsCalibrationHealthy (isValid : bool) (priorErrorMeters : double) : bool :=
  isValid && (priorErrorMeters <? kHealthyPriorErrorMaxMeters).

Definition ShouldClearViaWatchdog (isValid : bool) (rejectionCount : Z) (priorErrorMeters : double) : bool :=
  isValid && (kMaxConsecutiveRejections <=? rejectionCount)%Z &&
  negb (IsCalibrationHealthy isValid priorErrorMeters).

(** What the solver's rejection branch does with the counter. *)
Inductive watchdog_action := WatchdogNone | WatchdogHold (count : Z) | WatchdogClear.

Definition watchdog_tick (isValid : bool) (rejections : Z) (priorError : double) : watchdog_action :=
  if isValid && (kMaxConsecutiveRejections <=? rejections)%Z then
    if IsCalibrationHealthy isValid priorError then WatchdogHold (kMaxConsecutiveRejections - 5)
    else WatchdogClear
  else WatchdogNone.

Definition ShouldDemoteOnHmdStall (consecutiveStalls maxStalls : Z) : bool := false.

Inductive CalibrationState := StNone | StBegin | StRotation | StTranslation | StEditing | StContinuous | StContinuousStandby.

#[export] Instance CalibrationState_eqdec : EqDecision CalibrationState.
Proof. solve_decision. Defined.

Definition IsLegalTransition (from to : CalibrationState) : bool :=
  if decide (from = to) then true else
  match from, to with
  | StNone, (StBegin | StContinuous | StContinuousStandby | StEditing) => true
  | StBegin, (StNone | StRotation | StContinuous) => true
  | StRotation, (StNone | StTranslation) => true
  | StTranslation, StNone => true
  | StEditing, StNone => true
  | StContinuous, (StNone | StBegin | StContinuousStandby) => true
  | StContinuousStandby, (StNone | StBegin | StContinuous) => true
  | _, _ => false
  end.

(** ** WedgeDetector.h *)

Definition kMaxPlausibleCalibrationMagnitudeCm : double := d_of_Z 500.
Definition kRuntimeWedgeDebounceSec : double := d_of_Z 30.
Definition minus_one : double := d_of_Z (-1).

Definition ShouldFireRuntimeWedgeRecovery (magnitudeCm now wedgeSince : double) : bool * double :=
  if magnitudeCm <=? kMaxPlausibleCalibrationMagnitudeCm then (false, minus_one)
  else if wedgeSince <? fzero then (false, now)
  else if fge (now - wedgeSince) kRuntimeWedgeDebounceSec then (true, minus_one)
  else (false, wedgeSince).

(** Successive ticks [(magnitude, now)], from the state [w]: the fires and the
    last state. *)
Fixpoint wedge_run (w : double) (ticks : list (double * double)) : list bool * double :=
  match ticks with
  | [] => ([], w)
  | (m, now) :: rest =>
    let '(f, w) := ShouldFireRuntimeWedgeRecovery m now w in
    let '(fs, w) := wedge_run w rest in (f :: fs, w)
  end.

(** ** GeometryShiftDetector.h *)

Definition kSpikeRatio : double := d_of_Z 5.
Definition kMedianFloor : double := d_lit 1 1000000000.
Definition kMinSustainedSpikes : Z := 3.

Definition IsCurrentErrorSpike (currentError rollingMedian : double) : bool :=
  fgt rollingMedian kMedianFloor && fgt currentError (kSpikeRatio * rollingMedian).

Definition ShouldFireGeometryShiftRecovery (sustainedSpikes : Z) : bool :=
  (kMinSustainedSpikes <=? sustainedSpikes)%Z.

Definition kCusumDriftMm : double := d_lit 1 2.
Definition kCusumThreshold : double := d_of_Z 5.

Definition UpdateCusumGeometryShift (state currentErrorMm baselineMm driftMm threshold : double) : bool * double :=
  let increment := (currentErrorMm - baselineMm) - driftMm in
  let S := state + increment in
  let S := if S <? fzero then fzero else S in
  if fgt S threshold then (true, fzero) else (false, S).

(** *** The tick that runs them (Calibration.cpp) *)

Record GeometryTick := mkGeo { consecutiveBadTicks : Z; lastErrorTs : double; cusumS : double }.

#[export] Instance geo_settable : Settable GeometryTick := fun g =>
  mkGeo (consecutiveBadTicks g) (lastErrorTs g) (cusumS g).

Definition geometry_init : GeometryTick := mkGeo 0 fzero fzero.

Definition d_le (x y : double) : Prop := fle x y = true.

#[export] Instance d_le_dec : RelDecision d_le.
Proof. intros x y. unfold d_le. apply _. Defined.

(** [errSeries]: the error samples with their time stamps, oldest first. *)
Definition rolling_median (errSeries : list (double * double)) : option double :=
  let tail := map snd (drop (length errSeries - Nat.min 30 (length errSeries)) errSeries) in
  let sorted := merge_sort d_le tail in
  sorted !! (length sorted / 2)%nat.

(** [true]: the calibration is cleared and demoted to standby. *)
Definition geometry_tick (useCusum isValid : bool) (errSeries : list (double * double)) (g : GeometryTick)
    : bool * GeometryTick :=
  match last errSeries, rolling_median errSeries with
  | Some (thisTs, current), Some median =>
    if (5 <=? length errSeries)%nat && isValid then
      if fgt thisTs (lastErrorTs g) then
        let g := g <| lastErrorTs := thisTs |> in
        let '(fire, g) :=
          if useCusum then
            let '(f, c) := UpdateCusumGeometryShift (cusumS g) current median kCusumDriftMm kCusumThreshold in
            (f, g <| cusumS := c |> <| consecutiveBadTicks := 0%Z |>)
          else
            let n := if IsCurrentErrorSpike current median then (consecutiveBadTicks g + 1)%Z else 0%Z in
            (ShouldFireGeometryShiftRecovery n, g <| consecutiveBadTicks := n |> <| cusumS := fzero |>) in
        if fire then (true, g <| consecutiveBadTicks := 0%Z |> <| cusumS := fzero |>) else (false, g)
      else (false, g)
    else (false, g <| consecutiveBadTicks := 0%Z |> <| cusumS := fzero |>)
  | _, _ => (false, g <| consecutiveBadTicks := 0%Z |> <| cusumS := fzero |>)
  end.

(** ** TrackerLiveness.h *)

Definition kFrozenPoseThresholdSec : double := d_of_Z 8.
Definition kHmdMovedThresholdMps : double := d_lit 2 100.
Definition kReconnectDebounceSec : double := d_of_Z 2.

Record TrackerLivenessState := mkLive {
  poseHashSinceSec : double; lastPoseHash : Z; offlineSinceSec : double;
  reconnectSinceSec : double; hmdMovedDuringFreeze : bool }.

#[export] Instance live_settable : Settable TrackerLivenessState := fun s =>
  mkLive (poseHashSinceSec s) (lastPoseHash s) (offlineSinceSec s) (reconnectSinceSec s) (hmdMovedDuringFreeze s).

Definition live_init : TrackerLivenessState := mkLive minus_one 0 minus_one minus_one false.

Record TrackerLivenessInputs := mkIn {
  posHash : Z; deviceIsConnected : bool; hmdSpeedMps : double; lastEmaUpdateSec : double; in_now : double }.

Definition IsOffline (s : TrackerLivenessState) : bool := fge (offlineSinceSec s) fzero.

Definition TickTrackerLiveness (s : TrackerLivenessState) (inp : TrackerLivenessInputs)
    : bool * TrackerLivenessState :=
  if negb (deviceIsConnected inp) then
    if negb (IsOffline s)
    then (true, s <| offlineSinceSec := in_now inp |> <| reconnectSinceSec := minus_one |>)
    else (false, s)
  else if negb (posHash inp =? lastPoseHash s)%Z then
    let s := s <| lastPoseHash := posHash inp |> <| poseHashSinceSec := in_now inp |>
               <| hmdMovedDuringFreeze := false |> in
    if IsOffline s then
      if reconnectSinceSec s <? fzero then (false, s <| reconnectSinceSec := in_now inp |>)
      else if fge (in_now inp - reconnectSinceSec s) kReconnectDebounceSec then (false, live_init)
      else (false, s)
    else (false, s)
  else
    let s := if fge (reconnectSinceSec s) fzero && (posHash inp =? lastPoseHash s)%Z
             then s <| reconnectSinceSec := minus_one |> else s in
    let s := if fge (hmdSpeedMps inp) kHmdMovedThresholdMps
             then s <| hmdMovedDuringFreeze := true |> else s in
    if IsOffline s then (false, s)
    else if poseHashSinceSec s <? fzero then (false, s <| poseHashSinceSec := in_now inp |>)
    else
      let frozenFor := in_now inp - poseHashSinceSec s in
      if fge frozenFor kFrozenPoseThresholdSec && hmdMovedDuringFreeze s
      then (true, s <| offlineSinceSec := in_now inp |> <| reconnectSinceSec := minus_one |>)
      else (false, s).

Definition live_run (ins : list TrackerLivenessInputs) : TrackerLivenessState :=
  foldl (fun s i => (TickTrackerLiveness s i).2) live_init ins.

(** *** The gate in [CalibrationTick] *)

Record LivenessGate := mkGate {
  g_refLiveness : TrackerLivenessState; g_tgtLiveness : TrackerLivenessState;
  g_refWasOffline : bool; g_tgtWasOffline : bool }.

Inductive gate_result := GateSkip | GateRestart | GateCollect.

Definition k_unTrackedDeviceIndex_Hmd : Z := 0.

Definition tickOne (id : Z) (inp : TrackerLivenessInputs) (state : TrackerLivenessState)
    : bool * TrackerLivenessState :=
  if (id <? 0)%Z || (id =? k_unTrackedDeviceIndex_Hmd)%Z then (IsOffline state, state)
  else let s := (TickTrackerLiveness state inp).2 in (IsOffline s, s).

(** [StartContinuousCalibration] resets both detectors and both flags. *)
Definition liveness_gate (referenceID targetID : Z) (ref_in tgt_in : TrackerLivenessInputs) (g : LivenessGate)
    : gate_result * LivenessGate :=
  let '(refOfflineNow, r) := tickOne referenceID ref_in (g_refLiveness g) in
  let '(tgtOfflineNow, t) := tickOne targetID tgt_in (g_tgtLiveness g) in
  let refReturned := g_refWasOffline g && negb refOfflineNow in
  let tgtReturned := g_tgtWasOffline g && negb tgtOfflineNow in
  let g := mkGate r t refOfflineNow tgtOfflineNow in
  if refOfflineNow || tgtOfflineNow then (GateSkip, g)
  else if refReturned || tgtReturned then (GateRestart, mkGate live_init live_init false false)
  else (GateCollect, g).

(** ** Time stamps

    A stamp is a time the overlay passes, which is a number and not negative,
    or the sentinel [-1]. *)

Definition time_ok (t : double) : Prop := fle fzero t = true.

Lemma time_ok_not_sentinel t : time_ok t -> flt t fzero = false.
Proof.
  intros Ht. destruct (flt t fzero) eqn:E; [|done]. apply flt_asym in E. unfold time_ok in Ht. congruence.
Qed.

Lemma time_ok_or_sentinel t : t = minus_one \/ time_ok t -> fge t fzero = negb (flt t fzero).
Proof.
  intros [->|Ht]; [done|]. unfold fge. change (SFleb fzero t) with (fle fzero t).
  rewrite Ht. by rewrite time_ok_not_sentinel.
Qed.

(** ** The wedge detector *)

(** The magnitude is not at or below the bound (NaN is not). *)
Definition above (m : double) : Prop := fle m kMaxPlausibleCalibrationMagnitudeCm = false.

Lemma wedge_run_app w t1 t2 :
  wedge_run w (t1 ++ t2) =
  ((wedge_run w t1).1 ++ (wedge_run (wedge_run w t1).2 t2).1, (wedge_run (wedge_run w t1).2 t2).2).
Proof.
  revert w. induction t1 as [|[m now] t1 IH]; intros w; cbn.
  { by destruct (wedge_run w t2). }
  destruct (ShouldFireRuntimeWedgeRecovery m now w) as [f w1]. specialize (IH w1).
  destruct (wedge_run w1 t1) as [f1 w2] eqn:E1. cbn in IH. destruct (wedge_run w1 (t1 ++ t2)) as [f2 w3].
  cbn. by injection IH as -> ->.
Qed.

(** The start of a running debounce is a tick above the bound, and so is every
    later one. *)
Lemma wedge_since ticks w :
  Forall (fun t => time_ok t.2) ticks -> (wedge_run minus_one ticks).2 = w ->
  w = minus_one \/
  exists pre m rest, ticks = pre ++ (m, w) :: rest /\ time_ok w /\ above m /\ Forall (fun t => above t.1) rest.
Proof.
  revert w. induction ticks as [|[m now] ticks IH] using rev_ind; intros w Ht; [by left|].
  apply Forall_app in Ht as [Ht1 Ht2]. apply list.Forall_cons in Ht2 as [Ht2 _]. cbn in Ht2.
  rewrite wedge_run_app. cbn [snd]. specialize (IH _ Ht1 eq_refl).
  set (w0 := (wedge_run minus_one ticks).2) in *. cbn [wedge_run].
  unfold ShouldFireRuntimeWedgeRecovery.
  destruct (fle m kMaxPlausibleCalibrationMagnitudeCm) eqn:Em; [by left|].
  destruct (flt w0 fzero) eqn:Ew.
  { intros <-. right. exists ticks, m, [].
    split_and!; [done|done|exact Em|constructor]. }
  destruct IH as [IH|(pre & m0 & rest & Hts & Hw0 & Hm0 & Hr)]; [rewrite IH in Ew; discriminate|].
  destruct (fge _ _); [by left|]. intros <-. right. exists pre, m0, (rest ++ [(m, now)]).
  split_and!; [by rewrite Hts, <-app_assoc|done|done|]. apply Forall_app_2; [done|].
  apply list.Forall_cons. by split.
Qed.

(** The wedge detector fires only on a magnitude that has been above the
    bound on every tick for thirty seconds.  It does not hold back afterwards:
    the fire restarts the debounce, so a magnitude that never comes down fires
    again thirty seconds later. *)
Theorem wedge_fires ticks m now
  (Ht : Forall (fun t => time_ok t.2) ticks)
  (Hf : (ShouldFireRuntimeWedgeRecovery m now (wedge_run minus_one ticks).2).1 = true) :
  (exists pre m0 t0 rest, ticks = pre ++ (m0, t0) :: rest /\ above m0 /\
     Forall (fun t => above t.1) rest /\ above m /\ fge (now - t0) kRuntimeWedgeDebounceSec = true) /\
  forall m1 t1 m2 t2, above m1 -> above m2 -> time_ok t1 -> fge (t2 - t1) kRuntimeWedgeDebounceSec = true ->
    (wedge_run minus_one (ticks ++ [(m, now); (m1, t1); (m2, t2)])).1 =
    (wedge_run minus_one ticks).1 ++ [true; false; true].
Proof.
  unfold ShouldFireRuntimeWedgeRecovery in Hf.
  pose proof (wedge_since ticks _ Ht eq_refl) as Hw.
  destruct (fle m kMaxPlausibleCalibrationMagnitudeCm) eqn:Em; [done|].
  destruct (flt _ fzero) eqn:Ew; [done|]. destruct (fge _ _) eqn:Ed; [|done]. split.
  - destruct Hw as [Hw|(pre & m0 & rest & H1 & H2 & H3 & H4)]; [rewrite Hw in Ew; discriminate|].
    by exists pre, m0, (wedge_run minus_one ticks).2, rest.
  - intros m1 t1 m2 t2 H1 H2 Ht1 Hd. rewrite wedge_run_app. cbn [fst]. f_equal.
    cbn [wedge_run]. unfold ShouldFireRuntimeWedgeRecovery, above in *. rewrite Em, Ew, Ed, H1, H2.
    change (flt minus_one fzero) with true. cbn match. rewrite time_ok_not_sentinel, Hd by done. done.
Qed.

(** Sixty-one seconds at six metres: two fires. *)
Lemma wedge_fires_witness :
  (wedge_run minus_one (map (fun t => (d_of_Z 600, d_of_Z t)) [0; 10; 30; 31; 61]%Z)).1 =
    [false; false; true; false; true].
Proof.
  destruct (wedge_fires (map (fun t => (d_of_Z 600, d_of_Z t)) [0; 10]%Z) (d_of_Z 600) (d_of_Z 30))
    as [_ H]; [repeat constructor|vm_compute; reflexivity|].
  specialize (H (d_of_Z 600) (d_of_Z 31) (d_of_Z 600) (d_of_Z 61) eq_refl eq_refl eq_refl eq_refl).
  exact H.
Defined.

(** ** The liveness detector *)

Definition tick_ok (i : TrackerLivenessInputs) : Prop := time_ok (in_now i).

(** The hash the detector holds after the ticks [l], from the hash [h]: that of
    the last connected tick. *)
Definition last_hash (h : Z) (l : list TrackerLivenessInputs) : Z :=
  foldl (fun h i => if deviceIsConnected i then posHash i else h) h l.

(** No connected tick of [l] repeats the hash of the connected tick before it. *)
Fixpoint no_repeat (h : Z) (l : list TrackerLivenessInputs) : Prop :=
  match l with
  | [] => True
  | i :: l => if deviceIsConnected i then posHash i <> h /\ no_repeat (posHash i) l else no_repeat h l
  end.

Lemma last_hash_snoc h l i :
  last_hash h (l ++ [i]) = if deviceIsConnected i then posHash i else last_hash h l.
Proof. unfold last_hash. by rewrite foldl_snoc. Qed.

Lemma no_repeat_snoc h l i :
  no_repeat h (l ++ [i]) <->
  no_repeat h l /\ (deviceIsConnected i = true -> posHash i <> last_hash h l).
Proof.
  revert h. induction l as [|j l IH]; intros h; cbn.
  - destruct (deviceIsConnected i); naive_solver.
  - destruct (deviceIsConnected j); rewrite IH; naive_solver.
Qed.

(** The pose has been frozen since the tick [i0]: every connected tick since has
    its hash, and the flag records that the headset moved in one of them. *)
Definition frozen_since (ins : list TrackerLivenessInputs) (s : TrackerLivenessState) : Prop :=
  exists pre i0 mid, ins = pre ++ i0 :: mid /\ in_now i0 = poseHashSinceSec s /\
    deviceIsConnected i0 = true /\ posHash i0 = lastPoseHash s /\
    Forall (fun j => deviceIsConnected j = true -> posHash j = lastPoseHash s) mid /\
    (hmdMovedDuringFreeze s = true ->
       Exists (fun j => deviceIsConnected j = true /\ fge (hmdSpeedMps j) kHmdMovedThresholdMps = true) (i0 :: mid)).

(** The pose has been changing since the tick [i0] that started the debounce. *)
Definition changing_since (ins : list TrackerLivenessInputs) (s : TrackerLivenessState) : Prop :=
  exists pre i0 mid, ins = pre ++ i0 :: mid /\ in_now i0 = reconnectSinceSec s /\
    deviceIsConnected i0 = true /\ no_repeat (posHash i0) mid /\ last_hash (posHash i0) mid = lastPoseHash s.

Record live_inv (ins : list TrackerLivenessInputs) (s : TrackerLivenessState) : Prop := {
  live_offline : offlineSinceSec s = minus_one \/ time_ok (offlineSinceSec s);
  live_frozen : (poseHashSinceSec s = minus_one /\ (IsOffline s = true \/ hmdMovedDuringFreeze s = false)) \/
    (time_ok (poseHashSinceSec s) /\ frozen_since ins s);
  live_changing : reconnectSinceSec s = minus_one \/
    (IsOffline s = true /\ time_ok (reconnectSinceSec s) /\ changing_since ins s) }.

Lemma live_init_inv ins : live_inv ins live_init.
Proof. split; [by left|left; split; [done|by right]|by left]. Qed.

(** A tick that changes nothing but the offline stamp. *)
Lemma frozen_extend ins s s' i :
  poseHashSinceSec s' = poseHashSinceSec s -> lastPoseHash s' = lastPoseHash s ->
  (deviceIsConnected i = true -> posHash i = lastPoseHash s) ->
  (hmdMovedDuringFreeze s' = true -> hmdMovedDuringFreeze s = true \/
     deviceIsConnected i = true /\ fge (hmdSpeedMps i) kHmdMovedThresholdMps = true) ->
  frozen_since ins s -> frozen_since (ins ++ [i]) s'.
Proof.
  intros Ht Hh Hi Hm (pre & i0 & mid & -> & H1 & H2 & H3 & H4 & H5).
  exists pre, i0, (mid ++ [i]). rewrite Ht, Hh. split_and!; try done.
  - by rewrite <-app_assoc.
  - apply Forall_app_2; [done|]. apply list.Forall_cons. by split.
  - intros Hm'. rewrite app_comm_cons. apply Exists_app.
    destruct (Hm Hm') as [?|?]; [left; auto|right; by constructor].
Qed.

Lemma changing_extend ins s s' i :
  reconnectSinceSec s' = reconnectSinceSec s ->
  (deviceIsConnected i = true -> posHash i <> lastPoseHash s) ->
  lastPoseHash s' = (if deviceIsConnected i then posHash i else lastPoseHash s) ->
  changing_since ins s -> changing_since (ins ++ [i]) s'.
Proof.
  intros Hr Hi Hh (pre & i0 & mid & -> & H1 & H2 & H3 & H4). exists pre, i0, (mid ++ [i]).
  rewrite Hr, Hh, last_hash_snoc, no_repeat_snoc, H4, <-app_assoc.
  by split_and!.
Qed.

Lemma live_frozen_keep ins s s' i :
  poseHashSinceSec s' = poseHashSinceSec s -> lastPoseHash s' = lastPoseHash s ->
  hmdMovedDuringFreeze s' = hmdMovedDuringFreeze s -> (IsOffline s = true -> IsOffline s' = true) ->
  (deviceIsConnected i = true -> posHash i = lastPoseHash s) ->
  (poseHashSinceSec s = minus_one /\ (IsOffline s = true \/ hmdMovedDuringFreeze s = false)) \/
    (time_ok (poseHashSinceSec s) /\ frozen_since ins s) ->
  (poseHashSinceSec s' = minus_one /\ (IsOffline s' = true \/ hmdMovedDuringFreeze s' = false)) \/
    (time_ok (poseHashSinceSec s') /\ frozen_since (ins ++ [i]) s').
Proof.
  intros E1 E2 E3 Ho Hi [[? Hm]|[? ?]]; rewrite E1;
    [left; split; [done|]; destruct Hm; [left; auto|right; by rewrite E3]|right; split; [done|]].
  apply (frozen_extend ins s); [done|done|done|rewrite E3; by left|done].
Qed.

Lemma tick_disconnected_inv ins s i :
  deviceIsConnected i = false -> tick_ok i -> live_inv ins s ->
  live_inv (ins ++ [i]) (TickTrackerLiveness s i).2.
Proof.
  intros Ec Ht [I1 I2 I3]. unfold TickTrackerLiveness. rewrite Ec. cbn [negb].
  case_eq (IsOffline s); intros Eo; cbn [negb snd].
  - split; [done|apply (live_frozen_keep ins s); [done..|by rewrite Ec|done]|].
    destruct I3 as [?|(? & ? & ?)]; [by left|right; split_and!; [done..|]].
    apply (changing_extend ins s); [done|by rewrite Ec|by rewrite Ec|done].
  - split; [by right|apply (live_frozen_keep ins s); [done..|by rewrite Ec|done]|by left].
Qed.

Lemma tick_changed_inv ins s i :
  deviceIsConnected i = true -> posHash i <> lastPoseHash s -> tick_ok i -> live_inv ins s ->
  live_inv (ins ++ [i]) (TickTrackerLiveness s i).2.
Proof.
  intros Ec Eh Ht [I1 I2 I3]. unfold TickTrackerLiveness. rewrite Ec, (proj2 (Z.eqb_neq _ _) Eh). cbn [negb].
  set (s1 := s <| lastPoseHash := posHash i |> <| poseHashSinceSec := in_now i |> <| hmdMovedDuringFreeze := false |>).
  assert (forall s', poseHashSinceSec s' = in_now i -> lastPoseHash s' = posHash i ->
    hmdMovedDuringFreeze s' = false -> time_ok (poseHashSinceSec s') /\ frozen_since (ins ++ [i]) s') as Hfr.
  { intros s' E1 E2 E3. split; [by rewrite E1|]. exists ins, i, []. rewrite E1, E2, E3. by split_and!. }
  assert (IsOffline s1 = IsOffline s) as -> by done.
  assert (reconnectSinceSec s1 = reconnectSinceSec s) as -> by done.
  destruct (IsOffline s) eqn:Eo; cbn [snd].
  2:{ split; [done|right; by apply Hfr|]. destruct I3 as [?|(? & _)]; [by left|done]. }
  destruct I3 as [I3|(_ & Hr & Hc)].
  - rewrite I3. change (flt minus_one fzero) with true. cbn [snd].
    split; [done|right; by apply Hfr|right]. split_and!; [done..|]. by exists ins, i, [].
  - rewrite time_ok_not_sentinel by done. destruct (fge _ _); cbn [snd]; [apply live_init_inv|].
    split; [done|right; by apply Hfr|right]. split_and!; [done..|].
    apply (changing_extend ins s); [done|done|by rewrite Ec|done].
Qed.

Lemma tick_same_inv ins s i :
  deviceIsConnected i = true -> posHash i = lastPoseHash s -> tick_ok i -> live_inv ins s ->
  live_inv (ins ++ [i]) (TickTrackerLiveness s i).2.
Proof.
  intros Ec Eh Ht [I1 I2 I3]. unfold TickTrackerLiveness. rewrite Ec, (proj2 (Z.eqb_eq _ _) Eh). cbn [negb].
  set (s1 := if _ && _ then s <| reconnectSinceSec := minus_one |> else s).
  assert (reconnectSinceSec s1 = minus_one) as Hr1.
  { unfold s1. destruct I3 as [I3|(_ & Hr & _)]; [by rewrite I3|]. unfold fge. unfold time_ok, fle in Hr. by rewrite Hr. }
  assert (poseHashSinceSec s1 = poseHashSinceSec s /\ lastPoseHash s1 = lastPoseHash s /\
    hmdMovedDuringFreeze s1 = hmdMovedDuringFreeze s /\ offlineSinceSec s1 = offlineSinceSec s)
    as (S1 & S2 & S3 & S4) by (unfold s1; by case_match).
  clearbody s1.
  set (s2 := if fge (hmdSpeedMps i) kHmdMovedThresholdMps then _ else s1).
  assert (poseHashSinceSec s2 = poseHashSinceSec s /\ lastPoseHash s2 = lastPoseHash s /\
    offlineSinceSec s2 = offlineSinceSec s /\ reconnectSinceSec s2 = minus_one /\
    (hmdMovedDuringFreeze s2 = true -> hmdMovedDuringFreeze s = true \/
      deviceIsConnected i = true /\ fge (hmdSpeedMps i) kHmdMovedThresholdMps = true))
    as (T1 & T2 & T4 & T5 & T3).
  { unfold s2. destruct (fge (hmdSpeedMps i) kHmdMovedThresholdMps); cbn; rewrite ?S1, ?S2, ?S3, ?S4;
      split_and!; try done; intros ?; first [by left|by right]. }
  clearbody s2. clear S1 S2 S3 S4 Hr1 s1.
  assert (forall s', poseHashSinceSec s' = poseHashSinceSec s2 -> lastPoseHash s' = lastPoseHash s2 ->
    hmdMovedDuringFreeze s' = hmdMovedDuringFreeze s2 -> flt (poseHashSinceSec s2) fzero = false ->
    time_ok (poseHashSinceSec s') /\ frozen_since (ins ++ [i]) s') as Hfr.
  { intros s' E1 E2 E3 Hp. rewrite E1, T1. rewrite T1 in Hp.
    destruct I2 as [[I2 _]|[? ?]]; [rewrite I2 in Hp; discriminate|]. split; [done|].
    apply (frozen_extend ins s); [by rewrite E1, T1|by rewrite E2, T2|done|rewrite E3; exact T3|done]. }
  assert (IsOffline s2 = IsOffline s) as Ho by (unfold IsOffline; by rewrite T4).
  destruct (flt (poseHashSinceSec s2) fzero) eqn:Ep.
  - assert (poseHashSinceSec s = minus_one /\ (IsOffline s = true \/ hmdMovedDuringFreeze s = false)) as [Hp Hm].
    { destruct I2 as [?|[Hp _]]; [done|]. by rewrite T1, time_ok_not_sentinel in Ep. }
    destruct (IsOffline s2) eqn:Eo2; cbn [snd].
    { split; [by rewrite T4|left; split; [by rewrite T1|by left]|by left]. }
    split; [cbn; by rewrite T4|right; split; [done|]|by left].
    exists ins, i, []. cbn. rewrite T2. split_and!; try done.
    intros Hm2. constructor. destruct (T3 Hm2) as [?|?]; [|done]. destruct Hm; congruence.
  - assert (live_inv (ins ++ [i]) s2) as H2.
    { split; [by rewrite T4|right; by apply Hfr|by left]. }
    destruct (IsOffline s2) eqn:Eo2; [done|].
    destruct (_ && _); cbn [snd]; [|done]. split; [by right|right; by apply Hfr|by left].
Qed.


Lemma tick_inv ins s i : tick_ok i -> live_inv ins s -> live_inv (ins ++ [i]) (TickTrackerLiveness s i).2.
Proof.
  intros Ht Hi. destruct (deviceIsConnected i) eqn:Ec; [|by apply tick_disconnected_inv].
  destruct (decide (posHash i = lastPoseHash s)); [by apply tick_same_inv|by apply tick_changed_inv].
Qed.

Lemma live_run_inv ins : Forall tick_ok ins -> live_inv ins (live_run ins).
Proof.
  induction ins as [|i ins IH] using rev_ind; intros Ht; [apply live_init_inv|].
  apply Forall_app in Ht as [Ht Hi]. apply list.Forall_cons in Hi as [Hi _].
  unfold live_run. rewrite foldl_snoc. by apply tick_inv; [|apply IH].
Qed.

(** *** The shape of one tick *)

Inductive tick_case (s : TrackerLivenessState) (i : TrackerLivenessInputs) : bool -> TrackerLivenessState -> Prop :=
| case_disconnect s' :
    deviceIsConnected i = false -> IsOffline s = false -> offlineSinceSec s' = in_now i -> tick_case s i true s'
| case_frozen s' :
    deviceIsConnected i = true -> posHash i = lastPoseHash s -> IsOffline s = false ->
    offlineSinceSec s' = in_now i -> flt (poseHashSinceSec s) fzero = false ->
    fge (in_now i - poseHashSinceSec s) kFrozenPoseThresholdSec = true ->
    (hmdMovedDuringFreeze s = true \/ fge (hmdSpeedMps i) kHmdMovedThresholdMps = true) -> tick_case s i true s'
| case_back :
    deviceIsConnected i = true -> posHash i <> lastPoseHash s -> IsOffline s = true ->
    flt (reconnectSinceSec s) fzero = false ->
    fge (in_now i - reconnectSinceSec s) kReconnectDebounceSec = true -> tick_case s i false live_init
| case_stay s' :
    offlineSinceSec s' = offlineSinceSec s -> (deviceIsConnected i = false -> IsOffline s = true) ->
    tick_case s i false s'.

Ltac stay := by apply case_stay; [|intros; congruence].

Lemma tick_cases s i : tick_case s i (TickTrackerLiveness s i).1 (TickTrackerLiveness s i).2.
Proof.
  unfold TickTrackerLiveness. destruct (deviceIsConnected i) eqn:Ec; cbn [negb].
  2:{ case_eq (IsOffline s); intros Eo; cbn; [stay|by apply case_disconnect]. }
  destruct (Z.eqb_spec (posHash i) (lastPoseHash s)) as [Eh|Eh]; cbn [negb].
  - set (s1 := if _ && true then s <| reconnectSinceSec := minus_one |> else s).
    assert (offlineSinceSec s1 = offlineSinceSec s /\ poseHashSinceSec s1 = poseHashSinceSec s /\
      hmdMovedDuringFreeze s1 = hmdMovedDuringFreeze s) as (S1 & S2 & S3) by (unfold s1; by case_match).
    clearbody s1. set (s2 := if fge (hmdSpeedMps i) kHmdMovedThresholdMps then _ else s1).
    assert (offlineSinceSec s2 = offlineSinceSec s /\ poseHashSinceSec s2 = poseHashSinceSec s /\
      hmdMovedDuringFreeze s2 = hmdMovedDuringFreeze s || fge (hmdSpeedMps i) kHmdMovedThresholdMps)
      as (T1 & T2 & T3).
    { unfold s2. destruct (fge (hmdSpeedMps i) _); cbn; by rewrite ?orb_true_r, ?orb_false_r. }
    clearbody s2. assert (IsOffline s2 = IsOffline s) as -> by (unfold IsOffline; by rewrite T1).
    case_eq (IsOffline s); intros Eo; [stay|]. rewrite T2.
    case_eq (flt (poseHashSinceSec s) fzero); intros Ep; [stay|].
    case_eq (fge (in_now i - poseHashSinceSec s) kFrozenPoseThresholdSec && hmdMovedDuringFreeze s2);
      intros Ef; [|stay].
    apply andb_true_iff in Ef as [Ef1 Ef2]. rewrite T3 in Ef2. apply orb_true_iff in Ef2.
    by apply case_frozen.
  - set (s1 := s <| lastPoseHash := posHash i |> <| poseHashSinceSec := in_now i |> <| hmdMovedDuringFreeze := false |>).
    assert (IsOffline s1 = IsOffline s) as -> by done.
    case_eq (IsOffline s); intros Eo; [|stay].
    assert (reconnectSinceSec s1 = reconnectSinceSec s) as -> by done.
    case_eq (flt (reconnectSinceSec s) fzero); intros Er; [stay|].
    case_eq (fge (in_now i - reconnectSinceSec s) kReconnectDebounceSec); intros Ed;
      [by apply case_back|stay].
Qed.

Lemma stamped_offline s t : offlineSinceSec s = t -> time_ok t -> IsOffline s = true.
Proof. unfold IsOffline. by intros ->. Qed.

(** The edge is reported exactly when the device goes from online to
    offline.  It goes offline at once when the runtime says it is disconnected;
    otherwise only after a stretch of at least eight seconds on which every
    connected tick had the same pose and the headset moved.  It comes back
    only when, for at least two seconds, no connected tick repeated the pose of
    the one before. *)
Theorem liveness_sound ins i (s := live_run ins) (t := TickTrackerLiveness s i)
  (Ht : Forall tick_ok (ins ++ [i])) :
  (t.1 = true <-> IsOffline s = false /\ IsOffline t.2 = true) /\
  (deviceIsConnected i = false -> IsOffline t.2 = true) /\
  (t.1 = true -> deviceIsConnected i = true ->
   exists pre i0 mid, ins = pre ++ i0 :: mid /\ deviceIsConnected i0 = true /\
     Forall (fun j => deviceIsConnected j = true -> posHash j = posHash i0) (mid ++ [i]) /\
     fge (in_now i - in_now i0) kFrozenPoseThresholdSec = true /\
     Exists (fun j => deviceIsConnected j = true /\ fge (hmdSpeedMps j) kHmdMovedThresholdMps = true)
       (i0 :: mid ++ [i])) /\
  (IsOffline s = true -> IsOffline t.2 = false ->
   exists pre i0 mid, ins = pre ++ i0 :: mid /\ deviceIsConnected i0 = true /\
     deviceIsConnected i = true /\ no_repeat (posHash i0) (mid ++ [i]) /\
     fge (in_now i - in_now i0) kReconnectDebounceSec = true).
Proof.
  apply Forall_app in Ht as [Hts Hi]. apply list.Forall_cons in Hi as [Hi _].
  destruct (live_run_inv ins Hts) as [I1 I2 I3]. fold s in I1, I2, I3.
  subst t. destruct (tick_cases s i) as [s' Hc Ho Hs'|s' Hc Hh Ho Hs' Hp Hd Hm|Hc Hh Ho Hr Hd|s' Hs' Hc].
  - pose proof (stamped_offline s' _ Hs' Hi) as Hs. split_and!; [naive_solver..|intros; congruence|intros; congruence].
  - pose proof (stamped_offline s' _ Hs' Hi) as Hs. split_and!; [naive_solver|done| |intros; congruence].
    intros _ _. destruct I2 as [[I2 _]|[_ (pre & i0 & mid & -> & H1 & H2 & H3 & H4 & H5)]];
      [rewrite I2 in Hp; discriminate|].
    exists pre, i0, mid. rewrite H1, H3. split_and!; try done.
    + apply Forall_app_2; [done|]. by apply list.Forall_cons.
    + rewrite app_comm_cons. apply Exists_app. destruct Hm as [Hm|Hm]; [left; auto|right; by constructor].
  - split_and!; [by split; [|intros [? ?]; congruence]|intros; congruence|done|]. intros _ _.
    destruct I3 as [I3|(_ & _ & pre & i0 & mid & -> & H1 & H2 & H3 & H4)]; [rewrite I3 in Hr; discriminate|].
    exists pre, i0, mid. rewrite H1. split_and!; try done. apply no_repeat_snoc. by rewrite H4.
  - assert (IsOffline s' = IsOffline s) as -> by (unfold IsOffline; by rewrite Hs').
    split_and!; [split; [done|intros [? ?]; congruence]|auto|done|intros; congruence].
Qed.

Lemma disconnected_stay s mid :
  IsOffline s = true -> Forall (fun j => deviceIsConnected j = false) mid ->
  foldl (fun s i => (TickTrackerLiveness s i).2) s mid = s.
Proof.
  intros Ho Hm. induction Hm as [|j mid Hj _ IH]; [done|]. cbn [foldl].
  unfold TickTrackerLiveness at 2. rewrite Hj, Ho. done.
Qed.

(** The reconnect debounce does not notice disconnections: an offline
    device whose pose changes once, that is then disconnected for two seconds
    or more, is declared online on the first connected tick after that, with
    two live poses in the whole window. *)
Theorem liveness_flap s i0 mid i
  (Ho : IsOffline s = true) (Hr : reconnectSinceSec s = minus_one)
  (Hc0 : deviceIsConnected i0 = true) (Hh0 : posHash i0 <> lastPoseHash s) (Ht0 : tick_ok i0)
  (Hmid : Forall (fun j => deviceIsConnected j = false) mid)
  (Hc : deviceIsConnected i = true) (Hh : posHash i <> posHash i0)
  (Hd : fge (in_now i - in_now i0) kReconnectDebounceSec = true) :
  IsOffline (foldl (fun s i => (TickTrackerLiveness s i).2) s (i0 :: mid ++ [i])) = false.
Proof.
  cbn [foldl]. rewrite foldl_snoc.
  assert (TickTrackerLiveness s i0 = (false, s <| lastPoseHash := posHash i0 |> <| poseHashSinceSec := in_now i0 |>
    <| hmdMovedDuringFreeze := false |> <| reconnectSinceSec := in_now i0 |>)) as E.
  { unfold TickTrackerLiveness. rewrite Hc0, (proj2 (Z.eqb_neq _ _) Hh0). cbn [negb].
    change (IsOffline (s <| lastPoseHash := _ |> <| poseHashSinceSec := _ |> <| hmdMovedDuringFreeze := _ |>))
      with (IsOffline s). rewrite Ho. cbn [reconnectSinceSec upd]. by rewrite Hr. }
  rewrite E. cbn [snd]. rewrite disconnected_stay by done.
  unfold TickTrackerLiveness. rewrite Hc. cbn [lastPoseHash upd]. rewrite (proj2 (Z.eqb_neq _ _) Hh). cbn [negb].
  match goal with |- context [if IsOffline ?x then _ else _] => change (IsOffline x) with (IsOffline s) end.
  rewrite Ho. cbn [reconnectSinceSec upd]. rewrite time_ok_not_sentinel, Hd by done. done.
Qed.

(** ** The geometry-shift tick *)

(** The accumulator is between zero and the threshold, or not a number. *)
Lemma cusum_bounds S e b k h :
  fle fzero h = true ->
  let S' := (UpdateCusumGeometryShift S e b k h).2 in
  is_nan S' = true \/ fle fzero S' = true /\ fle S' h = true.
Proof.
  intros Hh. unfold UpdateCusumGeometryShift. cbv zeta. set (x := d_add _ _). clearbody x.
  destruct (is_nan x) eqn:Ex.
  { left. destruct x; try done. by destruct h. }
  right. destruct (fle_not_nan _ _ Hh) as [_ Hhn].
  destruct (flt x fzero) eqn:Ez.
  - unfold fgt. destruct (SFltb h fzero) eqn:E; [|by split].
    by split.
  - pose proof (flt_false_fle x fzero Ex eq_refl Ez) as Hx.
    unfold fgt. change (SFltb h x) with (flt h x).
    destruct (flt h x) eqn:E; cbn [snd]; [by split|]. split; [done|]. by apply flt_false_fle.
Qed.

(** Once not a number, the accumulator stays so and never fires again. *)
Lemma cusum_nan S e b k h :
  is_nan S = true -> UpdateCusumGeometryShift S e b k h = (false, S754_nan).
Proof. destruct S; try done. by destruct h. Qed.

(** The state after a tick: a fire leaves both detectors clear, and a tick
    without a valid calibration does too. *)
Lemma geometry_tick_reset useCusum isValid errs g :
  (geometry_tick useCusum isValid errs g).1 = true \/ isValid = false ->
  consecutiveBadTicks (geometry_tick useCusum isValid errs g).2 = 0%Z /\
  cusumS (geometry_tick useCusum isValid errs g).2 = fzero.
Proof.
  unfold geometry_tick. intros H.
  destruct (last errs) as [[ts e]|]; [|done]. destruct (rolling_median errs) as [m|]; [|done].
  destruct isValid; [|rewrite andb_false_r; done]. destruct H as [H|H]; [|done]. revert H.
  destruct (_ && true); [|done]. destruct (fgt ts (lastErrorTs g)); [|done]. cbv zeta.
  destruct useCusum; [destruct (UpdateCusumGeometryShift _ _ _ _ _) as [f c]; destruct f; done|].
  destruct (ShouldFireGeometryShiftRecovery _); done.
Qed.

(** ** Witnesses *)

Definition live_tick (hash : Z) (connected : bool) (speed now : Z) : TrackerLivenessInputs :=
  mkIn hash connected (d_of_Z speed) fzero (d_of_Z now).

(** Nine seconds of the same pose with a moving headset. *)
Lemma liveness_sound_witness :
  (TickTrackerLiveness (live_run [live_tick 5 true 1 1; live_tick 5 true 1 4]) (live_tick 5 true 0 10)).1 = true.
Proof.
  destruct (liveness_sound [live_tick 5 true 1 1; live_tick 5 true 1 4] (live_tick 5 true 0 10)) as [[_ H] _];
    [repeat constructor|].
  apply H. split; vm_compute; reflexivity.
Defined.

(** Disconnected, one pose, disconnected again, one pose three seconds later. *)
Lemma liveness_flap_witness :
  IsOffline (live_run [live_tick 0 false 0 1; live_tick 1 true 0 2; live_tick 1 false 0 3; live_tick 2 true 0 5]) = false.
Proof.
  refine (liveness_flap (live_run [live_tick 0 false 0 1]) (live_tick 1 true 0 2) [live_tick 1 false 0 3]
    (live_tick 2 true 0 5) _ _ _ _ _ _ _ _ _); try (vm_compute; reflexivity).
  - vm_compute. discriminate.
  - repeat constructor.
  - vm_compute. discriminate.
Defined.
