(* ===== verification/Filters.v ===== *)
(** * Calibration filters (modules/calibration/src/overlay)

    The chi-square re-anchor detector and its tick, the ring of recovery events
    with the predictive correction drawn from it, the Kalman blend of the
    published calibration, and the robust scale of the solver.  Vector and
    quaternion arithmetic is Eigen's, a class of operations. *)

From S2P Require Import Prelude Floats Isometry Detectors.
From stdpp Require Import sorting.
Open Scope fl_scope.

(** The further Eigen operations these files use. *)
Class EigenMore := {
  v_div : Vector3d -> double -> Vector3d;
  v_dot : Vector3d -> Vector3d -> double;
  v_normalized : Vector3d -> Vector3d;
  q_conjugate : Quaterniond -> Quaterniond }.

Definition neg_1e9 : double := d_of_Z (-1000000000).

(** ** ReanchorChiSquareDetector.h *)

Definition kChiSquare6DoF_p1e4 : double := d_lit 278563 10000.
Definition kVelocityWindowSec : double := d_lit 20 100.
Definition kVarianceWindowSec : double := d_of_Z 5.
Definition kFreezeWindowSec : double := d_lit 50 100.
Definition kHistoryCapacity : nat := 32.
Definition kVarianceFloor : double := d_lit 1 100000000.

Record PoseSample := mkSample { ps_trans : Vector3d; ps_rot : Quaterniond; ps_timestamp : double }.

Record DetectorState := mkDet {
  history : list PoseSample; historyCount : nat;
  residualVariance : list double; varianceCount : Z;
  freezeUntil : double; lastFireTime : double; lastChiSquared : double }.

#[export] Instance det_settable : Settable DetectorState := fun s =>
  mkDet (history s) (historyCount s) (residualVariance s) (varianceCount s) (freezeUntil s)
    (lastFireTime s) (lastChiSquared s).

Definition det_init : DetectorState :=
  mkDet (replicate kHistoryCapacity (mkSample v_zero q_identity fzero)) 0
    (replicate 6 kVarianceFloor) 0 neg_1e9 neg_1e9 fzero.

Definition PushPose (s : DetectorState) (trans : Vector3d) (rot : Quaterniond) (now : double) : DetectorState :=
  s <| history ::= <[(historyCount s mod kHistoryCapacity)%nat := mkSample trans rot now]> |>
    <| historyCount ::= Datatypes.S |>.

Definition live_history (s : DetectorState) : list PoseSample :=
  take (Nat.min (historyCount s) kHistoryCapacity) (history s).

(** The oldest sample within the window, the first of equals. *)
Definition earliest_in (now : double) (l : list PoseSample) : option PoseSample :=
  foldl (fun best p =>
    if fle (now - ps_timestamp p) kVelocityWindowSec &&
       match best with None => true | Some b => flt (ps_timestamp p) (ps_timestamp b) end
    then Some p else best) None l.

(** The latest sample: its translation, its rotation and its time. *)
Definition latest_of (l : list PoseSample) : Vector3d * Quaterniond * double :=
  foldl (fun acc p => if fgt (ps_timestamp p) acc.2 then (ps_trans p, ps_rot p, ps_timestamp p) else acc)
    (v_zero, q_identity, neg_1e9) l.

Definition alpha_of (dt : double) : double :=
  if fgt dt fzero && flt dt kVarianceWindowSec then dt / kVarianceWindowSec else d_lit 5 100.

Definition update_variance (alpha v r : double) : double :=
  let r2 := r * r in
  let v := (d_one - alpha) * v + alpha * r2 in
  if flt v kVarianceFloor then kVarianceFloor else v.

Definition UpdateResidualVariance (s : DetectorState) (resid : list double) (dt : double) : DetectorState :=
  s <| residualVariance ::= fun v => zip_with (update_variance (alpha_of dt)) v resid |>
    <| varianceCount ::= Z.succ |>.

Definition MahalanobisSquared (resid variance : list double) : double :=
  foldl (fun sum '(r, v) => sum + (r * r) / std_max v kVarianceFloor) fzero (zip resid variance).

Definition IsFrozen (s : DetectorState) (now : double) : bool := flt now (freezeUntil s).

Section Reanchor.
Context `{Eigen} `{EigenMore}.

Definition EstimateLinearVelocity (s : DetectorState) (now : double) : Vector3d :=
  if (length (live_history s) <? 2)%nat then v_zero else
  match earliest_in now (live_history s) with
  | None => v_zero
  | Some e =>
    let '(latestTrans, _, latestTime) := latest_of (live_history s) in
    let dt := latestTime - ps_timestamp e in
    if fle dt (d_lit 1 1000000) then v_zero else v_div (v_sub latestTrans (ps_trans e)) dt
  end.

Definition PredictTranslation (s : DetectorState) (now : double) : Vector3d :=
  if (length (live_history s) =? 0)%nat then v_zero else
  let '(latestTrans, _, latestTime) := latest_of (live_history s) in
  let v := EstimateLinearVelocity s latestTime in
  let dt := std_max fzero (now - latestTime) in
  v_add latestTrans (v_scale v dt).

Definition residual (s : DetectorState) (observedTrans : Vector3d) (observedRot : Quaterniond) (now : double)
    : list double :=
  let t := v_sub observedTrans (PredictTranslation s now) in
  let '(_, latestRot, _) := latest_of (live_history s) in
  let d := q_mul observedRot (q_conjugate latestRot) in
  [v_x t; v_y t; v_z t; q_x d; q_y d; q_z d].

Definition TickAndCheckCandidate (s : DetectorState) (observedTrans : Vector3d) (observedRot : Quaterniond)
    (now dt : double) : bool * DetectorState :=
  if (length (live_history s) <? 4)%nat then (false, PushPose s observedTrans observedRot now)
  else
    let resid := residual s observedTrans observedRot now in
    let m := MahalanobisSquared resid (residualVariance s) in
    let fired := (20 <=? varianceCount s)%Z && fgt m kChiSquare6DoF_p1e4 in
    let s := s <| lastChiSquared := m |> in
    let s := if fired then s <| freezeUntil := now + kFreezeWindowSec |> <| lastFireTime := now |> else s in
    let s := PushPose s observedTrans observedRot now in
    (fired, if fired then s else UpdateResidualVariance s resid dt).

(** *** [TickReanchorChiSquare] *)

Record HmdPose := mkHmd {
  hp_valid : bool;  (* poseIsValid, deviceIsConnected and Running_OK *)
  hp_worldFromDriverRotation : Quaterniond; hp_worldFromDriverTranslation : Vector3d;
  hp_rotation : Quaterniond; hp_position : Vector3d }.

Record ReanchorTick := mkRT { rt_state : DetectorState; rt_lastTickTime : double }.

(** The answer: whether the corrections skip this tick. *)
Definition TickReanchorChiSquare (enabled : bool) (hmd : HmdPose) (now : double) (g : ReanchorTick)
    : bool * ReanchorTick :=
  if negb enabled then (false, mkRT det_init minus_one) else
  let dt := if fgt (rt_lastTickTime g) fzero then now - rt_lastTickTime g else fzero in
  if negb (hp_valid hmd) then (false, mkRT (rt_state g) now) else
  let worldT := v_add (hp_worldFromDriverTranslation hmd)
                  (q_rotate (hp_worldFromDriverRotation hmd) (hp_position hmd)) in
  let worldR := q_normalized (q_mul (hp_worldFromDriverRotation hmd) (hp_rotation hmd)) in
  let s := (TickAndCheckCandidate (rt_state g) worldT worldR now dt).2 in
  (IsFrozen s now, mkRT s now).
End Reanchor.

(** ** RecoveryDeltaBuffer.h *)

Definition kBufferSize : nat := 6.
Definition kMinEvents : nat := 3.
Definition kAmount : double := d_lit 10 100.
Definition kConsistencyCosine : double := d_lit 7 10.
Definition kHalfLifeSec : double := d_of_Z 300.

Record RecoveryEvent := mkRec { re_direction : Vector3d; re_magnitude : double; re_timestamp : double }.

Record Buffer := mkBuf { events : list RecoveryEvent; count : nat }.

Definition buf_init : Buffer := mkBuf (replicate kBufferSize (mkRec v_zero fzero fzero)) 0.

Definition LiveCount (b : Buffer) : nat := Nat.min (count b) kBufferSize.

Section Recovery.
Context `{Eigen} `{EigenMore} `{Libm}.

Definition recovery_event (deltaVec : Vector3d) (now : double) : RecoveryEvent :=
  let mag := v_norm deltaVec in
  mkRec (if fgt mag (d_lit 1 1000000000) then v_div deltaVec mag else v_zero) mag now.

Definition Push (b : Buffer) (deltaVec : Vector3d) (now : double) : Buffer :=
  mkBuf (<[(count b mod kBufferSize)%nat := recovery_event deltaVec now]> (events b)) (Datatypes.S (count b)).

Definition recency (now : double) (ev : RecoveryEvent) : double :=
  m_exp (SFopp (std_max fzero (now - re_timestamp ev)) / kHalfLifeSec).

Definition weighted (now : double) (l : list RecoveryEvent) : Vector3d * double * double :=
  foldl (fun '(vs, ms, ws) ev =>
    let w := recency now ev in
    (v_add vs (v_scale (v_scale (re_direction ev) w) (re_magnitude ev)),
     ms + w * re_magnitude ev, ws + w)) (v_zero, fzero, fzero) l.

Definition cosines (now : double) (meanDir : Vector3d) (l : list RecoveryEvent) : double :=
  foldl (fun c ev => c + recency now ev * v_dot (re_direction ev) meanDir) fzero l.

Definition PredictNext (b : Buffer) (now : double) : option (Vector3d * double) :=
  let n := LiveCount b in
  if (n <? kMinEvents)%nat then None else
  let l := take n (events b) in
  let '(weightedSum, weightedMag, weightTotal) := weighted now l in
  if fle weightTotal fzero || fle weightedMag fzero then None else
  let meanMag := weightedMag / weightTotal in
  let centroid := v_div weightedSum weightTotal in
  let centroidNorm := v_norm centroid in
  if flt centroidNorm (d_lit 1 1000000000) then None else
  let meanDir := v_div centroid centroidNorm in
  let meanCos := cosines now meanDir l / weightTotal in
  if flt meanCos kConsistencyCosine then None else Some (meanDir, meanMag).

Definition ComputePerTickNudge (b : Buffer) (now dt capMps : double) : Vector3d :=
  match PredictNext b now with
  | None => v_zero
  | Some (dir, mag) =>
    if fle dt fzero then v_zero else
    let step := v_scale dir (kAmount * mag) in
    let maxStep := capMps * dt in
    if fgt (v_norm step) maxStep then v_scale (v_normalized step) maxStep else step
  end.

(** *** [TickPredictiveRecovery] *)

Definition kPredictiveRateCapMps : double := d_lit 1 1000.

Record Predictive := mkPred {
  pr_buffer : Buffer; pr_lastTickTime : double; pr_calibratedTranslation : Vector3d }.

#[export] Instance pred_settable : Settable Predictive := fun p =>
  mkPred (pr_buffer p) (pr_lastTickTime p) (pr_calibratedTranslation p).

Definition TickPredictiveRecovery (enabled validProfile : bool) (state : CalibrationState) (now : double)
    (p : Predictive) : Predictive :=
  if negb enabled then p <| pr_buffer := buf_init |> <| pr_lastTickTime := minus_one |>
  else if negb validProfile then p
  else if bool_decide (state = StBegin \/ state = StRotation \/ state = StTranslation) then p
  else
    let dt := if fgt (pr_lastTickTime p) fzero then now - pr_lastTickTime p else fzero in
    let p := p <| pr_lastTickTime := now |> in
    let step := ComputePerTickNudge (pr_buffer p) now dt kPredictiveRateCapMps in
    if fle (v_norm step) fzero then p
    else p <| pr_calibratedTranslation ::= fun t => v_sub t (v_scale step (d_of_Z 100)) |>.
End Recovery.

(** ** BlendFilter.h *)

Definition kSigmaYawPerSec : double := d_lit 291 10000000.
Definition kSigmaPosPerSec : double := d_lit 167 10000000.
Definition kSigmaYawMeas : double := d_lit 1 2 * d_lit 884279719003555 281474976710656 / d_of_Z 180.
Definition kSigmaPosMeas : double := d_lit 5 1000.
Definition kDivergenceYawRad : double := d_lit 1 2.
Definition kDivergencePosM : double := d_lit 30 100.
Definition kInitialPyaw : double := d_lit 1 10.
Definition kInitialPpos : double := d_lit 4 100.

Record BlendState := mkBlend {
  initialized : bool; b_yaw : double; b_tx : double; b_ty : double; b_tz : double;
  Pyaw : double; Px : double; Py : double; Pz : double }.

Definition blend_init : BlendState :=
  mkBlend false fzero fzero fzero fzero kInitialPyaw kInitialPpos kInitialPpos kInitialPpos.

(** [Reset] leaves the state a fresh one has. *)
Definition BlendReset (s : BlendState) : BlendState := blend_init.

Section Blend.
Context `{Libm}.

(** One scalar of the update: the new estimate and the new variance. *)
Definition kalman (x P dQ R y : double) : double * double :=
  let P_pred := P + dQ in
  let K := P_pred / (P_pred + R) in
  (x + K * y, (d_one - K) * P_pred).

(** The state, the yaw innovation and the position innovation. *)
Definition BlendUpdate (s : BlendState) (measYaw measTx measTy measTz dt : double)
    : BlendState * double * double :=
  if negb (initialized s) then
    (mkBlend true measYaw measTx measTy measTz kInitialPyaw kInitialPpos kInitialPpos kInitialPpos, fzero, fzero)
  else
    let dt := if flt dt fzero then fzero else dt in
    let dQyaw := kSigmaYawPerSec * kSigmaYawPerSec * dt in
    let dQpos := kSigmaPosPerSec * kSigmaPosPerSec * dt in
    let yYawRaw := measYaw - b_yaw s in
    let yYaw := m_atan2 (m_sin yYawRaw) (m_cos yYawRaw) in
    let yX := measTx - b_tx s in
    let yY := measTy - b_ty s in
    let yZ := measTz - b_tz s in
    let Ryaw := kSigmaYawMeas * kSigmaYawMeas in
    let Rpos := kSigmaPosMeas * kSigmaPosMeas in
    let '(yaw, pyaw) := kalman (b_yaw s) (Pyaw s) dQyaw Ryaw yYaw in
    let '(tx, px) := kalman (b_tx s) (Px s) dQpos Rpos yX in
    let '(ty, py) := kalman (b_ty s) (Py s) dQpos Rpos yY in
    let '(tz, pz) := kalman (b_tz s) (Pz s) dQpos Rpos yZ in
    (mkBlend true yaw tx ty tz pyaw px py pz, SFabs yYaw, d_sqrt (yX * yX + yY * yY + yZ * yZ)).

Definition IsDivergent (yawInnov posInnov : double) : bool :=
  fgt yawInnov kDivergenceYawRad || fgt posInnov kDivergencePosM.
End Blend.

(** ** RobustScale.h *)

Definition kQnConsistency : double := d_lit 22219 10000.
Definition kTukeyTune : double := d_lit 4685 1000.
Definition kQnInputCap : nat := 500.

(** [None]: an index out of range, or an undefined conversion. *)
Definition stride_sample (xs : list double) : option (list double) :=
  let stride := d_of_Z (Z.of_nat (length xs)) / d_of_Z (Z.of_nat kQnInputCap) in
  mapM (fun i => k ← trunc_to_Z (d_of_Z (Z.of_nat i) * stride);
                 xs !! Nat.min (Z.to_nat k) (length xs - 1)) (seq 0 kQnInputCap).

Fixpoint pair_distances (xs : list double) : list double :=
  match xs with [] => [] | x :: xs => map (fun y => SFabs (x - y)) xs ++ pair_distances xs end.

Definition Qn (xs : list double) : option double :=
  if (length xs <? 2)%nat then Some fzero else
  xs' ← (if (kQnInputCap <? length xs)%nat then stride_sample xs else Some xs);
  let n := length xs' in
  let numPairs := (n * (n - 1) / 2)%nat in
  let h := (n / 2 + 1)%nat in
  let k := (h * (h - 1) / 2)%nat in
  let idx := if (0 <? k)%nat && (k - 1 <? numPairs)%nat then (k - 1)%nat else (numPairs - 1)%nat in
  q ← merge_sort d_le (pair_distances xs') !! idx; Some (q * kQnConsistency).

Definition TukeyWeight (residual c : double) : double :=
  if negb (fgt c fzero) then fzero else
  let u := residual / c in
  if fge (SFabs u) d_one then fzero else
  let oneMinusUSq := d_one - u * u in
  oneMinusUSq * oneMinusUSq.

(** ** The re-anchor detector *)

(** A component of the variance that is not a number, or a residual that is
    not, keeps the distance from being one. *)
Lemma mahalanobis_nan resid variance i r v :
  resid !! i = Some r -> variance !! i = Some v -> is_nan r = true \/ is_nan v = true ->
  is_nan (MahalanobisSquared resid variance) = true.
Proof.
  intros Hr Hv Hn. unfold MahalanobisSquared.
  assert (forall l acc, is_nan acc = true ->
    is_nan (foldl (fun sum '(r, v) => sum + (r * r) / std_max v kVarianceFloor) acc l) = true) as Hacc.
  { induction l as [|[r' v'] l IH]; intros acc Ha; [done|]. apply IH. by apply d_add_nan_l. }
  generalize fzero. revert resid variance Hr Hv. induction i as [|i IH]; intros [|r' rs] [|v' vs] Hr Hv acc; try done.
  - cbn in Hr, Hv. injection Hr as ->. injection Hv as ->. cbn. apply Hacc, d_add_nan_r. destruct Hn as [Hn|Hn].
    + by apply d_div_nan_l, d_mul_nan_l.
    + apply d_div_nan_r. unfold std_max. by rewrite flt_nan_l.
  - cbn. by apply (IH rs vs).
Qed.

Lemma update_variance_nan alpha v r : is_nan v = true \/ is_nan r = true -> is_nan (update_variance alpha v r) = true.
Proof.
  intros Hn. unfold update_variance.
  assert (is_nan ((d_one - alpha) * v + alpha * (r * r)) = true) as Hx.
  { destruct Hn as [Hn|Hn]; [by apply d_add_nan_l, d_mul_nan_r|by apply d_add_nan_r, d_mul_nan_r, d_mul_nan_l]. }
  by rewrite flt_nan_l.
Qed.

Lemma update_variance_floor alpha v r :
  is_nan (update_variance alpha v r) = true \/ fle kVarianceFloor (update_variance alpha v r) = true.
Proof.
  unfold update_variance. set (x := d_add _ _). clearbody x.
  destruct (flt x kVarianceFloor) eqn:E; [by right|].
  destruct (is_nan x) eqn:Ex; [by left|]. right. by apply flt_false_fle.
Qed.

Section ReanchorProps.
Context `{Eigen} `{EigenMore}.

(** The observations the detector is fed: translation, rotation, time, [dt]. *)
Definition observation : Type := (Vector3d * Quaterniond * double * double).

Definition det_tick (s : DetectorState) (o : observation) : bool * DetectorState :=
  let '(t, r, now, dt) := o in TickAndCheckCandidate s t r now dt.

Fixpoint det_run (s : DetectorState) (os : list observation) : list bool * DetectorState :=
  match os with
  | [] => ([], s)
  | o :: os => let '(f, s) := det_tick s o in let '(fs, s) := det_run s os in (f :: fs, s)
  end.

Lemma det_run_app s o1 o2 :
  det_run s (o1 ++ o2) =
  ((det_run s o1).1 ++ (det_run (det_run s o1).2 o2).1, (det_run (det_run s o1).2 o2).2).
Proof.
  revert s. induction o1 as [|o o1 IH]; intros s; cbn; [by destruct (det_run s o2)|].
  destruct (det_tick s o) as [f s1]. specialize (IH s1). destruct (det_run s1 o1) as [f1 s2].
  destruct (det_run s1 (o1 ++ o2)) as [f2 s3]. cbn in *. by injection IH as -> ->.
Qed.

(** After [n] observations. *)
Record det_ok (n : nat) (s : DetectorState) : Prop := {
  det_hist : length (history s) = kHistoryCapacity;
  det_count : historyCount s = n;
  det_var : length (residualVariance s) = 6;
  det_varcount : (varianceCount s <= Z.of_nat (n - 4))%Z;
  det_floor : Forall (fun v => is_nan v = true \/ fle kVarianceFloor v = true) (residualVariance s) }.

Lemma live_length n s : det_ok n s -> length (live_history s) = Nat.min n kHistoryCapacity.
Proof. intros [H1 H2 _ _ _]. unfold live_history. rewrite length_take, H1, H2. unfold kHistoryCapacity. lia. Qed.

Lemma residual_length s t r now : length (residual s t r now) = 6.
Proof. unfold residual. by destruct (latest_of (live_history s)) as [[? ?] ?]. Qed.

Lemma det_init_ok : det_ok 0 det_init.
Proof. split; [done..|]. repeat constructor; by right. Qed.

Lemma det_tick_ok n s o : det_ok n s -> det_ok (S n) (det_tick s o).2.
Proof.
  intros Hok. pose proof (live_length n s Hok) as Hl. destruct Hok as [D1 D2 D3 D4 D5].
  destruct o as [[[t r] now] dt]. cbn [det_tick]. unfold TickAndCheckCandidate.
  destruct (Nat.ltb_spec (length (live_history s)) 4) as [Hlt|Hge].
  - split; cbn; rewrite ?length_insert; try done; [lia|].
    etransitivity; [exact D4|]. lia.
  - rewrite Hl in Hge. cbv zeta. destruct (_ && _); cbn [snd].
    + split; cbn -[kHistoryCapacity]; rewrite ?length_insert; try done; [lia|].
      etransitivity; [exact D4|]. destruct n; lia.
    + split; cbn -[kHistoryCapacity residual]; rewrite ?length_insert; try done; [lia|..].
      * rewrite length_zip_with, residual_length, D3. done.
      * unfold kHistoryCapacity in Hge. lia.
      * apply Forall_lookup. intros i v. rewrite lookup_zip_with_Some.
        intros (x & y & -> & _ & _). apply update_variance_floor.
Qed.

Lemma det_run_ok os : det_ok (length os) (det_run det_init os).2.
Proof.
  induction os as [|o os IH] using rev_ind; [apply det_init_ok|].
  rewrite det_run_app, length_app, Nat.add_1_r. cbn [snd det_run].
  pose proof (det_tick_ok _ _ o IH) as Hk. destruct (det_tick _ o) as [f s]. exact Hk.
Qed.

(** A tick with four or more observations behind it. *)
Lemma det_tick_warm n s t r now dt (res := residual s t r now)
    (m := MahalanobisSquared res (residualVariance s))
    (fired := (20 <=? varianceCount s)%Z && fgt m kChiSquare6DoF_p1e4) :
  det_ok n s -> 4 <= n ->
  (det_tick s (t, r, now, dt)).1 = fired /\
  residualVariance (det_tick s (t, r, now, dt)).2 =
    (if fired then residualVariance s else zip_with (update_variance (alpha_of dt)) (residualVariance s) res) /\
  freezeUntil (det_tick s (t, r, now, dt)).2 = (if fired then now + kFreezeWindowSec else freezeUntil s).
Proof.
  intros Hok Hn. cbn [det_tick]. unfold TickAndCheckCandidate.
  rewrite (live_length n s Hok), (proj2 (Nat.ltb_ge _ _)) by (unfold kHistoryCapacity; lia).
  fold res. fold m. fold fired. clearbody fired. by destruct fired.
Qed.

Lemma det_tick_cold n s o :
  det_ok n s -> n < 4 ->
  (det_tick s o).1 = false /\ residualVariance (det_tick s o).2 = residualVariance s /\
  freezeUntil (det_tick s o).2 = freezeUntil s.
Proof.
  intros Hok Hn. destruct o as [[[t r] now] dt]. cbn [det_tick]. unfold TickAndCheckCandidate.
  rewrite (live_length n s Hok), (proj2 (Nat.ltb_lt _ _)) by (unfold kHistoryCapacity; lia). done.
Qed.

(** A candidate is raised only after at least twenty-four observations and
    on a distance above the threshold; it freezes the corrections for exactly
    half a second and is not folded into the variance, while a tick without one
    leaves the freeze alone.  No variance ever falls below its floor (unless it
    is not a number). *)
Theorem reanchor_candidate pre o (s := (det_run det_init pre).2) (t := det_tick s o) :
  (t.1 = true ->
     24 <= length pre /\ flt kChiSquare6DoF_p1e4 (MahalanobisSquared (residual s o.1.1.1 o.1.1.2 o.1.2) (residualVariance s)) = true /\
     residualVariance t.2 = residualVariance s /\
     forall now, IsFrozen t.2 now = flt now (o.1.2 + kFreezeWindowSec)) /\
  (t.1 = false -> forall now, IsFrozen t.2 now = IsFrozen s now) /\
  Forall (fun v => is_nan v = true \/ fle kVarianceFloor v = true) (residualVariance t.2).
Proof.
  pose proof (det_run_ok pre) as Hok. fold s in Hok.
  split; [|split; [|apply (det_floor _ _ (det_tick_ok _ s o Hok))]].
  all: destruct (Nat.lt_ge_cases (length pre) 4) as [Hlt|Hge];
    [destruct (det_tick_cold _ s o Hok Hlt) as (T1 & T2 & T3); fold t in T1, T2, T3|
     destruct o as [[[tr rot] nw] dt];
     destruct (det_tick_warm _ s tr rot nw dt Hok Hge) as (T1 & T2 & T3); fold t in T1, T2, T3].
  - congruence.
  - intros Hf. rewrite Hf in T1. symmetry in T1. rewrite T1 in T2, T3. apply andb_true_iff in T1 as [Hv Hm].
    split_and!; [|exact Hm|exact T2|intros now; unfold IsFrozen; by rewrite T3].
    apply Z.leb_le in Hv. pose proof (det_varcount _ _ Hok). lia.
  - intros _ now. unfold IsFrozen. by rewrite T3.
  - intros Hf now. rewrite <-T1, Hf in T3. unfold IsFrozen. by rewrite T3.
Qed.

(** *** A residual that is not a number *)

Lemma deaf_step n s o i v :
  det_ok n s -> 4 <= n -> residualVariance s !! i = Some v -> is_nan v = true ->
  (det_tick s o).1 = false /\ exists v', residualVariance (det_tick s o).2 !! i = Some v' /\ is_nan v' = true.
Proof.
  intros Hok Hn Hi Hv. destruct o as [[[t r] now] dt].
  destruct (det_tick_warm n s t r now dt Hok Hn) as (T1 & T2 & _).
  assert (i < 6) as Hlt by (rewrite <-(det_var n s Hok); by eapply lookup_lt_Some).
  destruct (lookup_lt_is_Some_2 (residual s t r now) i) as [x Hx]; [by rewrite residual_length|].
  unfold fgt in T1. change (SFltb ?a ?b) with (flt a b) in T1.
  rewrite (flt_nan_r kChiSquare6DoF_p1e4) in T1 by (eapply mahalanobis_nan; [exact Hx|exact Hi|by right]).
  rewrite andb_false_r in T1. split; [done|].
  rewrite T2. unfold fgt. change (SFltb ?a ?b) with (flt a b).
  rewrite (flt_nan_r kChiSquare6DoF_p1e4) by (eapply mahalanobis_nan; [exact Hx|exact Hi|by right]).
  rewrite andb_false_r. exists (update_variance (alpha_of dt) v x).
  rewrite lookup_zip_with_Some. split; [by exists v, x|]. apply update_variance_nan. by left.
Qed.

Lemma deaf_run os n s i v :
  det_ok n s -> 4 <= n -> residualVariance s !! i = Some v -> is_nan v = true ->
  (det_run s os).1 = replicate (length os) false.
Proof.
  revert n s v. induction os as [|o os IH]; intros n s v Hok Hn Hi Hv; [done|]. cbn [det_run].
  destruct (deaf_step n s o i v Hok Hn Hi Hv) as (H1 & v' & H2 & H3).
  pose proof (det_tick_ok n s o Hok) as Hok'.
  destruct (det_tick s o) as [f s1]. cbn [fst snd] in *. subst f.
  specialize (IH (S n) s1 v' Hok' ltac:(lia) H2 H3). destruct (det_run s1 os) as [fs s2]. cbn in *. by rewrite IH.
Qed.

(** One headset position that is not a number disarms the re-anchor
    detector for good: from the fifth observation on such a tick raises no
    candidate, its residual makes the variance not a number, and no later
    observation, however far it jumps, is ever a candidate again. *)
Theorem reanchor_disarmed pre bad later
  (v_sub_x : forall a b, v_x (v_sub a b) = v_x a - v_x b)
  (Hpre : 4 <= length pre) (Hbad : is_nan (v_x bad.1.1.1) = true) :
  (det_run det_init (pre ++ bad :: later)).1 =
  (det_run det_init pre).1 ++ replicate (length (bad :: later)) false.
Proof.
  rewrite det_run_app. cbn [fst]. f_equal.
  pose proof (det_run_ok pre) as Hok. set (s := (det_run det_init pre).2) in *. clearbody s.
  destruct bad as [[[t r] now] dt]. cbn [fst] in Hbad.
  assert (exists x, residual s t r now !! 0 = Some x /\ is_nan x = true) as (x & Hx & Hn).
  { unfold residual. destruct (latest_of (live_history s)) as [[? ?] ?]. cbn. eexists. split; [done|].
    rewrite v_sub_x. by apply d_sub_nan_l. }
  destruct (lookup_lt_is_Some_2 (residualVariance s) 0) as [v Hv]; [rewrite (det_var _ s Hok); lia|].
  destruct (det_tick_warm _ s t r now dt Hok Hpre) as (T1 & T2 & _).
  unfold fgt in T1, T2. change (SFltb ?a ?b) with (flt a b) in T1, T2.
  rewrite (flt_nan_r kChiSquare6DoF_p1e4), andb_false_r in T1, T2
    by (eapply mahalanobis_nan; [exact Hx|exact Hv|by left]).
  pose proof (det_tick_ok _ s (t, r, now, dt) Hok) as Hok'.
  cbn [det_run length replicate]. destruct (det_tick s (t, r, now, dt)) as [f s1]. cbn [fst snd] in *. subst f.
  pose proof (deaf_run later (S (length pre)) s1 0 (update_variance (alpha_of dt) v x) Hok' ltac:(lia)) as Hd.
  destruct (det_run s1 later) as [fs s2]. cbn [fst] in *. rewrite Hd; [done| |].
  - rewrite T2, lookup_zip_with_Some. by exists v, x.
  - apply update_variance_nan. by right.
Qed.
End ReanchorProps.

(** ** The ring of recovery events *)

Section RecoveryProps.
Context `{Eigen} `{EigenMore} `{Libm}.

Definition push_all (l : list (Vector3d * double)) : Buffer :=
  foldl (fun b '(d, t) => Push b d t) buf_init l.

(** The ring holds exactly the last six events, each at its index modulo six. *)
Lemma push_all_ring l :
  count (push_all l) = length l /\ length (events (push_all l)) = kBufferSize /\
  forall j d t, l !! j = Some (d, t) -> length l <= j + kBufferSize ->
    events (push_all l) !! (j mod kBufferSize) = Some (recovery_event d t).
Proof.
  induction l as [|[d t] l (I1 & I2 & I3)] using rev_ind; [split_and!; try done|].
  unfold push_all in *. rewrite foldl_snoc. set (b := foldl _ buf_init l) in *. clearbody b.
  unfold Push. cbn [count events]. rewrite length_app, length_insert, I1. cbn [length].
  split_and!; [lia|done|]. intros j d' t' Hj Hl.
  assert (kBufferSize = 6) as E6 by done.
  apply lookup_app_Some in Hj as [Hj|[Hge Hj]].
  - pose proof (lookup_lt_Some _ _ _ Hj). rewrite list_lookup_insert_ne; [apply I3; [done|lia]|].
    rewrite E6. rewrite E6 in Hl. intros Heq.
    pose proof (Nat.div_mod_eq (length l) 6). pose proof (Nat.div_mod_eq j 6). lia.
  - apply list_lookup_singleton_Some in Hj as [Hj0 [= -> ->]]. assert (j = length l) as -> by lia.
    rewrite list_lookup_insert_eq; [done|]. rewrite I2. apply Nat.mod_upper_bound. done.
Qed.

(** The predictive correction moves the calibration only when it is on, the
    profile valid, no one-shot calibration running, and at least three events
    have been seen; and its tick never touches the ring otherwise than by
    clearing it when the feature is off. *)
Lemma predictive_gates enabled valid st now p :
  v_norm v_zero = fzero ->
  pr_calibratedTranslation (TickPredictiveRecovery enabled valid st now p) <> pr_calibratedTranslation p ->
  enabled = true /\ valid = true /\ st <> StBegin /\ st <> StRotation /\ st <> StTranslation /\
  kMinEvents <= count (pr_buffer p) /\ pr_buffer (TickPredictiveRecovery enabled valid st now p) = pr_buffer p.
Proof.
  intros Hz. unfold TickPredictiveRecovery. destruct enabled, valid; try done. cbn [negb].
  case_bool_decide as Hst; [done|]. cbv zeta.
  set (dt := if fgt _ _ then _ else _). clearbody dt. cbn [pr_buffer upd].
  set (step := ComputePerTickNudge (pr_buffer p) now dt kPredictiveRateCapMps).
  assert (fle (v_norm step) fzero = false -> kMinEvents <= count (pr_buffer p)) as Hmin.
  { unfold step, ComputePerTickNudge, PredictNext. cbv zeta.
    destruct (Nat.ltb_spec (LiveCount (pr_buffer p)) kMinEvents) as [Hlt|Hge]; [by rewrite Hz|].
    intros _. unfold LiveCount in Hge. lia. }
  clearbody step. destruct (fle (v_norm step) fzero) eqn:E; [done|]. intros _.
  split_and!; try done; [..|by apply Hmin]; intros ->; apply Hst; auto.
Qed.
End RecoveryProps.

(** ** Robust scale *)

Close Scope fl_scope.

Lemma pair_distances_length xs : length (pair_distances xs) = length xs * (length xs - 1) / 2.
Proof.
  induction xs as [|x xs IH]; [done|]. cbn [pair_distances length].
  rewrite length_app, length_map, IH.
  replace (S (length xs) * (S (length xs) - 1)) with (length xs * (length xs - 1) + length xs * 2)
    by (destruct (length xs) as [|m]; [done|]; cbn [Nat.sub]; rewrite ?Nat.sub_0_r; lia).
  rewrite Nat.div_add by done. lia.
Qed.

(** Up to the cap, the order statistic is always in range. *)
Lemma Qn_total xs : length xs <= kQnInputCap -> is_Some (Qn xs).
Proof.
  intros Hc. unfold Qn. destruct (Nat.ltb_spec (length xs) 2) as [|H2]; [by eexists|].
  rewrite (proj2 (Nat.ltb_ge _ _) Hc). cbn [mbind option_bind]. cbv zeta.
  set (n := length xs) in *. set (k := ((n / 2 + 1) * (n / 2 + 1 - 1) / 2)%nat).
  assert (0 < n * (n - 1) / 2) as Hp.
  { apply Nat.div_str_pos. split; [lia|]. nia. }
  match goal with |- context [if ?c then (k - 1)%nat else ?e] => set (idx := if c then (k - 1)%nat else e) end.
  assert (idx < n * (n - 1) / 2) as Hi.
  { unfold idx. destruct (_ && _)%bool eqn:E; [|lia]. apply andb_true_iff in E as [_ E].
    by apply Nat.ltb_lt in E. }
  assert (is_Some (merge_sort d_le (pair_distances xs) !! idx)) as [q Hq]; [|rewrite Hq; by eexists].
  apply lookup_lt_is_Some_2. rewrite (Permutation_length (merge_sort_Permutation d_le _)).
  by rewrite pair_distances_length.
Qed.

(** ** Witnesses *)

Open Scope fl_scope.

#[export] Instance eigen_more_sample : EigenMore := {|
  v_div a k := V3 (v_x a / k) (v_y a / k) (v_z a / k);
  v_dot a b := v_x a * v_x b + v_y a * v_y b + v_z a * v_z b;
  v_normalized a := a;
  q_conjugate q := Q4 (q_w q) (SFopp (q_x q)) (SFopp (q_y q)) (SFopp (q_z q)) |}.

Definition still (n : nat) : list observation :=
  map (fun k => (V3 fzero fzero fzero, q_identity, d_of_Z (Z.of_nat k), d_of_Z 1)) (seq 0 n).

(** A headset at rest for twenty-five seconds jumps by ten metres. *)
Definition jump : observation := (V3 (d_of_Z 10) fzero fzero, q_identity, d_of_Z 25, d_of_Z 1).

Lemma reanchor_candidate_witness :
  (det_tick (H := eigen_sample) (det_run (H := eigen_sample) det_init (still 25)).2 jump).1 = true /\
  24 <= length (still 25).
Proof.
  pose proof (reanchor_candidate (H := eigen_sample) (still 25) jump) as [Hc _].
  assert ((det_tick (H := eigen_sample) (det_run (H := eigen_sample) det_init (still 25)).2 jump).1 = true) as Hf
    by (vm_compute; reflexivity).
  split; [exact Hf|]. by destruct (Hc Hf).
Defined.

(** The same jump behind one position that is not a number. *)
Lemma reanchor_disarmed_witness :
  (det_run (H := eigen_sample) det_init
    (still 24 ++ (V3 S754_nan fzero fzero, q_identity, d_of_Z 24, d_of_Z 1) :: [jump])).1 =
  (det_run (H := eigen_sample) det_init (still 24)).1 ++ [false; false].
Proof.
  apply (reanchor_disarmed (H := eigen_sample) (still 24)
    (V3 S754_nan fzero fzero, q_identity, d_of_Z 24, d_of_Z 1) [jump]); [done|vm_compute; lia|done].
Defined.
