(* ===== verification/InputStats.v ===== *)
(** * Input-health statistics (core/src/common/inputhealth,
      modules/inputhealth/src/driver)

    The streaming statistics of one input component: the Page-Hinkley drift
    test, the Welford accumulator, the decaying rolling minimum and the polar
    histogram of a stick, the record that holds them and the two observers that
    feed it on the hook's path. *)

From S2P Require Import Prelude Floats InputConfig.
Open Scope fl_scope.

(** ** PageHinkley.h *)

Record PageHinkleyState := mkPH {
  ph_mean : double; ph_pos : double; ph_neg : double;
  ph_initialized : bool; triggered : bool; triggered_positive : bool }.

#[export] Instance ph_settable : Settable PageHinkleyState := fun s =>
  mkPH (ph_mean s) (ph_pos s) (ph_neg s) (ph_initialized s) (triggered s) (triggered_positive s).

Record PageHinkleyParams := mkPHP {
  ph_alpha : double; ph_delta : double; ph_lambda : double; one_sided_positive : bool }.

Definition ph_init : PageHinkleyState := mkPH fzero fzero fzero false false false.

Definition PageHinkleyUpdate (s : PageHinkleyState) (p : PageHinkleyParams) (x : double) : bool * PageHinkleyState :=
  let s :=
    if negb (ph_initialized s) then s <| ph_mean := x |> <| ph_initialized := true |>
    else s <| ph_mean := (d_one - ph_alpha p) * ph_mean s + ph_alpha p * x |> in
  let dev := x - ph_mean s in
  let s := s <| ph_pos := std_max fzero (ph_pos s + (dev - ph_delta p)) |> in
  let s := if negb (one_sided_positive p)
           then s <| ph_neg := std_max fzero (ph_neg s - (dev + ph_delta p)) |> else s in
  if negb (triggered s) then
    if fgt (ph_pos s) (ph_lambda p) then
      (true, s <| triggered := true |> <| triggered_positive := true |>)
    else if negb (one_sided_positive p) && fgt (ph_neg s) (ph_lambda p) then
      (true, s <| triggered := true |> <| triggered_positive := false |>)
    else (false, s)
  else (false, s).

Definition PageHinkleyReset (s : PageHinkleyState) : PageHinkleyState := ph_init.

(** ** WelfordAccumulator.h *)

Record WelfordState := mkWelford { w_count : Z; w_mean : double; w_m2 : double }.

Definition welford_init : WelfordState := mkWelford 0 fzero fzero.

Definition WelfordUpdate (s : WelfordState) (x : double) : WelfordState :=
  let count := u64 (w_count s + 1) in
  let delta := x - w_mean s in
  let mean := w_mean s + delta / d_of_Z count in
  let delta2 := x - mean in
  mkWelford count mean (w_m2 s + delta * delta2).

Definition PopulationVariance (s : WelfordState) : double :=
  if (w_count s =? 0)%Z then fzero else w_m2 s / d_of_Z (w_count s).

Definition SampleVariance (s : WelfordState) : double :=
  if (w_count s <? 2)%Z then fzero else w_m2 s / d_of_Z (w_count s - 1).

Definition PopulationStdDev (s : WelfordState) : double := d_sqrt (PopulationVariance s).

Definition SampleStdDev (s : WelfordState) : double := d_sqrt (SampleVariance s).

Definition WelfordReset (s : WelfordState) : WelfordState := welford_init.

(** ** EWMARollingMin.h *)

Record EWMARollingMinState := mkMin { min_value : double; min_initialized : bool }.

Definition min_init : EWMARollingMinState := mkMin fzero false.

Definition EWMARollingMinUpdate (s : EWMARollingMinState) (x decay : double) : EWMARollingMinState :=
  let decay := if decay <? fzero then fzero else decay in
  let decay := if fgt decay d_one then d_one else decay in
  if negb (min_initialized s) then mkMin x true
  else if x <? min_value s then mkMin x true
  else mkMin ((d_one - decay) * min_value s + decay * x) true.

Definition EWMARollingMinReset (s : EWMARollingMinState) : EWMARollingMinState := min_init.

Definition EWMARollingMinValue (s : EWMARollingMinState) : double :=
  if min_initialized s then min_value s else fzero.

(** ** PolarHistogram.h *)

Definition kBinCount : nat := 36.
Definition kPerBinCap : Z := 256.
Definition kPerBinMinForConfidence : Z := 16.
Definition kTwoPi : double := d_lit 884279719003555 140737488355328.
Definition kBinWidthRad : double := kTwoPi / d_of_Z 36.

Record PolarBin := mkBin { max_r : float; bin_count : Z; last_update_us : Z }.

Definition bin_zero : PolarBin := mkBin fzero 0 0.

Record PolarHistogramState := mkPolar { bins : list PolarBin; global_max_r : float }.

Definition polar_init : PolarHistogramState := mkPolar (replicate kBinCount bin_zero) fzero.

Definition PolarHistogramReset (s : PolarHistogramState) : PolarHistogramState := polar_init.

Definition PolarBinConfidence (b : PolarBin) : float :=
  if (bin_count b =? 0)%Z then fzero else
  let c := f_div (f_of_Z (bin_count b)) (f_of_Z kPerBinMinForConfidence) in
  if fgt c f_one then f_one else c.

(** One sample of radius [rf] in a bin. *)
Definition bin_update (b : PolarBin) (rf : float) (timestamp_us : Z) (saturated_decay : double) : PolarBin :=
  let '(m, c) :=
    if (bin_count b <? kPerBinCap)%Z then
      (if fgt rf (max_r b) then rf else max_r b, (bin_count b + 1)%Z)
    else
      let decay := f_of_d saturated_decay in
      let decay := if decay <? fzero then fzero else decay in
      let decay := if fgt decay f_one then f_one else decay in
      let blended := f_add (f_mul (f_sub f_one decay) (max_r b)) (f_mul decay rf) in
      (if fgt rf (max_r b) then rf else blended, bin_count b) in
  mkBin m c timestamp_us.

Section Stats.
Context `{Libm}.

Definition EwmaAlphaForHalfLife (dt_seconds tau_seconds : double) : double :=
  if fle tau_seconds fzero || fle dt_seconds fzero then d_one
  else d_one - m_exp (SFopp dt_seconds / tau_seconds).

(** [None]: the conversion of the quotient to [int] is undefined. *)
Definition PolarBinIndexForAngle (theta_rad : double) : option nat :=
  let t := m_fmod theta_rad kTwoPi in
  let t := if t <? fzero then t + kTwoPi else t in
  idx ← trunc_to_Z (t / kBinWidthRad);
  if bool_decide (- 2 ^ 31 <= idx < 2 ^ 31)%Z then
    let idx := if (idx <? 0)%Z then 0%Z else idx in
    let idx := if (Z.of_nat kBinCount <=? idx)%Z then (Z.of_nat kBinCount - 1)%Z else idx in
    Some (Z.to_nat idx)
  else None.

Definition PolarHistogramUpdate (s : PolarHistogramState) (x y : double) (timestamp_us : Z)
    (saturated_decay : double) : option PolarHistogramState :=
  let r := m_hypot x y in
  let theta := m_atan2 y x in
  bin ← PolarBinIndexForAngle theta;
  b ← bins s !! bin;
  let b := bin_update b (f_of_d r) timestamp_us saturated_decay in
  Some (mkPolar (<[bin := b]> (bins s)) (if fgt (max_r b) (global_max_r s) then max_r b else global_max_r s)).

(** ** PerComponentStats.h *)

Inductive AxisRole := Unpaired | StickX | StickY.

#[export] Instance AxisRole_eqdec : EqDecision AxisRole.
Proof. solve_decision. Defined.

Record ComponentStats := mkStats {
  path : list byte; is_scalar : bool; is_boolean : bool;
  container_handle : Z; serial_hash : Z; last_serial_resolve_attempt_us : Z;
  welford : WelfordState; scalar_range_initialized : bool; observed_min : float; observed_max : float;
  ph_drift : PageHinkleyState; rest_min : EWMARollingMinState;
  last_value : float; st_last_update_us : Z; axis_role : AxisRole; partner_handle : Z;
  polar : PolarHistogramState;
  press_count : Z; last_boolean : bool; pending_state : bool; last_committed_us : Z }.

#[export] Instance stats_settable : Settable ComponentStats := fun s =>
  mkStats (path s) (is_scalar s) (is_boolean s) (container_handle s) (serial_hash s)
    (last_serial_resolve_attempt_us s) (welford s) (scalar_range_initialized s) (observed_min s)
    (observed_max s) (ph_drift s) (rest_min s) (last_value s) (st_last_update_us s) (axis_role s)
    (partner_handle s) (polar s) (press_count s) (last_boolean s) (pending_state s) (last_committed_us s).

Definition k_ulInvalidPropertyContainer : Z := 0.

Definition stats_init : ComponentStats :=
  mkStats [] false false k_ulInvalidPropertyContainer 0 0 welford_init false fzero fzero ph_init min_init
    fzero 0 Unpaired 0 polar_init 0 false false 0.

Definition ComponentStatsResetPassive (s : ComponentStats) : ComponentStats :=
  s <| welford := welford_init |> <| ph_drift := ph_init |> <| rest_min := min_init |>
    <| polar := polar_init |> <| scalar_range_initialized := false |>
    <| observed_min := fzero |> <| observed_max := fzero |> <| last_value := fzero |>
    <| st_last_update_us := 0%Z |> <| press_count := 0%Z |> <| last_boolean := false |>
    <| pending_state := false |> <| last_committed_us := 0%Z |>.

(** The role of a path and its stem. *)
Definition ClassifyAxisRole (p : list byte) : AxisRole * list byte :=
  if (length p <? 2)%nat then (Unpaired, p) else
  match drop (length p - 2)%nat p with
  | [a; b] =>
    if bool_decide (a = "/"%byte) then
      if bool_decide (b = "x"%byte \/ b = "X"%byte) then (StickX, take (length p - 2)%nat p)
      else if bool_decide (b = "y"%byte \/ b = "Y"%byte) then (StickY, take (length p - 2)%nat p)
      else (Unpaired, p)
    else (Unpaired, p)
  | _ => (Unpaired, p)
  end.

(** ** InputHealthObservation.cpp *)

Definition DefaultDriftParams : PageHinkleyParams :=
  mkPHP (d_lit 1 10000) (d_lit 2 1000) (d_lit 5 100) false.

Definition kRestMinDecay : double := d_lit 32 1000000000.
Definition kRestThreshold : float := f_lit 1 10.

Definition ObserveBooleanSample (s : ComponentStats) (newValue : bool) : ComponentStats :=
  if Bool.eqb newValue (pending_state s) then s
  else (if newValue then s <| press_count ::= fun n => u64 (n + 1) |> else s) <| pending_state := newValue |>.

(** The component and its partner (a different component of the same map), after
    one sample. *)
Definition ObserveScalarSample (s : ComponentStats) (newValue : float) (nowUs : Z)
    (partnerStats : option ComponentStats) : option (ComponentStats * option ComponentStats) :=
  let s := s <| welford ::= fun w => WelfordUpdate w (d_of_f newValue) |> in
  let s :=
    if negb (scalar_range_initialized s) then
      s <| scalar_range_initialized := true |> <| observed_min := newValue |> <| observed_max := newValue |>
    else
      let s := if flt newValue (observed_min s) then s <| observed_min := newValue |> else s in
      if fgt newValue (observed_max s) then s <| observed_max := newValue |> else s in
  let s := s <| ph_drift ::= fun p => (PageHinkleyUpdate p DefaultDriftParams (d_of_f newValue)).2 |> in
  let s :=
    if flt newValue kRestThreshold && fgt newValue (SFopp kRestThreshold)
    then s <| rest_min ::= fun m => EWMARollingMinUpdate m (d_of_f newValue) kRestMinDecay |> else s in
  '(s, partner) ←
    match axis_role s with
    | StickX =>
      let partner_y := match partnerStats with Some p => last_value p | None => fzero end in
      pl ← PolarHistogramUpdate (polar s) (d_of_f newValue) (d_of_f partner_y) nowUs kRestMinDecay;
      Some (s <| polar := pl |>, partnerStats)
    | StickY =>
      match partnerStats with
      | Some p =>
        if decide (axis_role p = StickX) then
          pl ← PolarHistogramUpdate (polar p) (d_of_f (last_value p)) (d_of_f newValue) nowUs kRestMinDecay;
          Some (s, Some (p <| polar := pl |>))
        else Some (s, partnerStats)
      | None => Some (s, None)
      end
    | Unpaired => Some (s, partnerStats)
    end;
  Some (s <| last_value := newValue |> <| st_last_update_us := nowUs |>, partner).
End Stats.

(** ** The drift test *)

Definition ph_run (p : PageHinkleyParams) (s : PageHinkleyState) (xs : list double) : PageHinkleyState :=
  foldl (fun s x => (PageHinkleyUpdate s p x).2) s xs.

Lemma std_max_zero x : fle fzero (std_max fzero x) = true.
Proof. unfold std_max. destruct (flt fzero x) eqn:E; [by apply flt_fle|done]. Qed.

Lemma std_max_zero_nan x : is_nan x = true -> std_max fzero x = fzero.
Proof. by destruct x. Qed.

(** The accumulators behind an update, and its mean. *)
Lemma ph_update_fields s p x :
  let s' := (PageHinkleyUpdate s p x).2 in
  ph_mean s' = (if ph_initialized s then (d_one - ph_alpha p) * ph_mean s + ph_alpha p * x else x) /\
  ph_initialized s' = true /\
  ph_pos s' = std_max fzero (ph_pos s + (x - ph_mean s' - ph_delta p)) /\
  ph_neg s' = (if one_sided_positive p then ph_neg s
               else std_max fzero (ph_neg s - (x - ph_mean s' + ph_delta p))) /\
  (PageHinkleyUpdate s p x).1 = negb (triggered s) && triggered s' /\
  (triggered s = true -> triggered s' = true) /\
  ((PageHinkleyUpdate s p x).1 = true -> fgt (ph_pos s') (ph_lambda p) = true \/
     one_sided_positive p = false /\ fgt (ph_neg s') (ph_lambda p) = true).
Proof.
  destruct s as [m a b [] [] tp]; unfold PageHinkleyUpdate; cbn -[std_max d_add d_sub d_mul fgt];
    destruct (one_sided_positive p); cbn -[std_max d_add d_sub d_mul fgt];
    repeat match goal with |- context [if fgt ?u ?v then _ else _] => destruct (fgt u v) eqn:? end;
    cbn -[std_max d_add d_sub d_mul fgt]; split_and!; try done; auto.
Qed.

(** Neither accumulator is negative or anything but a number. *)
Definition ph_ok (s : PageHinkleyState) : Prop := fle fzero (ph_pos s) = true /\ fle fzero (ph_neg s) = true.

Lemma ph_update_ok s p x : ph_ok s -> ph_ok (PageHinkleyUpdate s p x).2.
Proof.
  intros [_ Hn]. destruct (ph_update_fields s p x) as (_ & _ & Hp' & Hn' & _). split.
  - rewrite Hp'. apply std_max_zero.
  - rewrite Hn'. destruct (one_sided_positive p); [done|apply std_max_zero].
Qed.

(** The mean is not a number, and so is the test blind. *)
Definition ph_blind (s : PageHinkleyState) : Prop := ph_initialized s = true /\ is_nan (ph_mean s) = true.

Lemma ph_nan_blind s p x : is_nan x = true -> ph_blind (PageHinkleyUpdate s p x).2.
Proof.
  intros Hx. destruct (ph_update_fields s p x) as (Hm & Hi & _). split; [done|]. rewrite Hm.
  destruct (ph_initialized s); auto with wk.
Qed.

Lemma ph_blind_keep s p x : ph_blind s -> ph_blind (PageHinkleyUpdate s p x).2.
Proof.
  intros [Hi Hm]. destruct (ph_update_fields s p x) as (Hm' & Hi' & _). split; [done|].
  rewrite Hm', Hi. auto with wk.
Qed.

(** An update that leaves the test blind raises nothing. *)
Lemma ph_blind_quiet s p x :
  ph_blind (PageHinkleyUpdate s p x).2 -> fle fzero (ph_lambda p) = true -> one_sided_positive p = false ->
  (PageHinkleyUpdate s p x).1 = false.
Proof.
  intros [_ Hn] Hl Ho. destruct (ph_update_fields s p x) as (_ & _ & Hp' & Hn' & _ & _ & Hc).
  set (s' := (PageHinkleyUpdate s p x).2) in *.
  assert (ph_pos s' = fzero) as Hp0 by (rewrite Hp'; apply std_max_zero_nan; auto with wk).
  assert (ph_neg s' = fzero) as Hn0 by (rewrite Hn', Ho; apply std_max_zero_nan; auto 6 with wk).
  destruct (PageHinkleyUpdate s p x).1 eqn:E; [|done]. exfalso.
  assert (fgt fzero (ph_lambda p) = true -> False) as Hz.
  { intros Hz. pose proof (flt_asym (ph_lambda p) fzero Hz) as Ha. congruence. }
  destruct (Hc eq_refl) as [Hg|[_ Hg]]; apply Hz; congruence.
Qed.

Fixpoint ph_fires (p : PageHinkleyParams) (s : PageHinkleyState) (xs : list double) : list bool :=
  match xs with
  | [] => []
  | x :: xs => let '(f, s) := PageHinkleyUpdate s p x in f :: ph_fires p s xs
  end.

Lemma ph_fires_cons p s x xs :
  ph_fires p s (x :: xs) = (PageHinkleyUpdate s p x).1 :: ph_fires p (PageHinkleyUpdate s p x).2 xs.
Proof. cbn. by destruct (PageHinkleyUpdate s p x). Qed.

Lemma ph_fires_app p s xs ys : ph_fires p s (xs ++ ys) = ph_fires p s xs ++ ph_fires p (ph_run p s xs) ys.
Proof.
  revert s. induction xs as [|x xs IH]; intros s; [done|]. cbn [app]. rewrite !ph_fires_cons, IH. done.
Qed.

Lemma ph_latched p s xs : triggered s = true -> ph_fires p s xs = replicate (length xs) false.
Proof.
  revert s. induction xs as [|x xs IH]; intros s Ht; [done|]. rewrite ph_fires_cons.
  destruct (ph_update_fields s p x) as (_ & _ & _ & _ & Hf & Hk & _). rewrite Hf, Ht, IH by auto. done.
Qed.

Lemma ph_fires_once p s xs : length (filter (fun f => f = true) (ph_fires p s xs)) <= 1.
Proof.
  revert s. induction xs as [|x xs IH]; intros s; [cbn; lia|]. rewrite ph_fires_cons, filter_cons.
  destruct (ph_update_fields s p x) as (_ & _ & _ & _ & Hf & _). case_decide as E; [|apply IH].
  rewrite E in Hf. symmetry in Hf. apply andb_true_iff in Hf as [_ Ht].
  rewrite ph_latched by done. cbn [length].
  assert (forall n, filter (fun f => f = true) (replicate n false) = []) as ->; [|done].
  induction n as [|n IHn]; [done|]. cbn [replicate]. by rewrite filter_cons_False.
Qed.

Lemma ph_blind_run p s xs :
  ph_blind s -> fle fzero (ph_lambda p) = true -> one_sided_positive p = false ->
  ph_fires p s xs = replicate (length xs) false.
Proof.
  revert s. induction xs as [|x xs IH]; intros s Hb Hl Ho; [done|]. rewrite ph_fires_cons.
  rewrite ph_blind_quiet, IH by auto using ph_blind_keep. done.
Qed.

(** From a reset on, the drift test's accumulators are always numbers and
    never negative, whatever the samples; it reports at most one change until
    it is reset again; and one sample that is not a number silences it for
    good, as its running mean then never becomes a number again. *)
Theorem page_hinkley p xs
  (Hl : fle fzero (ph_lambda p) = true) (Ho : one_sided_positive p = false) :
  fle fzero (ph_pos (ph_run p ph_init xs)) = true /\ fle fzero (ph_neg (ph_run p ph_init xs)) = true /\
  length (filter (fun f => f = true) (ph_fires p ph_init xs)) <= 1 /\
  forall pre x post, xs = pre ++ x :: post -> is_nan x = true ->
    ph_fires p ph_init xs = ph_fires p ph_init pre ++ replicate (length (x :: post)) false.
Proof.
  assert (ph_ok (ph_run p ph_init xs)) as [Hp Hn].
  { clear Hl Ho. induction xs as [|x xs IH] using rev_ind; [by split|].
    unfold ph_run. rewrite foldl_snoc. by apply ph_update_ok. }
  split_and!; [done|done|apply ph_fires_once|].
  intros pre x post -> Hx. rewrite ph_fires_app, ph_fires_cons. f_equal.
  pose proof (ph_nan_blind (ph_run p ph_init pre) p x Hx) as Hb.
  rewrite ph_blind_quiet, ph_blind_run by done. done.
Qed.

(** The default parameters: two samples a quarter apart, then not a number. *)
Lemma page_hinkley_witness :
  ph_fires DefaultDriftParams ph_init [fzero; d_lit 1 4; S754_nan; d_of_Z 1] = [false; true; false; false].
Proof.
  destruct (page_hinkley DefaultDriftParams [fzero; d_lit 1 4; S754_nan; d_of_Z 1]) as (_ & _ & _ & H);
    [by vm_compute|done|].
  rewrite (H [fzero; d_lit 1 4] S754_nan [d_of_Z 1] eq_refl eq_refl). vm_compute. reflexivity.
Defined.

(** ** The polar histogram *)

Record polar_ok (s : PolarHistogramState) : Prop := {
  polar_len : length (bins s) = kBinCount;
  polar_global : is_nan (global_max_r s) = false;
  polar_bins : Forall (fun b => (0 <= bin_count b <= kPerBinCap)%Z /\
    (is_nan (max_r b) = true \/ fle (max_r b) (global_max_r s) = true)) (bins s) }.

Lemma polar_init_ok : polar_ok polar_init.
Proof.
  split; [done|done|]. apply Forall_replicate. split; [unfold bin_zero, kPerBinCap; cbn; lia|by right].
Qed.

Lemma bin_update_count b rf t d :
  (0 <= bin_count b <= kPerBinCap)%Z -> (0 <= bin_count (bin_update b rf t d) <= kPerBinCap)%Z.
Proof.
  unfold bin_update. destruct (Z.ltb_spec (bin_count b) kPerBinCap); cbn; lia.
Qed.

Section Polar.
Context `{Libm}.

Lemma bin_index_bound theta i : PolarBinIndexForAngle theta = Some i -> i < kBinCount.
Proof.
  unfold PolarBinIndexForAngle. intros Hi. apply bind_Some in Hi as (z & _ & Hi).
  case_bool_decide; [|done]. injection Hi as <-. unfold kBinCount.
  cbv zeta. destruct (Z.ltb_spec z 0) as [Hz|Hz]; [vm_compute; lia|].
  destruct (Z.leb_spec (Z.of_nat 36) z); lia.
Qed.

(** Every sample, of any value, lands in one of the thirty-six bins or in
    none at all (when its angle has no bin, an undefined conversion); bin counts
    saturate at 256, and the global radius, always a number, bounds every bin's
    radius that is one. *)
Theorem polar_histogram (samples : list (double * double * Z * double)) s :
  foldl (fun s '(x, y, t, d) => s ← s; PolarHistogramUpdate s x y t d) (Some polar_init) samples = Some s ->
  length (bins s) = kBinCount /\ is_nan (global_max_r s) = false /\
  Forall (fun b => (0 <= bin_count b <= 256)%Z /\
    (is_nan (max_r b) = true \/ fle (max_r b) (global_max_r s) = true)) (bins s) /\
  forall x y t d, PolarHistogramUpdate s x y t d = None <-> PolarBinIndexForAngle (m_atan2 y x) = None.
Proof.
  intros Hs. assert (polar_ok s) as [P1 P2 P3].
  { revert s Hs. induction samples as [|[[[x y] t] d] samples IH] using rev_ind; intros s Hs.
    { injection Hs as <-. apply polar_init_ok. }
    rewrite foldl_snoc in Hs. apply bind_Some in Hs as (s0 & H0 & Hs). specialize (IH s0 H0).
    destruct IH as [P1 P2 P3]. unfold PolarHistogramUpdate in Hs.
    apply bind_Some in Hs as (i & Hi & Hs). apply bind_Some in Hs as (b & Hb & Hs). injection Hs as <-.
    set (b' := bin_update b _ t d). pose proof (proj1 (Forall_lookup _ _) P3 i b Hb) as [Hc _].
    split; cbn.
    - by rewrite length_insert.
    - destruct (fgt (max_r b') (global_max_r s0)) eqn:E; [|done]. by destruct (flt_not_nan _ _ E).
    - assert (is_nan (max_r b') = true \/ fle (max_r b')
        (if fgt (max_r b') (global_max_r s0) then max_r b' else global_max_r s0) = true) as Hnew.
      { destruct (is_nan (max_r b')) eqn:En; [by left|right].
        destruct (fgt (max_r b') (global_max_r s0)) eqn:E; [by apply fle_refl|].
        by apply flt_false_fle. }
      apply Forall_insert; [|split; [by apply bin_update_count|done]].
      eapply list.Forall_impl; [exact P3|]. intros b0 [H1 [H2|H2]]; (split; [done|]); [by left|right].
      destruct (fgt (max_r b') (global_max_r s0)) eqn:E; [|done].
      eapply fle_trans; [exact H2|]. by apply flt_fle. }
  split_and!; try done. intros x y t d. unfold PolarHistogramUpdate.
  destruct (PolarBinIndexForAngle (m_atan2 y x)) as [i|] eqn:Ei; [|by split]. cbn.
  destruct (lookup_lt_is_Some_2 (bins s) i) as [b ->]; [rewrite P1; by eapply bin_index_bound|].
  by split.
Qed.
End Polar.

Definition libm_sample : Libm := {|
  m_exp x := d_one; m_log x := fzero; m_sin x := x; m_cos x := d_one; m_atan2 y x := SFabs y;
  m_hypot x y := SFabs x; m_fmod x y := x |}.

Lemma polar_histogram_witness :
  exists s, PolarHistogramUpdate (H := libm_sample) polar_init (d_of_Z 1) (d_of_Z 2) 5 fzero = Some s /\
    length (bins s) = kBinCount.
Proof.
  assert (is_Some (PolarHistogramUpdate (H := libm_sample) polar_init (d_of_Z 1) (d_of_Z 2) 5 fzero)) as [s Hs]
    by (vm_compute; by eexists).
  exists s. split; [done|].
  by destruct (polar_histogram (H := libm_sample) [(d_of_Z 1, d_of_Z 2, 5%Z, fzero)] s Hs) as [Hl _].
Defined.
