(* ===== verification/InputHealth.v ===== *)
(** * Input health on the driver (modules/inputhealth/src/driver)

    The component registry, the detours of the boolean and scalar updates with
    the learned compensation they apply, the reset request with its three
    passes, and the publisher that copies the components to the shared segment.
    A stretch under [g_componentMutex] is one step.  The property system's
    answers and the iteration order of the hash map are arguments. *)

From S2P Require Import Prelude Floats InputConfig Shmem InputStats.
Open Scope fl_scope.

Abbreviation Components := (gmap Z ComponentStats).

(** ** InputHealthComponentRegistry.cpp *)

Section Registry.
(** The serial number the property system has for a container, if any. *)
Context (serial_of : Z -> option (list byte)).

Definition ResolveSerialHash (container : Z) : Z :=
  if (container =? k_ulInvalidPropertyContainer)%Z then 0%Z else
  match serial_of container with
  | Some serial => if (length serial =? 0)%nat then 0%Z else Fnv1a64 serial
  | None => 0%Z
  end.

Definition RegisterBooleanComponent (handle container : Z) (p : list byte) (m : Components) : Components :=
  let s := default stats_init (m !! handle) in
  <[handle := s <| path := p |> <| is_boolean := true |> <| is_scalar := false |>
                <| container_handle := container |> <| serial_hash := ResolveSerialHash container |>]> m.

Definition is_partner (stem : list byte) (want : AxisRole) (container : Z) (peer : ComponentStats) : bool :=
  is_scalar peer && bool_decide (axis_role peer = want) && (container_handle peer =? container)%Z &&
  bool_decide ((ClassifyAxisRole (path peer)).2 = stem).

(** [order]: the handles in the order the map is walked. *)
Definition FindStickPartner_locked (order : list Z) (stem : list byte) (this_role : AxisRole) (container : Z)
    (m : Components) : Z :=
  let want := match this_role with StickX => StickY | _ => StickX end in
  default 0%Z (head (filter (fun h => match m !! h with Some peer => is_partner stem want container peer | None => false end = true) order)).

Definition RegisterScalarComponent (order : list Z) (handle container : Z) (p : list byte) (m : Components) : Components :=
  let '(role, stem) := ClassifyAxisRole p in
  let s := default stats_init (m !! handle) in
  let s := s <| path := p |> <| is_boolean := false |> <| is_scalar := true |> <| axis_role := role |>
             <| partner_handle := 0%Z |> <| container_handle := container |>
             <| serial_hash := ResolveSerialHash container |> in
  let m := <[handle := s]> m in
  if bool_decide (role = StickX \/ role = StickY) then
    let partner := FindStickPartner_locked order stem role container m in
    if negb (partner =? 0)%Z then
      alter (fun q => q <| partner_handle := handle |>) partner
        (alter (fun q => q <| partner_handle := partner |>) handle m)
    else m
  else m.
End Registry.

(** ** InputHealthCompensation.cpp *)

Definition ClampFloat (value lo hi : float) : float := std_max lo (std_min value hi).

Definition InputHealthCompScalarSingle : Z := 0.
Definition InputHealthCompStickX : Z := 1.
Definition InputHealthCompStickY : Z := 2.
Definition InputHealthCompBoolean : Z := 3.

Definition is_stick_kind (k : Z) : bool := (k =? InputHealthCompStickX)%Z || (k =? InputHealthCompStickY)%Z.

(** [partner]: its last value and its path. *)
Definition ApplyScalarCompensation (comps : CompStore) (entry : InputHealthCompensationEntry) (stats : ComponentStats)
    (rawValue : float) (partner : option (float * list byte)) : float :=
  let isStick := is_stick_kind (comp_kind entry) in
  if IsTriggerLikePath (path stats) then
    if fgt (learned_trigger_min entry) fzero || fgt (learned_trigger_max entry) fzero then
      let maxValue := if fgt (learned_trigger_max entry) fzero then learned_trigger_max entry else f_one in
      let range := std_max (f_lit 1 1000) (f_sub maxValue (learned_trigger_min entry)) in
      let remapped := f_div (f_sub rawValue (learned_trigger_min entry)) range in
      ClampFloat remapped fzero f_one
    else ClampFloat rawValue fzero f_one
  else
    let value := f_sub rawValue (learned_rest_offset entry) in
    let value :=
      if isStick && fgt (learned_deadzone_radius entry) fzero then
        let radius :=
          match partner with
          | Some (partnerValue, partnerPath) =>
            let radialPartner :=
              if negb (serial_hash stats =? 0)%Z && negb (length partnerPath =? 0)%nat then
                match LookupInputHealthCompensation (serial_hash stats) partnerPath comps with
                | Some partnerEntry => f_sub partnerValue (learned_rest_offset partnerEntry)
                | None => partnerValue
                end
              else partnerValue in
            f_sqrt (f_add (f_mul value value) (f_mul radialPartner radialPartner))
          | None => SFabs value
          end in
        if flt radius (learned_deadzone_radius entry) then fzero else value
      else value in
    if isStick then ClampFloat value (SFopp f_one) f_one else value.

Definition ShouldSwallowBooleanUpdate (stats : ComponentStats) (entry : InputHealthCompensationEntry)
    (newValue : bool) (nowUs : Z) : bool :=
  (comp_kind entry =? InputHealthCompBoolean)%Z && negb (learned_debounce_us entry =? 0)%Z &&
  negb (Bool.eqb newValue (last_boolean stats)) && negb (last_committed_us stats =? 0)%Z &&
  (u64 (nowUs - last_committed_us stats) <? learned_debounce_us entry)%Z.

(** ** The detours (InputHealthHookInjector.cpp) *)

Section Detours.
Context `{Libm} (serial_of : Z -> option (list byte)).

(** What the detours read besides the components: the driver, if set, its
    configuration and its compensation store. *)
Record DetourEnv := mkEnv { g_driver : bool; cfg : InputHealthConfig; comps : CompStore }.

(** The retry of the serial, at most once a second. *)
Definition late_resolve (now_us : Z) (s : ComponentStats) : ComponentStats :=
  if (serial_hash s =? 0)%Z && (1000000 <? u64 (now_us - last_serial_resolve_attempt_us s))%Z then
    s <| last_serial_resolve_attempt_us := now_us |>
      <| serial_hash := ResolveSerialHash serial_of (container_handle s) |>
  else s.

(** The component behind one boolean update, and whether the update is swallowed. *)
Definition boolean_update (e : DetourEnv) (bNewValue : bool) (now_us : Z) (s : ComponentStats) : bool * ComponentStats :=
  let s := ObserveBooleanSample s bNewValue in
  let '(swallow, s) :=
    if negb (ihc_diagnostics_only (cfg e)) then
      let s := late_resolve now_us s in
      (if negb (serial_hash s =? 0)%Z then
         match LookupInputHealthCompensation (serial_hash s) (path s) (comps e) with
         | Some entry => ShouldSwallowBooleanUpdate s entry bNewValue now_us
         | None => false
         end
       else false, s)
    else (false, s) in
  let s := if negb swallow && negb (Bool.eqb bNewValue (last_boolean s))
           then s <| last_boolean := bNewValue |> <| last_committed_us := now_us |> else s in
  (swallow, s <| st_last_update_us := now_us |>).

(** The value handed on to the runtime, if any. *)
Definition DetourUpdateBooleanComponent (e : DetourEnv) (handle : Z) (bNewValue : bool) (now_us : Z) (m : Components)
    : option bool * Components :=
  if g_driver e && ihc_master_enabled (cfg e) then
    match m !! handle with
    | Some s =>
      let '(swallow, s) := boolean_update e bNewValue now_us s in
      (if swallow then None else Some bNewValue, <[handle := s]> m)
    | None => (Some bNewValue, m)
    end
  else (Some bNewValue, m).

(** Whether the compensation of [s] is on, and the entry it uses. *)
Definition scalar_entry (e : DetourEnv) (s : ComponentStats) : option InputHealthCompensationEntry :=
  if negb (ihc_diagnostics_only (cfg e)) && negb (serial_hash s =? 0)%Z then
    entry ← LookupInputHealthCompensation (serial_hash s) (path s) (comps e);
    let isStick := bool_decide (axis_role s = StickX \/ axis_role s = StickY) in
    if (comp_kind entry =? InputHealthCompBoolean)%Z then None
    else if isStick && negb (ihc_enable_rest_recenter (cfg e)) then None
    else if negb isStick && negb (ihc_enable_trigger_remap (cfg e)) then None
    else Some entry
  else None.

(** [None]: the undefined conversion of the polar histogram. *)
Definition DetourUpdateScalarComponent (e : DetourEnv) (handle : Z) (fNewValue : float) (now_us : Z) (m : Components)
    : option (float * Components) :=
  if g_driver e && ihc_master_enabled (cfg e) then
    match m !! handle with
    | Some s =>
      '(s, partner) ← ObserveScalarSample s fNewValue now_us (m !! partner_handle s);
      let s := if negb (ihc_diagnostics_only (cfg e)) then late_resolve now_us s else s in
      let out := match scalar_entry e s with
                 | Some entry => ApplyScalarCompensation (comps e) entry s fNewValue
                                   ((fun q => (last_value q, path q)) <$> partner)
                 | None => fNewValue
                 end in
      let m := match partner with Some q => <[partner_handle s := q]> m | None => m end in
      Some (out, <[handle := s]> m)
    | None => Some (fNewValue, m)
    end
  else Some (fNewValue, m).

(** The result of the runtime's own call, and the handle it stored. *)
Definition DetourCreateBooleanComponent (ok : bool) (handle container : Z) (name : option (list byte)) (m : Components)
    : Components :=
  match name with
  | Some p => if ok && negb (handle =? 0)%Z then RegisterBooleanComponent serial_of handle container p m else m
  | None => m
  end.

Definition DetourCreateScalarComponent (ok : bool) (order : list Z) (handle container : Z) (name : option (list byte))
    (m : Components) : Components :=
  match name with
  | Some p => if ok && negb (handle =? 0)%Z then RegisterScalarComponent serial_of order handle container p m else m
  | None => m
  end.
End Detours.

(** The driver pointer, if any, and the components. *)
Definition InputHealthInit (driver : bool) (m : Components) : bool * Components := (driver, ∅).
Definition InputHealthShutdown (st : bool * Components) : bool * Components := (false, ∅).

(** ** Reset (InputHealthSnapshotStaging.cpp) *)

Record ResetRequest := mkReset {
  rq_serial_hash : Z; reset_passive : bool; reset_active : bool; reset_curves : bool }.

(** Pass 1, under the mutex: handle, container, cached hash. *)
Definition reset_snapshot (m : Components) : list (Z * (Z * Z)) :=
  (fun '(h, s) => (h, (container_handle s, serial_hash s))) <$> map_to_list m.

(** Pass 2, without it. *)
Definition reset_resolve (serial_of : Z -> option (list byte)) (snap : list (Z * (Z * Z))) : list (Z * Z) :=
  (fun '(h, (container, hash)) =>
     (h, if negb (hash =? 0)%Z then hash else ResolveSerialHash serial_of container)) <$> snap.

Definition reset_one (req : ResetRequest) (hash : Z) (s : ComponentStats) : ComponentStats :=
  let s := if negb (hash =? 0)%Z && (serial_hash s =? 0)%Z then s <| serial_hash := hash |> else s in
  if negb (rq_serial_hash req =? kSerialHashAllDevices)%Z && negb (serial_hash s =? rq_serial_hash req)%Z then s
  else if reset_passive req then ComponentStatsResetPassive s else s.

(** Pass 3, on the map as it is when the mutex is taken again. *)
Definition reset_apply (req : ResetRequest) (snap : list (Z * Z)) (m : Components) : Components :=
  foldl (fun m '(h, hash) => alter (reset_one req hash) h m) m snap.

Definition reset_store (driver : bool) (req : ResetRequest) (c : CompStore) : CompStore :=
  if reset_curves req && driver then ClearInputHealthCompensation (rq_serial_hash req) c else c.

(** ** Staging *)

Record SnapshotBody := mkBody {
  sb_handle : Z; sb_container : Z; sb_serial_hash : Z; sb_partner : Z; sb_path : list byte;
  sb_is_scalar : bool; sb_is_boolean : bool; sb_axis_role : AxisRole;
  sb_ph : PageHinkleyState; sb_rest_min : EWMARollingMinState; sb_last_boolean : bool;
  sb_welford : WelfordState; sb_last_value : float; sb_last_update_us : Z; sb_press_count : Z;
  sb_range : bool * float * float; sb_polar : list PolarBin; sb_polar_global : float }.

Definition wire_path (p : list byte) : list byte :=
  let plen := Nat.min (length p) (INPUTHEALTH_PATH_LEN - 1) in
  take plen p ++ replicate (INPUTHEALTH_PATH_LEN - plen) x00.

Definition FillSnapshotBody (handle : Z) (s : ComponentStats) : SnapshotBody :=
  mkBody handle (container_handle s) (serial_hash s) (partner_handle s) (wire_path (path s))
    (is_scalar s) (is_boolean s) (axis_role s) (ph_drift s) (rest_min s) (last_boolean s)
    (welford s) (last_value s) (st_last_update_us s) (press_count s)
    (scalar_range_initialized s, observed_min s, observed_max s) (take kBinCount (bins (polar s)))
    (global_max_r (polar s)).

Definition StageSnapshots (m : Components) : list (Z * SnapshotBody) :=
  (fun '(h, s) => (h, FillSnapshotBody h s)) <$> map_to_list m.

(** ** InputHealthSnapshotPublisher.cpp *)

Section Publisher.
Context {B : Type}.

Record SnapshotPublisherState := mkPub {
  g_running : bool; g_shmem : option (InputHealthShmem B);
  g_handleToSlot : gmap Z nat; g_nextFreeSlot : nat }.

#[export] Instance pub_settable : Settable SnapshotPublisherState := fun p =>
  mkPub (g_running p) (g_shmem p) (g_handleToSlot p) (g_nextFreeSlot p).

Definition publish_rec (p : SnapshotPublisherState) (rec : Z * B) : SnapshotPublisherState :=
  match g_handleToSlot p !! rec.1 with
  | Some slot => p <| g_shmem ::= WriteSlot slot rec.2 |>
  | None =>
    if (INPUTHEALTH_SLOT_COUNT <=? g_nextFreeSlot p)%nat then p
    else p <| g_shmem ::= WriteSlot (g_nextFreeSlot p) rec.2 |>
           <| g_handleToSlot ::= <[rec.1 := g_nextFreeSlot p]> |> <| g_nextFreeSlot ::= S |>
  end.

Definition PublishOneTick (staged : list (Z * B)) (p : SnapshotPublisherState) : SnapshotPublisherState :=
  (foldl publish_rec p staged) <| g_shmem ::= BumpPublishTick |>.

(** [mapped]: the mapping [Create] obtains. *)
Definition SnapshotPublisherInit (mapped : option (InputHealthShmem B)) (p : SnapshotPublisherState) : SnapshotPublisherState :=
  if g_running p then p else
  match IH_Create mapped with
  | Some d => mkPub true (Some d) ∅ 0
  | None => p
  end.

Definition SnapshotPublisherShutdown (p : SnapshotPublisherState) : SnapshotPublisherState :=
  if negb (g_running p) then p else mkPub false None ∅ 0.
End Publisher.
Arguments SnapshotPublisherState : clear implicits.

(** ** Compensation *)

(** Whatever the value, not a number included. *)
Lemma ClampFloat_bounds v lo hi :
  fle lo hi = true -> fle lo (ClampFloat v lo hi) = true /\ fle (ClampFloat v lo hi) hi = true.
Proof. intros H. by destruct (max_min_bounds v lo hi H). Qed.

Lemma compensation_bounds c entry s raw partner :
  (IsTriggerLikePath (path s) = true ->
     fle fzero (ApplyScalarCompensation c entry s raw partner) = true /\
     fle (ApplyScalarCompensation c entry s raw partner) f_one = true) /\
  (IsTriggerLikePath (path s) = false -> is_stick_kind (comp_kind entry) = true ->
     fle (SFopp f_one) (ApplyScalarCompensation c entry s raw partner) = true /\
     fle (ApplyScalarCompensation c entry s raw partner) f_one = true).
Proof.
  unfold ApplyScalarCompensation. split.
  - intros ->. case_match; by apply ClampFloat_bounds.
  - intros -> ->. by apply ClampFloat_bounds.
Qed.

Section DetourProps.
Context `{Libm} (serial_of : Z -> option (list byte)).

(** *** The scalar detour *)

Lemma observe_keeps s v t partner s' p' :
  ObserveScalarSample s v t partner = Some (s', p') ->
  path s' = path s /\ serial_hash s' = serial_hash s /\ axis_role s' = axis_role s /\
  partner_handle s' = partner_handle s /\ container_handle s' = container_handle s /\
  last_serial_resolve_attempt_us s' = last_serial_resolve_attempt_us s /\
  (last_value <$> p') = last_value <$> partner /\ (path <$> p') = path <$> partner.
Proof.
  unfold ObserveScalarSample. intros Hs.
  set (s1 := s <| welford ::= _ |>) in Hs.
  set (s2 := if negb (scalar_range_initialized s1) then _ else _) in Hs.
  set (s3 := s2 <| ph_drift ::= _ |>) in Hs.
  set (s4 := if flt v kRestThreshold && _ then _ else s3) in Hs.
  assert (path s4 = path s /\ serial_hash s4 = serial_hash s /\ axis_role s4 = axis_role s /\
    partner_handle s4 = partner_handle s /\ container_handle s4 = container_handle s /\
    last_serial_resolve_attempt_us s4 = last_serial_resolve_attempt_us s) as (E1 & E2 & E3 & E4 & E5 & E6).
  { unfold s4, s3, s2, s1. by repeat case_match. }
  clearbody s4. apply bind_Some in Hs as ([s5 p5] & Hs & [= <- <-]). cbn.
  assert (path s5 = path s4 /\ serial_hash s5 = serial_hash s4 /\ axis_role s5 = axis_role s4 /\
    partner_handle s5 = partner_handle s4 /\ container_handle s5 = container_handle s4 /\
    last_serial_resolve_attempt_us s5 = last_serial_resolve_attempt_us s4 /\
    (last_value <$> p5) = last_value <$> partner /\ (path <$> p5) = path <$> partner)
    as (F1 & F2 & F3 & F4 & F5 & F6 & F7 & F8).
  { destruct (axis_role s4) eqn:Er.
    - by injection Hs as <- <-.
    - apply bind_Some in Hs as (pl & _ & [= <- <-]). by rewrite <-Er.
    - destruct partner as [q|]; [|by injection Hs as <- <-]. case_decide; [|by injection Hs as <- <-].
      apply bind_Some in Hs as (pl & _ & [= <- <-]). by rewrite <-Er. }
  rewrite F1, F2, F3, F4, F5, F6. by split_and!.
Qed.

(** The scalar detour hands on the raw value untouched unless input health is
    on, not diagnosing only, the component's serial known, an enabled entry of a
    scalar kind stored for its path and the gate for its role open; whatever the
    raw value, the entry and the partner, a compensated trigger is then in
    [0, 1] and a compensated stick in [-1, 1]; and no other component than the
    updated one and its stick partner changes. *)
Theorem scalar_detour e handle v now m out m'
  (Hd : DetourUpdateScalarComponent serial_of e handle v now m = Some (out, m')) :
  (out = v \/
   exists s entry, m !! handle = Some s /\ g_driver e = true /\ ihc_master_enabled (cfg e) = true /\
     ihc_diagnostics_only (cfg e) = false /\
     comp_kind entry <> InputHealthCompBoolean /\ comp_enabled entry <> 0%Z /\
     (if decide (axis_role s = Unpaired) then ihc_enable_trigger_remap (cfg e) = true
      else ihc_enable_rest_recenter (cfg e) = true) /\
     (IsTriggerLikePath (path s) = true -> fle fzero out = true /\ fle out f_one = true) /\
     (IsTriggerLikePath (path s) = false -> is_stick_kind (comp_kind entry) = true ->
        fle (SFopp f_one) out = true /\ fle out f_one = true)) /\
  forall h, h <> handle -> (forall s, m !! handle = Some s -> partner_handle s <> h) -> m' !! h = m !! h.
Proof.
  unfold DetourUpdateScalarComponent in Hd.
  destruct (g_driver e && ihc_master_enabled (cfg e)) eqn:Eon; [|injection Hd as <- <-; auto].
  destruct (m !! handle) as [s|] eqn:Es; [|injection Hd as <- <-; auto].
  apply bind_Some in Hd as ([s1 p1] & Ho & Hd). injection Hd as <- <-.
  destruct (observe_keeps _ _ _ _ _ _ Ho) as (O1 & O2 & O3 & O4 & O5 & O6 & O7 & O8).
  set (s2 := if negb (ihc_diagnostics_only (cfg e)) then late_resolve serial_of now s1 else s1).
  assert (path s2 = path s /\ axis_role s2 = axis_role s /\ partner_handle s2 = partner_handle s) as (R1 & R2 & R3).
  { unfold s2, late_resolve. rewrite <-O1, <-O3, <-O4. by repeat case_match. }
  clearbody s2. split.
  - destruct (scalar_entry e s2) as [entry|] eqn:Ee; [right|by left].
    apply andb_true_iff in Eon as [Eg Em]. unfold scalar_entry in Ee.
    destruct (ihc_diagnostics_only (cfg e)) eqn:Ed; [done|]. cbn [negb andb] in Ee.
    destruct (serial_hash s2 =? 0)%Z eqn:Esh; [done|]. cbn [negb] in Ee.
    apply bind_Some in Ee as (en & El & Ee). cbv zeta in Ee.
    destruct (Z.eqb_spec (comp_kind en) InputHealthCompBoolean) as [|Hk]; [done|].
    exists s, en. rewrite R2 in Ee.
    assert (comp_enabled en <> 0%Z) as Hen.
    { unfold LookupInputHealthCompensation in El. destruct (_ || _); [done|].
      apply bind_Some in El as (inner & _ & El). apply bind_Some in El as (out & _ & El).
      destruct (Z.eqb_spec (comp_enabled out) 0); [done|]. by injection El as <-. }
    assert (entry = en /\ (if decide (axis_role s = Unpaired) then ihc_enable_trigger_remap (cfg e) = true
      else ihc_enable_rest_recenter (cfg e) = true)) as [-> Hgate].
    { case_bool_decide as Hst; cbn [negb andb] in Ee.
      - rewrite decide_False by (destruct Hst; congruence).
        destruct (ihc_enable_rest_recenter (cfg e)); [by injection Ee as <-|done].
      - rewrite decide_True by (destruct (axis_role s); [done|destruct Hst; auto..]).
        destruct (ihc_enable_trigger_remap (cfg e)); [by injection Ee as <-|done]. }
    pose proof (compensation_bounds (comps e) en s2 v ((fun q => (last_value q, path q)) <$> p1)) as Hb.
    rewrite R1 in Hb. split_and!; try done; apply Hb.
  - intros h Hh Hp. rewrite lookup_insert_ne by congruence. destruct p1; [|done].
    rewrite lookup_insert_ne; [done|]. rewrite R3. by apply Hp.
Qed.
End DetourProps.

(** ** The boolean debounce *)

Section Debounce.
Context (serial_of : Z -> option (list byte)) (e : DetourEnv) (handle : Z).

(** The component after a run of updates, with what was handed on at each time. *)
Fixpoint bool_run (tr : list (Z * bool)) (m : Components) : list (Z * option bool) * Components :=
  match tr with
  | [] => ([], m)
  | (t, v) :: tr =>
    let '(o, m) := DetourUpdateBooleanComponent serial_of e handle v t m in
    let '(os, m) := bool_run tr m in ((t, o) :: os, m)
  end.

(** The value downstream, and the times at which it changes. *)
Definition downstream (d : bool) (os : list (Z * option bool)) : bool := foldl (fun d o => default d o.2) d os.

Fixpoint edges (d : bool) (os : list (Z * option bool)) : list Z :=
  match os with
  | [] => []
  | (t, Some v) :: os => if Bool.eqb v d then edges d os else t :: edges v os
  | (_, None) :: os => edges d os
  end.

Fixpoint rising (p : bool) (tr : list (Z * bool)) : Z :=
  match tr with
  | [] => 0
  | (_, v) :: tr => (if v && negb p then 1 else 0) + rising v tr
  end%Z.

(** Each edge at least [d] after the one before it, if that is not at zero. *)
Fixpoint spaced (d prev : Z) (ts : list Z) : Prop :=
  match ts with
  | [] => True
  | t :: ts => (prev = 0 \/ prev + d <= t)%Z /\ spaced d t ts
  end.

(** Times on the clock, not going back. *)
Fixpoint clocked (prev : Z) (tr : list (Z * bool)) : Prop :=
  match tr with
  | [] => True
  | (t, _) :: tr => (prev <= t < 2 ^ 64)%Z /\ clocked t tr
  end.

(** The component is debounced by [entry]. *)
Record debounced (entry : InputHealthCompensationEntry) (s : ComponentStats) : Prop := {
  db_on : g_driver e = true /\ ihc_master_enabled (cfg e) = true /\ ihc_diagnostics_only (cfg e) = false;
  db_hash : serial_hash s <> 0%Z;
  db_entry : LookupInputHealthCompensation (serial_hash s) (path s) (comps e) = Some entry;
  db_kind : comp_kind entry = InputHealthCompBoolean;
  db_debounce : (0 < learned_debounce_us entry)%Z }.

Definition swallows (entry : InputHealthCompensationEntry) (v : bool) (t : Z) (s : ComponentStats) : bool :=
  negb (Bool.eqb v (last_boolean s)) && negb (last_committed_us s =? 0)%Z &&
  (t - last_committed_us s <? learned_debounce_us entry)%Z.

Lemma observe_boolean_fields s v :
  let s' := ObserveBooleanSample s v in
  path s' = path s /\ serial_hash s' = serial_hash s /\ last_boolean s' = last_boolean s /\
  last_committed_us s' = last_committed_us s /\ pending_state s' = v /\
  press_count s' = (if v && negb (pending_state s) then u64 (press_count s + 1) else press_count s).
Proof. unfold ObserveBooleanSample. by destruct v, (pending_state s) eqn:E; cbn; rewrite ?E. Qed.

Lemma boolean_update_step entry s v t :
  debounced entry s -> (last_committed_us s <= t < 2 ^ 64)%Z -> (0 <= last_committed_us s)%Z ->
  let '(sw, s') := boolean_update serial_of e v t s in
  sw = swallows entry v t s /\ debounced entry s' /\
  last_boolean s' = (if sw then last_boolean s else v) /\
  last_committed_us s' = (if negb sw && negb (Bool.eqb v (last_boolean s)) then t else last_committed_us s) /\
  pending_state s' = v /\
  press_count s' = (if v && negb (pending_state s) then u64 (press_count s + 1) else press_count s).
Proof.
  intros [(Hg & Hm & Hd) Hh He Hk Hb] Ht H0. unfold boolean_update.
  destruct (observe_boolean_fields s v) as (E1 & E2 & E3 & E4 & E5 & E6).
  set (s1 := ObserveBooleanSample s v) in *. clearbody s1. rewrite Hd. cbn [negb].
  assert (late_resolve serial_of t s1 = s1) as ->.
  { unfold late_resolve. rewrite E2. destruct (Z.eqb_spec (serial_hash s) 0); [done|]. done. }
  rewrite E1, E2. destruct (Z.eqb_spec (serial_hash s) 0) as [|_]; [done|]. cbn [negb].
  rewrite He.
  assert (ShouldSwallowBooleanUpdate s1 entry v t = swallows entry v t s) as ->.
  { unfold ShouldSwallowBooleanUpdate, swallows. rewrite Hk, E3, E4, Z.eqb_refl.
    destruct (Z.eqb_spec (learned_debounce_us entry) 0); [lia|]. cbn [negb andb].
    unfold u64. rewrite Z.mod_small by lia. done. }
  assert (forall s', path s' = path s -> serial_hash s' = serial_hash s -> debounced entry s') as Hdb.
  { intros s' Hp Hs. constructor; rewrite ?Hp, ?Hs; auto. }
  destruct (swallows entry v t s) eqn:Es; cbn [negb andb]; rewrite ?E3.
  { split_and!; try done. by apply Hdb. }
  destruct (Bool.eqb v (last_boolean s)) eqn:Ev; cbn [negb].
  - split_and!; try done; [by apply Hdb|]. cbn. rewrite E3. symmetry. by apply eqb_prop.
  - split_and!; try done. by apply Hdb.
Qed.

Lemma last_cons_default {A} (x d : A) l : default d (list.last (x :: l)) = default x (list.last l).
Proof. rewrite last_cons. by destruct (list.last l). Qed.

(** C38: Behind a debounce of [d] microseconds, whatever the presses and the
    clock: two changes of the value handed to the runtime are never less than
    [d] apart, the record of the value handed on is the value handed on, the
    press counter counts every raw press, the swallowed ones too, and after the
    last update the runtime has its value, unless it came within [d] of the last
    change: then it is lost until the component is updated again. *)
Theorem boolean_debounce entry s m tr
  (Hs : m !! handle = Some s) (Hdb : debounced entry s)
  (Ht : clocked (last_committed_us s) tr) (H0 : (0 <= last_committed_us s)%Z)
  (Hp : (0 <= press_count s < 2 ^ 64)%Z) :
  let '(os, m') := bool_run tr m in
  exists s', m' !! handle = Some s' /\
    downstream (last_boolean s) os = last_boolean s' /\
    spaced (learned_debounce_us entry) (last_committed_us s) (edges (last_boolean s) os) /\
    press_count s' = u64 (press_count s + rising (pending_state s) tr) /\
    forall t v, list.last tr = Some (t, v) ->
      let c := default (last_committed_us s) (list.last (edges (last_boolean s) os)) in
      if decide (c <> 0 /\ t < c + learned_debounce_us entry)%Z then True else last_boolean s' = v.
Proof.
  revert s m Hs Hdb Ht H0 Hp. induction tr as [|[t v] tr IH]; intros s m Hs Hdb Ht H0 Hp.
  { exists s. cbn. split_and!; try done. rewrite Z.add_0_r. unfold u64. by rewrite Z.mod_small. }
  destruct Ht as [Ht Htr]. cbn [bool_run].
  pose proof (boolean_update_step entry s v t Hdb Ht H0) as Hst.
  unfold DetourUpdateBooleanComponent. destruct (db_on _ _ Hdb) as (-> & -> & _). cbn [andb]. rewrite Hs.
  destruct (boolean_update serial_of e v t s) as [sw s1].
  destruct Hst as (Hsw & Hdb1 & Hl & Hc & Hpe & Hpr).
  assert ((0 <= press_count s1 < 2 ^ 64)%Z) as Hp1.
  { rewrite Hpr. case_match; [|done]. unfold u64. apply Z.mod_pos_bound. lia. }
  assert (last_committed_us s1 <= t /\ 0 <= last_committed_us s1)%Z as [Hc1 Hc2] by (rewrite Hc; destruct (negb sw && _); lia).
  assert (clocked (last_committed_us s1) tr) as Hk.
  { destruct tr as [|[t' v'] tr]; [done|]. destruct Htr. split; [lia|done]. }
  specialize (IH s1 (<[handle := s1]> m) ltac:(apply lookup_insert_eq) Hdb1 Hk Hc2 Hp1).
  destruct (bool_run tr (<[handle := s1]> m)) as [os m'] eqn:Er.
  assert (tr = [] -> os = []) as Hnil by (intros ->; by injection Er as <- <-).
  destruct IH as (s' & Hm' & Hd & Hspc & Hcnt & Hlast). exists s'. rewrite Hpe in Hcnt.
  assert (press_count s' = u64 (press_count s + rising (pending_state s) ((t, v) :: tr))) as Hcnt'.
  { rewrite Hcnt, Hpr. cbn [rising]. destruct (v && negb (pending_state s)); [|done].
    unfold u64. rewrite Zplus_mod_idemp_l. f_equal. lia. }
  pose proof (db_debounce _ _ Hdb) as Hpos. unfold swallows in Hsw.
  assert (forall c, c = default (last_committed_us s1) (list.last (edges (last_boolean s1) os)) ->
    (tr = [] -> if decide (last_committed_us s1 <> 0 /\ t < last_committed_us s1 + learned_debounce_us entry)%Z
                then True else last_boolean s1 = v) ->
    forall t' v', list.last ((t, v) :: tr) = Some (t', v') ->
      if decide (c <> 0 /\ t' < c + learned_debounce_us entry)%Z then True else last_boolean s' = v') as Hfin.
  { intros c -> Hb t' v' Hla. destruct tr as [|y tr]; [|by apply Hlast].
    injection Hla as <- <-. rewrite (Hnil eq_refl) in *. cbn in Hd |- *. rewrite <-Hd. by apply Hb. }
  unfold downstream in *. cbn [foldl default edges snd].
  destruct sw; symmetry in Hsw; cbn [negb andb] in *.
  - (* swallowed *)
    rewrite Hl in Hd, Hspc. rewrite Hc in Hspc. split_and!; try done. apply Hfin; [by rewrite Hl, Hc|].
    intros _. rewrite decide_True; [done|]. rewrite Hc.
    apply andb_true_iff in Hsw as [Hsw ?%Z.ltb_lt]. apply andb_true_iff in Hsw as [_ Hsw].
    destruct (Z.eqb_spec (last_committed_us s) 0); [done|]. lia.
  - (* handed on *)
    rewrite Hl in Hd, Hspc. cbn [default].
    pose proof Hl as Hv.
    destruct (Bool.eqb v (last_boolean s)) eqn:Ev; cbn [negb] in *.
    + apply eqb_prop in Ev. rewrite Hc in Hspc. rewrite <-Ev.
      split_and!; try done. apply Hfin; [by rewrite Hl, Hc|intros _; by case_decide].
    + cbn [spaced]. split_and!; try done; [|by rewrite <-Hc|].
      * destruct (Z.eqb_spec (last_committed_us s) 0); [by left|right]. cbn in Hsw.
        apply Z.ltb_ge in Hsw. lia.
      * rewrite last_cons_default. apply Hfin; [by rewrite Hl, Hc|intros _; by case_decide].
Qed.
End Debounce.

(** ** Reset *)

Lemma foldl_alter_spec {A} (f : Z -> A -> A) (l : list (Z * Z)) (m : gmap Z A) (g : gmap Z Z) h :
  NoDup l.*1 -> (forall x, (h, x) ∈ l <-> g !! h = Some x) ->
  foldl (fun m '(h, x) => alter (f x) h m) m l !! h =
    a ← m !! h; Some (match g !! h with Some x => f x a | None => a end).
Proof.
  revert m g. induction l as [|[h0 x0] l IH]; intros m g Hnd Hg; cbn.
  - destruct (g !! h) as [x|]; [|by destruct (m !! h)].
    pose proof (proj2 (Hg x) eq_refl) as E. by apply elem_of_nil in E.
  - apply list.NoDup_cons in Hnd as [Hn Hnd]. destruct (decide (h0 = h)) as [->|Hne].
    + rewrite (IH _ (delete h g) Hnd).
      * rewrite lookup_delete_eq, lookup_alter_eq. rewrite (proj1 (Hg x0)) by left. by destruct (m !! h).
      * intros x. rewrite lookup_delete_eq. split; [|done]. intros Hin. destruct Hn. by apply (list_elem_of_fmap_2 fst _ (h, x)).
    + rewrite (IH _ g Hnd).
      * by rewrite lookup_alter_ne.
      * intros x. rewrite <-Hg, elem_of_cons. split; [auto|]. intros [[= -> ->]|]; done.
Qed.

(** The hash a snapshotted component ends up with. *)
Definition resolved (serial_of : Z -> option (list byte)) (s : ComponentStats) : Z :=
  if (serial_hash s =? 0)%Z then ResolveSerialHash serial_of (container_handle s) else serial_hash s.

(** The reset, which gives up the lock to resolve serials, resets of the
    components as they are when it takes the lock again exactly those that were
    there at the start and whose hash, its own or else the one resolved in
    between, is the requested one (or all were requested); a hash the component
    found itself is never overwritten, a component registered meanwhile is not
    touched, and one that is gone is not brought back. *)
Theorem reset_spec serial_of req (m1 m3 : Components) h :
  reset_apply req (reset_resolve serial_of (reset_snapshot m1)) m3 !! h =
    s3 ← m3 !! h;
    Some (match m1 !! h with
    | None => s3
    | Some s1 =>
      let hash := if decide (serial_hash s3 <> 0%Z) then serial_hash s3 else resolved serial_of s1 in
      let s := s3 <| serial_hash := hash |> in
      if decide ((rq_serial_hash req = kSerialHashAllDevices \/ hash = rq_serial_hash req) /\ reset_passive req = true)
      then ComponentStatsResetPassive s else s
    end).
Proof.
  unfold reset_apply. set (l := reset_resolve _ _).
  assert (l = prod_map id (resolved serial_of) <$> map_to_list m1) as El.
  { unfold l, reset_resolve, reset_snapshot. rewrite <-list_fmap_compose. apply list_fmap_ext.
    intros i [h' s] _. unfold compose, prod_map, resolved. cbn. by destruct (serial_hash s =? 0)%Z. }
  rewrite (foldl_alter_spec (reset_one req) l m3 (resolved serial_of <$> m1)).
  - destruct (m3 !! h) as [s3|]; [|done]. cbn. rewrite lookup_fmap.
    destruct (m1 !! h) as [s1|]; [|done]. cbn. f_equal. unfold reset_one.
    set (k := resolved serial_of s1).
    assert ((if negb (k =? 0)%Z && (serial_hash s3 =? 0)%Z then s3 <| serial_hash := k |> else s3) =
      s3 <| serial_hash := if decide (serial_hash s3 <> 0%Z) then serial_hash s3 else k |>) as ->.
    { destruct s3; cbn. case_decide as Hh; case_match eqn:Hb; try done; f_equal; cbn in *; lia. }
    cbn. set (hash := if decide _ then _ else _).
    destruct (Z.eqb_spec (rq_serial_hash req) kSerialHashAllDevices), (Z.eqb_spec hash (rq_serial_hash req)),
      (reset_passive req); cbn; case_decide as Hd; naive_solver.
  - rewrite El, <-list_fmap_compose. replace (fst ∘ prod_map id (resolved serial_of)) with (@fst Z ComponentStats) by done.
    apply NoDup_fst_map_to_list.
  - intros x. rewrite El, list_elem_of_fmap, lookup_fmap_Some. split.
    + intros ([h' s] & [= -> ->] & Hin). exists s. by apply elem_of_map_to_list in Hin.
    + intros (s & <- & Hin). exists (h, s). split; [done|]. by apply elem_of_map_to_list.
Qed.

(** ** The publisher *)

Section PublisherProps.
Context {B : Type}.
Implicit Types (p : SnapshotPublisherState B) (hist : list (Z * B)).

Definition last_of (h : Z) hist : option B := snd <$> list.last (filter (fun r => r.1 = h) hist).

(** [slots0]: the slots of the mapping as [Init] found it; [hist]: the records
    staged since. *)
Record pub_inv (slots0 : list (InputHealthSnapshotSlot B)) hist p : Prop := {
  pi_shmem : exists d, g_shmem p = Some d /\ ih_slot_count d = INPUTHEALTH_SLOT_COUNT /\
    length (ih_slots d) = INPUTHEALTH_SLOT_COUNT /\
    (forall i s, ih_slots d !! i = Some s -> exists s0, slots0 !! i = Some s0 /\
       Z.odd (ih_generation s) = Z.odd (ih_generation s0)) /\
    (forall h i, g_handleToSlot p !! h = Some i -> exists s, ih_slots d !! i = Some s /\
       last_of h hist = Some (ih_body s));
  pi_next : (g_nextFreeSlot p <= INPUTHEALTH_SLOT_COUNT)%nat /\ size (g_handleToSlot p) = g_nextFreeSlot p;
  pi_bound : forall h i, g_handleToSlot p !! h = Some i -> (i < g_nextFreeSlot p)%nat;
  pi_inj : forall h h' i, g_handleToSlot p !! h = Some i -> g_handleToSlot p !! h' = Some i -> h = h';
  pi_full : forall h b, (h, b) ∈ hist -> g_handleToSlot p !! h = None -> g_nextFreeSlot p = INPUTHEALTH_SLOT_COUNT }.

Lemma last_of_snoc h hist r : last_of h (hist ++ [r]) = if decide (r.1 = h) then Some r.2 else last_of h hist.
Proof.
  unfold last_of. rewrite list.filter_app, list.filter_cons, list.filter_nil. case_decide; cbn; [by rewrite last_snoc|by rewrite app_nil_r].
Qed.

Lemma odd_u64_step g : Z.odd (u64 (g + 2)) = Z.odd g.
Proof.
  unfold u64. rewrite <-!Z.bit0_odd, Z.mod_pow2_bits_low, !Z.bit0_odd by lia.
  by rewrite Z.odd_add, xorb_false_r.
Qed.

Lemma SlotForWrite_some i (d : InputHealthShmem B) :
  ih_slot_count d = INPUTHEALTH_SLOT_COUNT -> (i < INPUTHEALTH_SLOT_COUNT)%nat -> SlotForWrite i (Some d) = Some i.
Proof.
  intros Hc Hi. unfold SlotForWrite. cbn. rewrite Hc. by destruct (Nat.leb_spec INPUTHEALTH_SLOT_COUNT i); [lia|].
Qed.

Lemma WriteSlot_some i (b : B) (d : InputHealthShmem B) :
  ih_slot_count d = INPUTHEALTH_SLOT_COUNT -> (i < INPUTHEALTH_SLOT_COUNT)%nat ->
  WriteSlot i b (Some d) = Some (on_slot (write_slot b) i d).
Proof. intros Hc Hi. unfold WriteSlot. cbn [mbind option_bind]. by rewrite SlotForWrite_some. Qed.

(** A record written to slot [i], which is, or becomes, that of its handle and
    of no other. *)
Lemma pub_inv_write slots0 hist p (r : Z * B) i m' n' :
  pub_inv slots0 hist p ->
  (i < n' <= INPUTHEALTH_SLOT_COUNT)%nat -> size m' = n' ->
  m' = <[r.1 := i]> (g_handleToSlot p) ->
  (g_nextFreeSlot p <= n')%nat ->
  (forall h, h <> r.1 -> g_handleToSlot p !! h <> Some i) ->
  pub_inv slots0 (hist ++ [r]) (mkPub (g_running p) (WriteSlot i r.2 (g_shmem p)) m' n').
Proof.
  intros [(d & Hd & Hc & Hl & Hg & Hb) Hn Hbd Hinj Hf] Hi Hsz -> Hle Hother.
  constructor; cbn; [|lia|..].
  - rewrite Hd, WriteSlot_some by (done || lia). eexists. split; [done|]. cbn.
    split_and!; [done|by rewrite length_alter|..].
    + intros j s Hj. destruct (decide (j = i)) as [->|Hne].
      * rewrite list_lookup_alter_eq in Hj. apply fmap_Some in Hj as (s1 & H1 & ->). cbn.
        rewrite odd_u64_step. by apply Hg.
      * rewrite list_lookup_alter_ne in Hj by done. by apply Hg.
    + intros h j Hj. rewrite last_of_snoc. destruct (decide (r.1 = h)) as [<-|Hne].
      * rewrite lookup_insert_eq in Hj. injection Hj as <-. rewrite list_lookup_alter_eq.
        destruct (lookup_lt_is_Some_2 (ih_slots d) i) as [s ->]; [lia|]. by eexists.
      * rewrite lookup_insert_ne in Hj by done. rewrite list_lookup_alter_ne; [by apply Hb|].
        intros ->. by eapply Hother.
  - intros h j Hj. destruct (decide (r.1 = h)) as [<-|Hne].
    + rewrite lookup_insert_eq in Hj. injection Hj as <-. lia.
    + rewrite lookup_insert_ne in Hj by done. specialize (Hbd h j Hj). lia.
  - intros h h' j. destruct (decide (r.1 = h)) as [<-|H1], (decide (r.1 = h')) as [<-|H2];
      rewrite ?lookup_insert_eq, ?lookup_insert_ne by done; [done|..|by apply Hinj]; intros Ha Hb'.
    + injection Ha as <-. by destruct (Hother h').
    + injection Hb' as <-. by destruct (Hother h).
  - intros h b Hin Hno. destruct (decide (r.1 = h)) as [<-|Hne]; [by rewrite lookup_insert_eq in Hno|].
    rewrite lookup_insert_ne in Hno by done. apply elem_of_app in Hin as [Hin|Hin].
    + specialize (Hf h b Hin Hno). lia.
    + apply list_elem_of_singleton in Hin. by subst.
Qed.

Lemma publish_rec_inv slots0 hist p r : pub_inv slots0 hist p -> pub_inv slots0 (hist ++ [r]) (publish_rec p r).
Proof.
  intros Hp. pose proof Hp as [_ [Hn Hsz] Hbd Hinj Hf]. unfold publish_rec.
  destruct (g_handleToSlot p !! r.1) as [i|] eqn:Ei.
  - pose proof (pub_inv_write slots0 hist p r i (g_handleToSlot p) (g_nextFreeSlot p) Hp) as Hw.
    destruct p; cbn in *. apply Hw; [by specialize (Hbd _ _ Ei); lia|done|by rewrite insert_id|done|].
    intros h Hh Hh'. by destruct Hh; eapply Hinj.
  - destruct (Nat.leb_spec INPUTHEALTH_SLOT_COUNT (g_nextFreeSlot p)) as [Hge|Hlt].
    + destruct Hp as [(d & Hd & Hc & Hl & Hg & Hb) _ _ _ _]. constructor; try done.
      * exists d. split_and!; try done. intros h i Hi. rewrite last_of_snoc.
        rewrite decide_False; [by apply Hb|]. congruence.
      * intros. lia.
    + pose proof (pub_inv_write slots0 hist p r (g_nextFreeSlot p) (<[r.1 := g_nextFreeSlot p]> (g_handleToSlot p))
        (S (g_nextFreeSlot p)) Hp) as Hw.
      destruct p; cbn in *. apply Hw; [lia|by rewrite map_size_insert_None, Hsz|done|lia|].
      intros h _ Hh. specialize (Hbd _ _ Hh). lia.
Qed.

Lemma publish_recs_inv slots0 l hist p :
  pub_inv slots0 hist p -> pub_inv slots0 (hist ++ l) (foldl publish_rec p l).
Proof.
  revert hist p. induction l as [|r l IH]; intros hist p Hp; cbn; [by rewrite app_nil_r|].
  rewrite cons_middle, app_assoc. by apply IH, publish_rec_inv.
Qed.

Lemma PublishOneTick_inv slots0 staged hist p :
  pub_inv slots0 hist p -> pub_inv slots0 (hist ++ staged) (PublishOneTick staged p).
Proof.
  intros Hp%(publish_recs_inv _ staged). unfold PublishOneTick.
  set (q := foldl publish_rec p staged) in *. clearbody q.
  destruct Hp as [(d & Hd & Hrest) H1 H2 H3 H4]. constructor; try done. cbn. rewrite Hd. by eexists.
Qed.

Lemma ticks_inv slots0 ticks hist p :
  pub_inv slots0 hist p ->
  pub_inv slots0 (hist ++ concat ticks) (foldl (fun p st => PublishOneTick st p) p ticks).
Proof.
  revert hist p. induction ticks as [|st ticks IH]; intros hist p Hp; cbn; [by rewrite app_nil_r|].
  rewrite app_assoc. by apply IH, PublishOneTick_inv.
Qed.

Lemma publish_rec_stable p r h i : g_handleToSlot p !! h = Some i -> g_handleToSlot (publish_rec p r) !! h = Some i.
Proof.
  intros Hh. unfold publish_rec. destruct (g_handleToSlot p !! r.1) eqn:E; [done|]. case_match; [done|]. cbn.
  rewrite lookup_insert_ne; [done|]. congruence.
Qed.

Lemma recs_stable l p h i : g_handleToSlot p !! h = Some i -> g_handleToSlot (foldl publish_rec p l) !! h = Some i.
Proof. revert p. induction l as [|r l IH]; intros p Hh; cbn; [done|]. by apply IH, publish_rec_stable. Qed.

Lemma ticks_stable ticks p h i :
  g_handleToSlot p !! h = Some i ->
  g_handleToSlot (foldl (fun p st => PublishOneTick st p) p ticks) !! h = Some i.
Proof.
  revert p. induction ticks as [|st ticks IH]; intros p Hh; cbn; [done|]. apply IH. by apply recs_stable.
Qed.

Lemma WriteSlot_total i (b : B) (d : InputHealthShmem B) : exists d', WriteSlot i b (Some d) = Some d'.
Proof. unfold WriteSlot. cbn [mbind option_bind]. by destruct (SlotForWrite i (Some d)); eexists. Qed.

Lemma WriteSlot_copying_total i (b : B) (d : InputHealthShmem B) : exists d', WriteSlot_copying i b (Some d) = Some d'.
Proof. unfold WriteSlot_copying. cbn [mbind option_bind]. by destruct (SlotForWrite i (Some d)); eexists. Qed.

(** One attempt at slot [i], by the generations it meets. *)
Lemma TryReadSlot_cons i g1 g2 (t : attempt B) rest (d : InputHealthShmem B) :
  (i < ih_slot_count d)%nat -> generation_at i (at_first t) = Some g1 -> generation_at i (at_second t) = Some g2 ->
  TryReadSlot i (t :: rest) (Some d) =
    if negb (Z.odd g1) && (g1 =? g2)%Z then Some (at_copy t) else TryReadSlot i rest (Some d).
Proof.
  intros Hi H1 H2. cbn [TryReadSlot mbind option_bind].
  destruct (Nat.leb_spec (ih_slot_count d) i); [lia|]. rewrite H1. cbn [mbind option_bind].
  destruct (Z.odd g1); [done|]. by rewrite H2.
Qed.

Lemma odd_u64_mark g : Z.odd (u64 (g + 1)) = negb (Z.odd g).
Proof. by rewrite u64_odd, Z.odd_add. Qed.

Lemma u64_step_ne g : (g =? u64 (g + 2))%Z = false.
Proof.
  apply Z.eqb_neq. unfold u64. intros Hg. pose proof (Z.mod_pos_bound (g + 2) (2 ^ 64) ltac:(lia)).
  pose proof (Z.div_mod (g + 2) (2 ^ 64) ltac:(lia)). assert (2 ^ 64 * ((g + 2) / 2 ^ 64) = 2)%Z by lia. lia.
Qed.

Lemma generation_on f i (d : InputHealthShmem B) : generation_at i (on_slot f i d) = (fun s => ih_generation (f s)) <$> ih_slots d !! i.
Proof. unfold generation_at, on_slot. cbn. rewrite list_lookup_alter_eq. by destruct (ih_slots d !! i). Qed.

(** What an attempt gets that begins and ends before, inside or after one call of
    [WriteSlot]: [d], [d1] and [d2] are the segment before it, during its copy
    and after it. *)
Lemma attempts_around_write i k torn next s (d d1 d2 : InputHealthShmem B) c rest :
  ih_slot_count d = INPUTHEALTH_SLOT_COUNT -> (i < INPUTHEALTH_SLOT_COUNT)%nat ->
  ih_slots d !! i = Some s -> Z.odd (ih_generation s) = k ->
  WriteSlot_copying i torn (Some d) = Some d1 -> WriteSlot i next (Some d) = Some d2 ->
  let read t := TryReadSlot i (t :: rest) (Some d) in
  let retry := TryReadSlot i rest (Some d) in
  read (mkAttempt d c d) = (if k then retry else Some c) /\
  read (mkAttempt d1 c d1) = (if k then Some c else retry) /\
  read (mkAttempt d c d1) = retry /\ read (mkAttempt d1 c d2) = retry /\ read (mkAttempt d c d2) = retry.
Proof.
  intros Hc Hi Hs Hk H1 H2 read retry. rewrite WriteSlot_some in H2 by done. injection H2 as <-.
  unfold WriteSlot_copying in H1. cbn [mbind option_bind] in H1. rewrite SlotForWrite_some in H1 by done. injection H1 as <-.
  assert (generation_at i d = Some (ih_generation s)) as G by (unfold generation_at; by rewrite Hs).
  set (d1 := on_slot _ i d). set (d2 := on_slot _ i d).
  assert (generation_at i d1 = Some (u64 (ih_generation s + 1))) as G1 by (unfold d1; by rewrite generation_on, Hs).
  assert (generation_at i d2 = Some (u64 (ih_generation s + 2))) as G2 by (unfold d2; by rewrite generation_on, Hs).
  assert (forall t g1 g2, generation_at i (at_first t) = Some g1 -> generation_at i (at_second t) = Some g2 ->
    read t = if negb (Z.odd g1) && (g1 =? g2)%Z then Some (at_copy t) else retry) as Hr
    by (intros; apply TryReadSlot_cons; [lia|done|done]).
  assert (forall x y, Z.odd x <> Z.odd y -> (x =? y)%Z = false) as Hne by (intros x y Hxy; apply Z.eqb_neq; congruence).
  pose proof (odd_u64_mark (ih_generation s)) as M1. pose proof (odd_u64_step (ih_generation s)) as M2.
  split_and!.
  - rewrite (Hr (mkAttempt d c d) _ _ G G), Hk, Z.eqb_refl. by destruct k.
  - rewrite (Hr (mkAttempt d1 c d1) _ _ G1 G1), M1, Hk, Z.eqb_refl. by destruct k.
  - rewrite (Hr (mkAttempt d c d1) _ _ G G1), Hne by (rewrite M1; by destruct (Z.odd (ih_generation s))). by rewrite andb_false_r.
  - rewrite (Hr (mkAttempt d1 c d2) _ _ G1 G2), Hne by (rewrite M1, M2; by destruct (Z.odd (ih_generation s))). by rewrite andb_false_r.
  - rewrite (Hr (mkAttempt d c d2) _ _ G G2), u64_step_ne. by rewrite andb_false_r.
Qed.
End PublisherProps.

(** C39: From [Init] on, at any point of any tick, over any components: no two
    components share a slot, a component keeps its slot for good, and one is
    left without a slot only when all 256 are taken; a component's slot holds the
    record published last for it.  A reader's attempt that overlaps the
    beginning or the end of one write of the slot, or both, is always retried.
    If the segment [Init] found had an even generation in that slot, an attempt
    outside the writes gets that record, and one within a write's copy is
    retried.  If a writer died inside that slot, so that it was odd, it is the
    other way round for good, since [Create] does not repair it and [WriteSlot]
    preserves the parity: outside the writes every attempt is refused, and an
    attempt within a copy returns whatever bytes it met. *)
Theorem publisher_slots {B} (p0 : SnapshotPublisherState B) (d0 : InputHealthShmem B)
  (ticks more : list (list (Z * B))) (part remaining : list (Z * B))
  (Hoff : g_running p0 = false) (Hlen : length (ih_slots d0) = INPUTHEALTH_SLOT_COUNT) :
  let run := foldl (fun p st => PublishOneTick st p) in
  let q := foldl publish_rec (run (SnapshotPublisherInit (Some d0) p0) ticks) part in
  let hist := concat ticks ++ part in
  (forall h h' i, g_handleToSlot q !! h = Some i -> g_handleToSlot q !! h' = Some i -> h = h') /\
  (forall h b, (h, b) ∈ hist -> g_handleToSlot q !! h = None -> size (g_handleToSlot q) = 256%nat) /\
  forall h i, g_handleToSlot q !! h = Some i ->
    g_handleToSlot (run (foldl publish_rec q remaining) more) !! h = Some i /\
    exists d s0 s b, g_shmem q = Some d /\ ih_slots d0 !! i = Some s0 /\ ih_slots d !! i = Some s /\
      ih_body s = b /\ last_of h hist = Some b /\
      forall torn next d1 d2, WriteSlot_copying i torn (Some d) = Some d1 -> WriteSlot i next (Some d) = Some d2 ->
      forall c rest,
        let read t := TryReadSlot i (t :: rest) (Some d) in
        let retry := TryReadSlot i rest (Some d) in
        let found_odd := Z.odd (ih_generation s0) in
        read (mkAttempt d b d) = (if found_odd then retry else Some b) /\
        read (mkAttempt d1 c d1) = (if found_odd then Some c else retry) /\
        read (mkAttempt d c d1) = retry /\ read (mkAttempt d1 c d2) = retry /\ read (mkAttempt d c d2) = retry.
Proof.
  intros run q hist.
  assert (pub_inv (ih_slots d0) hist q) as [(d & Hd & Hc & Hl & Hg & Hb) [Hn Hsz] Hbd Hinj Hf].
  { apply publish_recs_inv, (ticks_inv _ _ []). unfold SnapshotPublisherInit. rewrite Hoff. cbn.
    constructor; cbn; try done; [|split; [lia|done]|].
    - eexists. split; [done|]. cbn. split_and!; try done. intros i s Hi. by exists s.
    - intros h b Hh. by apply elem_of_nil in Hh. }
  split_and!; [done| |].
  - intros h b Hin Hno. rewrite Hsz. by eapply Hf.
  - intros h i Hi. split; [by apply ticks_stable, recs_stable|]. destruct (Hb h i Hi) as (s & Hs & Hla).
    destruct (Hg i s Hs) as (s0 & Hs0 & Hodd). exists d, s0, s, (ih_body s). split_and!; try done.
    intros torn next d1 d2 H1 H2 c rest. cbv zeta.
    assert (i < INPUTHEALTH_SLOT_COUNT)%nat as Hib by (apply lookup_lt_Some in Hs; lia).
    destruct (attempts_around_write i _ torn next s d d1 d2 c rest Hc Hib Hs Hodd H1 H2) as (_ & R2 & R3 & R4 & R5).
    destruct (attempts_around_write i _ torn next s d d1 d2 (ih_body s) rest Hc Hib Hs Hodd H1 H2) as (R1 & _).
    done.
Qed.

(** ** Witnesses *)

Definition sample_ticks : list (list (Z * nat)) := [[(7%Z, 1%nat); (9%Z, 2%nat)]; [(9%Z, 3%nat)]].

(** A segment whose slots were all left marked. *)
Definition left_marked : InputHealthShmem nat :=
  mkIH 0 0 0 0 (replicate INPUTHEALTH_SLOT_COUNT (mkIHSlot 1 0%nat)).

Definition sample_mid (d0 : InputHealthShmem nat) : SnapshotPublisherState nat :=
  foldl publish_rec (foldl (fun p st => PublishOneTick st p) (SnapshotPublisherInit (Some d0) (mkPub false None ∅ 0)) sample_ticks)
    [(7%Z, 4%nat)].

(** The slot of component 9 between two writes, and within a copy: the bytes 55
    were never published. *)
Lemma publisher_slots_witness :
  (exists d, g_shmem (sample_mid (IH_fresh 0%nat)) = Some d /\ TryReadSlot 1 [mkAttempt d 3%nat d] (Some d) = Some 3%nat) /\
  (exists d d1, g_shmem (sample_mid left_marked) = Some d /\ WriteSlot_copying 1 55%nat (Some d) = Some d1 /\
     TryReadSlot 1 [mkAttempt d 3%nat d] (Some d) = None /\ TryReadSlot 1 [mkAttempt d1 55%nat d1] (Some d) = Some 55%nat).
Proof.
  split.
  - destruct (publisher_slots (mkPub false None ∅ 0) (IH_fresh 0%nat) sample_ticks [] [(7%Z, 4%nat)] []
      eq_refl ltac:(by vm_compute)) as (_ & _ & Hp).
    destruct (Hp 9%Z 1%nat ltac:(vm_compute; reflexivity)) as [_ (d & s0 & s & b & Hd & Hs0 & Hs & Hb & Hl & Hr)].
    assert (b = 3%nat) as -> by (revert Hl; vm_compute; by intros [= <-]). assert (s0 = mkIHSlot 0 0%nat) as -> by (revert Hs0; vm_compute; by intros [= <-]).
    destruct (WriteSlot_copying_total 1 0%nat d) as [d1 H1].
    destruct (WriteSlot_total 1 0%nat d) as [d2 H2].
    destruct (Hr _ _ _ _ H1 H2 0%nat []) as (R & _). exists d. split; [exact Hd|exact R].
  - destruct (publisher_slots (mkPub false None ∅ 0) left_marked sample_ticks [] [(7%Z, 4%nat)] []
      eq_refl ltac:(by vm_compute)) as (_ & _ & Hp).
    destruct (Hp 9%Z 1%nat ltac:(vm_compute; reflexivity)) as [_ (d & s0 & s & b & Hd & Hs0 & Hs & Hb & Hl & Hr)].
    assert (b = 3%nat) as -> by (revert Hl; vm_compute; by intros [= <-]). assert (s0 = mkIHSlot 1 0%nat) as -> by (revert Hs0; vm_compute; by intros [= <-]).
    destruct (WriteSlot_copying_total 1 55%nat d) as [d1 H1].
    destruct (WriteSlot_total 1 0%nat d) as [d2 H2].
    destruct (Hr _ _ _ _ H1 H2 55%nat []) as (R1 & R2 & _). exists d, d1. split; [exact Hd|]. split; [exact H1|].
    split; [|exact R2]. rewrite R1. cbn. by destruct (ih_slot_count d) as [|[|n]].
Defined.

Definition sample_path : list byte := str "/input/a/click".
Definition sample_boolean : ComponentStats :=
  stats_init <| path := sample_path |> <| is_boolean := true |> <| serial_hash := 5%Z |>.
Definition sample_entry : InputHealthCompensationEntry :=
  mkComp 5 sample_path InputHealthCompBoolean 1 fzero fzero fzero fzero 1000.
Definition sample_env (en : InputHealthCompensationEntry) : DetourEnv :=
  mkEnv true (mkIHC true false true true (x00, x00)) {[5%Z := {[comp_path en := en]}]}.
Definition sample_presses : list (Z * bool) := [(10000%Z, true); (10400%Z, false)].

(** A press, and its release 400 microseconds later: the release is lost. *)
Lemma boolean_debounce_witness :
  (bool_run (fun _ => None) (sample_env sample_entry) 1 sample_presses {[1%Z := sample_boolean]}).1
    = [(10000%Z, Some true); (10400%Z, None)] /\
  exists s', (bool_run (fun _ => None) (sample_env sample_entry) 1 sample_presses {[1%Z := sample_boolean]}).2 !! 1%Z
    = Some s' /\ last_boolean s' = true /\ press_count s' = 1%Z.
Proof.
  assert (debounced (sample_env sample_entry) sample_entry sample_boolean) as Hd.
  { constructor; [done|done|vm_compute; reflexivity|done|done]. }
  assert (({[1%Z := sample_boolean]} : Components) !! 1%Z = Some sample_boolean) as Hl by (vm_compute; reflexivity).
  pose proof (boolean_debounce (fun _ => None) (sample_env sample_entry) 1 sample_entry sample_boolean
    {[1%Z := sample_boolean]} sample_presses Hl Hd ltac:(by vm_compute) ltac:(by vm_compute) ltac:(by vm_compute)) as Hp.
  assert ((bool_run (fun _ => None) (sample_env sample_entry) 1 sample_presses {[1%Z := sample_boolean]}).1
    = [(10000%Z, Some true); (10400%Z, None)]) as Ho by (vm_compute; reflexivity).
  split; [done|]. destruct (bool_run _ _ _ _ _) as [os m']. cbn in Ho. subst os.
  destruct Hp as (s' & Hm & Hb & _ & Hc & _). exists s'. split_and!; [done| |by rewrite Hc].
  by rewrite <-Hb.
Defined.

Definition sample_trigger : ComponentStats :=
  stats_init <| path := str "/input/trigger/value" |> <| is_scalar := true |> <| serial_hash := 5%Z |>.
Definition sample_trigger_entry : InputHealthCompensationEntry :=
  mkComp 5 (str "/input/trigger/value") InputHealthCompScalarSingle 1 fzero (f_lit 1 10) (f_lit 9 10) fzero 0.

Lemma scalar_detour_witness :
  exists out m', DetourUpdateScalarComponent (H := libm_sample) (fun _ => None) (sample_env sample_trigger_entry) 1
    (f_lit 95 100) 7 {[1%Z := sample_trigger]} = Some (out, m') /\ out <> f_lit 95 100 /\ fle out f_one = true.
Proof.
  assert (is_Some (DetourUpdateScalarComponent (H := libm_sample) (fun _ => None) (sample_env sample_trigger_entry) 1
    (f_lit 95 100) 7 {[1%Z := sample_trigger]})) as [[out m'] Hd].
  { destruct (DetourUpdateScalarComponent (H := libm_sample) _ _ _ _ _ _) eqn:E; [by eexists|].
    exfalso. revert E. vm_compute. done. }
  exists out, m'. split; [done|]. assert (out = f_one) as Hout.
  { assert (Some out = Some f_one) as [= ->]; [|done].
    transitivity (fst <$> DetourUpdateScalarComponent (H := libm_sample) (fun _ => None) (sample_env sample_trigger_entry) 1
      (f_lit 95 100) 7 {[1%Z := sample_trigger]}); [by rewrite Hd|]. vm_compute. reflexivity. }
  assert (out <> f_lit 95 100) as Hne by (rewrite Hout; vm_compute; done). split; [done|].
  destruct (scalar_detour (H := libm_sample) _ _ _ _ _ _ _ _ Hd) as
    [[->|(s & en & Hs & _ & _ & _ & _ & _ & _ & Ht & _)] _]; [done|].
  apply Ht. assert (({[1%Z := sample_trigger]} : Components) !! 1%Z = Some sample_trigger) as Hl by (vm_compute; reflexivity).
  rewrite Hl in Hs. injection Hs as <-. by vm_compute.
Defined.
