(* ===== verification/FaceFrame.v ===== *)
(** * Face frames (modules/facetracking/src/driver, core/src/common/facetracking)

    The frame the host writes and the one the driver works with, the map from
    the eighty-eight upstream shapes to the sixty-three of the driver, the
    reader of the shared ring, and the publication of a frame through the OSC
    router. *)

From S2P Require Import Prelude Floats Shmem OscWire OscStats RouteTable OscRouter.

(** ** Frames *)

Definition FACETRACKING_EXPRESSION_COUNT : nat := 63.
Definition FACETRACKING_UPSTREAM_EXPRESSION_COUNT : nat := 88.

Abbreviation float3 := (float * float * float)%type.

(** [expressions] has 63 entries in the consumers' order, 88 in upstream's on
    the wire; the two structs agree on every other field. *)
Record FaceTrackingFrameBody := mkFrame {
  qpc_sample_time : Z; source_module_uuid_hash : Z;
  eye_origin_l : float3; eye_origin_r : float3; eye_gaze_l : float3; eye_gaze_r : float3;
  eye_openness_l : float; eye_openness_r : float; pupil_dilation_l : float; pupil_dilation_r : float;
  eye_confidence_l : float; eye_confidence_r : float;
  expressions : list float;
  flags : Z;
  head_yaw : float; head_pitch : float; head_roll : float;
  head_pos_x : float; head_pos_y : float; head_pos_z : float; head_flags : Z }.

Abbreviation FaceTrackingFrameBodyWire := FaceTrackingFrameBody.

#[export] Instance frame_settable : Settable FaceTrackingFrameBody := fun f =>
  mkFrame (qpc_sample_time f) (source_module_uuid_hash f) (eye_origin_l f) (eye_origin_r f)
    (eye_gaze_l f) (eye_gaze_r f) (eye_openness_l f) (eye_openness_r f) (pupil_dilation_l f)
    (pupil_dilation_r f) (eye_confidence_l f) (eye_confidence_r f) (expressions f) (flags f)
    (head_yaw f) (head_pitch f) (head_roll f) (head_pos_x f) (head_pos_y f) (head_pos_z f) (head_flags f).

Definition eye_valid (f : FaceTrackingFrameBody) : bool := Z.testbit (flags f) 0.
Definition expr_valid (f : FaceTrackingFrameBody) : bool := Z.testbit (flags f) 1.

(** ** UpstreamShapeMap.h *)

Definition kUpstreamShapeCount : nat := 88.

Definition kUpstreamToOurs : list Z := [
   11; 10; 9; 8; 19; 18; 13; 12; 15; 14; 17; 16; -1; -1; -1; -1; -1; -1; 21; 20; 23; 22;
   26; 29; 28; 27; -1; -1; -1; 40; 31; 30; 33; 32; -1; -1; 35; 34; 37; 36; 39; 38; -1; -1;
   -1; -1; -1; -1; 25; 24; -1; -1; 42; 41; 44; 43; 46; 45; -1; -1; 48; 47; 50; 49; 52; 51;
   53; 54; 56; 55; 58; 57; 59; 60; 61; -1; 62; -1; -1; -1; -1; -1; -1; -1; -1; -1; -1; -1]%Z.

(** One turn of the loop. *)
Definition remap_one (src : list float) (dst : list float) (u : nat) : list float :=
  let o := nth u kUpstreamToOurs (-1)%Z in
  if (o <? 0)%Z || (Z.of_nat FACETRACKING_EXPRESSION_COUNT <=? o)%Z then dst else
  let v := nth u src fzero in
  if is_nan v || isinf v then dst else <[Z.to_nat o := std_clamp v fzero f_one]> dst.

Definition RemapUpstreamShapes (src dst : list float) : list float :=
  foldl (remap_one src) dst (seq 0 kUpstreamShapeCount).

(** ** FaceFrameReader.cpp *)

Definition TranslateWireBody (wire : FaceTrackingFrameBodyWire) : FaceTrackingFrameBody :=
  wire <| expressions := RemapUpstreamShapes (expressions wire) (replicate FACETRACKING_EXPRESSION_COUNT fzero) |>.

Definition UINT64_MAX : Z := 2 ^ 64 - 1.

Section Reader.
Abbreviation shmem := (option (FaceTrackingFrameShmem FaceTrackingFrameBodyWire)).

(** [retries]: the default of [TryReadLatestWire]. *)
Definition TryRead (retries : nat) (shmem_ : shmem) : option FaceTrackingFrameBody :=
  TranslateWireBody <$> TryReadLatestWire retries shmem_.

Definition LastPublishIndex (shmem_ : shmem) : nat := PublishIndex shmem_.

Definition HostState (shmem_ : shmem) : Z := HostStateField shmem_.

Definition HeartbeatAgeMs (now freq : Z) (shmem_ : shmem) : Z :=
  match shmem_ with
  | None => UINT64_MAX
  | Some _ =>
    let hb := HostHeartbeatQpc shmem_ in
    if (hb =? 0)%Z then UINT64_MAX
    else if (now <=? hb)%Z then 0%Z
    else if (freq =? 0)%Z then UINT64_MAX
    else (u64 ((now - hb) * 1000) / freq)%Z
  end.
End Reader.

(** ** FaceOscPublisher.cpp *)

Definition kExprParamNames : list (list byte) := [
   str "EyeLookOutLeft"; str "EyeLookInLeft"; str "EyeLookUpLeft";
   str "EyeLookDownLeft"; str "EyeLookOutRight"; str "EyeLookInRight";
   str "EyeLookUpRight"; str "EyeLookDownRight"; str "EyeWideLeft";
   str "EyeWideRight"; str "EyeSquintLeft"; str "EyeSquintRight";
   str "BrowLowererLeft"; str "BrowLowererRight"; str "BrowInnerUpLeft";
   str "BrowInnerUpRight"; str "BrowOuterUpLeft"; str "BrowOuterUpRight";
   str "BrowPinchLeft"; str "BrowPinchRight"; str "CheekPuffLeft";
   str "CheekPuffRight"; str "CheekSuckLeft"; str "CheekSuckRight";
   str "NoseSneerLeft"; str "NoseSneerRight"; str "JawOpen";
   str "JawForward"; str "JawLeft"; str "JawRight";
   str "LipSuckUpperLeft"; str "LipSuckUpperRight"; str "LipSuckLowerLeft";
   str "LipSuckLowerRight"; str "LipFunnelUpperLeft"; str "LipFunnelUpperRight";
   str "LipFunnelLowerLeft"; str "LipFunnelLowerRight"; str "LipPuckerUpperLeft";
   str "LipPuckerUpperRight"; str "MouthClose"; str "MouthUpperLeft";
   str "MouthUpperRight"; str "MouthLowerLeft"; str "MouthLowerRight";
   str "MouthSmileLeft"; str "MouthSmileRight"; str "MouthSadLeft";
   str "MouthSadRight"; str "MouthStretchLeft"; str "MouthStretchRight";
   str "MouthDimpleLeft"; str "MouthDimpleRight"; str "MouthRaiserUpper";
   str "MouthRaiserLower"; str "MouthPressLeft"; str "MouthPressRight";
   str "MouthTightenerLeft"; str "MouthTightenerRight"; str "TongueOut";
   str "TongueUp"; str "TongueDown"; str "TongueLeft"
].

Definition alias_of (i : nat) : option (list byte) :=
  match i with
  | 40 => Some (str "MouthClosed")
  | 45 => Some (str "MouthCornerPullLeft")
  | 46 => Some (str "MouthCornerPullRight")
  | 47 => Some (str "MouthFrownLeft")
  | 48 => Some (str "MouthFrownRight")
  | _ => None
  end.

Definition kExprParamUpstreamAliases : list (option (list byte)) :=
  map alias_of (seq 0 FACETRACKING_EXPRESSION_COUNT).

(** The bit pattern of a [float]; of something that is not a number, any. *)
Definition f_bits (nan_bits : Z) (x : float) : Z :=
  match x with
  | S754_zero s => if s then 2 ^ 31 else 0
  | S754_infinity s => (if s then 2 ^ 31 else 0) + 255 * 2 ^ 23
  | S754_nan => nan_bits
  | S754_finite s m e =>
    (if s then 2 ^ 31 else 0) +
    (if 2 ^ 23 <=? Zpos m then (e + 150) * 2 ^ 23 + (Zpos m - 2 ^ 23) else Zpos m)
  end%Z.

Definition kLegacyPrefix : list byte := str "/avatar/parameters/".
Definition kV2Prefix : list byte := str "/avatar/parameters/v2/".

(** The messages of a frame in order, as address and value. *)
Definition eye_messages (frame : FaceTrackingFrameBody) : list (list byte * float) :=
  let pupil := f_mul (f_add (pupil_dilation_l frame) (pupil_dilation_r frame)) (f_lit 1 2) in
  let '(lx, ly, _) := eye_gaze_l frame in
  let '(rx, ry, _) := eye_gaze_r frame in
  [ (str "/avatar/parameters/LeftEyeX", lx); (str "/avatar/parameters/LeftEyeY", ly);
    (str "/avatar/parameters/RightEyeX", rx); (str "/avatar/parameters/RightEyeY", ry);
    (str "/avatar/parameters/LeftEyeLid", eye_openness_l frame);
    (str "/avatar/parameters/RightEyeLid", eye_openness_r frame);
    (str "/avatar/parameters/EyesDilation", pupil);
    (str "/avatar/parameters/v2/EyeLeftX", lx); (str "/avatar/parameters/v2/EyeLeftY", ly);
    (str "/avatar/parameters/v2/EyeRightX", rx); (str "/avatar/parameters/v2/EyeRightY", ry);
    (str "/avatar/parameters/v2/EyeOpenLeft", eye_openness_l frame);
    (str "/avatar/parameters/v2/EyeOpenRight", eye_openness_r frame);
    (str "/avatar/parameters/v2/PupilDilation", pupil) ].

(** Both addresses, unless one does not fit its 64-byte buffer. *)
Definition emitBoth (name : list byte) (value : float) : list (list byte * float) :=
  if 64 <? length kLegacyPrefix + length name + 1 then []
  else if 64 <? length kV2Prefix + length name + 1 then []
  else [(kLegacyPrefix ++ name, value); (kV2Prefix ++ name, value)].

Definition expression_message (frame : FaceTrackingFrameBody) (i : nat) : list (list byte * float) :=
  let value := nth i (expressions frame) fzero in
  emitBoth (nth i kExprParamNames []) value ++
  match nth i kExprParamUpstreamAliases None with Some a => emitBoth a value | None => [] end.

Definition expression_messages (frame : FaceTrackingFrameBody) : list (list byte * float) :=
  mjoin (map (expression_message frame) (seq 0 FACETRACKING_EXPRESSION_COUNT)).

Definition frame_messages (frame : FaceTrackingFrameBody) : list (list byte * float) :=
  (if eye_valid frame then eye_messages frame else []) ++
  (if expr_valid frame then expression_messages frame else []).

Section Osc.
Context {T : Type} `{RouteStore T} (nan_bits : Z).
Implicit Type r : OscRouter T.

Definition OscPublishFloat (address : list byte) (value : float) r : bool * OscRouter T :=
  PublishOsc address (str ",f") (Some (be32 (f_bits nan_bits value))) r.

Definition count_add (c : Z * Z) (ok : bool) : Z * Z :=
  if ok then (u32 (c.1 + 1), c.2) else (c.1, u32 (c.2 + 1)).

Definition publish_one (st : (Z * Z) * OscRouter T) (m : list byte * float) : (Z * Z) * OscRouter T :=
  let '(ok, r) := OscPublishFloat m.1 m.2 st.2 in (count_add st.1 ok, r).

(** Sent, dropped, and the router. *)
Definition PublishFaceFrameOsc (frame : FaceTrackingFrameBody) r : (Z * Z) * OscRouter T :=
  foldl publish_one ((0, 0)%Z, r) (frame_messages frame).
End Osc.

Definition FaceExpressionOscName (index : nat) : list byte :=
  if FACETRACKING_EXPRESSION_COUNT <=? index then [] else nth index kExprParamNames [].

(** ** The remap *)

Definition remapped (v : float) : float := if is_nan v || isinf v then fzero else std_clamp v fzero f_one.

Lemma remapped_bounds v : fle fzero (remapped v) = true /\ fle (remapped v) f_one = true.
Proof.
  unfold remapped. destruct (is_nan v) eqn:Hv; [done|]. cbn [orb]. case_match; [done|].
  by apply std_clamp_bounds.
Qed.

(** The slot an upstream shape goes to. *)
Definition slot_of (u : nat) : option nat :=
  let o := nth u kUpstreamToOurs (-1)%Z in
  if (o <? 0)%Z || (Z.of_nat FACETRACKING_EXPRESSION_COUNT <=? o)%Z then None else Some (Z.to_nat o).

(** No two shapes share a slot. *)
Lemma slot_of_inj u u' o :
  u < kUpstreamShapeCount -> u' < kUpstreamShapeCount -> slot_of u = Some o -> slot_of u' = Some o -> u = u'.
Proof.
  assert (forallb (fun u => forallb (fun u' =>
    (u =? u') || negb (bool_decide (is_Some (slot_of u))) || negb (bool_decide (slot_of u = slot_of u')))
      (seq 0 kUpstreamShapeCount)) (seq 0 kUpstreamShapeCount) = true) as H by (vm_compute; reflexivity).
  intros Hu Hu' Ho Ho'. rewrite forallb_forall in H. specialize (H u ltac:(apply in_seq; lia)).
  rewrite forallb_forall in H. specialize (H u' ltac:(apply in_seq; lia)).
  rewrite Ho, Ho', !bool_decide_true, !orb_false_r in H by done. by apply Nat.eqb_eq.
Qed.

Lemma remap_one_slot src dst u :
  remap_one src dst u =
  match slot_of u with
  | Some o => let v := nth u src fzero in if is_nan v || isinf v then dst else <[o := std_clamp v fzero f_one]> dst
  | None => dst
  end.
Proof. unfold remap_one, slot_of. cbv zeta. by destruct (_ || _). Qed.

(** The loop over the first [n] shapes, from zeroes. *)
Lemma remap_prefix src n :
  n <= kUpstreamShapeCount ->
  let dst := foldl (remap_one src) (replicate FACETRACKING_EXPRESSION_COUNT fzero) (seq 0 n) in
  length dst = FACETRACKING_EXPRESSION_COUNT /\
  (forall u o, u < n -> slot_of u = Some o -> dst !! o = Some (remapped (nth u src fzero))) /\
  (forall o, o < FACETRACKING_EXPRESSION_COUNT -> (forall u, u < n -> slot_of u <> Some o) -> dst !! o = Some fzero).
Proof.
  induction n as [|n IH]; intros Hn; cbv zeta.
  { cbn [seq foldl]. split_and!; [by rewrite length_replicate|lia|]. intros o Ho _. by apply lookup_replicate_2. }
  destruct (IH ltac:(lia)) as (Hl & Hm & Hz). rewrite seq_S, foldl_snoc, remap_one_slot. cbn [Nat.add].
  set (dst := foldl _ _ _) in *. clearbody dst.
  assert (forall u o, slot_of u = Some o -> o < FACETRACKING_EXPRESSION_COUNT) as Hlt.
  { intros u o. unfold slot_of. cbv zeta. destruct (_ || _) eqn:E; [done|].
    apply orb_false_iff in E as [?%Z.ltb_ge ?%Z.leb_gt]. intros <-%(inj Some). lia. }
  destruct (slot_of n) as [o'|] eqn:Es.
  2: { split_and!; [done| |].
       - intros u o Hu Ho. apply Hm; [|done]. destruct (decide (u = n)) as [->|]; [congruence|lia].
       - intros o Ho Hno. apply Hz; [done|]. intros u Hu. apply Hno. lia. }
  set (v := nth n src fzero). split_and!.
  - case_match; [done|by rewrite length_insert].
  - intros u o Hu Ho. destruct (decide (u = n)) as [->|Hne].
    + rewrite Es in Ho. injection Ho as ->. unfold remapped. fold v. destruct (is_nan v || isinf v) eqn:E.
      * apply Hz; [by eapply Hlt|]. intros u' Hu' Ho'.
        assert (u' = n) by (by eapply (slot_of_inj u' n); try lia). lia.
      * apply list_lookup_insert_eq. rewrite Hl. by eapply Hlt.
    + assert (o' <> o) as Hoo.
      { intros ->. apply Hne. by eapply (slot_of_inj u n); try lia. }
      case_match; [|rewrite list_lookup_insert_ne by done]; apply Hm; (lia || done).
  - intros o Ho Hno. assert (o' <> o) as Hoo by (intros ->; by apply (Hno n); [lia|]).
    case_match; [|rewrite list_lookup_insert_ne by done]; (apply Hz; [done|]; intros u Hu; apply Hno; lia).
Qed.

Lemma remap_all src :
  let dst := RemapUpstreamShapes src (replicate FACETRACKING_EXPRESSION_COUNT fzero) in
  length dst = FACETRACKING_EXPRESSION_COUNT /\
  (forall u o, u < kUpstreamShapeCount -> slot_of u = Some o -> dst !! o = Some (remapped (nth u src fzero))) /\
  (forall o, o < FACETRACKING_EXPRESSION_COUNT -> (forall u, u < kUpstreamShapeCount -> slot_of u <> Some o) ->
    dst !! o = Some fzero).
Proof. unfold RemapUpstreamShapes. by apply remap_prefix. Qed.

Lemma remap_unit src :
  Forall (fun v => fle fzero v = true /\ fle v f_one = true)
    (RemapUpstreamShapes src (replicate FACETRACKING_EXPRESSION_COUNT fzero)).
Proof.
  destruct (remap_all src) as (Hl & Hm & Hz). set (dst := RemapUpstreamShapes _ _) in *. clearbody dst.
  apply Forall_lookup. intros o v Ho. pose proof (lookup_lt_Some _ _ _ Ho) as Hlt. rewrite Hl in Hlt.
  destruct (decide (Exists (fun u => slot_of u = Some o) (seq 0 kUpstreamShapeCount))) as [He|He].
  - apply Exists_exists in He as (u & Hu & Hs). apply in_seq in Hu.
    pose proof (Hm u o ltac:(lia) Hs) as E. rewrite Ho in E. apply (inj Some) in E as ->. apply remapped_bounds.
  - assert (dst !! o = Some fzero) as E.
    { apply Hz; [done|]. intros u Hu Hs. apply He, Exists_exists. exists u. split; [apply in_seq; lia|done]. }
    rewrite Ho in E. by apply (inj Some) in E as ->.
Qed.

Lemma expressions_upd wire e : expressions (wire <| expressions := e |>) = e.
Proof. by destruct wire. Qed.

(** Whatever eighty-eight floats the host writes, the driver's frame has
    sixty-three expressions, all numbers in [0, 1]: the slot of an upstream
    shape has its value, clamped, or zero where it is not finite, and no other
    shape's; a slot no upstream shape maps to is zero; every other field of the
    frame is copied. *)
Theorem remap_exact (wire : FaceTrackingFrameBodyWire) :
  let frame := TranslateWireBody wire in
  frame = (wire <| expressions := expressions frame |>) /\
  length (expressions frame) = FACETRACKING_EXPRESSION_COUNT /\
  Forall (fun v => fle fzero v = true /\ fle v f_one = true) (expressions frame) /\
  (forall u o, u < kUpstreamShapeCount -> slot_of u = Some o ->
     expressions frame !! o = Some (remapped (nth u (expressions wire) fzero))) /\
  (forall o, o < FACETRACKING_EXPRESSION_COUNT -> (forall u, u < kUpstreamShapeCount -> slot_of u <> Some o) ->
     expressions frame !! o = Some fzero).
Proof.
  intros frame. destruct (remap_all (expressions wire)) as (Hl & Hm & Hz).
  pose proof (remap_unit (expressions wire)) as Hu.
  unfold frame, TranslateWireBody. rewrite (expressions_upd wire).
  set (dst := RemapUpstreamShapes _ _) in *. clearbody dst. by split_and!.
Qed.

(** ** The publication of a frame *)

(** The addresses do not depend on the frame. *)
Definition no_eyes : float3 := (fzero, fzero, fzero).
Definition blank_frame : FaceTrackingFrameBody :=
  mkFrame 0 0 no_eyes no_eyes no_eyes no_eyes fzero fzero fzero fzero fzero fzero [] 0
    fzero fzero fzero fzero fzero fzero 0.

Lemma eye_addresses frame : (eye_messages frame).*1 = (eye_messages blank_frame).*1.
Proof. unfold eye_messages. by destruct (eye_gaze_l frame) as [[] ?], (eye_gaze_r frame) as [[] ?]. Qed.

Lemma emitBoth_addresses name v w : (emitBoth name v).*1 = (emitBoth name w).*1.
Proof. unfold emitBoth. by repeat case_match. Qed.

Lemma expression_addresses frame : (expression_messages frame).*1 = (expression_messages blank_frame).*1.
Proof.
  unfold expression_messages. induction (seq 0 FACETRACKING_EXPRESSION_COUNT) as [|i l IH]; [done|].
  cbn [map mjoin list_join concat]. cbn -[expression_message]. rewrite !fmap_app. f_equal; [|exact IH].
  unfold expression_message. cbv zeta. rewrite !fmap_app. f_equal; [apply emitBoth_addresses|].
  destruct (nth i kExprParamUpstreamAliases None); [apply emitBoth_addresses|done].
Qed.

Definition all_addresses : list (list byte) :=
  (eye_messages blank_frame).*1 ++ (expression_messages blank_frame).*1.

(** Fourteen eye messages, two for each expression and each alias. *)
Lemma all_addresses_ok :
  length (eye_messages blank_frame) = 14 /\ length (expression_messages blank_frame) = 136 /\
  NoDup all_addresses /\ Forall (fun a => nul_free a /\ length a <= 64) all_addresses.
Proof.
  split_and!; [by vm_compute|by vm_compute| |].
  - apply (bool_decide_unpack (NoDup all_addresses)). vm_compute. reflexivity.
  - apply Forall_forall. intros a Ha.
    assert (forallb (fun a => forallb (fun c => negb (Byte.eqb c x00)) a && (length a <=? 64)) all_addresses = true)
      as H by (vm_compute; reflexivity).
    rewrite forallb_forall in H. specialize (H a Ha). apply andb_true_iff in H as [Hn Hl].
    split; [|by apply Nat.leb_le]. apply Forall_forall. intros c Hc.
    rewrite forallb_forall in Hn. specialize (Hn c Hc). intros ->. done.
Qed.

Section OscProps.
Context {T : Type} `{RouteStore T} (nan_bits : Z).
Implicit Type r : OscRouter T.

Definition room r : nat := if stop_ r then 0 else kSendQueueCapacity - length (qview r).

(** [x] is the packet of message [m]. *)
Definition packet_for (m : list byte * float) (x : list byte) : Prop :=
  OscParseMessage x = Some (mkMsg m.1 (str ",f") (be32 (f_bits nan_bits m.2))).

Lemma EnqueueLocked_stop d r : stop_ (EnqueueLocked d r).2 = stop_ r.
Proof. unfold EnqueueLocked. by repeat case_match. Qed.

Lemma BuildAndEnqueue_stop a t args r : stop_ (BuildAndEnqueue a t args r).2 = stop_ r.
Proof.
  unfold BuildAndEnqueue. destruct (ok_ _); [cbn [negb]|done].
  pose proof (EnqueueLocked_stop (buf (build_packet a t args)) r) as He. destruct (EnqueueLocked _ r) as [[] r1]; exact He.
Qed.

Lemma publish_float_step (m : list byte * float) r :
  nul_free m.1 -> length m.1 <= 64 -> router_ok r ->
  let '(ok, r') := OscPublishFloat nan_bits m.1 m.2 r in
  router_ok r' /\ stop_ r' = stop_ r /\ ok = (0 <? room r) /\
  exists l, qview r' = qview r ++ l /\ if ok then exists x, l = [x] /\ packet_for m x else l = [].
Proof.
  intros Hn Hl Hr. unfold OscPublishFloat, PublishOsc, room. destruct (stop_ r) eqn:Hstop.
  { split_and!; try done. exists []. by rewrite app_nil_r. }
  set (args := Some _). pose proof (BuildAndEnqueue_message m.1 (str ",f") args r Hn ltac:(by repeat constructor) Hr) as Hm.
  pose proof (BuildAndEnqueue_ok m.1 (str ",f") args r Hr) as Ho.
  assert (stop_ (BuildAndEnqueue m.1 (str ",f") args r).2 = stop_ r) as Hs.
  { by apply BuildAndEnqueue_stop. }
  destruct (BuildAndEnqueue _ _ _ r) as [ok r'] eqn:E. destruct Hm as [Hiff Hok]. cbn [snd] in Hs.
  assert (length (osc_message m.1 (str ",f") (default [] args)) <= kSendQueueEntryMaxSize) as Hfit.
  { unfold osc_message. rewrite !length_app, !osc_str_length by (cbn; lia).
    pose proof (OscPad4_bounds (length m.1 + 1) ltac:(lia)). assert (OscPad4 (length (str ",f") + 1) = 4) as -> by (vm_compute; reflexivity).
    change (length (default [] args)) with 4. unfold kSendQueueEntryMaxSize. lia. }
  pose proof (qview_length r) as Hq. assert (length (qview r) <= kSendQueueCapacity) as Hcap.
  { rewrite Hq. destruct Hr as ((_ & _ & ? & _) & _). done. }
  assert (router_ok r') as Hr'.
  { destruct (offer (packet_of m.1 (str ",f") args) ok). apply Ho. }
  split_and!; [done|congruence| |].
  - destruct ok; symmetry; [apply Nat.ltb_lt|apply Nat.ltb_ge].
    + destruct (proj1 Hiff eq_refl). lia.
    + destruct (decide (length (qview r) < kSendQueueCapacity)) as [Hlt|]; [|lia].
      by discriminate (proj2 Hiff (conj Hfit Hlt)).
  - destruct ok.
    + destruct (Hok eq_refl) as (_ & x & Hv & _ & Hp). exists [x]. split; [done|]. exists x. by split.
    + exists []. split; [|done]. unfold offer in Ho. destruct (packet_of m.1 (str ",f") args); by destruct Ho as (_ & -> & _).
Qed.
Lemma publish_all_messages ms : forall (c : Z * Z) r,
  Forall (fun m => nul_free m.1 /\ length m.1 <= 64) ms -> router_ok r ->
  (0 <= c.1)%Z -> (0 <= c.2)%Z -> (c.1 + c.2 + Z.of_nat (length ms) < 2 ^ 32)%Z ->
  let '(c', r') := foldl (publish_one nan_bits) (c, r) ms in
  let k := Nat.min (length ms) (room r) in
  c' = (c.1 + Z.of_nat k, c.2 + Z.of_nat (length ms - k))%Z /\
  exists packets, qview r' = qview r ++ packets /\ Forall2 packet_for (take k ms) packets.
Proof.
  induction ms as [|m ms IH]; intros c r Hms Hr H1 H2 Hlt.
  { cbn. split; [destruct c; cbn; f_equal; lia|]. exists []. by rewrite app_nil_r. }
  apply list.Forall_cons in Hms as [[Hn Hl] Hms]. cbn [foldl]. cbn [length] in Hlt.
  assert (publish_one nan_bits (c, r) m = let '(ok, r1) := OscPublishFloat nan_bits m.1 m.2 r in (count_add c ok, r1))
    as -> by done.
  pose proof (publish_float_step m r Hn Hl Hr) as Hs.
  destruct (OscPublishFloat nan_bits m.1 m.2 r) as [ok r1]. destruct Hs as (Hr1 & Hst & Hok & l & Hv & Hp).
  assert (room r1 = room r - length l) as Hroom by (unfold room; rewrite Hst, Hv, length_app; destruct (stop_ r); lia).
  assert (count_add c ok = if ok then (c.1 + 1, c.2)%Z else (c.1, c.2 + 1)%Z) as Hc.
  { unfold count_add, u32. destruct ok; f_equal; apply Z.mod_small; lia. }
  specialize (IH (count_add c ok) r1 Hms Hr1). rewrite Hc in *.
  assert (exists x, ok = true /\ l = [x] /\ packet_for m x \/ ok = false /\ l = []) as [x Hcase].
  { destruct ok; [destruct Hp as (x & ? & ?); exists x; by left|exists (@nil byte); by right]. }
  destruct (foldl (publish_one nan_bits) _ ms) as [c' r'].
  destruct Hcase as [(-> & -> & Hx)|(-> & ->)]; symmetry in Hok; cbn [fst snd length] in IH;
    destruct IH as (-> & ps & Hv' & Hps); cbn [fst snd]; try lia; rewrite Hroom in *; cbn [length fst snd] in *.
  - apply Nat.ltb_lt in Hok. replace (Nat.min (S (length ms)) (room r)) with (S (Nat.min (length ms) (room r - 1))) by lia.
    split; [f_equal; lia|]. exists (x :: ps). rewrite Hv', Hv, <-app_assoc. split; [done|]. cbn [take]. by constructor.
  - apply Nat.ltb_ge in Hok. assert (room r = 0) as E by lia. rewrite E in *. rewrite Nat.min_0_r in *.
    split; [f_equal; lia|]. exists ps. rewrite Hv', Hv, app_nil_r. by split.
Qed.

(** Publishing a frame offers the router fourteen eye messages when its eye
    fields are valid and two for each of the sixty-three expressions and five
    aliases when its expressions are, at addresses all different; as many as
    the queue has room for enter it, in order, each parsing to its address and
    value, the rest is counted as dropped, and none when the router is stopped. *)
Theorem face_frame_published frame r (Hr : router_ok r) :
  let ms := frame_messages frame in
  let k := Nat.min (length ms) (room r) in
  let '(counts, r') := PublishFaceFrameOsc nan_bits frame r in
  length ms = (if eye_valid frame then 14 else 0) + (if expr_valid frame then 136 else 0) /\
  NoDup ms.*1 /\
  counts = (Z.of_nat k, Z.of_nat (length ms - k)) /\
  exists packets, qview r' = qview r ++ packets /\ Forall2 packet_for (take k ms) packets.
Proof.
  intros ms k. destruct all_addresses_ok as (L1 & L2 & Hnd & Hall).
  assert (ms.*1 = (if eye_valid frame then (eye_messages blank_frame).*1 else []) ++
                  (if expr_valid frame then (expression_messages blank_frame).*1 else [])) as Ha.
  { unfold ms, frame_messages. rewrite fmap_app, <-(eye_addresses frame), <-(expression_addresses frame).
    by destruct (eye_valid frame), (expr_valid frame). }
  assert (length ms = (if eye_valid frame then 14 else 0) + (if expr_valid frame then 136 else 0)) as Hlen.
  { rewrite <-(length_fmap fst ms), Ha, length_app.
    by destruct (eye_valid frame), (expr_valid frame); rewrite ?length_fmap, ?L1, ?L2. }
  assert (NoDup ms.*1 /\ Forall (fun a => nul_free a /\ length a <= 64) ms.*1) as [Hnd' Hall'].
  { rewrite Ha. unfold all_addresses in Hnd, Hall. pose proof Hall as [Ha1 Ha2]%Forall_app.
    pose proof Hnd as (N1 & _ & N2)%list.NoDup_app.
    destruct (eye_valid frame), (expr_valid frame); rewrite ?app_nil_r; cbn [app];
      [done..|split; constructor]. }
  pose proof (publish_all_messages ms (0, 0)%Z r) as Hp. unfold PublishFaceFrameOsc. fold ms.
  destruct (foldl (publish_one nan_bits) ((0, 0)%Z, r) ms) as [c r'].
  split; [done|]. split; [done|]. apply Hp; try done.
  - by apply Forall_fmap in Hall'.
  - rewrite Hlen. destruct (eye_valid frame), (expr_valid frame); cbn; lia.
Qed.
End OscProps.

Lemma face_frame_published_witness :
  let r0 : OscRouter (list RouteEntry) := Init (Some fresh_mapping) true in
  let frame := blank_frame <| flags := 3%Z |> in
  (PublishFaceFrameOsc 0 frame r0).1 = (150%Z, 0%Z) /\
  length (qview (PublishFaceFrameOsc 0 frame r0).2) = 150.
Proof.
  cbv zeta.
  pose proof (face_frame_published 0 (blank_frame <| flags := 3%Z |>)
    (Init (Some fresh_mapping) true : OscRouter (list RouteEntry)) (proj1 (Init_ok _ _))) as Hp.
  cbv zeta in Hp. destruct (PublishFaceFrameOsc _ _ _) as [counts r']. destruct Hp as (Hl & _ & Hc & ps & Hv & Hps).
  assert (room (Init (Some fresh_mapping) true : OscRouter (list RouteEntry)) = 1024) as Hroom.
  { unfold room. rewrite (proj2 (Init_ok _ _)). done. }
  rewrite Hl, Hroom in *. cbn [fst snd]. rewrite Hv, (proj2 (Init_ok _ _)). split; [by rewrite Hc|].
  apply Forall2_length in Hps. rewrite length_take, Hl in Hps. cbn [app]. rewrite <-Hps. reflexivity.
Defined.
