(* ===== verification/FaceCalib.v ===== *)
(** * Continuous face calibration (modules/facetracking/src/driver/CalibrationEngine.cpp)

    One shape learns its range from accepted samples: a five-marker quantile
    estimator for the low end, an envelope whose top grows only after a held
    peak, and a gate on sudden changes; once warm, its values are normalised
    through that range.  The counter and its frequency are arguments. *)

From S2P Require Import Prelude Floats FaceFrame.
Open Scope f32_scope.

(** ** ShapeCalib *)

Record ShapeCalib := mkShape {
  sc_q : list float; sc_n : list float; sc_dn : list float;
  p02 : float; p98 : float; ema_min : float; ema_max : float; ema_value : float; ema_var : float;
  hold_count : Z; hold_first_qpc : Z; samples : Z; warm : bool }.

#[export] Instance shape_settable : Settable ShapeCalib := fun s =>
  mkShape (sc_q s) (sc_n s) (sc_dn s) (p02 s) (p98 s) (ema_min s) (ema_max s) (ema_value s) (ema_var s)
    (hold_count s) (hold_first_qpc s) (samples s) (warm s).

Definition f_z (z : Z) : float := f_of_Z z.

Definition ShapeCalib_new : ShapeCalib :=
  mkShape [fzero; f_lit 5 1000; f_lit 2 100; f_lit 5 10; f_z 1] [f_z 1; f_z 2; f_z 3; f_z 4; f_z 5]
    [fzero; f_lit 1 100; f_lit 2 100; f_lit 51 100; f_z 1]
    fzero f_one fzero f_one (f_lit 5 10) (f_lit 4 100) 0 0 0 false.

(** ** The quantile estimator *)

Local Notation "l .[ i ]" := (nth i l fzero) (at level 1, left associativity, format "l .[ i ]").

Definition PsqUpdate (q n : list float) (i : nat) (d : float) : float :=
  let h1 := n.[S i] - n.[i] in
  let h2 := n.[i] - n.[pred i] in
  q.[i] + d / (h1 + h2) * ((h2 / h1) * (q.[S i] - q.[i]) + (h1 / h2) * (q.[i] - q.[pred i])).

Definition PsqLinear (q n : list float) (i : nat) (d : float) : float :=
  let j := if d >? fzero then S i else pred i in
  q.[i] + d * (q.[j] - q.[i]) / (n.[j] - n.[i]).

(** The cell of an observation, the end markers moved to it if it is outside. *)
Definition psq_cell (q : list float) (xn : float) : list float * nat :=
  if xn <? q.[0] then (<[0%nat := xn]> q, 0%nat)
  else if xn <? q.[1] then (q, 0%nat)
  else if xn <? q.[2] then (q, 1%nat)
  else if xn <? q.[3] then (q, 2%nat)
  else if xn <=? q.[4] then (q, 3%nat)
  else (<[4%nat := xn]> q, 3%nat).

Definition psq_adjust (dn : list float) (qn : list float * list float) (i : nat) : list float * list float :=
  let '(q, n) := qn in
  let di := dn.[i] - n.[i] in
  if ((di >=? f_one) && (n.[S i] - n.[i] >? f_one)) || ((di <=? SFopp f_one) && (n.[pred i] - n.[i] <? SFopp f_one)) then
    let d := if di >? fzero then f_one else SFopp f_one in
    let q_new := PsqUpdate q n i d in
    let q := if (q_new >? q.[pred i]) && (q_new <? q.[S i]) then <[i := q_new]> q
             else <[i := PsqLinear q n i d]> q in
    (q, <[i := n.[i] + d]> n)
  else (q, n).

Definition psq_count (k : nat) (n : list float) : list float :=
  imap (fun i c => if (k <? i)%nat then c + f_one else c) n.

(** The estimate and the markers. *)
Definition PsqStep (q n dn : list float) (xn : float) : float * (list float * list float) :=
  let '(q, k) := psq_cell q xn in
  let '(q, n) := foldl (psq_adjust dn) (q, psq_count k n) [1; 2; 3]%nat in
  (q.[2], (q, n)).

(** ** CalibrationEngine *)

Definition kAlphaUp : float := f_lit 2 100.
Definition kAlphaDown : float := f_lit 5 10000.
Definition kVelocityGateSigmas : float := f_z 4.
Definition kWarmThreshold : Z := 200.
Definition kHoldCountMin : Z := 6.
Definition kHoldTimeMs : float := f_z 80.
Definition kFrameAgeMaxMs : float := f_z 33.
Definition kNormEps : float := f_lit 1 1000000.

(** Milliseconds from [a] to a later [b]. *)
Definition elapsed_ms (freq a b : Z) : float :=
  if (a <? b)%Z then f_z (b - a)%Z * f_z 1000 / f_z freq else fzero.

Definition gated (s : ShapeCalib) (raw : float) : bool :=
  SFabs (raw - ema_value s) >? kVelocityGateSigmas * f_sqrt (ema_var s + kNormEps).

Definition update_ema (s : ShapeCalib) (raw : float) : ShapeCalib :=
  let alpha_ema_var := f_lit 5 100 in
  let dev := raw - ema_value s in
  let s := s <| ema_value := ema_value s + kAlphaUp * dev |> in
  let dev2 := (raw - ema_value s) * (raw - ema_value s) in
  s <| ema_var := (f_one - alpha_ema_var) * ema_var s + alpha_ema_var * dev2 |>.

Definition update_envelope (freq : Z) (s : ShapeCalib) (raw : float) (now_qpc : Z) : ShapeCalib :=
  if raw >? ema_max s then
    let s := if (hold_count s =? 0)%Z then s <| hold_first_qpc := now_qpc |> else s in
    let s := s <| hold_count := u32 (hold_count s + 1) |> in
    if (kHoldCountMin <=? hold_count s)%Z && (elapsed_ms freq (hold_first_qpc s) now_qpc >=? kHoldTimeMs)
    then s <| ema_max := raw |> <| hold_count := 0%Z |> <| hold_first_qpc := 0%Z |>
    else s
  else
    let s := s <| hold_count := 0%Z |> <| hold_first_qpc := 0%Z |> in
    let s := s <| ema_min := if raw <? ema_min s then (f_one - kAlphaUp) * ema_min s + kAlphaUp * raw
                             else (f_one - kAlphaDown) * ema_min s + kAlphaDown * raw |> in
    s <| ema_max := (f_one - kAlphaDown) * ema_max s + kAlphaDown * raw |>.

Definition update_quantile (s : ShapeCalib) (raw : float) : ShapeCalib :=
  let '(e, (q, n)) := PsqStep (sc_q s) (sc_n s) (sc_dn s) raw in
  s <| p02 := e |> <| sc_q := q |> <| sc_n := n |>.

Definition UpdateShape (freq : Z) (s : ShapeCalib) (raw : float) (now_qpc : Z) : ShapeCalib :=
  if gated s raw then s else
  let s := update_quantile (update_envelope freq (update_ema s raw) raw now_qpc) raw in
  let s := s <| p98 := ema_max s |> <| samples := u32 (samples s + 1) |> in
  if negb (warm s) && (kWarmThreshold <=? samples s)%Z then s <| warm := true |> else s.

Definition NormalizeOne (s : ShapeCalib) (raw : float) : float :=
  let range := p98 s - p02 s in
  if range <? kNormEps then raw
  else std_max fzero (std_min f_one ((raw - p02 s) / range)).

Definition kIdxOpenL : nat := FACETRACKING_EXPRESSION_COUNT.
Definition kIdxOpenR : nat := S kIdxOpenL.
Definition kIdxPupilL : nat := S kIdxOpenR.
Definition kIdxPupilR : nat := S kIdxPupilL.
Definition kTotalShapes : nat := S kIdxPupilR.

(** The shapes by index: expressions, then openness and pupils. *)
Definition CalibrationEngine_new : list ShapeCalib := replicate kTotalShapes ShapeCalib_new.

Definition update_at (freq now : Z) (shapes : list ShapeCalib) (i : nat) (raw : float) : list ShapeCalib :=
  alter (fun s => UpdateShape freq s raw now) i shapes.

Definition s64 (z : Z) : Z := ((z + 2 ^ 63) mod 2 ^ 64 - 2 ^ 63)%Z.

(** [now]: signed, as the comparison with the sample's time is. *)
Definition frame_too_old (freq now : Z) (f : FaceTrackingFrameBody) : bool :=
  (if (s64 (qpc_sample_time f) <? now)%Z
   then f_z (u64 (now - qpc_sample_time f)) * f_z 1000 / f_z freq else fzero) >? kFrameAgeMaxMs.

Definition IngestFrame (freq now : Z) (f : FaceTrackingFrameBody) (shapes : list ShapeCalib) : list ShapeCalib :=
  if frame_too_old freq now f then shapes else
  let shapes :=
    if eye_valid f then
      let shapes := update_at freq now shapes kIdxOpenL (eye_openness_l f) in
      let shapes := update_at freq now shapes kIdxOpenR (eye_openness_r f) in
      let shapes := update_at freq now shapes kIdxPupilL (pupil_dilation_l f) in
      update_at freq now shapes kIdxPupilR (pupil_dilation_r f)
    else shapes in
  if expr_valid f then
    foldl (fun shapes i => update_at freq now shapes i (nth i (expressions f) fzero)) shapes
      (seq 0 FACETRACKING_EXPRESSION_COUNT)
  else shapes.

Definition normalize_at (shapes : list ShapeCalib) (i : nat) (raw : float) : float :=
  match shapes !! i with
  | Some s => if warm s then NormalizeOne s raw else raw
  | None => raw
  end.

Definition Normalize (shapes : list ShapeCalib) (f : FaceTrackingFrameBody) : FaceTrackingFrameBody :=
  let f := if eye_valid f then
    f <| eye_openness_l ::= normalize_at shapes kIdxOpenL |> <| eye_openness_r ::= normalize_at shapes kIdxOpenR |>
      <| pupil_dilation_l ::= normalize_at shapes kIdxPupilL |>
      <| pupil_dilation_r ::= normalize_at shapes kIdxPupilR |>
    else f in
  if expr_valid f then f <| expressions ::= imap (normalize_at shapes) |> else f.

Definition WarmShapeCount (shapes : list ShapeCalib) : nat := length (filter (fun s => warm s = true) shapes).

Definition IsShapeWarm (idx : Z) (shapes : list ShapeCalib) : bool :=
  if (idx <? 0)%Z || (Z.of_nat kTotalShapes <=? idx)%Z then false
  else match shapes !! Z.to_nat idx with Some s => warm s | None => false end.

Inductive FaceCalibrationOp :=
| FaceCalibBegin | FaceCalibEnd | FaceCalibSave | FaceCalibResetAll | FaceCalibResetEye | FaceCalibResetExpr
| FaceCalibOther.

Definition reset_at (shapes : list ShapeCalib) (i : nat) : list ShapeCalib := alter (fun _ => ShapeCalib_new) i shapes.

(** The shapes, and what happens to the profile file. *)
Inductive file_effect := FileKept | FileDeleted | FileSaved.

Definition Reset (op : FaceCalibrationOp) (shapes : list ShapeCalib) : list ShapeCalib * file_effect :=
  match op with
  | FaceCalibResetAll => (map (fun _ => ShapeCalib_new) shapes, FileDeleted)
  | FaceCalibResetEye => (foldl reset_at shapes [kIdxOpenL; kIdxOpenR; kIdxPupilL; kIdxPupilR], FileKept)
  | FaceCalibResetExpr => (foldl reset_at shapes (seq 0 FACETRACKING_EXPRESSION_COUNT), FileKept)
  | FaceCalibSave => (shapes, FileSaved)
  | _ => (shapes, FileKept)
  end.

(** ** Runs of one shape *)

(** Samples with the counter at their arrival. *)
Definition calib_run (freq : Z) (s : ShapeCalib) (xs : list (float * Z)) : ShapeCalib :=
  foldl (fun s x => UpdateShape freq s x.1 x.2) s xs.

(** Those the gate let through. *)
Fixpoint accepted (freq : Z) (s : ShapeCalib) (xs : list (float * Z)) : list (float * Z) :=
  match xs with
  | [] => []
  | x :: xs =>
    (if gated s x.1 then [] else [x]) ++ accepted freq (UpdateShape freq s x.1 x.2) xs
  end.

Lemma accepted_snoc freq s xs x :
  accepted freq s (xs ++ [x]) =
  accepted freq s xs ++ (if gated (calib_run freq s xs) x.1 then [] else [x]).
Proof.
  revert s. induction xs as [|y xs IH]; intros s; cbn [app accepted calib_run foldl]; [by rewrite app_nil_r|].
  rewrite IH. by rewrite app_assoc.
Qed.

Lemma calib_run_snoc freq s xs x :
  calib_run freq s (xs ++ [x]) = UpdateShape freq (calib_run freq s xs) x.1 x.2.
Proof. unfold calib_run. by rewrite foldl_snoc. Qed.

(** What one accepted sample does to each part. *)
Lemma update_shape_fields freq s raw now :
  gated s raw = false ->
  let s' := UpdateShape freq s raw now in
  let e := update_envelope freq (update_ema s raw) raw now in
  ema_value s' = ema_value s + kAlphaUp * (raw - ema_value s) /\
  ema_max s' = ema_max e /\ ema_min s' = ema_min e /\ p98 s' = ema_max e /\
  hold_count s' = hold_count e /\ hold_first_qpc s' = hold_first_qpc e /\
  samples s' = u32 (samples s + 1) /\
  warm s' = (warm s || (kWarmThreshold <=? u32 (samples s + 1))%Z) /\
  (p02 s', (sc_q s', sc_n s')) = PsqStep (sc_q s) (sc_n s) (sc_dn s) raw /\ sc_dn s' = sc_dn s.
Proof.
  intros Hg. unfold UpdateShape. rewrite Hg. set (e := update_envelope _ _ _ _).
  assert (sc_q e = sc_q s /\ sc_n e = sc_n s /\ sc_dn e = sc_dn s /\ samples e = samples s /\ warm e = warm s /\
    ema_value e = ema_value s + kAlphaUp * (raw - ema_value s)) as (E1 & E2 & E3 & E4 & E5 & E6).
  { unfold e, update_envelope. repeat case_match; by destruct s. }
  unfold update_quantile. rewrite E1, E2, E3.
  destruct (PsqStep (sc_q s) (sc_n s) (sc_dn s) raw) as [p [q n]].
  set (s2 := (e <| p02 := p |> <| sc_q := q |> <| sc_n := n |>) <| p98 := _ |> <| samples := _ |>).
  assert (samples s2 = u32 (samples s + 1) /\ warm s2 = warm s) as [S1 S2]
    by (rewrite <-E4, <-E5; by destruct e).
  rewrite S1, S2. cbv zeta. destruct (warm s) eqn:Ew; cbn [negb andb orb]; [|case_match]; unfold s2; cbn;
    by rewrite ?E3, ?E4, ?E5, ?E6.
Qed.

Lemma update_shape_gated freq s raw now : gated s raw = true -> UpdateShape freq s raw now = s.
Proof. unfold UpdateShape. by intros ->. Qed.

(** ** Warm-up *)

Lemma run_samples freq xs :
  let s := calib_run freq ShapeCalib_new xs in
  let k := Z.of_nat (length (accepted freq ShapeCalib_new xs)) in
  (k < 2 ^ 32)%Z -> samples s = k /\ warm s = (kWarmThreshold <=? k)%Z.
Proof.
  cbv zeta. induction xs as [|x xs IH] using rev_ind; [done|].
  rewrite accepted_snoc, calib_run_snoc, length_app. intros Hk.
  destruct IH as [Hs Hw]; [lia|]. set (s := calib_run freq ShapeCalib_new xs) in *.
  destruct (gated s x.1) eqn:Hg.
  - rewrite update_shape_gated by done. cbn [length]. by rewrite Nat.add_0_r.
  - destruct (update_shape_fields freq s x.1 x.2 Hg) as (_ & _ & _ & _ & _ & _ & -> & -> & _).
    cbn [length] in *. rewrite Hs, Hw.
    assert (u32 (Z.of_nat (length (accepted freq ShapeCalib_new xs)) + 1) =
      Z.of_nat (length (accepted freq ShapeCalib_new xs) + 1)) as -> by (unfold u32; rewrite Z.mod_small; lia).
    split; [done|]. unfold kWarmThreshold in *. destruct (Z.leb_spec 200 (Z.of_nat (length (accepted freq ShapeCalib_new xs)))); [|done].
    cbn [orb]. symmetry. apply Z.leb_le. lia.
Qed.

(** ** The quantile's markers *)

(** The desired positions of a new shape, which no operation changes. *)
Definition dn0 : list float := sc_dn ShapeCalib_new.

Definition pinned (m : float) : list float := [f_z 1; f_z 2; f_z 3; f_z 4; m].

(** A marker in its place stays, one pushed out of it comes back. *)
Lemma adjust_stay q n i :
  ((dn0.[i] - n.[i] >=? f_one) && (n.[S i] - n.[i] >? f_one)) ||
  ((dn0.[i] - n.[i] <=? SFopp f_one) && (n.[pred i] - n.[i] <? SFopp f_one)) = false ->
  psq_adjust dn0 (q, n) i = (q, n).
Proof. unfold psq_adjust. by intros ->. Qed.

Lemma adjust_back q n i :
  ((dn0.[i] - n.[i] >=? f_one) && (n.[S i] - n.[i] >? f_one)) ||
  ((dn0.[i] - n.[i] <=? SFopp f_one) && (n.[pred i] - n.[i] <? SFopp f_one)) = true ->
  (dn0.[i] - n.[i] >? fzero) = false ->
  exists v, psq_adjust dn0 (q, n) i = (<[i := v]> q, <[i := n.[i] + SFopp f_one]> n).
Proof. unfold psq_adjust. intros -> ->. case_match; by eexists. Qed.

Ltac marker :=
  match goal with |- context [psq_adjust dn0 (?q, ?n) ?i] =>
    first [ rewrite (adjust_stay q n i) by (lazy; reflexivity)
          | let v := fresh "v" in let E := fresh "E" in
            destruct (adjust_back q n i ltac:(lazy; reflexivity) ltac:(lazy; reflexivity)) as [v E];
            rewrite E; clear E ]
  end.

(** An observation in cell [k] brings every count above it back, so that only
    the markers above [k], inner ones, are rewritten. *)
Lemma psq_adjust_cell q m k :
  (k < 4)%nat ->
  exists q', foldl (psq_adjust dn0) (q, psq_count k (pinned m)) [1; 2; 3]%nat = (q', pinned (m + f_one)) /\
    forall i, (i <= k \/ 3 < i)%nat -> q' !! i = q !! i.
Proof.
  intros Hk. cbn [foldl].
  assert (forall n : list float, n = pinned (m + f_one) -> forall q' : list float, (q', n) = (q', pinned (m + f_one))) as Hn
    by (by intros ? ->).
  destruct k as [|[|[|[|k]]]]; [..|lia]; repeat marker;
    (eexists; split; [apply Hn; cbn -[f_add f_z f_one SFopp];
       do 4 (apply (f_equal2 cons); [vm_compute; reflexivity|]); reflexivity|]);
    intros i Hi; by rewrite ?list_lookup_insert_ne by lia.
Qed.

Lemma psq_cell_lt q xn : ((psq_cell q xn).2 < 4)%nat.
Proof. unfold psq_cell. repeat case_match; cbn; lia. Qed.

Lemma psq_step_pinned q m xn :
  exists q', PsqStep q (pinned m) dn0 xn = (q'.[2], (q', pinned (m + f_one))) /\
    ((xn <? q.[0]) = false -> (xn <? q.[1]) = false -> (xn <? q.[2]) = false ->
     forall i, (i <= 2)%nat -> q' !! i = q !! i).
Proof.
  unfold PsqStep. pose proof (psq_cell_lt q xn) as Hk. destruct (psq_cell q xn) as [q1 k] eqn:Ec. cbn [snd] in Hk.
  destruct (psq_adjust_cell q1 m k Hk) as (q' & -> & Hq'). exists q'. split; [done|].
  intros H0 H1 H2 i Hi. unfold psq_cell in Ec. rewrite H0, H1, H2 in Ec.
  assert ((2 <= k)%nat /\ q1 !! i = q !! i) as [Hk2 Hq1].
  { destruct (xn <? q.[3]); [|destruct (xn <=? q.[4])]; injection Ec as <- <-; (split; [lia|]); try done.
    rewrite list_lookup_insert_ne by lia. done. }
  rewrite Hq' by lia. done.
Qed.

Lemma run_pinned freq xs :
  let s := calib_run freq ShapeCalib_new xs in
  sc_dn s = dn0 /\ (exists m, sc_n s = pinned m) /\
  (Forall (fun x => flt x.1 (f_lit 2 100) = false) xs ->
   take 3 (sc_q s) = take 3 (sc_q ShapeCalib_new) /\
   p02 s = match accepted freq ShapeCalib_new xs with [] => fzero | _ => f_lit 2 100 end).
Proof.
  cbv zeta. induction xs as [|x xs IH] using rev_ind.
  { split_and!; [done|by exists (f_z 5)|done]. }
  rewrite calib_run_snoc, accepted_snoc. set (s := calib_run freq ShapeCalib_new xs) in *.
  destruct IH as (Hdn & [m Hn] & Hq). destruct (gated s x.1) eqn:Hg.
  { rewrite update_shape_gated by done. split_and!; [done|by exists m|].
    intros [Hx _]%Forall_app. rewrite app_nil_r. by apply Hq. }
  destruct (update_shape_fields freq s x.1 x.2 Hg) as (_ & _ & _ & _ & _ & _ & _ & _ & Hp & Hd).
  rewrite Hn, Hdn in Hp. destruct (psq_step_pinned (sc_q s) m x.1) as (q' & Hs & Hq').
  rewrite Hs in Hp. injection Hp as Hp1 Hp2 Hp3. split_and!; [congruence|by eexists|].
  intros [Hxs Hx]%Forall_app. apply list.Forall_cons in Hx as [Hx _]. destruct (Hq Hxs) as [Ht _].
  assert (forall i, (i <= 2)%nat -> sc_q s !! i = sc_q ShapeCalib_new !! i) as Hi.
  { intros i Hi. rewrite <-(lookup_take_lt (sc_q s) 3), Ht by lia. by apply lookup_take_lt; lia. }
  assert (forall i v, (i <= 2)%nat -> sc_q ShapeCalib_new !! i = Some v -> (sc_q s).[i] = v) as Hv.
  { intros i v Hi2 Hv. apply nth_lookup_Some. by rewrite Hi. }
  assert (forall y, fle y (f_lit 2 100) = true -> flt x.1 y = false) as Hlow.
  { intros y Hy. destruct (flt x.1 y) eqn:E; [|done]. by rewrite (flt_fle_trans _ _ _ E Hy) in Hx. }
  assert (forall i, (i <= 2)%nat -> q' !! i = sc_q ShapeCalib_new !! i) as Hq2.
  { intros i Hi2. rewrite Hq', Hi; try done;
      (erewrite Hv by (reflexivity || lia); apply Hlow; by vm_compute). }
  split.
  - rewrite Hp2. apply list_eq. intros i. destruct (decide (i < 3)%nat).
    + rewrite !lookup_take_lt by done. apply Hq2. lia.
    + by rewrite !lookup_take_ge by lia.
  - rewrite Hp1. assert (q'.[2] = f_lit 2 100) as -> by (apply nth_lookup_Some; by rewrite Hq2).
    by destruct (accepted freq ShapeCalib_new xs).
Qed.

(** ** The hold gate *)

Lemma update_ema_keeps s raw :
  ema_max (update_ema s raw) = ema_max s /\ hold_count (update_ema s raw) = hold_count s /\
  hold_first_qpc (update_ema s raw) = hold_first_qpc s.
Proof. by destruct s. Qed.

(** [l]: the accepted samples that hold the current peak. *)
Record holding (freq : Z) (xs l : list (float * Z)) (s : ShapeCalib) : Prop := {
  ho_suffix : l `suffix_of` accepted freq ShapeCalib_new xs;
  ho_count : hold_count s = Z.of_nat (length l);
  ho_above : Forall (fun x => (x.1 >? ema_max s) = true) l;
  ho_first : forall x, head l = Some x -> hold_first_qpc s = x.2 }.

Definition held (freq : Z) (l : list (float * Z)) (now : Z) : bool :=
  match l with
  | [] => false
  | x :: _ => (6 <=? Z.of_nat (length l))%Z && (elapsed_ms freq x.2 now >=? kHoldTimeMs)
  end.

Lemma envelope_above freq s raw now l :
  hold_count s = Z.of_nat (length l) -> (forall x, head l = Some x -> hold_first_qpc s = x.2) ->
  (Z.of_nat (length l) + 1 < 2 ^ 32)%Z -> (raw >? ema_max s) = true ->
  let e := update_envelope freq s raw now in
  let l' := l ++ [(raw, now)] in
  if held freq l' now then ema_max e = raw /\ hold_count e = 0%Z
  else ema_max e = ema_max s /\ hold_count e = Z.of_nat (length l') /\
    forall x, head l' = Some x -> hold_first_qpc e = x.2.
Proof.
  intros Hc Hf Hlt Hr. unfold update_envelope. rewrite Hr.
  set (s1 := if (hold_count s =? 0)%Z then _ else s).
  assert (hold_count s1 = hold_count s /\ ema_max s1 = ema_max s /\
    forall x, head (l ++ [(raw, now)]) = Some x -> hold_first_qpc s1 = x.2) as (E1 & E2 & E3).
  { unfold s1. rewrite Hc. destruct l as [|y l]; cbn; [by split_and!; [..|intros ? [= <-]]|].
    split_and!; [done|done|]. intros x [= <-]. by apply Hf. }
  clearbody s1. cbv zeta. unfold held. destruct (l ++ [(raw, now)]) as [|y l'] eqn:El; [by destruct l|].
  assert (u32 (hold_count s + 1) = Z.of_nat (length (y :: l'))) as Hu.
  { rewrite <-El, length_app, Hc. cbn [length]. unfold u32. rewrite Z.mod_small; lia. }
  set (k := Z.of_nat (length (y :: l'))) in *. cbn. rewrite E1, (E3 y eq_refl). unfold kHoldCountMin. rewrite Hu.
  destruct ((6 <=? k)%Z && _) eqn:Eh; cbn; [done|].
  rewrite E2. split_and!; [done..|]. by intros x [= <-].
Qed.

Lemma accepted_length freq s xs : (length (accepted freq s xs) <= length xs)%nat.
Proof.
  revert s. induction xs as [|y xs IH]; intros s; [done|]. cbn [accepted]. rewrite length_app.
  specialize (IH (UpdateShape freq s y.1 y.2)). cbn [length]. case_match; cbn [length]; lia.
Qed.

Lemma suffix_snoc {A} (l k : list A) x : l `suffix_of` k -> l ++ [x] `suffix_of` k ++ [x].
Proof. intros [j ->]. exists j. by rewrite app_assoc. Qed.

Lemma run_holding freq xs :
  (Z.of_nat (length xs) < 2 ^ 32 - 1)%Z -> exists l, holding freq xs l (calib_run freq ShapeCalib_new xs).
Proof.
  induction xs as [|x xs IH] using rev_ind; intros Hlen.
  { exists []. constructor; [by exists []|done|constructor|done]. }
  rewrite length_app in Hlen. cbn [length] in Hlen. destruct IH as [l Hl]; [lia|].
  rewrite calib_run_snoc. set (s := calib_run freq ShapeCalib_new xs) in *. destruct Hl as [Hs Hc Ha Hf].
  pose proof (suffix_length _ _ Hs) as Hll.
  pose proof (accepted_length freq ShapeCalib_new xs) as Hacc.
  destruct (gated s x.1) eqn:Hg.
  { exists l. rewrite update_shape_gated by done. constructor; try done.
    rewrite accepted_snoc. fold s. by rewrite Hg, app_nil_r. }
  destruct (update_shape_fields freq s x.1 x.2 Hg) as (_ & Hm & _ & _ & Hh & Hh1 & _).
  destruct (update_ema_keeps s x.1) as (U1 & U2 & U3).
  destruct (x.1 >? ema_max s) eqn:Hr.
  - pose proof (envelope_above freq (update_ema s x.1) x.1 x.2 l) as He. rewrite U1, U2, U3 in He.
    specialize (He Hc Hf ltac:(lia) Hr). cbv zeta in He. destruct (held freq (l ++ [(x.1, x.2)]) x.2).
    + exists []. destruct He as [H1 H2]. constructor; [apply suffix_nil|by rewrite Hh|constructor|done].
    + exists (l ++ [x]). destruct x as [raw now]. cbn [fst snd] in *. destruct He as (H1 & H2 & H3).
      constructor; [|by rewrite Hh| |by rewrite Hh1].
      * rewrite accepted_snoc. fold s. cbn [fst]. rewrite Hg. by apply suffix_snoc.
      * rewrite Hm, H1. apply Forall_app. split; [done|]. by repeat constructor.
  - exists []. constructor; [apply suffix_nil| |constructor|done].
    rewrite Hh. unfold update_envelope. rewrite U1, Hr. done.
Qed.

(** The top of the envelope takes an accepted sample above it only as the
    sixth or later of accepted samples in a row all above it, at least eighty
    milliseconds after the first of them; otherwise a sample above leaves it
    alone, and one that is not above draws it down by one part in two thousand. *)
Theorem hold_time_gate freq xs raw now
  (Hlen : (Z.of_nat (length xs) < 2 ^ 32 - 1)%Z) :
  let s := calib_run freq ShapeCalib_new xs in
  gated s raw = false ->
  let s' := UpdateShape freq s raw now in
  if raw >? ema_max s then
    exists l, l ++ [(raw, now)] `suffix_of` accepted freq ShapeCalib_new (xs ++ [(raw, now)]) /\
      Forall (fun x => (x.1 >? ema_max s) = true) (l ++ [(raw, now)]) /\
      ema_max s' = if held freq (l ++ [(raw, now)]) now then raw else ema_max s
  else ema_max s' = (f_one - kAlphaDown) * ema_max s + kAlphaDown * raw.
Proof.
  intros s Hg s'. destruct (run_holding freq xs Hlen) as [l [Hs Hc Ha Hf]]. fold s in Hc, Ha, Hf.
  destruct (update_shape_fields freq s raw now Hg) as (_ & Hm & _). fold s' in Hm.
  destruct (update_ema_keeps s raw) as (U1 & U2 & U3). destruct (raw >? ema_max s) eqn:Hr.
  - exists l. split; [|split].
    + rewrite accepted_snoc. fold s. cbn [fst]. rewrite Hg. by apply suffix_snoc.
    + apply Forall_app. split; [done|]. by repeat constructor.
    + pose proof (envelope_above freq (update_ema s raw) raw now l) as He. rewrite U1, U2, U3 in He.
      pose proof (suffix_length _ _ Hs) as Hll.
      pose proof (accepted_length freq ShapeCalib_new xs) as Hacc.
      specialize (He Hc Hf ltac:(lia) Hr). cbv zeta in He. rewrite Hm.
      destruct (held freq (l ++ [(raw, now)]) now); by destruct He.
  - rewrite Hm. unfold update_envelope. rewrite U1, Hr. by destruct s.
Qed.

(** The low end of a shape's range is no percentile: the marker positions
    are compared with the desired increments instead of desired positions, so
    the four lower markers stand at counts 1 to 4 for ever, and as long as no
    sample is below its seed 0.02 the estimate is that seed from the first
    accepted sample on, however many samples lie above it and however far. *)
Theorem low_end_pinned freq xs :
  let s := calib_run freq ShapeCalib_new xs in
  (exists m, sc_n s = [f_z 1; f_z 2; f_z 3; f_z 4; m]) /\
  (Forall (fun x => flt x.1 (f_lit 2 100) = false) xs ->
   p02 s = if (length (accepted freq ShapeCalib_new xs) =? 0)%nat then fzero else f_lit 2 100).
Proof.
  destruct (run_pinned freq xs) as (_ & Hn & Hp). split; [exact Hn|]. intros Hx.
  destruct (Hp Hx) as [_ ->]. by destruct (accepted freq ShapeCalib_new xs).
Qed.

(** A shape is warm exactly from its two hundredth accepted sample on. *)
Theorem warmup_exact freq xs :
  let s := calib_run freq ShapeCalib_new xs in
  let k := Z.of_nat (length (accepted freq ShapeCalib_new xs)) in
  (k < 2 ^ 32)%Z -> samples s = k /\ warm s = (200 <=? k)%Z.
Proof. intros s k Hk. by apply run_samples. Qed.

(** ** Something that is not a number *)

Record poisoned (s : ShapeCalib) : Prop := {
  po_value : is_nan (ema_value s) = true; po_max : is_nan (ema_max s) = true; po_p98 : is_nan (p98 s) = true }.

Lemma gated_nan s raw : is_nan (raw - ema_value s) = true -> gated s raw = false.
Proof. unfold gated, fgt. intros Hn. apply flt_nan_r. by destruct (raw - ema_value s). Qed.

Lemma update_poisoned freq s raw now :
  (is_nan raw = true \/ poisoned s) -> poisoned (UpdateShape freq s raw now).
Proof.
  intros Hn.
  assert (gated s raw = false) as Hg.
  { apply gated_nan. destruct Hn as [Hn|Hn]; [by apply f_nan_l|by apply f_nan_r, Hn]. }
  destruct (update_shape_fields freq s raw now Hg) as (Hv & Hm & _ & Hp & _).
  destruct (update_ema_keeps s raw) as (U1 & _ & _).
  assert (is_nan (ema_max (update_envelope freq (update_ema s raw) raw now)) = true) as He.
  { unfold update_envelope. rewrite U1.
    assert ((raw >? ema_max s) = false) as ->.
    { unfold fgt. destruct Hn as [Hn|Hn]; [by apply flt_nan_r|by apply flt_nan_l, Hn]. }
    destruct Hn as [Hn|Hn]; cbn -[f_add f_mul f_sub].
    - exact (proj1 (f_nan_r _ _ (proj1 (proj2 (proj2 (f_nan_r _ _ Hn)))))).
    - exact (proj1 (f_nan_l _ _ (proj1 (proj2 (proj2 (f_nan_r _ _ (po_max _ Hn))))))). }
  split; [|congruence|congruence]. rewrite Hv. destruct Hn as [Hn|Hn].
  - apply f_nan_r, f_nan_r. by apply f_nan_l.
  - apply f_nan_l, Hn.
Qed.

Lemma NormalizeOne_poisoned s raw : poisoned s -> NormalizeOne s raw = f_one.
Proof.
  intros [_ _ Hp]. unfold NormalizeOne. set (range := p98 s - p02 s).
  assert (is_nan range = true) as Hr by (by apply f_nan_l). rewrite (flt_nan_l _ _ Hr).
  assert (is_nan ((raw - p02 s) / range) = true) as Hd by (by apply f_nan_r).
  unfold std_min. by rewrite (flt_nan_l _ _ Hd).
Qed.

(** One sample that is not a number passes the velocity gate of any shape,
    and from then on, whatever the later samples, the shape normalises every
    value to one, until it is reset. *)
Theorem nan_sample_saturates freq s raw now xs v :
  is_nan raw = true -> NormalizeOne (calib_run freq (UpdateShape freq s raw now) xs) v = f_one.
Proof.
  intros Hn. apply NormalizeOne_poisoned. induction xs as [|x xs IH] using rev_ind.
  - apply update_poisoned. by left.
  - rewrite calib_run_snoc. apply update_poisoned. by right.
Qed.

(** ** Normalisation *)

Definition unit_range (v : float) : Prop := fle fzero v = true /\ fle v f_one = true.

Lemma NormalizeOne_unit s raw :
  unit_range (NormalizeOne s raw) \/ (p98 s - p02 s <? kNormEps) = true /\ NormalizeOne s raw = raw.
Proof.
  unfold NormalizeOne. cbv zeta. destruct (p98 s - p02 s <? kNormEps); [by right|left].
  apply (max_min_bounds ((raw - p02 s) / (p98 s - p02 s)) fzero f_one). by vm_compute.
Qed.

Lemma normalize_at_unit shapes i raw : unit_range raw -> unit_range (normalize_at shapes i raw).
Proof.
  intros Hr. unfold normalize_at. destruct (shapes !! i) as [s|]; [|done]. destruct (warm s); [|done].
  by destruct (NormalizeOne_unit s raw) as [|[_ ->]].
Qed.

Lemma Normalize_expressions shapes (f : FaceTrackingFrameBody) :
  expressions (Normalize shapes f) =
    if expr_valid f then imap (normalize_at shapes) (expressions f) else expressions f.
Proof.
  unfold Normalize. set (f1 := if eye_valid f then _ else f).
  assert (expressions f1 = expressions f /\ expr_valid f1 = expr_valid f) as [E1 E2]
    by (unfold f1; by destruct (eye_valid f), f).
  cbv zeta. rewrite E2, <-E1. destruct (expr_valid f); [by destruct f1|done].
Qed.

Lemma Normalize_unit shapes (f : FaceTrackingFrameBody) :
  Forall unit_range (expressions f) -> Forall unit_range (expressions (Normalize shapes f)).
Proof.
  rewrite Normalize_expressions. intros Hu. destruct (expr_valid f); [|done]. apply Forall_lookup. intros i v.
  rewrite list_lookup_imap. intros (w & Hw & ->)%fmap_Some. apply normalize_at_unit. by eapply Forall_lookup_1.
Qed.

(** Normalisation keeps values in [0, 1] there whatever the shapes have
    learned, brings every other value, not a number included, into [0, 1] when
    its shape is warm and not degenerate, passes the values of cold shapes
    through, and touches no field but the openness, pupils and expressions that
    the flags declare valid. *)
Theorem normalize_frame shapes (f : FaceTrackingFrameBody) :
  let f' := Normalize shapes f in
  f' = (f <| eye_openness_l := eye_openness_l f' |> <| eye_openness_r := eye_openness_r f' |>
          <| pupil_dilation_l := pupil_dilation_l f' |> <| pupil_dilation_r := pupil_dilation_r f' |>
          <| expressions := expressions f' |>) /\
  (let eye i v := if eye_valid f then normalize_at shapes i v else v in
   eye_openness_l f' = eye kIdxOpenL (eye_openness_l f) /\ eye_openness_r f' = eye kIdxOpenR (eye_openness_r f) /\
   pupil_dilation_l f' = eye kIdxPupilL (pupil_dilation_l f) /\
   pupil_dilation_r f' = eye kIdxPupilR (pupil_dilation_r f)) /\
  (expr_valid f = false -> expressions f' = expressions f) /\
  length (expressions f') = length (expressions f) /\
  (Forall unit_range (expressions f) -> Forall unit_range (expressions f')) /\
  (forall i v s, expressions f !! i = Some v -> shapes !! i = Some s -> expr_valid f = true ->
     expressions f' !! i = Some (if warm s then NormalizeOne s v else v) /\
     (warm s = true -> (p98 s - p02 s <? kNormEps) = false -> unit_range (NormalizeOne s v))).
Proof.
  intros f'. pose proof (Normalize_expressions shapes f) as Ex. fold f' in Ex.
  set (f1 := if eye_valid f then
    f <| eye_openness_l ::= normalize_at shapes kIdxOpenL |> <| eye_openness_r ::= normalize_at shapes kIdxOpenR |>
      <| pupil_dilation_l ::= normalize_at shapes kIdxPupilL |>
      <| pupil_dilation_r ::= normalize_at shapes kIdxPupilR |>
    else f).
  assert (f' = if expr_valid f then f1 <| expressions ::= imap (normalize_at shapes) |> else f1) as Ef.
  { change f' with (if expr_valid f1 then f1 <| expressions ::= imap (normalize_at shapes) |> else f1).
    assert (expr_valid f1 = expr_valid f) as -> by (unfold f1; by destruct (eye_valid f), f). done. }
  split; [|split; [|split_and!]].
  - assert (exists a b c d e, f' = (f <| eye_openness_l := a |> <| eye_openness_r := b |> <| pupil_dilation_l := c |>
      <| pupil_dilation_r := d |> <| expressions := e |>)) as (a & b & c & d & e & ->).
    { rewrite Ef. clear. unfold f1. generalize (normalize_at shapes) (expr_valid f) (eye_valid f). intros g bx be.
      destruct f, bx, be; cbv -[imap]; do 5 eexists; reflexivity. }
    by destruct f.
  - cbv zeta. rewrite Ef. unfold f1. generalize (normalize_at shapes). intros g.
    clear. generalize (expr_valid f) as bx, (eye_valid f) as be. intros bx be. by destruct bx, be; split_and!.
  - intros He. by rewrite Ex, He.
  - rewrite Ex. destruct (expr_valid f); [by rewrite length_imap|done].
  - apply Normalize_unit.
  - intros i v s Hv Hs He. rewrite Ex, He, list_lookup_imap, Hv. cbn. unfold normalize_at. rewrite Hs.
    split; [done|]. intros _ Hd. destruct (NormalizeOne_unit s v) as [|[Hd' _]]; [done|congruence].
Qed.

(** ** Witnesses *)

Definition sample_freq : Z := 10000000.
(** Samples of 1.2, twenty milliseconds apart. *)
Definition held_samples (n : nat) : list (float * Z) := map (fun i => (f_lit 12 10, 200000 * Z.of_nat (S i))%Z) (seq 0 n).

Lemma hold_time_gate_witness :
  let s := calib_run sample_freq ShapeCalib_new (held_samples 5) in
  ema_max s = f_one /\ ema_max (UpdateShape sample_freq s (f_lit 12 10) 1200000) = f_lit 12 10.
Proof.
  intros s. assert (ema_max s = f_one) as Hm by (vm_compute; reflexivity). split; [done|].
  pose proof (hold_time_gate sample_freq (held_samples 5) (f_lit 12 10) 1200000 ltac:(vm_compute; reflexivity)
    ltac:(vm_compute; reflexivity)) as Hp. fold s in Hp.
  assert ((f_lit 12 10 >? ema_max s) = true) as Hr by (rewrite Hm; vm_compute; reflexivity). rewrite Hr in Hp.
  destruct Hp as (l & _ & _ & Hp).
  assert (ema_max (UpdateShape sample_freq s (f_lit 12 10) 1200000) <> ema_max s) as Hne by (vm_compute; done).
  destruct (held sample_freq (l ++ [(f_lit 12 10, 1200000%Z)]) 1200000); [exact Hp|by destruct Hne].
Defined.

Lemma nan_sample_saturates_witness :
  NormalizeOne (calib_run sample_freq (UpdateShape sample_freq ShapeCalib_new S754_nan 0) (held_samples 20)) fzero = f_one.
Proof. exact (nan_sample_saturates sample_freq ShapeCalib_new S754_nan 0 (held_samples 20) fzero eq_refl). Defined.

Lemma warmup_exact_witness :
  warm (calib_run sample_freq ShapeCalib_new (held_samples 3)) = false.
Proof.
  destruct (warmup_exact sample_freq (held_samples 3) ltac:(vm_compute; reflexivity)) as [_ ->].
  vm_compute. reflexivity.
Defined.
