(* ===== verification/FaceFilters.v ===== *)
(** * The filters of a face frame (modules/facetracking/src/driver)

    Eyelid synchronisation with its wink timer (EyelidSync.cpp), the vergence
    lock of the two gaze rays (VergenceLock.cpp), and the SteamVR device that
    turns a frame into a pose and four scalars (FaceTrackingDevice.cpp). *)

From S2P Require Import Prelude Floats FaceFrame FaceCalib.
Open Scope f32_scope.

(** ** EyelidSync.cpp *)

Definition kWinkThreshold : float := f_lit 45 100.
Definition kWinkConfMin : float := f_lit 6 10.
Definition kWinkDwellMs : float := f_z 120.
Definition kSmoothAlpha : float := f_lit 1 10.

Record EyelidSync := mkEyelid {
  wink_start_qpc_ : Z; wink_stable_ : bool; smooth_l_ : float; smooth_r_ : float; smooth_init_ : bool }.

#[export] Instance eyelid_settable : Settable EyelidSync := fun s =>
  mkEyelid (wink_start_qpc_ s) (wink_stable_ s) (smooth_l_ s) (smooth_r_ s) (smooth_init_ s).

Definition EyelidSync_new : EyelidSync := mkEyelid 0 false (f_lit 5 10) (f_lit 5 10) false.

Definition asymmetric (f : FaceTrackingFrameBody) : bool :=
  (SFabs (eye_openness_l f - eye_openness_r f) >? kWinkThreshold) &&
  (eye_confidence_l f >? kWinkConfMin) && (eye_confidence_r f >? kWinkConfMin).

(** The subtraction of two ticks is unsigned. *)
Definition dwell_ms (freq start now : Z) : float := f_z (u64 (now - start)) * f_z 1000 / f_z freq.

(** The timer, and whether the frame is an intentional wink. *)
Definition wink_timer (freq now : Z) (f : FaceTrackingFrameBody) (s : EyelidSync) : bool * EyelidSync :=
  if asymmetric f then
    let s :=
      if (wink_start_qpc_ s =? 0)%Z then s <| wink_start_qpc_ := now |> <| wink_stable_ := false |>
      else if negb (wink_stable_ s) then
        if dwell_ms freq (wink_start_qpc_ s) now >=? kWinkDwellMs then s <| wink_stable_ := true |> else s
      else s in
    (wink_stable_ s, s)
  else (false, s <| wink_start_qpc_ := 0%Z |> <| wink_stable_ := false |>).

Definition EyelidSync_Apply (freq now : Z) (strength : Z) (preserve_winks : bool) (f : FaceTrackingFrameBody)
    (s : EyelidSync) : FaceTrackingFrameBody * EyelidSync :=
  if negb (eye_valid f) then (f, s) else
  if (strength =? 0)%Z then (f, s) else
  let lid_L := eye_openness_l f in
  let lid_R := eye_openness_r f in
  let c_L := eye_confidence_l f in
  let c_R := eye_confidence_r f in
  let s := if negb (smooth_init_ s)
           then s <| smooth_l_ := lid_L |> <| smooth_r_ := lid_R |> <| smooth_init_ := true |> else s in
  let '(intentional_wink, s) := if preserve_winks then wink_timer freq now f s else (false, s) in
  if intentional_wink then
    (f, s <| smooth_l_ := smooth_l_ s + kSmoothAlpha * (lid_L - smooth_l_ s) |>
          <| smooth_r_ := smooth_r_ s + kSmoothAlpha * (lid_R - smooth_r_ s) |>)
  else
    let denom := c_L + c_R + f_lit 1 1000000 in
    let target := (c_L * lid_L + c_R * lid_R) / denom in
    let k := f_z strength / f_z 100 in
    let blended_L := lid_L + k * (target - lid_L) in
    let blended_R := lid_R + k * (target - lid_R) in
    let s := s <| smooth_l_ := smooth_l_ s + kSmoothAlpha * (blended_L - smooth_l_ s) |>
               <| smooth_r_ := smooth_r_ s + kSmoothAlpha * (blended_R - smooth_r_ s) |> in
    (f <| eye_openness_l := std_max fzero (std_min f_one (smooth_l_ s)) |>
       <| eye_openness_r := std_max fzero (std_min f_one (smooth_r_ s)) |>, s).

(** ** VergenceLock.cpp *)

Definition Dot (a b : float3) : float :=
  let '(ax, ay, az) := a in let '(bx, by_, bz) := b in ax * bx + ay * by_ + az * bz.
Definition Sub (a b : float3) : float3 :=
  let '(ax, ay, az) := a in let '(bx, by_, bz) := b in (ax - bx, ay - by_, az - bz).
Definition Add (a b : float3) : float3 :=
  let '(ax, ay, az) := a in let '(bx, by_, bz) := b in (ax + bx, ay + by_, az + bz).
Definition Scale (a : float3) (s : float) : float3 := let '(ax, ay, az) := a in (ax * s, ay * s, az * s).

Definition Normalize3 (v : float3) : float3 :=
  let len := f_sqrt (Dot v v) in
  if len <? f_lit 1 1000000000 then v else Scale v (f_one / len).

Definition Lerp (a b : float3) (t : float) : float3 :=
  let '(ax, ay, az) := a in let '(bx, by_, bz) := b in
  (ax + t * (bx - ax), ay + t * (by_ - ay), az + t * (bz - az)).

Definition Length (v : float3) : float := f_sqrt (Dot v v).

Record VergenceLock := mkVergence { last_focus_m_ : float; last_ipd_m_ : float }.

Definition VergenceLock_new : VergenceLock := mkVergence fzero fzero.

(** The parameters along the two rays, unless they are nearly parallel. *)
Definition skew_params (o_L o_R d_L d_R : float3) : option (float * float) :=
  let r := Sub o_L o_R in
  let a := Dot d_L d_L in
  let b := Dot d_L d_R in
  let c := Dot d_R d_R in
  let d := Dot d_L r in
  let e := Dot d_R r in
  let denom := a * c - b * b in
  if denom <? f_lit 1 1000000 then None
  else Some ((b * e - c * d) / denom, (a * e - b * d) / denom).

(** The strength left after the disagreement of the two parameters. *)
Definition agree (k t_L t_R : float) : option float :=
  let avg_t := f_lit 1 2 * (SFabs t_L + SFabs t_R + f_lit 1 1000000000) in
  let rel_disagree := SFabs (SFabs t_L - SFabs t_R) / avg_t in
  if rel_disagree >? f_lit 1 2 then
    let scale := f_one - (rel_disagree - f_lit 1 2) / f_lit 1 2 in
    let scale := std_max fzero (std_min f_one scale) in
    let k := k * scale in
    if k <? f_lit 1 10000 then None else Some k
  else Some k.

(** The point both eyes look at, not closer than ten centimetres nor farther
    than twenty metres. *)
Definition clamp_focus (eyeMid focus : float3) (dist : float) : option float3 :=
  if dist <? f_lit 1 10 then
    if dist <? f_lit 1 1000000 then None
    else Some (Add eyeMid (Scale (Scale (Sub focus eyeMid) (f_one / dist)) (f_lit 1 10)))
  else if dist >? f_z 20 then None else Some focus.

(** Both eyes alive: the gaze directions if they change, and the focus distance
    if it was computed. *)
Definition vergence_both (k : float) (o_L o_R d_L d_R : float3) : option (float3 * float3) * option float :=
  match skew_params o_L o_R d_L d_R with
  | None => (None, None)
  | Some (t_L, t_R) =>
    match agree k t_L t_R with
    | None => (None, None)
    | Some k =>
      let focus := Scale (Add (Add o_L (Scale d_L t_L)) (Add o_R (Scale d_R t_R))) (f_lit 1 2) in
      let eyeMid := Scale (Add o_L o_R) (f_lit 1 2) in
      let dist := Length (Sub focus eyeMid) in
      match clamp_focus eyeMid focus dist with
      | None => (None, Some dist)
      | Some focus =>
        let d_L_new := Normalize3 (Sub focus o_L) in
        let d_R_new := Normalize3 (Sub focus o_R) in
        (Some (Normalize3 (Lerp d_L d_L_new k), Normalize3 (Lerp d_R d_R_new k)), Some dist)
      end
    end
  end.

Definition VergenceLock_Apply (strength : Z) (f : FaceTrackingFrameBody) (v : VergenceLock)
    : FaceTrackingFrameBody * VergenceLock :=
  if negb (eye_valid f) then (f, v) else
  if (strength =? 0)%Z then (f, v) else
  let k := f_z strength / f_z 100 in
  let o_L := eye_origin_l f in
  let o_R := eye_origin_r f in
  let d_L := Normalize3 (eye_gaze_l f) in
  let d_R := Normalize3 (eye_gaze_r f) in
  let v := mkVergence (last_focus_m_ v) (Length (Sub o_L o_R)) in
  let lDrop := eye_confidence_l f <? f_lit 3 10 in
  let rDrop := eye_confidence_r f <? f_lit 3 10 in
  if lDrop && rDrop then (f, v)
  else if lDrop then (f <| eye_gaze_l := Normalize3 (Lerp d_L d_R k) |>, v)
  else if rDrop then (f <| eye_gaze_r := Normalize3 (Lerp d_R d_L k) |>, v)
  else
    let '(gaze, focus) := vergence_both k o_L o_R d_L d_R in
    (match gaze with Some (l, r) => f <| eye_gaze_l := l |> <| eye_gaze_r := r |> | None => f end,
     match focus with Some m => mkVergence m (last_ipd_m_ v) | None => v end).

(** ** FaceTrackingDevice.cpp *)

Definition k_unTrackedDeviceIndexInvalid : Z := 2 ^ 32 - 1.

Definition float4 : Type := double * double * double * double.

(** A quaternion (w, x, y, z); its [float] components widen to [double]. *)
Definition wide (w x y z : float) : float4 := (d_of_f w, d_of_f x, d_of_f y, d_of_f z).
Definition quat_one : float4 := (d_one, fzero, fzero, fzero).

Definition matrix_to_quat (m00 m01 m02 m10 m11 m12 m20 m21 m22 : float) : float4 :=
  let trace := m00 + m11 + m22 in
  let quarter := f_lit 1 4 in
  if trace >? fzero then
    let s := f_lit 1 2 / f_sqrt (trace + f_one) in
    wide (quarter / s) ((m21 - m12) * s) ((m02 - m20) * s) ((m10 - m01) * s)
  else if (m00 >? m11) && (m00 >? m22) then
    let s := f_z 2 * f_sqrt (f_one + m00 - m11 - m22) in
    wide ((m21 - m12) / s) (quarter * s) ((m01 + m10) / s) ((m02 + m20) / s)
  else if m11 >? m22 then
    let s := f_z 2 * f_sqrt (f_one + m11 - m00 - m22) in
    wide ((m02 - m20) / s) ((m01 + m10) / s) (quarter * s) ((m12 + m21) / s)
  else
    let s := f_z 2 * f_sqrt (f_one + m22 - m00 - m11) in
    wide ((m10 - m01) / s) ((m02 + m20) / s) ((m12 + m21) / s) (quarter * s).

Definition GazeToOrientation (g : float3) : float4 :=
  let '(gx, gy, gz) := g in
  if negb (isfinite gx) || negb (isfinite gy) || negb (isfinite gz) then quat_one else
  let len := f_sqrt (gx * gx + gy * gy + gz * gz) in
  if len <? f_lit 1 1000000 then quat_one else
  let gx := gx / len in
  let gy := gy / len in
  let gz := gz / len in
  let rx := SFopp gz in
  let ry := fzero in
  let rz := gx in
  let rlen := f_sqrt (rx * rx + rz * rz) in
  let '(rx, rz, rlen) := if rlen <? f_lit 1 1000000 then (f_one, fzero, f_one) else (rx, rz, rlen) in
  let rx := rx / rlen in
  let rz := rz / rlen in
  let ux := gy * rz - gz * ry in
  let uy := gz * rx - gx * rz in
  let uz := gx * ry - gy * rx in
  matrix_to_quat rx ux (SFopp gx) ry uy (SFopp gy) rz uz (SFopp gz).

(** The position, widened, and the rotation; the other fields are constant. *)
Record GazePose := mkGazePose { gp_position : double * double * double; gp_rotation : float4 }.

Definition BuildGazePose (origin gaze : float3) : GazePose :=
  let '(x, y, z) := origin in mkGazePose (d_of_f x, d_of_f y, d_of_f z) (GazeToOrientation gaze).

Definition finite_or_zero (v : float) : float := if isfinite v then v else fzero.
Definition finite3 (v : float3) : float3 :=
  let '(x, y, z) := v in (finite_or_zero x, finite_or_zero y, finite_or_zero z).

(** The handles of the four scalar components, 0 where creation failed. *)
Record FaceTrackingDevice := mkDevice {
  object_id_ : Z; h_open_left_ : Z; h_open_right_ : Z; h_pupil_left_ : Z; h_pupil_right_ : Z;
  cached_pose_ : option GazePose }.

Definition update_scalar (h : Z) (v : float) : list (Z * float) := if (h =? 0)%Z then [] else [(h, v)].

(** The pose given to the runtime, the scalar updates, and the device. *)
Definition PublishFrame (f : FaceTrackingFrameBody) (d : FaceTrackingDevice)
    : option GazePose * list (Z * float) * FaceTrackingDevice :=
  if (object_id_ d =? k_unTrackedDeviceIndexInvalid)%Z then (None, [], d) else
  if eye_valid f then
    let pose := BuildGazePose (finite3 (eye_origin_l f)) (finite3 (eye_gaze_l f)) in
    (Some pose,
     update_scalar (h_open_left_ d) (finite_or_zero (eye_openness_l f)) ++
     update_scalar (h_open_right_ d) (finite_or_zero (eye_openness_r f)) ++
     update_scalar (h_pupil_left_ d) (finite_or_zero (pupil_dilation_l f)) ++
     update_scalar (h_pupil_right_ d) (finite_or_zero (pupil_dilation_r f)),
     mkDevice (object_id_ d) (h_open_left_ d) (h_open_right_ d) (h_pupil_left_ d) (h_pupil_right_ d) (Some pose))
  else (None, [], d).

(** ** Eyelids *)

(** A call: the frame and the counter. *)
Abbreviation lid_call := (FaceTrackingFrameBody * Z)%type.

Definition eyelid_run (freq strength : Z) (calls : list lid_call) : EyelidSync :=
  foldl (fun s c => (EyelidSync_Apply freq c.2 strength true c.1 s).2) EyelidSync_new calls.

(** The calls since the last symmetric one. *)
Definition streak (calls : list lid_call) : list lid_call :=
  foldl (fun l c => if asymmetric c.1 then l ++ [c] else []) [] calls.

(** Whether one of the calls after the first is 120 ms or more after it. *)
Definition dwelled (freq : Z) (l : list lid_call) : bool :=
  match l with
  | [] => false
  | c0 :: l => existsb (fun c => dwell_ms freq c0.2 c.2 >=? kWinkDwellMs) l
  end.

Record timer_ok (freq : Z) (l : list lid_call) (s : EyelidSync) : Prop := {
  to_start : wink_start_qpc_ s = match l with [] => 0%Z | c :: _ => c.2 end;
  to_stable : wink_stable_ s = dwelled freq l;
  to_times : Forall (fun c => c.2 <> 0%Z) l }.

Lemma wink_timer_ok freq now f l s :
  timer_ok freq l s -> now <> 0%Z ->
  let '(w, s') := wink_timer freq now f s in
  let l' := if asymmetric f then l ++ [(f, now)] else [] in
  timer_ok freq l' s' /\ w = asymmetric f && dwelled freq l'.
Proof.
  intros [H1 H2 H3] Hnow. unfold wink_timer. destruct (asymmetric f) eqn:Ha; cbn [andb].
  2: { split; [by constructor|done]. }
  rewrite H1. destruct l as [|c0 l].
  { cbn. by repeat constructor. }
  inversion H3 as [|? ? Hc Hl]; subst. destruct (Z.eqb_spec c0.2 0) as [|_]; [done|]. cbn [app].
  assert (dwelled freq (c0 :: (l ++ [(f, now)])) = dwelled freq (c0 :: l) || (dwell_ms freq c0.2 now >=? kWinkDwellMs)) as Hd.
  { unfold dwelled. rewrite existsb_app. cbn [existsb]. by rewrite orb_false_r. }
  assert (Forall (fun c : lid_call => c.2 <> 0%Z) (c0 :: l ++ [(f, now)])) as Hall.
  { constructor; [done|]. apply Forall_app. split; [done|]. by repeat constructor. }
  rewrite H2. destruct (dwelled freq (c0 :: l)) eqn:Ed; cbn [negb].
  - split; [constructor; [done|by rewrite H2, Hd|done]|by rewrite H2, Hd].
  - destruct (dwell_ms freq c0.2 now >=? kWinkDwellMs) eqn:Ew.
    + split; [constructor; cbn; rewrite ?Hd; done|by rewrite Hd].
    + rewrite H2. split; [constructor; rewrite ?Hd; done|by rewrite Hd].
Qed.

(** The lids of a frame, and all that an application does to it. *)
Definition with_lids (l r : float) (f : FaceTrackingFrameBody) : FaceTrackingFrameBody :=
  f <| eye_openness_l := l |> <| eye_openness_r := r |>.

Lemma eyelid_apply_cases freq now strength f s :
  eye_valid f = true -> strength <> 0%Z ->
  let s0 := if negb (smooth_init_ s) then s <| smooth_l_ := eye_openness_l f |>
              <| smooth_r_ := eye_openness_r f |> <| smooth_init_ := true |> else s in
  let '(out, s') := EyelidSync_Apply freq now strength true f s in
  wink_start_qpc_ s' = wink_start_qpc_ (wink_timer freq now f s0).2 /\
  wink_stable_ s' = wink_stable_ (wink_timer freq now f s0).2 /\
  if (wink_timer freq now f s0).1 then out = f
  else out = with_lids (std_max fzero (std_min f_one (smooth_l_ s'))) (std_max fzero (std_min f_one (smooth_r_ s'))) f.
Proof.
  intros Hv Hs s0. unfold EyelidSync_Apply. rewrite Hv. destruct (Z.eqb_spec strength 0); [done|]. cbn [negb].
  cbv zeta. fold s0. by destruct (wink_timer freq now f s0) as [[] s1].
Qed.

Lemma timer_ok_init freq l s f :
  timer_ok freq l s -> timer_ok freq l (if negb (smooth_init_ s) then s <| smooth_l_ := eye_openness_l f |>
    <| smooth_r_ := eye_openness_r f |> <| smooth_init_ := true |> else s).
Proof. intros [H1 H2 H3]. destruct s as [a b c d []]; by constructor. Qed.

Lemma eyelid_run_ok freq strength calls :
  strength <> 0%Z -> Forall (fun c => eye_valid c.1 = true /\ c.2 <> 0%Z) calls ->
  timer_ok freq (streak calls) (eyelid_run freq strength calls).
Proof.
  intros Hs. induction calls as [|c calls IH] using rev_ind; intros Hc.
  { change (timer_ok freq [] EyelidSync_new). by constructor. }
  apply Forall_app in Hc as [Hc Hl]. apply list.Forall_cons in Hl as [[Hv Hn] _]. specialize (IH Hc).
  unfold eyelid_run, streak. rewrite !foldl_snoc. fold (eyelid_run freq strength calls) (streak calls).
  set (s := eyelid_run freq strength calls) in *. clearbody s.
  pose proof (eyelid_apply_cases freq c.2 strength c.1 s Hv Hs) as Hca. cbv zeta in Hca.
  pose proof (wink_timer_ok freq c.2 c.1 _ _ (timer_ok_init _ _ _ c.1 IH) Hn) as Ht.
  destruct (wink_timer freq c.2 c.1 _) as [w s2]. cbn [fst snd] in Hca.
  destruct (EyelidSync_Apply freq c.2 strength true c.1 s) as [out s']. destruct Hca as (E1 & E2 & _).
  destruct Ht as [[T1 T2 T3] _]. destruct c as [f now]. cbn [fst snd] in *.
  constructor; cbn; [by rewrite E1|by rewrite E2|done].
Qed.

(** With winks preserved, a frame passes with its lids untouched exactly when
    both eyes are confident and differ by more than the threshold now, have done
    so in every call since some earlier one, and one of these calls came at
    least 120 ms after that first one; otherwise both lids are replaced by
    values in [0, 1], whatever the floats in the frame, and nothing else is. *)
Theorem wink_dwell freq strength calls f now
  (Hs : strength <> 0%Z) (Hc : Forall (fun c => eye_valid c.1 = true /\ c.2 <> 0%Z) calls)
  (Hf : eye_valid f = true) (Hn : now <> 0%Z) :
  let out := (EyelidSync_Apply freq now strength true f (eyelid_run freq strength calls)).1 in
  if dwelled freq (streak (calls ++ [(f, now)])) then out = f
  else out = with_lids (eye_openness_l out) (eye_openness_r out) f /\
    unit_range (eye_openness_l out) /\ unit_range (eye_openness_r out).
Proof.
  cbv zeta. pose proof (eyelid_run_ok freq strength calls Hs Hc) as Ht.
  set (s := eyelid_run freq strength calls) in *. clearbody s.
  pose proof (eyelid_apply_cases freq now strength f s Hf Hs) as Hca. cbv zeta in Hca.
  pose proof (wink_timer_ok freq now f _ _ (timer_ok_init _ _ _ f Ht) Hn) as Hw.
  destruct (wink_timer freq now f _) as [w s2]. cbn [fst snd] in Hca.
  destruct (EyelidSync_Apply freq now strength true f s) as [out s']. destruct Hca as (_ & _ & Hout).
  destruct Hw as [_ ->]. unfold streak. rewrite foldl_snoc. fold (streak calls). cbn [fst snd].
  assert (asymmetric f && dwelled freq (if asymmetric f then streak calls ++ [(f, now)] else []) =
    dwelled freq (if asymmetric f then streak calls ++ [(f, now)] else [])) as E by (by destruct (asymmetric f)).
  rewrite E in Hout. destruct (dwelled freq _); [done|]. subst out.
  assert (forall x, unit_range (std_max fzero (std_min f_one x))) as Hu
    by (intros x; by apply (max_min_bounds x fzero f_one)).
  split; [by destruct f|]. split; destruct f; apply Hu.
Qed.

(** *** A frame that is not a number *)

Definition lids_nan (s : EyelidSync) : Prop :=
  smooth_init_ s = true /\ is_nan (smooth_l_ s) = true /\ is_nan (smooth_r_ s) = true.

Lemma wink_timer_lids freq now f s :
  let s' := (wink_timer freq now f s).2 in
  smooth_l_ s' = smooth_l_ s /\ smooth_r_ s' = smooth_r_ s /\ smooth_init_ s' = smooth_init_ s.
Proof. unfold wink_timer. repeat case_match; by destruct s. Qed.

Lemma ema_nan a b c : is_nan a = true -> is_nan (a + c * (b - a)) = true.
Proof. intros. by apply f_nan_l. Qed.

Lemma ema_nan_in a b c : is_nan b = true -> is_nan (a + c * (b - a)) = true.
Proof. intros. by apply f_nan_r, f_nan_r, f_nan_l. Qed.

Lemma clamp_nan x : is_nan x = true -> std_max fzero (std_min f_one x) = f_one.
Proof. intros Hx. unfold std_min. by rewrite (flt_nan_l _ _ Hx). Qed.

Lemma lids_nan_apply freq now strength preserve f s :
  lids_nan s ->
  let '(out, s') := EyelidSync_Apply freq now strength preserve f s in
  lids_nan s' /\ (out = f \/ out = with_lids f_one f_one f).
Proof.
  intros (Hi & Hl & Hr). unfold EyelidSync_Apply.
  destruct (negb (eye_valid f)); [by split; [|left]|]. destruct (strength =? 0)%Z; [by split; [|left]|].
  cbv zeta. rewrite Hi. cbn [negb].
  set (p := if preserve then wink_timer freq now f s else (false, s)).
  assert (smooth_l_ p.2 = smooth_l_ s /\ smooth_r_ p.2 = smooth_r_ s /\ smooth_init_ p.2 = smooth_init_ s) as (E1 & E2 & E3).
  { unfold p. destruct preserve; [apply wink_timer_lids|done]. }
  destruct p as [w s1]. cbn [snd] in *. destruct w.
  - split; [|by left]. split_and!; cbn -[f_add f_mul f_sub]; [congruence|..]; apply ema_nan; congruence.
  - cbv zeta. set (s2 := s1 <| smooth_l_ := _ |> <| smooth_r_ := _ |>).
    assert (smooth_init_ s2 = true /\ is_nan (smooth_l_ s2) = true /\ is_nan (smooth_r_ s2) = true) as Hs2.
    { split_and!; cbn -[f_add f_mul f_sub f_div]; [congruence|..]; apply ema_nan; congruence. }
    clearbody s2. split; [done|right]. destruct Hs2 as (_ & Hl2 & Hr2). by rewrite !clamp_nan.
Qed.

(** One frame with a lid that is not a number, unless it is a wink, makes both
    smoothed lids not a number for good: from then on every frame of valid eyes
    that is not let through as a wink or by a strength of zero has both lids
    wide open, and nothing short of a new driver brings them back. *)
Theorem nan_lid_sticks freq now strength f s calls
  (Hv : eye_valid f = true) (Hs : strength <> 0%Z)
  (Hnan : is_nan (eye_openness_l f) = true \/ is_nan (eye_openness_r f) = true) :
  let apply s c := EyelidSync_Apply freq c.1.1 c.1.2 false c.2 s in
  let s' := foldl (fun s c => (apply s c).2) (EyelidSync_Apply freq now strength false f s).2 calls in
  forall c, (apply s' c).1 = c.2 \/ (apply s' c).1 = with_lids f_one f_one c.2.
Proof.
  cbv zeta.
  assert (lids_nan (EyelidSync_Apply freq now strength false f s).2) as H0.
  { unfold EyelidSync_Apply. rewrite Hv. destruct (Z.eqb_spec strength 0); [done|]. cbn [negb].
    cbv zeta. set (s0 := if negb (smooth_init_ s) then _ else s).
    assert (smooth_init_ s0 = true) as Hi by (unfold s0; destruct s as [a b c d []]; done).
    set (target := f_div (f_add (f_mul (eye_confidence_l f) (eye_openness_l f))
      (f_mul (eye_confidence_r f) (eye_openness_r f))) _).
    assert (is_nan target = true) as Ht.
    { unfold target. apply f_nan_l. destruct Hnan as [Hn|Hn]; [apply f_nan_l|apply f_nan_r]; by apply f_nan_r. }
    clearbody target s0. split_and!; cbn -[f_add f_mul f_sub f_div]; [done|..]; by apply ema_nan_in, ema_nan_in. }
  assert (forall s c, lids_nan s -> lids_nan (EyelidSync_Apply freq c.1.1 c.1.2 false c.2 s).2 /\
    ((EyelidSync_Apply freq c.1.1 c.1.2 false c.2 s).1 = c.2 \/
     (EyelidSync_Apply freq c.1.1 c.1.2 false c.2 s).1 = with_lids f_one f_one c.2)) as Hstep.
  { intros s1 c H1. pose proof (lids_nan_apply freq c.1.1 c.1.2 false c.2 s1 H1) as Hp.
    by destruct (EyelidSync_Apply freq c.1.1 c.1.2 false c.2 s1). }
  intros c. apply Hstep. clear c. induction calls as [|c calls IH] using rev_ind; [done|].
  rewrite foldl_snoc. by apply Hstep.
Qed.

(** ** Vergence *)

(** The vergence lock changes nothing but the two gaze directions; it does
    nothing without valid eyes or strength, and nothing to the frame when both
    eyes dropped out; when one did, the surviving eye's direction and the focus
    distance stay as they are; and the eye distance is measured in every frame
    it looks at. *)
Theorem vergence_frame strength f v :
  let '(f', v') := VergenceLock_Apply strength f v in
  let lDrop := eye_confidence_l f <? f_lit 3 10 in
  let rDrop := eye_confidence_r f <? f_lit 3 10 in
  f' = (f <| eye_gaze_l := eye_gaze_l f' |> <| eye_gaze_r := eye_gaze_r f' |>) /\
  if negb (eye_valid f) || (strength =? 0)%Z then f' = f /\ v' = v
  else
    last_ipd_m_ v' = Length (Sub (eye_origin_l f) (eye_origin_r f)) /\
    (lDrop = true -> rDrop = true -> f' = f) /\
    (lDrop = true -> rDrop = false -> eye_gaze_r f' = eye_gaze_r f) /\
    (lDrop = false -> rDrop = true -> eye_gaze_l f' = eye_gaze_l f) /\
    (lDrop || rDrop = true -> last_focus_m_ v' = last_focus_m_ v).
Proof.
  unfold VergenceLock_Apply.
  destruct (negb (eye_valid f)); [cbn [orb]; split; [by destruct f|done]|].
  destruct (strength =? 0)%Z; [cbn [orb]; split; [by destruct f|done]|]. cbv zeta. cbn [orb].
  destruct (eye_confidence_l f <? f_lit 3 10), (eye_confidence_r f <? f_lit 3 10); cbn [andb orb].
  - by destruct f.
  - destruct f. split_and!; done.
  - destruct f. split_and!; done.
  - destruct (vergence_both _ _ _ _ _) as [[[l r]|] [m|]]; destruct f; split_and!; done.
Qed.

(** Eyes that diverge meet behind the head: nothing asks for the sign of the
    parameters, and a full lock turns both gazes round. *)
Lemma diverging_gaze_flips :
  let f := blank_frame <| flags := 1%Z |> <| eye_confidence_l := f_one |> <| eye_confidence_r := f_one |>
    <| eye_origin_l := (f_lit (-3) 100, fzero, fzero) |> <| eye_origin_r := (f_lit 3 100, fzero, fzero) |>
    <| eye_gaze_l := (f_lit (-1) 10, fzero, f_z (-1)) |> <| eye_gaze_r := (f_lit 1 10, fzero, f_z (-1)) |> in
  let f' := (VergenceLock_Apply 100 f VergenceLock_new).1 in
  ((eye_gaze_l f').2 >? f_lit 9 10) = true /\ ((eye_gaze_r f').2 >? f_lit 9 10) = true.
Proof. vm_compute. done. Qed.

(** ** The device *)

Lemma finite_or_zero_finite v : isfinite (finite_or_zero v) = true.
Proof. unfold finite_or_zero. by destruct (isfinite v) eqn:E. Qed.

(** Nothing is published by a device that is not active or for a frame whose
    eyes are not valid; otherwise one pose, at a position of finite floats, and
    finite values for exactly the components that exist. *)
Theorem device_publish f d :
  let '(p, scalars, d') := PublishFrame f d in
  Forall (fun c => isfinite c.2 = true) scalars /\
  if (object_id_ d =? k_unTrackedDeviceIndexInvalid)%Z || negb (eye_valid f)
  then p = None /\ scalars = [] /\ d' = d
  else (exists x y z q, p = Some (mkGazePose (d_of_f x, d_of_f y, d_of_f z) q) /\
      isfinite x = true /\ isfinite y = true /\ isfinite z = true) /\
    scalars.*1 = filter (fun h => h <> 0%Z) [h_open_left_ d; h_open_right_ d; h_pupil_left_ d; h_pupil_right_ d] /\
    cached_pose_ d' = p.
Proof.
  unfold PublishFrame. destruct (object_id_ d =? k_unTrackedDeviceIndexInvalid)%Z; cbn [orb]; [done|].
  destruct (eye_valid f); cbn [negb]; [|done].
  assert (forall h v, Forall (fun c => isfinite c.2 = true) (update_scalar h (finite_or_zero v))) as Hu.
  { intros h v. unfold update_scalar. case_match; [constructor|]. constructor; [apply finite_or_zero_finite|constructor]. }
  split; [by rewrite !Forall_app|]. split; [|split; [|done]].
  - destruct (eye_origin_l f) as [[x y] z]. cbn [finite3 BuildGazePose]. eexists _, _, _, _.
    split; [done|]. split_and!; apply finite_or_zero_finite.
  - rewrite !fmap_app. unfold update_scalar. cbn [filter list_filter].
    repeat case_match; cbn; try done; try lia; repeat case_decide; try done; try lia.
Qed.

Lemma wink_dwell_witness :
  let lids l r := blank_frame <| flags := 1%Z |> <| eye_confidence_l := f_one |> <| eye_confidence_r := f_one |>
    <| eye_openness_l := l |> <| eye_openness_r := r |> in
  let wink := lids f_one fzero in
  let calls := [(wink, 10000%Z); (wink, 600000%Z)] in
  (EyelidSync_Apply sample_freq 1300000 50 true wink (eyelid_run sample_freq 50 calls)).1 = wink.
Proof.
  intros lids wink calls.
  pose proof (wink_dwell sample_freq 50 calls wink 1300000 ltac:(done) ltac:(by repeat constructor) eq_refl ltac:(done)) as Hp.
  cbv zeta in Hp. assert (dwelled sample_freq (streak (calls ++ [(wink, 1300000%Z)])) = true) as E by (vm_compute; reflexivity).
  rewrite E in Hp. exact Hp.
Defined.

Lemma nan_lid_sticks_witness :
  let f := blank_frame <| flags := 1%Z |> <| eye_openness_l := S754_nan |> in
  let s' := (EyelidSync_Apply sample_freq 0 50 false f EyelidSync_new).2 in
  (EyelidSync_Apply sample_freq 1 50 false (blank_frame <| flags := 1%Z |>) s').1 =
    with_lids f_one f_one (blank_frame <| flags := 1%Z |>).
Proof.
  intros f s'. destruct (nan_lid_sticks sample_freq 0 50 f EyelidSync_new [] eq_refl ltac:(done) (or_introl eq_refl)
    (1, 50, blank_frame <| flags := 1%Z |>)%Z) as [Hp|Hp]; [|exact Hp].
  exfalso. revert Hp. vm_compute. done.
Defined.
