(* ===== verification/FaceWorker.v ===== *)
(** * The face-tracking worker (modules/facetracking/src/driver/FacetrackingDriverModule.cpp)

    One turn of the worker thread: the wedge detector over the host's heartbeat,
    and the pipeline of a frame from the shared ring through calibration,
    vergence and eyelids to the device and the OSC router.  The clock, the
    counter and the segment as it is at each of the three reads are arguments of
    the turn; logging and the telemetry file are left out. *)

From S2P Require Import Prelude Floats Shmem OscWire OscStats RouteTable OscRouter FaceFrame FaceCalib FaceFilters.

(** What the worker reads of the configuration. *)
Record WorkerConfig := mkWCfg {
  continuous_calib_mode : Z; vergence_lock_enabled : bool; vergence_lock_strength : Z;
  eyelid_sync_enabled : bool; eyelid_sync_strength : Z; eyelid_sync_preserve_winks : bool;
  reserved_native : bool; output_osc_enabled : bool }.

Record Worker := mkWorker {
  last_idx : nat; wedge_restart_pending : bool; last_wedge_restart_time : Z;
  calib_ : list ShapeCalib; vergence_ : VergenceLock; eyelid_ : EyelidSync; device_ : option FaceTrackingDevice;
  frames_read_ : Z; frames_processed_ : Z; osc_messages_sent_ : Z; osc_messages_dropped_ : Z }.

#[export] Instance worker_settable : Settable Worker := fun w =>
  mkWorker (last_idx w) (wedge_restart_pending w) (last_wedge_restart_time w) (calib_ w) (vergence_ w) (eyelid_ w)
    (device_ w) (frames_read_ w) (frames_processed_ w) (osc_messages_sent_ w) (osc_messages_dropped_ w).

(** [Init] never creates a device. *)
Definition Worker_new : Worker :=
  mkWorker 0 false 0 CalibrationEngine_new VergenceLock_new EyelidSync_new None 0 0 0 0.

(** ** The wedge detector *)

Definition wedge_threshold_ms (host_state : Z) : Z :=
  if (host_state =? HostStatePublishing)%Z then 2000
  else if (host_state =? HostStateIdle)%Z then 5000 else UINT64_MAX.

Definition is_wedged (host_state hb_age_ms : Z) : bool :=
  negb (host_state =? HostStateLegacy)%Z && negb (hb_age_ms =? UINT64_MAX)%Z &&
  (wedge_threshold_ms host_state <? hb_age_ms)%Z.

Definition nanoseconds_per_second : Z := 1000000000.

(** Whether the host is restarted; [now] in nanoseconds.  The liveness fields a
    restart zeroes belong to the shared segment: they are the next turn's input. *)
Definition wedge_check (host_state hb_age_ms now : Z) (w : Worker) : bool * Worker :=
  if is_wedged host_state hb_age_ms then
    if negb (wedge_restart_pending w) ||
       (10 <=? Z.quot (now - last_wedge_restart_time w) nanoseconds_per_second)%Z
    then (true, w <| wedge_restart_pending := true |> <| last_wedge_restart_time := now |>)
    else (false, w)
  else if wedge_restart_pending w && negb (hb_age_ms =? UINT64_MAX)%Z
  then (false, w <| wedge_restart_pending := false |>)
  else (false, w).

(** ** The pipeline *)

(** [ingest_now] and [lid_now]: the counter where the engine and the lids read it. *)
Definition filter_frame (cfg : WorkerConfig) (freq ingest_now lid_now : Z) (frame : FaceTrackingFrameBody) (w : Worker)
    : FaceTrackingFrameBody * Worker :=
  let '(frame, w) :=
    if (0 <? continuous_calib_mode cfg)%Z then
      let calib := IngestFrame freq ingest_now frame (calib_ w) in
      (Normalize calib frame, w <| calib_ := calib |>)
    else (frame, w) in
  let '(frame, w) :=
    if vergence_lock_enabled cfg then
      let '(frame, v) := VergenceLock_Apply (vergence_lock_strength cfg) frame (vergence_ w) in
      (frame, w <| vergence_ := v |>)
    else (frame, w) in
  if eyelid_sync_enabled cfg then
    let '(frame, e) := EyelidSync_Apply freq lid_now (eyelid_sync_strength cfg) (eyelid_sync_preserve_winks cfg)
                         frame (eyelid_ w) in
    (frame, w <| eyelid_ := e |>)
  else (frame, w).

Section Turns.
Context {T : Type} `{RouteStore T} (nan_bits : Z).
Abbreviation shmem := (option (FaceTrackingFrameShmem FaceTrackingFrameBodyWire)).

(** A filtered frame to the device and the router. *)
Definition deliver_frame (cfg : WorkerConfig) (frame : FaceTrackingFrameBody) (w : Worker) (r : OscRouter T)
    : Worker * OscRouter T :=
  let w :=
    if reserved_native cfg then
      match device_ w with Some d => w <| device_ := Some (PublishFrame frame d).2 |> | None => w end
    else w in
  let '(w, r) :=
    if output_osc_enabled cfg then
      let '((sent, dropped), r) := PublishFaceFrameOsc nan_bits frame r in
      (w <| osc_messages_sent_ ::= fun n => u64 (n + sent) |>
         <| osc_messages_dropped_ ::= fun n => u64 (n + dropped) |>, r)
    else (w, r) in
  (w <| frames_processed_ ::= fun n => u64 (n + 1) |>, r).

(** What one turn asks for: the segment as it is when the liveness fields, the
    publish index and the frame are read, and the clocks. *)
Record TurnInput := mkTurn {
  t_liveness : shmem; t_index : shmem; t_frame : shmem; t_retries : nat;
  t_qpc : Z; t_freq : Z; t_now : Z; t_ingest : Z; t_lid : Z; t_cfg : WorkerConfig }.

(** The frame of a turn, filtered, if there is one, and the worker before it is
    delivered; the flag says that the host is restarted and its liveness fields
    are cleared. *)
Definition worker_read (i : TurnInput) (w : Worker) : bool * option FaceTrackingFrameBody * Worker :=
  let host_state := HostState (t_liveness i) in
  let hb_age_ms := HeartbeatAgeMs (t_qpc i) (t_freq i) (t_liveness i) in
  let '(restart, w) := wedge_check host_state hb_age_ms (t_now i) w in
  if is_wedged host_state hb_age_ms then (restart, None, w) else
  let idx := LastPublishIndex (t_index i) in
  if idx =? last_idx w then (false, None, w) else
  let w := w <| last_idx := idx |> in
  match TryRead (t_retries i) (t_frame i) with
  | None => (false, None, w)
  | Some frame =>
    let w := w <| frames_read_ ::= fun n => u64 (n + 1) |> in
    let '(frame, w) := filter_frame (t_cfg i) (t_freq i) (t_ingest i) (t_lid i) frame w in
    (false, Some frame, w)
  end.

Definition worker_turn (i : TurnInput) (w : Worker) (r : OscRouter T) : bool * Worker * OscRouter T :=
  let '(restart, frame, w) := worker_read i w in
  match frame with
  | Some frame => let '(w, r) := deliver_frame (t_cfg i) frame w r in (restart, w, r)
  | None => (restart, w, r)
  end.
End Turns.

(** ** What the turn keeps *)

Lemma wedge_check_fields hs age now w :
  let '(b, w') := wedge_check hs age now w in
  last_idx w' = last_idx w /\ calib_ w' = calib_ w /\ frames_read_ w' = frames_read_ w /\
  (b = true -> wedge_restart_pending w' = true /\ last_wedge_restart_time w' = now) /\
  (b = false -> is_wedged hs age = true \/ age = UINT64_MAX ->
     wedge_restart_pending w' = wedge_restart_pending w /\ last_wedge_restart_time w' = last_wedge_restart_time w).
Proof.
  unfold wedge_check. destruct (is_wedged hs age).
  - destruct (_ || _); [by split_and!|by split_and!].
  - destruct (Z.eqb_spec age UINT64_MAX).
    + rewrite andb_false_r. by split_and!.
    + destruct (wedge_restart_pending w); cbn [andb negb]; split_and!; try done; by intros _ [].
Qed.

(** The detector's memory. *)
Definition wedge_memory (w : Worker) : bool * Z := (wedge_restart_pending w, last_wedge_restart_time w).

Lemma filter_frame_keeps cfg freq a b f w :
  let w' := (filter_frame cfg freq a b f w).2 in
  wedge_memory w' = wedge_memory w /\ last_idx w' = last_idx w /\ frames_processed_ w' = frames_processed_ w.
Proof.
  unfold filter_frame.
  set (p1 := if (0 <? continuous_calib_mode cfg)%Z then _ else (f, w)).
  assert (wedge_memory p1.2 = wedge_memory w /\ last_idx p1.2 = last_idx w /\ frames_processed_ p1.2 = frames_processed_ w)
    as (<- & <- & <-) by (unfold p1; by destruct (0 <? continuous_calib_mode cfg)%Z).
  destruct p1 as [f1 w1]. cbn [snd].
  set (p2 := if vergence_lock_enabled cfg then _ else (f1, w1)).
  assert (wedge_memory p2.2 = wedge_memory w1 /\ last_idx p2.2 = last_idx w1 /\ frames_processed_ p2.2 = frames_processed_ w1)
    as (<- & <- & <-).
  { unfold p2. destruct (vergence_lock_enabled cfg); [|done]. by destruct (VergenceLock_Apply _ _ _). }
  destruct p2 as [f2 w2]. cbn [snd]. destruct (eyelid_sync_enabled cfg); [|done].
  by destruct (EyelidSync_Apply _ _ _ _ _ _).
Qed.

Lemma heartbeat_age_range now freq m : (HeartbeatAgeMs now freq m <= UINT64_MAX)%Z.
Proof.
  unfold HeartbeatAgeMs. destruct m as [d|]; [|done]. cbv zeta.
  destruct (_ =? 0)%Z; [done|]. destruct (_ <=? _)%Z; [done|]. destruct (Z.eqb_spec freq 0); [done|].
  set (x := u64 _). assert (0 <= x < 2 ^ 64)%Z by (apply Z.mod_pos_bound; lia). clearbody x. unfold UINT64_MAX.
  destruct (Z_lt_le_dec freq 0).
  - pose proof (Z.div_mod x freq ltac:(lia)). pose proof (Z.mod_neg_bound x freq ltac:(lia)). nia.
  - pose proof (Z.div_le_upper_bound x freq x ltac:(lia) ltac:(nia)). lia.
Qed.

Section WorkerProps.
Context {T : Type} `{RouteStore T} (nan_bits : Z).

Lemma deliver_memory cfg f w (r : OscRouter T) :
  wedge_memory (deliver_frame nan_bits cfg f w r).1 = wedge_memory w.
Proof.
  unfold deliver_frame.
  set (w1 := if reserved_native cfg then _ else w). assert (wedge_memory w1 = wedge_memory w) as <-.
  { unfold w1. destruct (reserved_native cfg); [|done]. by destruct (device_ w). }
  clearbody w1. destruct (output_osc_enabled cfg); [|done].
  by destruct (PublishFaceFrameOsc nan_bits f r) as [[sent dropped] r'].
Qed.

Lemma deliver_fields cfg f w (r : OscRouter T) :
  (deliver_frame nan_bits cfg f w r).2 = (if output_osc_enabled cfg then (PublishFaceFrameOsc nan_bits f r).2 else r) /\
  last_idx (deliver_frame nan_bits cfg f w r).1 = last_idx w /\
  frames_processed_ (deliver_frame nan_bits cfg f w r).1 = u64 (frames_processed_ w + 1).
Proof.
  unfold deliver_frame.
  set (w1 := if reserved_native cfg then _ else w).
  assert (last_idx w1 = last_idx w /\ frames_processed_ w1 = frames_processed_ w) as [<- <-].
  { unfold w1. destruct (reserved_native cfg); [|done]. by destruct (device_ w). }
  clearbody w1. destruct (output_osc_enabled cfg); [|done].
  by destruct (PublishFaceFrameOsc nan_bits f r) as [[sent dropped] r'].
Qed.

Lemma worker_turn_memory i w (r : OscRouter T) :
  let '(b, w', _) := worker_turn nan_bits i w r in
  (b, wedge_memory w') =
    let '(b, w1) := wedge_check (HostState (t_liveness i)) (HeartbeatAgeMs (t_qpc i) (t_freq i) (t_liveness i)) (t_now i) w in
    (b, wedge_memory w1).
Proof.
  unfold worker_turn, worker_read.
  destruct (wedge_check _ _ _ w) as [b w1] eqn:Ew.
  destruct (is_wedged _ _) eqn:Ei; [done|].
  assert (b = false) as ->.
  { unfold wedge_check in Ew. rewrite Ei in Ew. destruct (_ && _); by injection Ew. }
  destruct (_ =? _); [done|]. destruct (TryRead _ _) as [f|]; [|done].
  pose proof (filter_frame_keeps (t_cfg i) (t_freq i) (t_ingest i) (t_lid i) f
    ((w1 <| last_idx := LastPublishIndex (t_index i) |>) <| frames_read_ ::= fun n => u64 (n + 1) |>)) as [Hm _].
  destruct (filter_frame _ _ _ _ _ _) as [f' w2]. cbn [snd] in Hm.
  pose proof (deliver_memory (t_cfg i) f' w2 r) as Hd.
  destruct (deliver_frame nan_bits (t_cfg i) f' w2 r) as [w3 r']. cbn [fst] in Hd. by rewrite Hd, Hm.
Qed.

(** The log of a history: time, restart, and whether the host was seen well. *)
Definition calm (i : TurnInput) : bool :=
  let age := HeartbeatAgeMs (t_qpc i) (t_freq i) (t_liveness i) in
  negb (is_wedged (HostState (t_liveness i)) age) && negb (age =? UINT64_MAX)%Z.

Fixpoint worker_log (turns : list TurnInput) (w : Worker) (r : OscRouter T) : list (TurnInput * bool) :=
  match turns with
  | [] => []
  | i :: turns => let '(b, w, r) := worker_turn nan_bits i w r in (i, b) :: worker_log turns w r
  end.

(** A restart asks for a host that says it is active and has been silent for
    longer than that allows, and for ten seconds since a pending restart. *)
Lemma restart_conditions i w (r : OscRouter T) :
  let '(b, w', _) := worker_turn nan_bits i w r in
  (b = true ->
    (HostState (t_liveness i) = HostStatePublishing /\ (2000 < HeartbeatAgeMs (t_qpc i) (t_freq i) (t_liveness i))%Z \/
     HostState (t_liveness i) = HostStateIdle /\ (5000 < HeartbeatAgeMs (t_qpc i) (t_freq i) (t_liveness i))%Z) /\
    (wedge_restart_pending w = true -> (10 * nanoseconds_per_second <= t_now i - last_wedge_restart_time w)%Z) /\
    wedge_restart_pending w' = true /\ last_wedge_restart_time w' = t_now i) /\
  (b = false -> calm i = false -> wedge_memory w' = wedge_memory w).
Proof.
  pose proof (worker_turn_memory i w r) as Hm. destruct (worker_turn nan_bits i w r) as [[b w'] r'].
  unfold calm in *. set (hs := HostState _) in *. set (age := HeartbeatAgeMs _ _ _) in *.
  pose proof (wedge_check_fields hs age (t_now i) w) as Hf.
  destruct (wedge_check hs age (t_now i) w) as [b1 w1] eqn:Ew. injection Hm as -> Hm1 Hm2.
  destruct Hf as (_ & _ & _ & Ht & Hn). split.
  - intros ->. destruct (Ht eq_refl) as [-> <-] in Hm1, Hm2. rewrite Hm1, Hm2. unfold wedge_check in Ew.
    destruct (is_wedged hs age) eqn:Ei; [|by destruct (_ && _)].
    destruct (_ || _) eqn:Eo; [|done]. split_and!; try done.
    + unfold is_wedged, wedge_threshold_ms in Ei. apply andb_true_iff in Ei as [Ei Hlt%Z.ltb_lt].
      apply andb_true_iff in Ei as [_ Hmax].
      destruct (Z.eqb_spec hs HostStatePublishing); [by left|]. destruct (Z.eqb_spec hs HostStateIdle); [by right|].
      exfalso. pose proof (heartbeat_age_range (t_qpc i) (t_freq i) (t_liveness i)) as Hr. fold age in Hr. lia.
    + intros Hp. rewrite Hp in Eo. cbn [negb orb] in Eo. apply Z.leb_le in Eo.
      pose proof (Z.quot_rem' (t_now i - last_wedge_restart_time w) nanoseconds_per_second).
      pose proof (Z.rem_bound_abs (t_now i - last_wedge_restart_time w) nanoseconds_per_second ltac:(done)).
      unfold nanoseconds_per_second in *.
      destruct (Z_lt_le_dec (t_now i - last_wedge_restart_time w) 0); [lia|].
      pose proof (Z.rem_bound_pos (t_now i - last_wedge_restart_time w) 1000000000). lia.
  - intros -> Hc. unfold wedge_memory in *. rewrite Hm1, Hm2. destruct (Hn eq_refl) as [-> ->]; [|done].
    destruct (is_wedged hs age); [by left|]. cbn [negb andb] in Hc.
    destruct (Z.eqb_spec age UINT64_MAX); [by right|done].
Qed.

(** A log cut at one of its turns. *)
Lemma worker_log_split pre : forall turns w (r : OscRouter T) i b rest,
  worker_log turns w r = pre ++ (i, b) :: rest ->
  exists w1 r1 turns', let '(b', w2, r2) := worker_turn nan_bits i w1 r1 in
    b' = b /\ rest = worker_log turns' w2 r2 /\
    (Forall (fun e => e.2 = false /\ calm e.1 = false) pre -> wedge_memory w1 = wedge_memory w).
Proof.
  induction pre as [|[i0 b0] pre IH]; intros turns w r i b rest Hl; destruct turns as [|j turns];
    cbn [worker_log app] in Hl; try done.
  - exists w, r, turns. destruct (worker_turn nan_bits j w r) as [[b' w2] r2] eqn:E.
    injection Hl as -> -> <-. rewrite E. by split_and!.
  - pose proof (restart_conditions j w r) as Hc. destruct (worker_turn nan_bits j w r) as [[b' w2] r2].
    injection Hl as -> -> Hl. apply IH in Hl as (w1 & r1 & turns' & Ht). exists w1, r1, turns'.
    destruct (worker_turn nan_bits i w1 r1) as [[b1 w3] r3]. destruct Ht as (H1 & H2 & H3).
    split_and!; [done|done|]. intros [[Hb Hca] Hpre]%list.Forall_cons. cbn [fst snd] in *.
    rewrite (H3 Hpre). by apply Hc.
Qed.

Definition restart_due (i : TurnInput) : Prop :=
  let age := HeartbeatAgeMs (t_qpc i) (t_freq i) (t_liveness i) in
  HostState (t_liveness i) = HostStatePublishing /\ (2000 < age)%Z \/
  HostState (t_liveness i) = HostStateIdle /\ (5000 < age)%Z.

(** In every history of turns, whatever the host writes and the clocks say,
    the worker restarts the host only when it reports that it is publishing and
    its heartbeat is older than two seconds, or idle and older than five, so
    never a host that drains or predates the heartbeat; and two restarts with no
    sign of life between them are at least ten seconds apart. *)
Theorem wedge_restarts turns w (r : OscRouter T) :
  (forall pre i post, worker_log turns w r = pre ++ (i, true) :: post -> restart_due i) /\
  (forall pre i1 mid i2 post,
     worker_log turns w r = pre ++ (i1, true) :: mid ++ (i2, true) :: post ->
     Forall (fun e => e.2 = false /\ calm e.1 = false) mid ->
     (10 * nanoseconds_per_second <= t_now i2 - t_now i1)%Z).
Proof.
  split.
  - intros pre i post (w1 & r1 & turns' & Ht)%worker_log_split.
    pose proof (restart_conditions i w1 r1) as Hc. destruct (worker_turn nan_bits i w1 r1) as [[b w2] r2].
    destruct Ht as (-> & _). by apply Hc.
  - intros pre i1 mid i2 post (w1 & r1 & turns1 & Ht)%worker_log_split Hmid.
    pose proof (restart_conditions i1 w1 r1) as Hc1. destruct (worker_turn nan_bits i1 w1 r1) as [[b w2] r2].
    destruct Ht as (-> & Hl & _). destruct (proj1 Hc1 eq_refl) as (_ & _ & Hp & Ht1).
    symmetry in Hl. apply worker_log_split in Hl as (w3 & r3 & turns2 & Ht).
    pose proof (restart_conditions i2 w3 r3) as Hc2. destruct (worker_turn nan_bits i2 w3 r3) as [[b w4] r4].
    destruct Ht as (-> & _ & Hm). specialize (Hm Hmid). injection Hm as Hm1 Hm2.
    destruct (proj1 Hc2 eq_refl) as (_ & H10 & _). rewrite <-Ht1, <-Hm2. apply H10. congruence.
Qed.

(** ** Frames *)

Lemma vergence_expressions k f v : expressions (VergenceLock_Apply k f v).1 = expressions f.
Proof.
  unfold VergenceLock_Apply. destruct (negb (eye_valid f)); [done|]. destruct (k =? 0)%Z; [done|]. cbv zeta.
  destruct (_ && _); [done|]. destruct (flt _ _); [by destruct f|]. destruct (flt _ _); [by destruct f|].
  destruct (vergence_both _ _ _ _ _) as [[[]|] []]; by destruct f.
Qed.

Lemma eyelid_expressions freq now k p f s : expressions (EyelidSync_Apply freq now k p f s).1 = expressions f.
Proof.
  unfold EyelidSync_Apply. destruct (negb (eye_valid f)); [done|]. destruct (k =? 0)%Z; [done|]. cbv zeta.
  match goal with |- context [let '(_, _) := ?x in _] => destruct x as [[] s1] end; [done|by destruct f].
Qed.

Lemma filter_frame_unit cfg freq a b f w :
  Forall unit_range (expressions f) -> Forall unit_range (expressions (filter_frame cfg freq a b f w).1).
Proof.
  intros Hu. unfold filter_frame.
  set (p1 := if (0 <? continuous_calib_mode cfg)%Z then _ else (f, w)).
  assert (Forall unit_range (expressions p1.1)) as H1
    by (unfold p1; destruct (0 <? continuous_calib_mode cfg)%Z; [by apply Normalize_unit|done]).
  destruct p1 as [f1 w1]. cbn [fst] in H1.
  set (p2 := if vergence_lock_enabled cfg then _ else (f1, w1)).
  assert (expressions p2.1 = expressions f1) as H2.
  { unfold p2. destruct (vergence_lock_enabled cfg); [|done].
    pose proof (vergence_expressions (vergence_lock_strength cfg) f1 (vergence_ w1)) as Hv.
    by destruct (VergenceLock_Apply _ _ _). }
  destruct p2 as [f2 w2]. cbn [fst] in H2. destruct (eyelid_sync_enabled cfg); [|cbn [fst]; by rewrite H2].
  pose proof (eyelid_expressions freq b (eyelid_sync_strength cfg) (eyelid_sync_preserve_winks cfg) f2 (eyelid_ w2)) as He.
  destruct (EyelidSync_Apply _ _ _ _ _ _). cbn [fst] in *. by rewrite He, H2.
Qed.

(** Whatever the host writes into the ring, every frame the worker hands on
    has all its expressions in [0, 1], whatever is switched on; a turn handles a
    frame only when the publish index has moved since the last turn that saw
    it, and then remembers the index even if the read fails; and the router
    gets exactly that frame's messages, if OSC output is on. *)
Theorem worker_frames i w (r : OscRouter T) :
  let '(_, frame, w') := worker_read i w in
  let '(_, w2, r') := worker_turn nan_bits i w r in
  match frame with
  | None => r' = r /\ frames_processed_ w2 = frames_processed_ w
  | Some f =>
    Forall unit_range (expressions f) /\ LastPublishIndex (t_index i) <> last_idx w /\
    last_idx w2 = LastPublishIndex (t_index i) /\
    r' = (if output_osc_enabled (t_cfg i) then (PublishFaceFrameOsc nan_bits f r).2 else r) /\
    frames_processed_ w2 = u64 (frames_processed_ w + 1)
  end.
Proof.
  unfold worker_turn, worker_read.
  pose proof (wedge_check_fields (HostState (t_liveness i)) (HeartbeatAgeMs (t_qpc i) (t_freq i) (t_liveness i)) (t_now i) w) as Hf.
  assert (frames_processed_ (wedge_check (HostState (t_liveness i)) (HeartbeatAgeMs (t_qpc i) (t_freq i) (t_liveness i)) (t_now i) w).2
    = frames_processed_ w) as Hp by (unfold wedge_check; by repeat case_match).
  destruct (wedge_check _ _ _ w) as [b w1]. destruct Hf as (Hi & _ & _ & _). cbn [snd] in Hp.
  destruct (is_wedged _ _); [done|].
  destruct (Nat.eqb_spec (LastPublishIndex (t_index i)) (last_idx w1)) as [|Hne]; [done|].
  unfold TryRead. destruct (TryReadLatestWire (t_retries i) (t_frame i)) as [wire|]; [|done]. cbn [fmap option_fmap option_map].
  set (w3 := (w1 <| last_idx := LastPublishIndex (t_index i) |>) <| frames_read_ ::= fun n => u64 (n + 1) |>).
  pose proof (filter_frame_unit (t_cfg i) (t_freq i) (t_ingest i) (t_lid i) (TranslateWireBody wire) w3) as Hu.
  pose proof (filter_frame_keeps (t_cfg i) (t_freq i) (t_ingest i) (t_lid i) (TranslateWireBody wire) w3) as (_ & Hm & Hfp).
  destruct (filter_frame _ _ _ _ _ w3) as [f w4]. cbn [fst snd] in *.
  pose proof (deliver_fields (t_cfg i) f w4 r) as (D1 & D2 & D3).
  destruct (deliver_frame nan_bits (t_cfg i) f w4 r) as [w5 r']. cbn [fst snd] in *.
  split_and!.
  - apply Hu. unfold TranslateWireBody. rewrite expressions_upd. apply remap_unit.
  - by rewrite <-Hi.
  - by rewrite D2, Hm.
  - done.
  - by rewrite D3, Hfp, <-Hp.
Qed.
End WorkerProps.
