(* ===== verification/Smoothing.v ===== *)
(** * Finger smoothing (modules/smoothing/src/driver/SkeletalHookInjector.cpp)

    The detours of IVRDriverInput's skeletal calls: which hand a component is,
    learned when it is created, and the smoothing of each bone towards the
    incoming pose.  An update is two steps, before and inside the lock on the
    hand state, so that other detours run in between; its configuration is read
    from two atomics and is an argument of the first. *)

From S2P Require Import Prelude Floats InputConfig.
Open Scope f32_scope.

(** [std::acos], [std::sin] and [std::cos] on [float]. *)
Class Libmf := { mf_acos : float -> float; mf_sin : float -> float; mf_cos : float -> float }.

(** ** Bones *)

Record Quatf := mkQuatf { qf_w : float; qf_x : float; qf_y : float; qf_z : float }.
Record Bone := mkBone { v0 : float; v1 : float; v2 : float; v3 : float; orientation : Quatf }.

Definition bone_zero : Bone := mkBone fzero fzero fzero fzero (mkQuatf fzero fzero fzero fzero).
Definition kBones : nat := 31.

Definition Lerpf (a b t : float) : float := a + (b - a) * t.

Definition kAligned : float := f_lit 9995 10000.

Definition dot4 (a b : Quatf) : float :=
  qf_x a * qf_x b + qf_y a * qf_y b + qf_z a * qf_z b + qf_w a * qf_w b.

Definition neg4 (b : Quatf) : Quatf := mkQuatf (SFopp (qf_w b)) (SFopp (qf_x b)) (SFopp (qf_y b)) (SFopp (qf_z b)).

(** The linear blend of nearly aligned quaternions. *)
Definition nlerp (a b : Quatf) (t : float) : Quatf :=
  let r := mkQuatf (Lerpf (qf_w a) (qf_w b) t) (Lerpf (qf_x a) (qf_x b) t)
    (Lerpf (qf_y a) (qf_y b) t) (Lerpf (qf_z a) (qf_z b) t) in
  let len := f_sqrt (qf_w r * qf_w r + qf_x r * qf_x r + qf_y r * qf_y r + qf_z r * qf_z r) in
  if len >? fzero then
    let inv := f_one / len in mkQuatf (qf_w r * inv) (qf_x r * inv) (qf_y r * inv) (qf_z r * inv)
  else r.

Definition SlerpQuat `{Libmf} (a b : Quatf) (t : float) : Quatf :=
  let dot := dot4 a b in
  let '(b, dot) := if dot <? fzero then (neg4 b, SFopp dot) else (b, dot) in
  if dot >? kAligned then nlerp a b t else
  let theta_0 := mf_acos dot in
  let sin_theta_0 := mf_sin theta_0 in
  let theta := theta_0 * t in
  let sin_theta := mf_sin theta in
  let s1 := mf_cos theta - dot * sin_theta / sin_theta_0 in
  let s2 := sin_theta / sin_theta_0 in
  mkQuatf (s1 * qf_w a + s2 * qf_w b) (s1 * qf_x a + s2 * qf_x b)
    (s1 * qf_y a + s2 * qf_y b) (s1 * qf_z a + s2 * qf_z b).

Definition FingerIndexForBone (bone : nat) : option nat :=
  if (2 <=? bone)%nat && (bone <=? 5)%nat then Some 0%nat
  else if (6 <=? bone)%nat && (bone <=? 10)%nat then Some 1%nat
  else if (11 <=? bone)%nat && (bone <=? 15)%nat then Some 2%nat
  else if (16 <=? bone)%nat && (bone <=? 20)%nat then Some 3%nat
  else if (21 <=? bone)%nat && (bone <=? 25)%nat then Some 4%nat
  else None.

Definition SmoothnessToAlpha (smoothness : byte) : float :=
  let s := f_of_Z (bz smoothness) in
  let s := if s <? fzero then fzero else s in
  let s := if s >? f_of_Z 100 then f_of_Z 100 else s in
  f_one - s / f_of_Z 100 * f_lit 95 100.

(** ** State *)

Record HandState := mkHand { initialized : bool; previous : list Bone }.
Definition hand_init : HandState := mkHand false (replicate kBones bone_zero).

Record PerHandStats := mkStats {
  totalCalls : Z; smoothedCalls : Z; passthroughCalls : Z; firstCallLogged : bool }.
#[export] Instance stats_settable : Settable PerHandStats := fun s =>
  mkStats (totalCalls s) (smoothedCalls s) (passthroughCalls s) (firstCallLogged s).
Definition stats_zero : PerHandStats := mkStats 0 0 0 false.

Inductive LogLine :=
| LStats (now : Z) | LDeepState (now : Z) | LFirstUnknown (handle : Z) | LFirstCreate
| LFirstCall (hand : nat) | LVerbose (hand : nat) (call : Z)
| LMapped (handle : Z) (hand : nat) | LSkipped (handle : Z) | LFailed (result : Z) | LArmed | LDisarmed.

Record Skel := mkSkel {
  g_driver : bool; g_handState : list HandState; g_handleToHandedness : gmap Z nat;
  g_stats : list PerHandStats; g_unknownHandleCalls : Z; g_invalidTransformCalls : Z;
  g_lastStatsLogQpc : Z; g_lastDeepStateLogQpc : Z; g_qpcFreq : Z;
  g_verboseCallsRemaining : list Z; g_firstUnknownHandleLogged : bool; g_firstCreateSkeletonLogged : bool;
  log_ : list LogLine }.

#[export] Instance skel_settable : Settable Skel := fun s =>
  mkSkel (g_driver s) (g_handState s) (g_handleToHandedness s) (g_stats s) (g_unknownHandleCalls s)
    (g_invalidTransformCalls s) (g_lastStatsLogQpc s) (g_lastDeepStateLogQpc s) (g_qpcFreq s)
    (g_verboseCallsRemaining s) (g_firstUnknownHandleLogged s) (g_firstCreateSkeletonLogged s) (log_ s).

Definition kVerboseFirstCalls : Z := 3.
Definition kStatsLogIntervalSec : double := d_of_Z 30.
Definition kDeepStateLogIntervalSec : double := d_of_Z 60.

(** The file-scope variables before [Init]. *)
Definition skel_static : Skel :=
  mkSkel false [hand_init; hand_init] ∅ [stats_zero; stats_zero] 0 0 0 0 0
    [kVerboseFirstCalls; kVerboseFirstCalls] false false [].

Definition say (l : LogLine) (s : Skel) : Skel := s <| log_ ::= fun ls => ls ++ [l] |>.

(** ** Throttled summaries

    [now] is the counter; the exchanges of the time stamps are single-threaded
    here, a lost one only skips the line. *)
Definition elapsed_sec (now last freq : Z) : double := d_div (d_of_Z (now - last)%Z) (d_of_Z freq).

Definition MaybeLogStats (now : Z) (s : Skel) : Skel :=
  if (g_qpcFreq s =? 0)%Z then s else
  let last := g_lastStatsLogQpc s in
  if (last =? 0)%Z then s <| g_lastStatsLogQpc := now |> else
  if flt (elapsed_sec now last (g_qpcFreq s)) kStatsLogIntervalSec then s
  else say (LStats now) (s <| g_lastStatsLogQpc := now |>).

Definition MaybeLogDeepState (now : Z) (s : Skel) : Skel :=
  if (g_qpcFreq s =? 0)%Z then s else
  let last := g_lastDeepStateLogQpc s in
  if (last =? 0)%Z then s <| g_lastDeepStateLogQpc := now |> else
  if flt (elapsed_sec now last (g_qpcFreq s)) kDeepStateLogIntervalSec then s
  else say (LDeepState now) (s <| g_lastDeepStateLogQpc := now |>).

(** ** The creation of a component *)

Definition VRInputError_None : Z := 0.
Definition k_ulInvalidInputComponentHandle : Z := 0.

Definition handedness_of (path : list byte) : option nat :=
  if contains (str "/left") path then Some 0%nat
  else if contains (str "/right") path then Some 1%nat else None.

Definition uninit (h : HandState) : HandState := mkHand false (previous h).

(** What follows the original call: its [result], the handle it wrote, and the
    path argument. *)
Definition DetourCreateSkeleton (result : Z) (pHandle : option Z) (pchSkeletonPath : option (list byte)) (s : Skel) : Skel :=
  let s := if g_firstCreateSkeletonLogged s then s
           else say LFirstCreate (s <| g_firstCreateSkeletonLogged := true |>) in
  match pHandle, pchSkeletonPath with
  | Some handle, Some path =>
    if (result =? VRInputError_None)%Z && negb (handle =? k_ulInvalidInputComponentHandle)%Z then
      match handedness_of path with
      | Some handedness =>
        say (LMapped handle handedness)
          (s <| g_handleToHandedness ::= <[handle := handedness]> |>
             <| g_handState ::= alter uninit handedness |>
             <| g_verboseCallsRemaining ::= <[handedness := kVerboseFirstCalls]> |>)
      | None => say (LSkipped handle) s
      end
    else if (result =? VRInputError_None)%Z then s else say (LFailed result) s
  | _, _ => if (result =? VRInputError_None)%Z then s else say (LFailed result) s
  end.

(** ** The update of a component *)

Definition handBase (handedness : nat) : nat := (handedness * 5)%nat.

(** The effective smoothness of a finger of this hand. *)
Definition finger_smoothness (cfg : FingerSmoothingConfig) (handedness f : nat) : byte :=
  let s := nth_byte (per_finger_smoothness cfg) (handBase handedness + f) in
  if (bz s =? 0)%Z then fs_smoothness cfg else s.

Definition anySmoothing (cfg : FingerSmoothingConfig) (handedness : nat) : bool :=
  existsb (fun f => negb (bz (finger_smoothness cfg handedness f) =? 0)%Z) (seq 0 5).

Definition in_mask (cfg : FingerSmoothingConfig) (handedness finger : nat) : bool :=
  Z.testbit (fs_finger_mask cfg) (Z.of_nat (handBase handedness + finger)).

Definition blend_bone `{Libmf} (prev inc : Bone) (alpha : float) : Bone :=
  mkBone (Lerpf (v0 prev) (v0 inc) alpha) (Lerpf (v1 prev) (v1 inc) alpha) (Lerpf (v2 prev) (v2 inc) alpha)
    (v3 inc) (SlerpQuat (orientation prev) (orientation inc) alpha).

Definition smooth_bone `{Libmf} (cfg : FingerSmoothingConfig) (handedness : nat) (prev : list Bone) (i : nat) (inc : Bone) : Bone :=
  match FingerIndexForBone i with
  | Some finger =>
    if in_mask cfg handedness finger then
      let alpha := SmoothnessToAlpha (finger_smoothness cfg handedness finger) in
      if alpha >=? f_one then inc else blend_bone (nth i prev bone_zero) inc alpha
    else inc
  | None => inc
  end.

Definition bump (f : PerHandStats -> PerHandStats) (handedness : nat) (s : Skel) : Skel :=
  s <| g_stats ::= alter f handedness |>.

(** Where the first part ends: with the call of the original, or at the lock of
    the hand's state.  The bones are those the caller's pointer and count give. *)
Inductive begun :=
| Forward (bones : option (list Bone)) (count : Z)
| AtLock (handedness : nat) (cfg : FingerSmoothingConfig) (bones : list Bone).

Definition log_first_unknown (handle : Z) (s : Skel) : Skel :=
  if g_firstUnknownHandleLogged s then s else say (LFirstUnknown handle) (s <| g_firstUnknownHandleLogged := true |>).

Definition first_call (handedness : nat) (s : Skel) : Skel :=
  match g_stats s !! handedness with
  | Some st => if firstCallLogged st then s
               else say (LFirstCall handedness) (bump (fun st => st <| firstCallLogged := true |>) handedness s)
  | None => s
  end.

Definition verbose_call (handedness : nat) (s : Skel) : Skel :=
  let rem := nth handedness (g_verboseCallsRemaining s) 0%Z in
  let s := s <| g_verboseCallsRemaining ::= <[handedness := s32 (rem - 1)]> |> in
  if (0 <? rem)%Z then say (LVerbose handedness (kVerboseFirstCalls - rem + 1)) s else s.

Definition add1 (n : Z) : Z := u64 (n + 1).

(** [deep_now], [stats_now]: the counter where the two summaries read it. *)
Definition update_begin (deep_now stats_now : Z) (cfg : FingerSmoothingConfig) (ulComponent : Z)
    (pTransforms : option (list Bone)) (unTransformCount : Z) (s : Skel) : begun * Skel :=
  let invalid := match pTransforms with None => true | Some _ => negb (unTransformCount =? Z.of_nat kBones)%Z end in
  match pTransforms, (negb (g_driver s) || invalid) with
  | Some bones, false =>
    match g_handleToHandedness s !! ulComponent with
    | None =>
      let s := s <| g_unknownHandleCalls ::= add1 |> in
      (Forward pTransforms unTransformCount, MaybeLogStats stats_now (log_first_unknown ulComponent s))
    | Some handedness =>
      let s := bump (fun st => st <| totalCalls ::= add1 |>) handedness s in
      let s := MaybeLogDeepState deep_now (verbose_call handedness (first_call handedness s)) in
      if negb (anySmoothing cfg handedness) then
        (Forward pTransforms unTransformCount,
         MaybeLogStats stats_now (bump (fun st => st <| passthroughCalls ::= add1 |>) handedness s))
      else (AtLock handedness cfg bones, s)
    end
  | _, _ => (Forward pTransforms unTransformCount, if invalid then s <| g_invalidTransformCalls ::= add1 |> else s)
  end.

(** The locked section, the counter, and the bones handed to the original. *)
Definition update_finish `{Libmf} (now : Z) (handedness : nat) (cfg : FingerSmoothingConfig) (bones : list Bone) (s : Skel)
    : list Bone * Skel :=
  match g_handState s !! handedness with
  | None => (bones, s)
  | Some state =>
    let smoothed :=
      if initialized state then imap (smooth_bone cfg handedness (previous state)) bones else bones in
    let s := s <| g_handState ::= <[handedness := mkHand true smoothed]> |> in
    (smoothed, MaybeLogStats now (bump (fun st => st <| smoothedCalls ::= add1 |>) handedness s))
  end.

(** ** Init and Shutdown *)

Definition skel_Init (freq : Z) (s : Skel) : Skel :=
  say LArmed
    (mkSkel true [hand_init; hand_init] ∅ [stats_zero; stats_zero] 0 0 0 0 freq
      [kVerboseFirstCalls; kVerboseFirstCalls] false false (log_ s)).

(** The counter at the three places that read it; the last dump is forced by an
    old enough time stamp. *)
Definition skel_Shutdown (stats_now old_now deep_now : Z) (s : Skel) : Skel :=
  let s := MaybeLogStats stats_now s in
  let interval := default 0%Z (trunc_to_Z (d_mul kDeepStateLogIntervalSec (d_of_Z (g_qpcFreq s)))) in
  let s := s <| g_lastDeepStateLogQpc := (old_now - (interval + 1))%Z |> in
  let s := say LDisarmed (MaybeLogDeepState deep_now s) in
  s <| g_handleToHandedness := ∅ |> <| g_handState ::= map uninit |>.

(** ** The system

    Updates between their two parts are [flying]; every other call is one step.
    A caller that announces 31 bones has 31 bones.  [late]: the updates of each
    hand that were between their parts when the module was last initialised. *)

Record System := mkSystem { sk : Skel; flying : list (nat * FingerSmoothingConfig * list Bone); late : nat -> Z }.

Definition in_flight (h : nat) (s : System) : Z := Z.of_nat (length (filter (fun u => u.1.1 = h) (flying s))).

Definition announced (pTransforms : option (list Bone)) (count : Z) : Prop :=
  forall bones, pTransforms = Some bones -> count = Z.of_nat kBones -> length bones = kBones.

Inductive sk_step `{Libmf} : System -> System -> Prop :=
| st_forward d t cfg c p n s fl l b k s' :
    announced p n -> update_begin d t cfg c p n s = (Forward b k, s') -> sk_step (mkSystem s fl l) (mkSystem s' fl l)
| st_begin d t cfg c p n s fl l h cfg' bones s' :
    announced p n -> update_begin d t cfg c p n s = (AtLock h cfg' bones, s') ->
    sk_step (mkSystem s fl l) (mkSystem s' ((h, cfg', bones) :: fl) l)
| st_finish t h cfg bones s fl1 fl2 l :
    sk_step (mkSystem s (fl1 ++ (h, cfg, bones) :: fl2) l) (mkSystem (update_finish t h cfg bones s).2 (fl1 ++ fl2) l)
| st_create r ph path s fl l : sk_step (mkSystem s fl l) (mkSystem (DetourCreateSkeleton r ph path s) fl l)
| st_shutdown t1 t2 t3 s fl l : sk_step (mkSystem s fl l) (mkSystem (skel_Shutdown t1 t2 t3 s) fl l)
| st_init freq s fl l :
    sk_step (mkSystem s fl l) (mkSystem (skel_Init freq s) fl (fun h => in_flight h (mkSystem s fl l))).

Definition sk_start : System := mkSystem skel_static [] (fun _ => 0%Z).

(** ** The invariant *)

Definition stats_balance (st : PerHandStats) (n : Z) : Prop :=
  (totalCalls st = u64 (smoothedCalls st + passthroughCalls st + n))%Z.

Record sys_ok (s : System) : Prop := {
  ok_hands : length (g_handState (sk s)) = 2%nat;
  ok_prev : Forall (fun h => length (previous h) = kBones) (g_handState (sk s));
  ok_map : map_Forall (fun _ h => (h < 2)%nat) (g_handleToHandedness (sk s));
  ok_stats : length (g_stats (sk s)) = 2%nat;
  ok_verbose : length (g_verboseCallsRemaining (sk s)) = 2%nat;
  ok_flying : Forall (fun u => (u.1.1 < 2)%nat /\ length u.2 = kBones) (flying s);
  ok_balance : forall h st, g_stats (sk s) !! h = Some st -> stats_balance st (in_flight h s - late s h) }.

Section Kept.
Context (lt : nat -> Z).
#[local] Abbreviation mkSys s fl := (mkSystem s fl lt).

(** What the log lines and their throttles leave alone. *)
Definition core (s : Skel) := (g_handState s, g_handleToHandedness s, g_stats s, length (g_verboseCallsRemaining s)).

Lemma core_say l s : core (say l s) = core s.
Proof. done. Qed.
Lemma core_stats t s : core (MaybeLogStats t s) = core s.
Proof. unfold MaybeLogStats. by repeat case_match. Qed.
Lemma core_deep t s : core (MaybeLogDeepState t s) = core s.
Proof. unfold MaybeLogDeepState. by repeat case_match. Qed.
Lemma core_unknown c s : core (log_first_unknown c s) = core s.
Proof. unfold log_first_unknown. by case_match. Qed.
Lemma core_verbose h s : core (verbose_call h s) = core s.
Proof. unfold verbose_call. case_match; unfold core; cbn; by rewrite length_insert. Qed.

Lemma sys_ok_core s s' fl : core s' = core s -> sys_ok (mkSys s fl) -> sys_ok (mkSys s' fl).
Proof. intros [= E1 E2 E3 E4] []. constructor; cbn in *; by rewrite ?E1, ?E2, ?E3, ?E4. Qed.

(** An update of one hand's counters that keeps the balance. *)
Lemma sys_ok_bump f h s fl fl' :
  sys_ok (mkSys s fl) ->
  Forall (fun u => (u.1.1 < 2)%nat /\ length u.2 = kBones) fl' ->
  (forall k, k <> h -> in_flight k (mkSys s fl') = in_flight k (mkSys s fl)) ->
  (forall st, stats_balance st (in_flight h (mkSys s fl) - lt h) -> stats_balance (f st) (in_flight h (mkSys s fl') - lt h)) ->
  sys_ok (mkSys (bump f h s) fl').
Proof.
  intros [H1 H2 H3 H4 H5 H6 H7] Hfl Hk Hf. constructor; cbn in *; try done; [by rewrite length_alter|].
  intros k st Hst. destruct (decide (k = h)) as [->|Hne].
  - rewrite list_lookup_alter_eq in Hst. apply fmap_Some in Hst as (st0 & Hst & ->). by apply Hf, H7.
  - rewrite list_lookup_alter_ne in Hst by done. unfold in_flight in *. cbn in *. rewrite Hk by done. by apply H7.
Qed.

Lemma u64_add_l b c : u64 (u64 b + c) = u64 (b + c).
Proof. unfold u64. by rewrite Zplus_mod_idemp_l. Qed.

(** A wrapped summand is as good as the summand itself. *)
Lemma u64_add_m a b c : u64 (a + u64 b + c) = u64 (a + b + c).
Proof.
  replace (a + u64 b + c)%Z with (u64 b + (a + c))%Z by lia. rewrite u64_add_l. f_equal. lia.
Qed.

Lemma in_flight_cons k s u fl :
  in_flight k (mkSys s (u :: fl)) = ((if decide (u.1.1 = k) then 1 else 0) + in_flight k (mkSys s fl))%Z.
Proof. unfold in_flight. cbn [flying]. rewrite filter_cons. case_decide; cbn [length]; lia. Qed.

Lemma first_call_ok h s fl : sys_ok (mkSys s fl) -> sys_ok (mkSys (first_call h s) fl).
Proof.
  intros Hs. unfold first_call. destruct (g_stats s !! h) as [st|]; [|done]. destruct (firstCallLogged st); [done|].
  eapply sys_ok_core; [apply core_say|]. by apply (sys_ok_bump _ h s fl fl); try apply Hs.
Qed.

Lemma update_begin_ok d t cfg c p n s fl :
  announced p n -> sys_ok (mkSys s fl) ->
  match update_begin d t cfg c p n s with
  | (Forward _ _, s') => sys_ok (mkSys s' fl)
  | (AtLock h cfg' bones, s') => sys_ok (mkSys s' ((h, cfg', bones) :: fl))
  end.
Proof.
  intros Ha Hs. unfold update_begin. set (invalid := match p with None => true | Some _ => _ end).
  assert (sys_ok (mkSys (if invalid then s <| g_invalidTransformCalls ::= add1 |> else s) fl)) as Hinv
    by (destruct invalid; [by eapply sys_ok_core; [|exact Hs]|done]).
  destruct p as [bones|]; [|done]. destruct (negb (g_driver s) || invalid) eqn:Hi; [done|]. clear Hinv.
  apply orb_false_iff in Hi as [_ Hi]. subst invalid. apply negb_false_iff, Z.eqb_eq in Hi.
  destruct (g_handleToHandedness s !! c) as [h|] eqn:Hc.
  2: { eapply sys_ok_core; [|exact Hs]. by rewrite core_stats, core_unknown. }
  assert (h < 2)%nat as Hh by apply (ok_map _ Hs c h Hc).
  set (s1 := bump _ h s). cbv zeta.
  assert (forall fl', Forall (fun u => (u.1.1 < 2)%nat /\ length u.2 = kBones) fl' ->
    (forall k, k <> h -> in_flight k (mkSys s fl') = in_flight k (mkSys s fl)) ->
    in_flight h (mkSys s fl') = (in_flight h (mkSys s fl) + 1)%Z ->
    sys_ok (mkSys (MaybeLogDeepState d (verbose_call h (first_call h s1))) fl')) as Hgen.
  { intros fl' Hf Hk H1. eapply sys_ok_core; [by rewrite core_deep, core_verbose|]. apply first_call_ok.
    apply (sys_ok_bump _ h s fl fl'); try done. rewrite H1. unfold stats_balance, add1. cbn.
    intros st ->. rewrite u64_add_l. f_equal. lia. }
  destruct (anySmoothing cfg h); cbn [negb].
  - apply Hgen.
    + constructor; [by cbn; auto|apply (ok_flying _ Hs)].
    + intros k Hk. rewrite in_flight_cons, decide_False by (cbn; congruence). done.
    + rewrite in_flight_cons, decide_True by done. lia.
  - specialize (Hgen ((h, cfg, bones) :: fl)). eapply sys_ok_core; [apply core_stats|].
    apply (sys_ok_bump _ h _ ((h, cfg, bones) :: fl) fl).
    + apply Hgen.
      * constructor; [by cbn; auto|apply (ok_flying _ Hs)].
      * intros k Hk. rewrite in_flight_cons, decide_False by (cbn; congruence). done.
      * rewrite in_flight_cons, decide_True by done. lia.
    + apply (ok_flying _ Hs).
    + intros k Hk. rewrite in_flight_cons, decide_False by (cbn; congruence). done.
    + intros []. rewrite in_flight_cons, decide_True by done. unfold stats_balance, add1.
      cbn -[u64 in_flight]. intros ->. rewrite u64_add_m. unfold in_flight. cbn [flying]. f_equal. lia.
Qed.

End Kept.
Arguments sys_ok_core {lt}.
Arguments sys_ok_bump {lt}.
Arguments in_flight_cons {lt}.
Arguments first_call_ok {lt}.
Arguments update_begin_ok {lt}.

Lemma start_ok : sys_ok sk_start.
Proof.
  constructor; cbn; [done|by repeat constructor|apply map_Forall_empty|done|done|constructor|].
  intros [|[|h]] st; cbn; by intros [= <-].
Qed.

Section Props.
Context `{Libmf} (lt : nat -> Z).
#[local] Abbreviation mkSys s fl := (mkSystem s fl lt).

Lemma update_finish_ok t h cfg bones s fl1 fl2 :
  sys_ok (mkSys s (fl1 ++ (h, cfg, bones) :: fl2)) ->
  sys_ok (mkSys (update_finish t h cfg bones s).2 (fl1 ++ fl2)).
Proof.
  intros Hs. pose proof (ok_flying _ Hs) as Hf. cbn [flying] in Hf.
  apply Forall_app in Hf as [Hf1 [[Hh Hb] Hf2]%list.Forall_cons]. cbn in Hh, Hb.
  unfold update_finish. destruct (lookup_lt_is_Some_2 (g_handState s) h) as [st Hst].
  { pose proof (ok_hands _ Hs) as Hl. cbn in Hl. by rewrite Hl. }
  rewrite Hst. set (sm := if initialized st then _ else _). cbn [snd].
  assert (length sm = kBones) as Hsm by (unfold sm; destruct (initialized st); [by rewrite length_imap|done]).
  eapply sys_ok_core; [apply core_stats|]. set (s1 := s <| g_handState ::= _ |>).
  assert (sys_ok (mkSys s1 (fl1 ++ (h, cfg, bones) :: fl2))) as Hs1.
  { destruct Hs as [H1 H2 H3 H4 H5 H6 H7]. constructor; cbn in *; try done; [by rewrite length_insert|].
    apply Forall_insert; done. }
  assert (forall k, in_flight k (mkSys s1 (fl1 ++ (h, cfg, bones) :: fl2)) =
    ((if decide (h = k) then 1 else 0) + in_flight k (mkSys s1 (fl1 ++ fl2)))%Z) as Hcount.
  { intros k. unfold in_flight. cbn [flying]. rewrite !list.filter_app, filter_cons, !length_app. cbn [fst snd].
    case_decide; cbn [length]; lia. }
  apply (sys_ok_bump _ h _ _ _ Hs1).
  - by apply Forall_app.
  - intros k Hk. rewrite Hcount, decide_False by done. lia.
  - rewrite Hcount, decide_True by done. unfold stats_balance, add1. cbn. intros st0 ->.
    rewrite <-!Z.add_assoc, u64_add_l. f_equal. lia.
Qed.

Lemma create_ok r ph path s fl : sys_ok (mkSys s fl) -> sys_ok (mkSys (DetourCreateSkeleton r ph path s) fl).
Proof.
  intros Hs. unfold DetourCreateSkeleton.
  set (s1 := if g_firstCreateSkeletonLogged s then s else _).
  assert (sys_ok (mkSys s1 fl)) as Hs1
    by (unfold s1; destruct (g_firstCreateSkeletonLogged s); [done|by eapply sys_ok_core; [|exact Hs]]).
  clearbody s1. clear Hs.
  assert (sys_ok (mkSys (if (r =? VRInputError_None)%Z then s1 else say (LFailed r) s1) fl)) as Hl
    by (case_match; [done|by eapply sys_ok_core; [|exact Hs1]]).
  destruct ph as [handle|], path as [path|]; try exact Hl.
  destruct ((r =? VRInputError_None)%Z && _); [|exact Hl]. clear Hl.
  destruct (handedness_of path) as [h|] eqn:Hp; [|by eapply sys_ok_core; [|exact Hs1]].
  assert (h < 2)%nat by (revert Hp; unfold handedness_of; repeat case_match; intros [= <-]; lia).
  destruct Hs1 as [H1 H2 H3 H4 H5 H6 H7]. constructor; cbn in *; try done.
  - by rewrite length_alter.
  - apply Forall_alter; [done|]. intros x _ Hx. by destruct x.
  - by apply map_Forall_insert_2.
  - by rewrite length_insert.
Qed.

Lemma shutdown_ok t1 t2 t3 s fl : sys_ok (mkSys s fl) -> sys_ok (mkSys (skel_Shutdown t1 t2 t3 s) fl).
Proof.
  intros Hs. unfold skel_Shutdown. set (s1 := say LDisarmed _).
  assert (sys_ok (mkSys s1 fl)) as [H1 H2 H3 H4 H5 H6 H7].
  { eapply sys_ok_core; [|exact Hs]. unfold s1. rewrite core_say, core_deep.
    transitivity (core (MaybeLogStats t1 s)); [done|apply core_stats]. }
  clearbody s1. constructor; cbn in *; try done.
  - by rewrite length_map.
  - apply Forall_fmap. eapply list.Forall_impl; [exact H2|]. by intros [].
Qed.

Lemma hands_init_ok freq s fl :
  sys_ok (mkSys s fl) -> sys_ok (mkSystem (skel_Init freq s) fl (fun h => in_flight h (mkSys s fl))).
Proof.
  intros [_ _ _ _ _ H6 _]. constructor; cbn -[in_flight]; [done|by repeat constructor|apply map_Forall_empty|done|done|done|].
  intros h st Hst. unfold in_flight. cbn [flying]. rewrite Z.sub_diag.
  assert (st = stats_zero) as -> by (destruct h as [|[|h]]; cbn in Hst; by simplify_eq). reflexivity.
Qed.
End Props.

Lemma sk_step_ok `{Libmf} a b : sk_step a b -> sys_ok a -> sys_ok b.
Proof.
  intros Hstep Hs. destruct Hstep as [d t cfg c p n s fl l b k s' Ha E|d t cfg c p n s fl l h cfg' bones s' Ha E| | | |freq s fl l].
  - pose proof (update_begin_ok d t cfg c p n s fl Ha Hs) as Hb. by rewrite E in Hb.
  - pose proof (update_begin_ok d t cfg c p n s fl Ha Hs) as Hb. by rewrite E in Hb.
  - by apply update_finish_ok.
  - by apply create_ok.
  - by apply shutdown_ok.
  - by apply hands_init_ok.
Qed.


(** ** One frame *)

Section Frames.
Context `{Libmf}.

Lemma alpha_table :
  forallb (fun n => let a := SmoothnessToAlpha (zb (Z.of_nat n)) in
    fle (f_lit 5 100) a && fle a f_one && Bool.eqb (a >=? f_one) (n =? 0)%nat &&
    ((n =? 255)%nat || (SmoothnessToAlpha (zb (Z.of_nat (S n))) <=? a)) &&
    ((n <? 100)%nat || bool_decide (a = SmoothnessToAlpha (zb 100)))) (seq 0 256) = true.
Proof. vm_compute. reflexivity. Qed.

Lemma alpha_facts (b : byte) :
  let a := SmoothnessToAlpha b in
  fle (f_lit 5 100) a = true /\ fle a f_one = true /\ (a >=? f_one) = (bz b =? 0)%Z.
Proof.
  cbv zeta. pose proof alpha_table as Ht. rewrite forallb_forall in Ht. pose proof (bz_range b) as Hb.
  specialize (Ht (Z.to_nat (bz b))). rewrite in_seq in Ht. specialize (Ht ltac:(lia)). cbv zeta in Ht.
  rewrite Z2Nat.id, zb_bz in Ht by lia. rewrite !andb_true_iff in Ht. destruct Ht as ((((-> & ->) & He) & _) & _).
  apply Bool.eqb_prop in He. rewrite He. split_and!; [done..|].
  destruct (Nat.eqb_spec (Z.to_nat (bz b)) 0), (Z.eqb_spec (bz b) 0); (done || lia).
Qed.

(** The bones an update smooths. *)
Definition smoothed_bone (cfg : FingerSmoothingConfig) (handedness i : nat) : bool :=
  match FingerIndexForBone i with
  | Some f => in_mask cfg handedness f && negb (bz (finger_smoothness cfg handedness f) =? 0)%Z
  | None => false
  end.

Definition bone_alpha (cfg : FingerSmoothingConfig) (handedness i : nat) : float :=
  match FingerIndexForBone i with
  | Some f => SmoothnessToAlpha (finger_smoothness cfg handedness f)
  | None => f_one
  end.

Lemma smooth_bone_cases cfg h prev i b :
  smooth_bone cfg h prev i b =
    if smoothed_bone cfg h i then blend_bone (nth i prev bone_zero) b (bone_alpha cfg h i) else b.
Proof.
  unfold smooth_bone, smoothed_bone, bone_alpha. destruct (FingerIndexForBone i) as [f|]; [|done].
  destruct (in_mask cfg h f); [|done]. cbv zeta. destruct (alpha_facts (finger_smoothness cfg h f)) as (_ & _ & ->).
  by destruct (bz _ =? 0)%Z.
Qed.

Definition with_master (m : bool) (c : FingerSmoothingConfig) : FingerSmoothingConfig :=
  mkFinger m (fs_smoothness c) (fs_finger_mask c) (fs_reserved c) (per_finger_smoothness c) (fs_reserved2 c).

Lemma smoothed_bone_range cfg h i : smoothed_bone cfg h i = true -> (2 <= i <= 25)%nat.
Proof.
  unfold smoothed_bone. destruct (FingerIndexForBone i) eqn:E; [|done]. intros _. revert E. unfold FingerIndexForBone.
  repeat case_match; intros [= <-];
    repeat match goal with H : _ && _ = true |- _ => apply andb_true_iff in H as [?%Nat.leb_le ?%Nat.leb_le] end; lia.
Qed.

(** The locked section, its counters and log set aside. *)
Definition smoothed_frame (cfg : FingerSmoothingConfig) (h : nat) (st : HandState) (bones : list Bone) : list Bone :=
  if initialized st then imap (smooth_bone cfg h (previous st)) bones else bones.

Lemma finish_fields t h cfg bones s st :
  g_handState s !! h = Some st ->
  let '(out, s') := update_finish t h cfg bones s in
  out = smoothed_frame cfg h st bones /\
  g_handState s' = <[h := mkHand true out]> (g_handState s) /\
  g_handleToHandedness s' = g_handleToHandedness s.
Proof.
  intros Hst. unfold update_finish. rewrite Hst. fold (smoothed_frame cfg h st bones).
  match goal with |- context [MaybeLogStats t ?x] => pose proof (core_stats t x) as Hc end.
  injection Hc as E1 E2 _ _. by split_and!.
Qed.

(** An update at the lock hands on 31 bones and remembers exactly those:
    on the first frame after a creation the incoming ones, later each bone
    incoming or, if it belongs to a finger in the mask whose effective smoothness
    is not 0, the blend of the remembered bone with it by a factor from 0.05 to
    below 1 that keeps the fourth component; the other hand and the map are
    untouched, and the master switch has no effect at all. *)
Theorem frame_smoothed t h cfg bones s fl1 fl2 lt st
  (Hs : sys_ok (mkSystem s (fl1 ++ (h, cfg, bones) :: fl2) lt))
  (Hst : g_handState s !! h = Some st) :
  let '(out, s') := update_finish t h cfg bones s in
  length out = kBones /\
  g_handState s' = <[h := mkHand true out]> (g_handState s) /\
  g_handleToHandedness s' = g_handleToHandedness s /\
  (initialized st = false -> out = bones) /\
  (initialized st = true -> forall i b, bones !! i = Some b ->
    out !! i = Some (if smoothed_bone cfg h i
                     then blend_bone (nth i (previous st) bone_zero) b (bone_alpha cfg h i) else b)) /\
  (forall i, smoothed_bone cfg h i = true ->
    (2 <= i <= 25)%nat /\ fle (f_lit 5 100) (bone_alpha cfg h i) = true /\ flt (bone_alpha cfg h i) f_one = true) /\
  (forall m, update_finish t h (with_master m cfg) bones s = (out, s')).
Proof.
  destruct (update_finish t h cfg bones s) as [out s'] eqn:E.
  assert (forall m, update_finish t h (with_master m cfg) bones s = (out, s')) as Hm by (intros m; exact E).
  assert (length bones = kBones) as Hb.
  { pose proof (ok_flying _ Hs) as Hf. cbn [flying] in Hf.
    apply Forall_app in Hf as [_ [[_ Hb] _]%list.Forall_cons]. done. }
  pose proof (finish_fields t h cfg bones s st Hst) as Hf. rewrite E in Hf. destruct Hf as (-> & E1 & E2).
  unfold smoothed_frame in *. split_and!; try done.
  - destruct (initialized st); [by rewrite length_imap|done].
  - intros Hi. by rewrite Hi.
  - intros Hi i b Hib. rewrite Hi, list_lookup_imap, Hib. cbn. by rewrite smooth_bone_cases.
  - intros i Hi. pose proof (smoothed_bone_range _ _ _ Hi) as Hr. unfold smoothed_bone, bone_alpha in *.
    destruct (FingerIndexForBone i) as [f|]; [|done]. apply andb_true_iff in Hi as [_ Hz].
    destruct (alpha_facts (finger_smoothness cfg h f)) as (H1 & H2 & H3). split_and!; [lia|lia|done|].
    rewrite flt_negb; [|by apply (fle_not_nan _ _ H2)|done].
    change (fle f_one _) with (SmoothnessToAlpha (finger_smoothness cfg h f) >=? f_one). by rewrite H3.
Qed.

(** ** Values that are not numbers *)

Definition bad_position (b : Bone) : bool := is_nan (v0 b) || is_nan (v1 b) || is_nan (v2 b).
Definition bad_quat (q : Quatf) : bool := is_nan (qf_w q) || is_nan (qf_x q) || is_nan (qf_y q) || is_nan (qf_z q).
Definition bad (b : Bone) : bool := bad_position b || bad_quat (orientation b).

Lemma Lerpf_nan a b t : is_nan a = true \/ is_nan b = true -> is_nan (Lerpf a b t) = true.
Proof. unfold Lerpf. intros [|]; auto with wk. Qed.

Lemma slerp_nan a b t :
  is_nan (dot4 a b) = true -> is_nan (qf_w (SlerpQuat a b t)) = true.
Proof.
  intros Hd. unfold SlerpQuat. cbv zeta. rewrite (flt_nan_l _ fzero Hd).
  assert ((dot4 a b >? kAligned) = false) as Ha by by apply flt_nan_r.
  cbn -[dot4 kAligned flt fgt f_add f_sub f_mul f_div]. rewrite Ha. cbn [qf_w]. auto 8 with wk.
Qed.

Lemma dot4_nan a b : bad_quat a = true \/ bad_quat b = true -> is_nan (dot4 a b) = true.
Proof. unfold dot4, bad_quat. rewrite !orb_true_iff. intuition auto 8 with wk. Qed.

Lemma blend_position prev inc alpha :
  bad_position prev = true \/ bad_position inc = true -> bad_position (blend_bone prev inc alpha) = true.
Proof.
  unfold bad_position. cbn [blend_bone v0 v1 v2]. rewrite !orb_true_iff. intuition auto using Lerpf_nan.
Qed.

Lemma blend_bad prev inc alpha : bad prev = true \/ bad inc = true -> bad (blend_bone prev inc alpha) = true.
Proof.
  unfold bad. rewrite !orb_true_iff. intros Hb.
  assert ((bad_position prev = true \/ bad_position inc = true) \/
          (bad_quat (orientation prev) = true \/ bad_quat (orientation inc) = true)) as [Hp|Hq] by tauto.
  - left. by apply blend_position.
  - right. unfold bad_quat. cbn [blend_bone orientation]. by rewrite (slerp_nan _ _ _ (dot4_nan _ _ Hq)).
Qed.

(** Consecutive frames of one hand: what each hands on. *)
Fixpoint hand_frames (h : nat) (fs : list (Z * FingerSmoothingConfig * list Bone)) (s : Skel) : list (list Bone) :=
  match fs with
  | [] => []
  | (t, cfg, bones) :: fs => let '(out, s') := update_finish t h cfg bones s in out :: hand_frames h fs s'
  end.

Lemma finish_bad t h cfg bones s st i b :
  g_handState s !! h = Some st -> bones !! i = Some b -> smoothed_bone cfg h i = true ->
  bad b = true \/ (initialized st = true /\ bad (nth i (previous st) bone_zero) = true) ->
  let '(out, s') := update_finish t h cfg bones s in
  g_handState s' !! h = Some (mkHand true out) /\ bad (nth i out bone_zero) = true.
Proof.
  intros Hst Hb Hi Hbad. pose proof (finish_fields t h cfg bones s st Hst) as Hf.
  destruct (update_finish t h cfg bones s) as [out s']. destruct Hf as (-> & -> & _). split.
  - apply list_lookup_insert_eq. by eapply lookup_lt_Some.
  - unfold smoothed_frame. destruct (initialized st).
    + erewrite nth_lookup_Some; [|by rewrite list_lookup_imap, Hb]. rewrite smooth_bone_cases, Hi.
      apply blend_bad. tauto.
    + erewrite nth_lookup_Some by exact Hb. destruct Hbad as [|[]]; [done|congruence].
Qed.

(** A bone with one coordinate or quaternion component that is not a number,
    in one frame of a finger that is being smoothed, is handed on with such a
    component in that frame and in every later one, whatever the later frames
    hold and however the strength changes, until the hand's component is created
    again or a frame passes the finger through. *)
Theorem nan_bone_sticks h i t cfg bones fs s st b
  (Hst : g_handState s !! h = Some st) (Hb : bones !! i = Some b) (Hbad : bad b = true)
  (Hi : smoothed_bone cfg h i = true)
  (Hfs : Forall (fun f => length f.2 = kBones /\ smoothed_bone f.1.2 h i = true) fs) :
  Forall (fun out => bad (nth i out bone_zero) = true) (hand_frames h ((t, cfg, bones) :: fs) s).
Proof.
  pose proof (finish_bad t h cfg bones s st i b Hst Hb Hi (or_introl Hbad)) as Hf.
  cbn [hand_frames]. destruct (update_finish t h cfg bones s) as [out s']. destruct Hf as [Hs' Ho].
  constructor; [done|]. clear -Hs' Ho Hfs. revert out s' Hs' Ho.
  induction Hfs as [|[[t cfg] bones] fs [Hlen Hi] _ IH]; intros out s' Hs' Ho; cbn [hand_frames]; [constructor|].
  cbn [fst snd] in *. pose proof (smoothed_bone_range _ _ _ Hi) as Hr.
  destruct (lookup_lt_is_Some_2 bones i) as [b Hb]; [rewrite Hlen; unfold kBones; lia|].
  pose proof (finish_bad t h cfg bones s' _ i b Hs' Hb Hi (or_intror (conj eq_refl Ho))) as Hf.
  destruct (update_finish t h cfg bones s') as [out2 s2]. destruct Hf as [Hs2 Ho2]. constructor; [done|]. by eapply IH.
Qed.

End Frames.

(** ** Witnesses *)

#[local] Instance toy_libmf : Libmf := {| mf_acos x := x; mf_sin x := x; mf_cos x := x |}.

Definition still : Bone := mkBone fzero fzero fzero f_one (mkQuatf f_one fzero fzero fzero).
Definition stray : Bone := mkBone S754_nan fzero fzero f_one (mkQuatf f_one fzero fzero fzero).
Definition pose : list Bone := replicate kBones still.
Definition half : FingerSmoothingConfig := mkFinger false (zb 50) 0x3FF x00 (replicate 10 x00) (x00, x00).
Definition created : Skel := DetourCreateSkeleton 0 (Some 7%Z) (Some (str "/skeleton/hand/left")) (skel_Init 10000000 skel_static).

(** The left hand's component exists and its first frame is at the lock. *)
#[local] Abbreviation mkSys s fl := (mkSystem s fl (fun _ => 0%Z)).

Lemma created_ok : sys_ok (mkSys (update_begin 0 0 half 7 (Some pose) 31 created).2 [(0%nat, half, pose)]).
Proof.
  assert (sys_ok (mkSys created [])) as Hs.
  { apply create_ok. by eapply sys_ok_core; [|exact start_ok]. }
  pose proof (update_begin_ok (lt := fun _ => 0%Z) 0 0 half 7 (Some pose) 31 created []) as Hb.
  assert ((update_begin 0 0 half 7 (Some pose) 31 created).1 = AtLock 0 half pose) as Hl by (vm_compute; reflexivity).
  destruct (update_begin 0 0 half 7 (Some pose) 31 created) as [bg s1]. cbn [fst snd] in *. subst bg.
  apply Hb; [|exact Hs]. by intros ? [= <-] _.
Qed.

Definition at_lock : Skel := (update_begin 0 0 half 7 (Some pose) 31 created).2.

Lemma frame_smoothed_witness : (update_finish 0 0 half pose at_lock).1 = pose.
Proof.
  pose proof (frame_smoothed 0 0 half pose at_lock [] [] (fun _ => 0%Z) hand_init created_ok ltac:(vm_compute; reflexivity)) as Hp.
  destruct (update_finish 0 0 half pose at_lock) as [out s']. destruct Hp as (_ & _ & _ & Hp & _). exact (Hp eq_refl).
Defined.

Lemma nan_bone_sticks_witness :
  Forall (fun out => bad (nth 6 out bone_zero) = true)
    (hand_frames 0 [(0%Z, half, <[6%nat := stray]> pose); (0%Z, half, pose); (0%Z, half, pose)] at_lock).
Proof.
  refine (nan_bone_sticks 0 6 0 half (<[6%nat := stray]> pose) [(0%Z, half, pose); (0%Z, half, pose)] at_lock hand_init stray
    _ eq_refl eq_refl eq_refl _); [vm_compute; reflexivity|].
  repeat constructor.
Defined.

(** An update comes to the lock, the module is reloaded, and the update ends. *)
Definition reloaded : System :=
  mkSystem (update_finish 0 0 half pose (skel_Init 10000000 at_lock)).2 [] (fun h => in_flight h (mkSystem at_lock [(0%nat, half, pose)] (fun _ => 0%Z))).

