(* ===== verification/Hooks.v ===== *)
(** * Function hooking (core/src/driver/Hooking.h, Hooking.cpp,
      InterfaceHookInjector.cpp and the installers of two modules)

    The hook objects, their registry, the installation of hooks as interfaces
    are queried, and the removal of all of them with calls still under way.  The
    hooking library's answers are arguments; a call of a hooked function runs the
    detour while the hook is enabled. *)

From stdpp Require Import functions.
From S2P Require Import Prelude InputConfig PoseProvider Driver.

(** ** Hook objects and their registry *)

Inductive HookName :=
| GetGenericInterfaceHook | TrackedDevicePoseUpdatedHook005 | TrackedDevicePoseUpdatedHook006
| PublicCreateSkeletonHook | PublicUpdateSkeletonHook
| CreateBooleanHook | UpdateBooleanHook | CreateScalarHook | UpdateScalarHook.

#[export] Instance hook_name_eqdec : EqDecision HookName.
Proof. solve_decision. Defined.

Definition all_hooks : list HookName :=
  [GetGenericInterfaceHook; TrackedDevicePoseUpdatedHook005; TrackedDevicePoseUpdatedHook006;
   PublicCreateSkeletonHook; PublicUpdateSkeletonHook;
   CreateBooleanHook; UpdateBooleanHook; CreateScalarHook; UpdateScalarHook].

Record Hook := mkHook { originalFunc : option Z; enabled : bool; targetFunc : option Z }.
Definition hook_new : Hook := mkHook None false None.

(** [hooks]: the names in [IHook::hooks]. *)
Record Hooking := mkHooking {
  objects : HookName -> Hook; hooks : list HookName;
  s_featureFlags : Z; s_hooksInitialized : bool }.

#[export] Instance hooking_settable : Settable Hooking := fun s =>
  mkHooking (objects s) (hooks s) (s_featureFlags s) (s_hooksInitialized s).

Definition hooking_static : Hooking := mkHooking (fun _ => hook_new) [] 0 false.

Definition Exists (n : HookName) (s : Hooking) : bool := bool_decide (n ∈ hooks s).
Definition Register (n : HookName) (s : Hooking) : Hooking :=
  if Exists n s then s else s <| hooks ::= cons n |>.
Definition Unregister (n : HookName) (s : Hooking) : Hooking := s <| hooks ::= filter (fun m => m <> n) |>.

(** The library's answers for one hook: whether it is created, with which
    trampoline, and whether it is enabled. *)
Record MinHook := mkMH { mh_create : bool; mh_trampoline : Z; mh_enable : bool }.

Definition CreateHookInObjectVTable (a : MinHook) (target : Z) (n : HookName) (s : Hooking) : bool * Hooking :=
  let o := objects s n in
  let o := mkHook (originalFunc o) (enabled o) (Some target) in
  if negb (mh_create a) then (false, s <| objects ::= <[n := o]> |>) else
  let o := mkHook (Some (mh_trampoline a)) (enabled o) (targetFunc o) in
  if negb (mh_enable a) then (false, s <| objects ::= <[n := o]> |>) else
  (true, s <| objects ::= <[n := mkHook (originalFunc o) true (targetFunc o)]> |>).

Definition Destroy (o : Hook) : Hook := if enabled o then mkHook (originalFunc o) false (targetFunc o) else o.

Definition DestroyAll (s : Hooking) : Hooking :=
  s <| objects ::= fun f n => if Exists n s then Destroy (f n) else f n |> <| hooks := [] |>.

(** ** Installation *)

(** An object a query returned: null or not, whether its first word and the
    seven slots behind it are readable, and the addresses in the slots. *)
Record Iface := mkIface { if_nonnull : bool; if_readable : bool; vt_readable : bool; slot : nat -> Z }.

Definition kMaxSpread : Z := 0x10000.

Definition sane_vtable (i : Iface) : bool :=
  if_readable i && vt_readable i && (Z.abs (slot i 6 - slot i 0) <=? kMaxSpread)%Z.

Section Install.
Context (mh : HookName -> MinHook).

(** Registered whatever the creation answers. *)
Definition install_always (i : Iface) (k : nat) (n : HookName) (s : Hooking) : Hooking :=
  if Exists n s then s else Register n (CreateHookInObjectVTable (mh n) (slot i k) n s).2.

(** Registered only if the hook is in place. *)
Definition install_if_ready (i : Iface) (k : nat) (n : HookName) (s : Hooking) : Hooking :=
  if Exists n s then s else
  let '(ready, s) := CreateHookInObjectVTable (mh n) (slot i k) n s in
  if ready then Register n s else s.

Definition TryInstallPublicHooks (i : Iface) (s : Hooking) : Hooking :=
  if negb (if_nonnull i) then s else
  if Exists PublicCreateSkeletonHook s && Exists PublicUpdateSkeletonHook s then s else
  if negb (sane_vtable i) then s else
  install_always i 6 PublicUpdateSkeletonHook (install_always i 5 PublicCreateSkeletonHook s).

(** [armed]: the module's driver pointer is set. *)
Definition TryInstallScalarBooleanHooks (armed : bool) (i : Iface) (s : Hooking) : Hooking :=
  if negb (if_nonnull i) || negb armed then s else
  if Exists CreateBooleanHook s && Exists UpdateBooleanHook s && Exists CreateScalarHook s && Exists UpdateScalarHook s
  then s else
  if negb (sane_vtable i) then s else
  install_if_ready i 3 UpdateScalarHook (install_if_ready i 2 CreateScalarHook
    (install_if_ready i 1 UpdateBooleanHook (install_if_ready i 0 CreateBooleanHook s))).

Inductive HookModule := SmoothingHooks | InputHealthHooks (armed : bool) | NoHooks.

Definition driver_input (pchInterface : list byte) : bool :=
  contains (str "IVRDriverInput_") pchInterface && negb (contains (str "Internal") pchInterface).

Definition module_OnGetGenericInterface (pchInterface : list byte) (i : Iface) (s : Hooking) (m : HookModule) : Hooking :=
  match m with
  | SmoothingHooks => if if_nonnull i && driver_input pchInterface then TryInstallPublicHooks i s else s
  | InputHealthHooks armed =>
    if if_nonnull i && driver_input pchInterface then TryInstallScalarBooleanHooks armed i s else s
  | NoHooks => s
  end.

Definition flag_set (mask : Z) (s : Hooking) : bool := negb (Z.land (s_featureFlags s) mask =? 0)%Z.

(** [active]: the modules in the order they were initialised. *)
Definition DetourGetGenericInterface (active : list HookModule) (version : list byte) (i : Iface) (s : Hooking) : Hooking :=
  let s :=
    if flag_set kFeatureCalibration s && bool_decide (version = str "IVRServerDriverHost_005") then
      install_always i 1 TrackedDevicePoseUpdatedHook005 s
    else if flag_set kFeatureCalibration s && bool_decide (version = str "IVRServerDriverHost_006") then
      install_always i 1 TrackedDevicePoseUpdatedHook006 s
    else s in
  foldl (module_OnGetGenericInterface version i) s active.

Definition InjectHooks (mh_init : bool) (context : Iface) (featureFlags : Z) (s : Hooking) : bool * Hooking :=
  let s := s <| s_featureFlags := featureFlags |> in
  if (featureFlags =? 0)%Z then (true, s) else
  if negb mh_init then (false, s) else
  let s := s <| s_hooksInitialized := true |> in
  (true, Register GetGenericInterfaceHook
    (CreateHookInObjectVTable (mh GetGenericInterfaceHook) (slot context 0) GetGenericInterfaceHook s).2).
End Install.

(** ** The pose detours

    [sizeof_pose]: the size of the runtime's pose structure; a pose of another
    size goes on untouched. *)
Definition DetourTrackedDevicePoseUpdated `{Isometry.Eigen} (sizeof_pose unPoseStructSize : Z) (id : nat) (clk : Clock)
    (answer : option (list byte)) (s : Provider) (newPose : DriverPose) : option (Provider * DriverPose) :=
  if (unPoseStructSize =? sizeof_pose)%Z then HandleDevicePoseUpdated id clk answer s newPose
  else Some (s, newPose).

(** ** Removal, with detours under way

    A thread is at a detour's first instruction ([Jumped]), inside its counted
    body ([Inside]), or past the scope's end ([Leaving]).  [DisableHooks] removes
    the hooks, waits for the counter, and gives up after half a second. *)

Inductive thread := Jumped (n : HookName) | Inside (n : HookName) | Leaving (n : HookName).
Inductive disabling := Hooked | Draining | Disabled (drained : bool).

(** [g_inFlightDetours]; [stale]: calls of an original whose hook was gone. *)
Record Removal := mkRemoval {
  hk : Hooking; g_inFlightDetours : Z; threads : list thread; dpc : disabling; stale : nat }.

Definition finish_disable (s : Hooking) : Hooking := s <| s_featureFlags := 0%Z |>.

Inductive rm_step : Removal -> Removal -> Prop :=
| rm_jump n s c ts pc k : enabled (objects s n) = true ->
    rm_step (mkRemoval s c ts pc k) (mkRemoval s c (Jumped n :: ts) pc k)
| EnterDetour n s c ts1 ts2 pc k :
    rm_step (mkRemoval s c (ts1 ++ Jumped n :: ts2) pc k)
            (mkRemoval s (s32 (c + 1)) (ts1 ++ Inside n :: ts2) pc k)
| rm_original n s c ts pc k : Inside n ∈ ts ->
    rm_step (mkRemoval s c ts pc k) (mkRemoval s c ts pc (if enabled (objects s n) then k else S k))
| ExitDetour n s c ts1 ts2 pc k :
    rm_step (mkRemoval s c (ts1 ++ Inside n :: ts2) pc k)
            (mkRemoval s (s32 (c - 1)) (ts1 ++ Leaving n :: ts2) pc k)
| rm_return n s c ts1 ts2 pc k :
    rm_step (mkRemoval s c (ts1 ++ Leaving n :: ts2) pc k) (mkRemoval s c (ts1 ++ ts2) pc k)
| rm_destroy s c ts k : s_hooksInitialized s = true ->
    rm_step (mkRemoval s c ts Hooked k)
            (mkRemoval (DestroyAll (s <| s_hooksInitialized := false |>)) c ts Draining k)
| rm_drained s c ts k : (c <= 0)%Z ->
    rm_step (mkRemoval s c ts Draining k) (mkRemoval (finish_disable s) c ts (Disabled true) k)
| rm_timeout s c ts k : (0 < c)%Z ->
    rm_step (mkRemoval s c ts Draining k) (mkRemoval (finish_disable s) c ts (Disabled false) k).

(** ** Histories of the registry *)

Definition DisableHooks (s : Hooking) : Hooking :=
  if s_hooksInitialized s then finish_disable (DestroyAll (s <| s_hooksInitialized := false |>)) else s.

Inductive hook_op :=
| OInject (mh : HookName -> MinHook) (mh_init : bool) (context : Iface) (featureFlags : Z)
| OQuery (mh : HookName -> MinHook) (active : list HookModule) (version : list byte) (i : Iface)
| ODisable.

Definition hook_run (op : hook_op) (s : Hooking) : Hooking :=
  match op with
  | OInject mh ok i flags => (InjectHooks mh ok i flags s).2
  | OQuery mh active version i => DetourGetGenericInterface mh active version i s
  | ODisable => DisableHooks s
  end.

(** The hooks whose registration waits for their creation. *)
Definition careful (n : HookName) : bool :=
  match n with CreateBooleanHook | UpdateBooleanHook | CreateScalarHook | UpdateScalarHook => true | _ => false end.

(** The virtual-table slot of a hook of the driver-input interface. *)
Definition input_slot (n : HookName) : option nat :=
  match n with
  | CreateBooleanHook => Some 0 | UpdateBooleanHook => Some 1 | CreateScalarHook => Some 2 | UpdateScalarHook => Some 3
  | PublicCreateSkeletonHook => Some 5 | PublicUpdateSkeletonHook => Some 6 | _ => None
  end.

(** The target of an input hook was read from a sane table. *)
Definition sane_target (ops : list hook_op) (n : HookName) (t : Z) : Prop :=
  match input_slot n with
  | Some k => exists mh active version i,
      OQuery mh active version i ∈ ops /\ driver_input version = true /\ sane_vtable i = true /\ slot i k = t
  | None => True
  end.

Record hooks_ok (ops : list hook_op) (s : Hooking) : Prop := {
  ho_enabled : forall n, enabled (objects s n) = true ->
    n ∈ hooks s /\ (exists tr, originalFunc (objects s n) = Some tr) /\
    exists t, targetFunc (objects s n) = Some t /\ sane_target ops n t;
  ho_careful : forall n, n ∈ hooks s -> careful n = true -> enabled (objects s n) = true }.

Lemma Exists_spec n s : Exists n s = true <-> n ∈ hooks s.
Proof. apply bool_decide_eq_true. Qed.

Lemma Register_hooks n s : hooks (Register n s) = if Exists n s then hooks s else n :: hooks s.
Proof. unfold Register. by destruct (Exists n s). Qed.

Lemma Register_objects n s : objects (Register n s) = objects s.
Proof. unfold Register. by destruct (Exists n s). Qed.

Lemma Register_in n m s : m ∈ hooks (Register n s) <-> m = n \/ m ∈ hooks s.
Proof.
  rewrite Register_hooks. destruct (Exists n s) eqn:E; [|by rewrite list.elem_of_cons].
  apply Exists_spec in E. naive_solver.
Qed.

(** A creation touches its own object; enabled afterwards means in place. *)
Lemma create_fields a t n s :
  let '(ready, s') := CreateHookInObjectVTable a t n s in
  hooks s' = hooks s /\ (forall m, m <> n -> objects s' m = objects s m) /\
  targetFunc (objects s' n) = Some t /\
  (enabled (objects s n) = false -> enabled (objects s' n) = ready) /\
  (ready = true -> enabled (objects s' n) = true /\ originalFunc (objects s' n) = Some (mh_trampoline a)) /\
  (ready = false -> enabled (objects s' n) = enabled (objects s n)) /\
  (is_Some (originalFunc (objects s n)) -> is_Some (originalFunc (objects s' n))).
Proof.
  unfold CreateHookInObjectVTable. destruct (mh_create a), (mh_enable a); cbn;
    rewrite ?fn_lookup_insert; split_and!; try done; intros m Hm; by rewrite fn_lookup_insert_ne.
Qed.

Section Invariant.
Context (mh : HookName -> MinHook).

(** One installation of a hook that is not registered yet. *)
Lemma install_ok ops i k n s :
  hooks_ok ops s -> sane_target ops n (slot i k) ->
  hooks_ok ops (install_if_ready mh i k n s) /\ (careful n = false -> hooks_ok ops (install_always mh i k n s)).
Proof.
  intros [He Hc] Hn. unfold install_if_ready, install_always. destruct (Exists n s) eqn:Hex; [done|].
  assert (n ∉ hooks s) as Hnot by (rewrite <-Exists_spec; congruence).
  assert (enabled (objects s n) = false) as Hoff by (destruct (enabled (objects s n)) eqn:E; [by apply He in E as []|done]).
  pose proof (create_fields (mh n) (slot i k) n s) as Hf.
  destruct (CreateHookInObjectVTable (mh n) (slot i k) n s) as [ready s1].
  destruct Hf as (Hh & Hne & Ht & Hr & Hrdy & _). specialize (Hr Hoff). cbn [snd].
  assert (forall m, enabled (objects s1 m) = true ->
    (m = n /\ ready = true \/ m ∈ hooks s) /\ (exists tr, originalFunc (objects s1 m) = Some tr) /\
    exists t, targetFunc (objects s1 m) = Some t /\ sane_target ops m t) as He1.
  { intros m Hm. destruct (decide (m = n)) as [->|Hmn].
    - rewrite Hr in Hm. subst ready. split_and!; [by left|by eexists; apply Hrdy|by eexists].
    - rewrite Hne in * by done. destruct (He m Hm) as (? & ? & ?). split_and!; [by right|done..]. }
  split; [|intros Hca].
  - destruct ready.
    + constructor; rewrite Register_objects.
      * intros m Hm. rewrite Register_in, Hh. destruct (He1 m Hm) as ([[-> _]|] & ? & ?); split_and!; auto.
      * intros m [->|Hm]%Register_in Hcm; [done|]. rewrite Hh in Hm. rewrite Hne by congruence. by apply Hc.
    + constructor.
      * intros m Hm. rewrite Hh. by destruct (He1 m Hm) as ([[_ ?]|] & ? & ?).
      * intros m Hm Hcm. rewrite Hh in Hm. rewrite Hne by congruence. by apply Hc.
  - constructor; rewrite Register_objects.
    + intros m Hm. rewrite Register_in, Hh. destruct (He1 m Hm) as ([[-> _]|] & ? & ?); split_and!; auto.
    + intros m [->|Hm]%Register_in Hcm; [congruence|]. rewrite Hh in Hm. rewrite Hne by congruence. by apply Hc.
Qed.

Lemma query_ok ops active version i s :
  OQuery mh active version i ∈ ops -> hooks_ok ops s -> hooks_ok ops (DetourGetGenericInterface mh active version i s).
Proof.
  intros Hop Hs. unfold DetourGetGenericInterface.
  set (s1 := if flag_set kFeatureCalibration s && _ then _ else _).
  assert (hooks_ok ops s1) as Hs1 by (unfold s1; repeat case_match; [by apply install_ok..|done]).
  clearbody s1. clear Hs.
  assert (forall l s, hooks_ok ops s -> hooks_ok ops (foldl (module_OnGetGenericInterface mh version i) s l)) as Hfold.
  { induction l as [|m l IH]; [done|]. intros s2 Hs2. cbn [foldl]. apply IH. destruct m as [|armed|]; [| |done].
    - cbn. destruct (if_nonnull i && driver_input version) eqn:Hd; [|done]. apply andb_true_iff in Hd as [_ Hd].
      unfold TryInstallPublicHooks. destruct (negb _); [done|]. destruct (_ && _); [done|].
      destruct (sane_vtable i) eqn:Hv; [|done]. cbn [negb].
      apply install_ok; [apply install_ok; [done| |done]| |done]; by exists mh, active, version, i.
    - cbn. destruct (if_nonnull i && driver_input version) eqn:Hd; [|done]. apply andb_true_iff in Hd as [_ Hd].
      unfold TryInstallScalarBooleanHooks. destruct (_ || _); [done|]. destruct (_ && _ && _ && _); [done|].
      destruct (sane_vtable i) eqn:Hv; [|done]. cbn [negb].
      do 4 (apply install_ok; [|by exists mh, active, version, i]). done. }
  by apply Hfold.
Qed.
End Invariant.

Lemma sane_target_mono ops op n t : sane_target ops n t -> sane_target (ops ++ [op]) n t.
Proof.
  unfold sane_target. destruct (input_slot n); [|done]. intros (mh & a & v & i & Hin & Hrest).
  exists mh, a, v, i. split; [|done]. apply elem_of_app. by left.
Qed.

Lemma hooks_ok_mono ops op s : hooks_ok ops s -> hooks_ok (ops ++ [op]) s.
Proof.
  intros [He Hc]. constructor; [|done]. intros n Hn. destruct (He n Hn) as (? & ? & t & ? & ?).
  split_and!; [done..|]. exists t. split; [done|]. by apply sane_target_mono.
Qed.

Lemma destroy_ok ops s : hooks_ok ops s -> hooks_ok ops (DestroyAll s) /\ forall n, enabled (objects (DestroyAll s) n) = false.
Proof.
  intros [He _].
  assert (forall n, enabled (objects (DestroyAll s) n) = false) as Hoff.
  { intros n. cbn. destruct (Exists n s) eqn:Hex.
    - unfold Destroy. destruct (enabled (objects s n)) eqn:E; [done|by rewrite E].
    - destruct (enabled (objects s n)) eqn:E; [|done]. apply He in E as [Hin _]. apply Exists_spec in Hin. congruence. }
  split; [|done]. constructor; intros n Hn; [by rewrite Hoff in Hn|by apply not_elem_of_nil in Hn].
Qed.

Definition hook_history (ops : list hook_op) : Hooking := foldl (fun s op => hook_run op s) hooking_static ops.

Lemma hook_history_snoc ops op : hook_history (ops ++ [op]) = hook_run op (hook_history ops).
Proof. unfold hook_history. by rewrite foldl_snoc. Qed.

Lemma history_ok ops : hooks_ok ops (hook_history ops).
Proof.
  induction ops as [|op ops IH] using rev_ind; [constructor; [done|intros n Hn; by apply not_elem_of_nil in Hn]|].
  rewrite hook_history_snoc. apply (hooks_ok_mono _ op) in IH. set (s := hook_history ops) in *. clearbody s.
  destruct op as [mh ok i flags|mh active version i|]; cbn [hook_run].
  - unfold InjectHooks. assert (hooks_ok (ops ++ [OInject mh ok i flags]) (s <| s_featureFlags := flags |>)) as Hs
      by (destruct IH; by constructor).
    destruct (flags =? 0)%Z; [done|]. destruct ok; [|done]. cbn [negb snd].
    set (s1 := s <| s_featureFlags := flags |> <| s_hooksInitialized := true |>).
    assert (hooks_ok (ops ++ [OInject mh true i flags]) s1) as Hs1 by (destruct IH; by constructor).
    pose proof (install_ok mh _ i 0 GetGenericInterfaceHook s1 Hs1 I) as [_ Hi]. specialize (Hi eq_refl).
    unfold install_always in Hi. destruct (Exists GetGenericInterfaceHook s1) eqn:Hex; [|exact Hi].
    pose proof (create_fields (mh GetGenericInterfaceHook) (slot i 0) GetGenericInterfaceHook s1) as Hf.
    destruct (CreateHookInObjectVTable _ _ _ s1) as [ready s2]. cbn [snd]. destruct Hf as (Hh & Hne & Ht & _ & Hrdy & Hkeep & Hsome).
    assert (Register GetGenericInterfaceHook s2 = s2) as -> by (unfold Register, Exists in *; by rewrite Hh, Hex).
    destruct Hs1 as [He Hc]. constructor.
    + intros n Hn. rewrite Hh. destruct (decide (n = GetGenericInterfaceHook)) as [->|Hng].
      * split_and!; [by apply Exists_spec| |by eexists].
        destruct ready; [eexists; by apply Hrdy|]. rewrite Hkeep in Hn by done.
        destruct (He _ Hn) as (_ & [tr Htr] & _). destruct Hsome as [x Hx]; [by eexists|]. by exists x.
      * rewrite Hne in * by done. by apply He.
    + intros n Hn Hca. rewrite Hh in Hn. rewrite Hne by (by intros ->). by apply Hc.
  - apply query_ok; [|done]. apply elem_of_app. right. by apply list_elem_of_singleton.
  - unfold DisableHooks. destruct (s_hooksInitialized s); [|done].
    destruct (destroy_ok (ops ++ [ODisable]) s IH) as [[He Hc] _]. by constructor.
Qed.

(** After any sequence of injections, interface queries and removals, with
    whatever answers of the hooking library, every enabled hook is registered, so
    that the next removal undoes it, has an original to call, and if it is one of
    the driver-input hooks sits on a slot of a table that passed the checks; an
    input-health hook is registered only if enabled; and after a removal that
    runs nothing is enabled and nothing registered. *)
Theorem hooks_registered ops :
  let s := hook_history ops in
  hooks_ok ops s /\
  (s_hooksInitialized s = true ->
    hooks (DisableHooks s) = [] /\ forall n, enabled (objects (DisableHooks s) n) = false).
Proof.
  intros s. pose proof (history_ok ops) as Hs. fold s in Hs. split; [done|]. intros Hi.
  unfold DisableHooks. rewrite Hi. split; [done|]. apply (destroy_ok ops s Hs).
Qed.

(** ** A creation that failed *)

(** The sequence is of interface queries only. *)
Definition is_query (op : hook_op) : bool := match op with OQuery _ _ _ _ => true | _ => false end.

Lemma install_other mh i k m n s :
  (m <> n \/ n ∈ hooks s) ->
  let a := install_always mh i k m s in let b := install_if_ready mh i k m s in
  (objects a n = objects s n /\ (n ∈ hooks s -> n ∈ hooks a)) /\
  (objects b n = objects s n /\ (n ∈ hooks s -> n ∈ hooks b)).
Proof.
  intros Hn. unfold install_always, install_if_ready. destruct (Exists m s) eqn:Hex; [done|].
  assert (n <> m) as Hnm by (destruct Hn as [|Hn]; [done|intros ->; apply Exists_spec in Hn; congruence]).
  pose proof (create_fields (mh m) (slot i k) m s) as Hf. destruct (CreateHookInObjectVTable _ _ m s) as [ready s1].
  destruct Hf as (Hh & Hne & _). cbn [snd]. rewrite Register_objects. split; (split; [|rewrite <-Hh; intros]).
  - by apply Hne.
  - rewrite Register_in. by right.
  - destruct ready; [rewrite Register_objects|]; by apply Hne.
  - destruct ready; [rewrite Register_in; by right|done].
Qed.

(** What is registered, a query leaves as it is. *)
Definition keeps (n : HookName) (s s' : Hooking) : Prop := objects s' n = objects s n /\ n ∈ hooks s'.

Lemma query_keeps mh active version i n s : n ∈ hooks s -> keeps n s (DetourGetGenericInterface mh active version i s).
Proof.
  intros Hn. unfold DetourGetGenericInterface. set (s1 := if flag_set kFeatureCalibration s && _ then _ else _).
  assert (forall k m s', keeps n s s' -> keeps n s (install_always mh i k m s') /\ keeps n s (install_if_ready mh i k m s')) as Hi.
  { intros k m s' [Ho Hin]. destruct (install_other mh i k m n s' (or_intror Hin)) as [[A B] [C D]].
    unfold keeps. rewrite A, C. auto. }
  assert (keeps n s s1) as Hs1 by (unfold s1; repeat case_match; [by apply Hi..|done]). clearbody s1.
  revert s1 Hs1. induction active as [|m active IH]; [done|]. intros s1 Hs1. cbn [foldl]. apply IH.
  destruct m as [|armed|]; cbn; [| |done]; (destruct (if_nonnull i && _); [|done]).
  - unfold TryInstallPublicHooks. repeat (case_match; [done|]). by repeat apply Hi.
  - unfold TryInstallScalarBooleanHooks. repeat (case_match; [done|]). by repeat apply Hi.
Qed.

(** By the installer of the skeletal and pose hooks, a hook whose creation
    fails is registered all the same: however many queries follow and whatever the library
    would answer, it is never tried again and stays disabled; by the installer of
    the input-health hooks it is not registered, and the next try puts it in place
    if the library agrees. *)
Theorem failed_hook mh k n i s (Hn : n ∉ hooks s) (Hoff : enabled (objects s n) = false)
  (Hfail : (mh_create (mh n) && mh_enable (mh n)) = false) :
  (forall ops, forallb is_query ops = true ->
    let s' := foldl (fun s op => hook_run op s) (install_always mh i k n s) ops in
    n ∈ hooks s' /\ enabled (objects s' n) = false) /\
  ((n ∉ hooks (install_if_ready mh i k n s)) /\
   forall mh' i', (mh_create (mh' n) && mh_enable (mh' n)) = true ->
     enabled (objects (install_if_ready mh' i' k n (install_if_ready mh i k n s)) n) = true).
Proof.
  assert (Exists n s = false) as Hex by (destruct (Exists n s) eqn:E; [by apply Exists_spec in E|done]).
  pose proof (create_fields (mh n) (slot i k) n s) as Hf. unfold install_always, install_if_ready. rewrite Hex.
  assert ((CreateHookInObjectVTable (mh n) (slot i k) n s).1 = false) as Hr
    by (unfold CreateHookInObjectVTable; destruct (mh_create (mh n)), (mh_enable (mh n)); done).
  destruct (CreateHookInObjectVTable (mh n) (slot i k) n s) as [ready s1]. cbn [fst snd] in *. subst ready.
  destruct Hf as (Hh & _ & _ & Hen & _). specialize (Hen Hoff). split.
  - intros ops Hq. set (s0 := Register n s1).
    assert (n ∈ hooks s0 /\ enabled (objects s0 n) = false) as Hs0
      by (unfold s0; rewrite Register_in, Register_objects; auto). clearbody s0. clear -Hs0 Hq. revert s0 Hs0.
    induction ops as [|op ops IH]; intros s0 Hs0; [done|]. cbn [forallb foldl] in *.
    apply andb_true_iff in Hq as [Hop Hq]. apply IH; [done|]. destruct op as [|mh active v i|]; try done.
    destruct (query_keeps mh active v i n s0) as [Ho Hin]; [apply Hs0|]. cbn [hook_run]. rewrite Ho. by split; [|apply Hs0].
  - split; [by rewrite Hh|]. intros mh' i' Hok.
    assert (Exists n s1 = false) as -> by (unfold Exists in *; by rewrite Hh).
    pose proof (create_fields (mh' n) (slot i' k) n s1) as Hf.
    assert ((CreateHookInObjectVTable (mh' n) (slot i' k) n s1).1 = true) as Hr
      by (unfold CreateHookInObjectVTable; destruct (mh_create (mh' n)), (mh_enable (mh' n)); done).
    destruct (CreateHookInObjectVTable (mh' n) (slot i' k) n s1) as [ready s2]. cbn [fst] in Hr. subst ready.
    rewrite Register_objects. by apply Hf.
Qed.

(** ** The drain *)

Definition is_inside (t : thread) : bool := match t with Inside _ => true | _ => false end.
Definition is_jumped (t : thread) : bool := match t with Jumped _ => true | _ => false end.
Definition count (f : thread -> bool) (ts : list thread) : nat := length (filter (fun t => f t = true) ts).
Arguments count : simpl never.

Lemma count_app f a b : count f (a ++ b) = count f a + count f b.
Proof. unfold count. by rewrite list.filter_app, length_app. Qed.

Lemma count_cons f t ts : count f (t :: ts) = (if f t then 1 else 0) + count f ts.
Proof. unfold count. rewrite filter_cons. by destruct (f t). Qed.

Lemma count_elem f t ts : t ∈ ts -> f t = true -> 0 < count f ts.
Proof.
  intros (a & b & ->)%list_elem_of_split Hf. rewrite count_app, count_cons, Hf. lia.
Qed.

(** The counter counts the bodies, whatever happens; and after the removal
    nothing new jumps. *)
Record removal_ok (r : Removal) : Prop := {
  ro_counter : g_inFlightDetours r = s32 (Z.of_nat (count is_inside (threads r)));
  ro_enabled : forall n, enabled (objects (hk r) n) = true -> dpc r = Hooked /\ n ∈ hooks (hk r) }.

Lemma s32_add a b : s32 (s32 a + b) = s32 (a + b).
Proof.
  unfold s32. replace ((a + 2 ^ 31) mod 2 ^ 32 - 2 ^ 31 + b + 2 ^ 31)%Z with ((a + 2 ^ 31) mod 2 ^ 32 + b)%Z by lia.
  rewrite Zplus_mod_idemp_l. do 2 f_equal. lia.
Qed.

Lemma s32_small a : (0 <= a < 2 ^ 31)%Z -> s32 a = a.
Proof. intros Ha. unfold s32. rewrite Z.mod_small; lia. Qed.

Lemma destroy_off s n : (forall n, enabled (objects s n) = true -> n ∈ hooks s) -> enabled (objects (DestroyAll s) n) = false.
Proof.
  intros He. cbn. destruct (Exists n s) eqn:Hex.
  - unfold Destroy. destruct (enabled (objects s n)) eqn:E; [done|by rewrite E].
  - destruct (enabled (objects s n)) eqn:E; [|done]. apply He, Exists_spec in E. congruence.
Qed.

Arguments DestroyAll : simpl never.

Lemma rm_step_ok a b : rm_step a b -> removal_ok a -> removal_ok b.
Proof.
  intros Hstep [Hc He]. destruct Hstep as [n s c ts pc k Hn|n s c ts1 ts2 pc k|n s c ts pc k Hn|n s c ts1 ts2 pc k
    |n s c ts1 ts2 pc k|s c ts k Hi|s c ts k Hle|s c ts k Hlt]; constructor; cbn in *; try done.
  - rewrite Hc, s32_add, !count_app, !count_cons. cbn [is_inside]. f_equal. lia.
  - unfold Z.sub. rewrite Hc, s32_add, !count_app, !count_cons. cbn [is_inside]. f_equal. lia.
  - by rewrite Hc, !count_app, !count_cons.
  - intros n Hn. rewrite destroy_off in Hn; [done|]. cbn. intros m Hm. by apply He.
  - intros n Hn. by apply He in Hn as [].
  - intros n Hn. by apply He in Hn as [].
Qed.

Lemma rm_steps_ok a b : rtc rm_step a b -> removal_ok a -> removal_ok b.
Proof. induction 1 as [|a b c Hab _ IH]; [done|]. intros Ha. by eapply IH, rm_step_ok. Qed.

(** Threads that can still be inside, once the hooks are gone. *)
Definition pending (r : Removal) : nat := count is_inside (threads r) + count is_jumped (threads r).

Lemma rm_pending a b :
  rm_step a b -> removal_ok a -> dpc a <> Hooked -> pending b <= pending a /\ dpc b <> Hooked.
Proof.
  unfold pending. intros Hstep [_ He] Hpc. destruct Hstep as [n s c ts pc k Hn| | | | | | |]; cbn in *;
    rewrite ?count_app, ?count_cons; cbn [is_inside is_jumped]; try (split; [lia|done]); try done.
  by destruct (He n Hn).
Qed.

Lemma rm_pendings a b :
  rtc rm_step a b -> removal_ok a -> dpc a <> Hooked -> pending b <= pending a.
Proof.
  induction 1 as [|a b c Hab _ IH]; [done|]. intros Ha Hpc. destruct (rm_pending a b Hab Ha Hpc) as [Hle Hpc'].
  specialize (IH (rm_step_ok _ _ Hab Ha) Hpc'). lia.
Qed.

Definition removal_start (s : Hooking) : Removal := mkRemoval s 0 [] Hooked 0.

(** A hooked function called once. *)
Definition sample_hooking : Hooking :=
  mkHooking (fun n => if decide (n = UpdateScalarHook) then mkHook (Some 1%Z) true (Some 2%Z) else hook_new)
    [UpdateScalarHook] 4 true.

(** A call still inside when the wait times out, and its call of the original. *)
Definition timed_out (k : nat) : Removal :=
  mkRemoval (finish_disable (DestroyAll (sample_hooking <| s_hooksInitialized := false |>))) 1 [Inside UpdateScalarHook]
    (Disabled false) k.


(** ** Witnesses *)


Lemma failed_hook_witness :
  enabled (objects (install_always (fun _ => mkMH false 0 false) (mkIface true true true (fun _ => 0%Z)) 6
    PublicUpdateSkeletonHook hooking_static) PublicUpdateSkeletonHook) = false.
Proof.
  destruct (failed_hook (fun _ => mkMH false 0 false) 6 PublicUpdateSkeletonHook (mkIface true true true (fun _ => 0%Z))
    hooking_static (not_elem_of_nil _) eq_refl eq_refl) as [Hp _].
  exact (proj2 (Hp [] eq_refl)).
Defined.
