(* ===== verification/Learning.v ===== *)
(** * Learned compensation (modules/inputhealth/src/overlay/LearningEngine.cpp, Profiles.cpp)

    The overlay's learning engine: per path, the rest statistics of a scalar or
    the press intervals of a button, the moment they are good enough, the
    relearning after a shift, the profile records, and the entries pushed to the
    driver.  Clocks, the disk and the connection answer through [Env], call by
    call; what reaches the driver is [sent]. *)

From stdpp Require Import sorting.
From S2P Require Import Prelude Floats InputConfig InputStats InputHealth.
Open Scope fl.

(** ** Keys and kinds *)

Definition hexdigit (z : Z) : byte := zb (if (z <? 10)%Z then 48 + z else 87 + z).
Definition hex16 (z : Z) : list byte := map (fun i => hexdigit (Z.land (Z.shiftr z (4 * (15 - Z.of_nat i))) 15)) (seq 0 16).

Definition KeyFor (serial_hash : Z) (path : list byte) : list byte := hex16 serial_hash ++ str ":" ++ path.

Definition PathFromBody (b : SnapshotBody) : list byte := cstr (take INPUTHEALTH_PATH_LEN (sb_path b)).

Definition IsTriggerKind (kind : Z) (path : list byte) : bool :=
  (kind =? InputHealthCompScalarSingle)%Z && IsTriggerLikePath path.

Definition axis_role_code (r : AxisRole) : Z := match r with Unpaired => 0 | StickX => 1 | StickY => 2 end.

Definition KindForBody (b : SnapshotBody) : Z :=
  if sb_is_boolean b then InputHealthCompBoolean
  else if (axis_role_code (sb_axis_role b) =? InputHealthCompStickX)%Z then InputHealthCompStickX
  else if (axis_role_code (sb_axis_role b) =? InputHealthCompStickY)%Z then InputHealthCompStickY
  else InputHealthCompScalarSingle.

Definition KindString (kind : Z) : list byte :=
  if (kind =? InputHealthCompStickX)%Z then str "stick_x"
  else if (kind =? InputHealthCompStickY)%Z then str "stick_y"
  else if (kind =? InputHealthCompBoolean)%Z then str "boolean"
  else str "scalar_single".

Definition KindFromString (kind : list byte) : Z :=
  if bool_decide (kind = str "stick_x") then InputHealthCompStickX
  else if bool_decide (kind = str "stick_y") then InputHealthCompStickY
  else if bool_decide (kind = str "boolean") then InputHealthCompBoolean
  else InputHealthCompScalarSingle.

Definition ReadyThreshold (kind : Z) : Z := if (kind =? InputHealthCompBoolean)%Z then 500 else 1024.

Definition ClampDouble (value lo hi : double) : double := std_max lo (std_min value hi).

Definition CopyPath (path : list byte) : list byte := wire_path path.

(** ** Profiles *)

(** The six learned values, which the engine always moves together. *)
Record Learned := mkLearned {
  l_rest_offset : double; l_stddev : double; l_trigger_min : double; l_trigger_max : double;
  l_deadzone_radius : double; l_debounce_us : Z }.
#[export] Instance learned_settable : Settable Learned := fun l =>
  mkLearned (l_rest_offset l) (l_stddev l) (l_trigger_min l) (l_trigger_max l) (l_deadzone_radius l) (l_debounce_us l).
Definition learned_zero : Learned := mkLearned fzero fzero fzero fzero fzero 0.

Record LearnedPathRecord := mkRecord {
  r_path : list byte; r_kind : list byte; r_sample_count : Z; r_ready : bool; r_learned : Learned;
  r_last_updated_unix : Z; r_drift_shift_resets : Z }.

Definition record_fresh (path : list byte) : LearnedPathRecord := mkRecord path [] 0 false learned_zero 0 0.

Record DeviceProfile := mkProfile {
  dp_serial : list byte; dp_serial_hash : Z; dp_display_name : list byte;
  dp_enable_diagnostics_only : bool; dp_enable_rest_recenter : bool; dp_enable_trigger_remap : bool;
  dp_corrections_enabled : bool; dp_learned_paths : list LearnedPathRecord }.
#[export] Instance profile_settable : Settable DeviceProfile := fun p =>
  mkProfile (dp_serial p) (dp_serial_hash p) (dp_display_name p) (dp_enable_diagnostics_only p)
    (dp_enable_rest_recenter p) (dp_enable_trigger_remap p) (dp_corrections_enabled p) (dp_learned_paths p).

Definition profile_new (serial_hash : Z) : DeviceProfile := mkProfile [] serial_hash [] true false false true [].

Fixpoint FindRecord (path : list byte) (l : list LearnedPathRecord) : option LearnedPathRecord :=
  match l with
  | [] => None
  | r :: l => if decide (r_path r = path) then Some r else FindRecord path l
  end.

(** The record of a path changed in place, or a fresh one changed and appended. *)
Fixpoint upsert (path : list byte) (f : LearnedPathRecord -> LearnedPathRecord) (l : list LearnedPathRecord) : list LearnedPathRecord :=
  match l with
  | [] => [f (record_fresh path)]
  | r :: l => if decide (r_path r = path) then f r :: l else r :: upsert path f l
  end.

(** ** The engine *)

Record PathState := mkPS {
  ps_serial_hash : Z; ps_path : list byte; ps_kind : Z; ps_rest : WelfordState; ps_rest_credit : double;
  ps_trigger_peak : double; ps_short_mean : double; ps_short_mean_initialized : bool;
  ps_last_press_count : Z; ps_last_press_time_us : Z; ps_inter_press_us : list Z; ps_sample_count : Z;
  ps_ready : bool; ps_drift_shift_pending : bool; ps_drift_exceeded_since_us : Z; ps_drift_cooldown_until_us : Z;
  ps_last_persist_us : Z; ps_learned : Learned; ps_last_updated_unix : Z; ps_drift_shift_resets : Z }.
#[export] Instance ps_settable : Settable PathState := fun s =>
  mkPS (ps_serial_hash s) (ps_path s) (ps_kind s) (ps_rest s) (ps_rest_credit s) (ps_trigger_peak s) (ps_short_mean s)
    (ps_short_mean_initialized s) (ps_last_press_count s) (ps_last_press_time_us s) (ps_inter_press_us s)
    (ps_sample_count s) (ps_ready s) (ps_drift_shift_pending s) (ps_drift_exceeded_since_us s)
    (ps_drift_cooldown_until_us s) (ps_last_persist_us s) (ps_learned s) (ps_last_updated_unix s) (ps_drift_shift_resets s).

Definition state_new : PathState :=
  mkPS 0 [] InputHealthCompScalarSingle welford_init fzero fzero fzero false 0 0 [] 0 false false 0 0 0 learned_zero 0 0.

Record Engine := mkEngine {
  rest_burst_active_ : bool; states_ : gmap (list byte) PathState; device_button_quiet_until_us_ : gmap Z Z;
  profiles_ : gmap Z DeviceProfile; sent : list InputHealthCompensationEntry; calls : nat }.
#[export] Instance engine_settable : Settable Engine := fun e =>
  mkEngine (rest_burst_active_ e) (states_ e) (device_button_quiet_until_us_ e) (profiles_ e) (sent e) (calls e).

(** What the clocks, the profile file and the connection answer at each call. *)
Record Env := mkEnv { sync_us : nat -> Z; unix_s : nat -> Z; saved : nat -> bool; connected : nat -> bool }.

Definition tick_call (e : Engine) : Engine := e <| calls ::= S |>.

Definition GetOrCreate (serial_hash : Z) (e : Engine) : DeviceProfile * Engine :=
  match profiles_ e !! serial_hash with
  | Some p => (p, e)
  | None => let p := profile_new serial_hash in (p, e <| profiles_ ::= <[serial_hash := p]> |>)
  end.

(** The state a record seeds. *)
Definition seed_state (r : LearnedPathRecord) (s : PathState) : PathState :=
  let s := s <| ps_kind := KindFromString (r_kind r) |> <| ps_sample_count := r_sample_count r |>
             <| ps_ready := r_ready r |> <| ps_learned := r_learned r |>
             <| ps_last_updated_unix := r_last_updated_unix r |> <| ps_drift_shift_resets := r_drift_shift_resets r |> in
  if (1 <? r_sample_count r)%Z then
    s <| ps_rest := mkWelford (r_sample_count r) (l_rest_offset (r_learned r))
           (l_stddev (r_learned r) * l_stddev (r_learned r) * d_of_Z (r_sample_count r - 1)) |>
  else s.

Definition StateFor (serial_hash : Z) (path : list byte) (e : Engine) : PathState * Engine :=
  let s := default state_new (states_ e !! KeyFor serial_hash path) in
  if (ps_serial_hash s =? 0)%Z then
    let s := s <| ps_serial_hash := serial_hash |> <| ps_path := path |> in
    let '(profile, e) := GetOrCreate serial_hash e in
    (match FindRecord path (dp_learned_paths profile) with Some r => seed_state r s | None => s end, e)
  else (s, e).

(** The write back of a state that the code holds by reference. *)
Definition put_state (s : PathState) (e : Engine) : Engine :=
  e <| states_ ::= <[KeyFor (ps_serial_hash s) (ps_path s) := s]> |>.

Section Engine.
Context (env : Env).

(** Saving fails without a file, and by the exception of a number that is not
    finite. *)
Definition encodable (p : DeviceProfile) : bool :=
  forallb (fun r => let l := r_learned r in
    isfinite (l_rest_offset l) && isfinite (l_stddev l) && isfinite (l_trigger_min l) &&
    isfinite (l_trigger_max l) && isfinite (l_deadzone_radius l)) (dp_learned_paths p).

Definition TrySaveProfile (p : DeviceProfile) (e : Engine) : bool * Engine :=
  if negb (dp_serial_hash p =? 0)%Z && saved env (calls e) && encodable p
  then (true, e <| profiles_ ::= <[dp_serial_hash p := p]> |>) else (false, e).

Definition write_record (s : PathState) (r : LearnedPathRecord) : LearnedPathRecord :=
  mkRecord (r_path r) (KindString (ps_kind s)) (ps_sample_count s) (ps_ready s) (ps_learned s)
    (ps_last_updated_unix s) (ps_drift_shift_resets s).

Definition SyncProfile (serial_hash : Z) (s : PathState) (immediate : bool) (e : Engine) : PathState * Engine :=
  let now_us := sync_us env (calls e) in
  let e := tick_call e in
  if negb immediate && negb (ps_last_persist_us s =? 0)%Z && (u64 (now_us - ps_last_persist_us s) <? 5000000)%Z
  then (s, e) else
  let '(profile, e) := GetOrCreate serial_hash e in
  let profile := profile <| dp_learned_paths ::= upsert (ps_path s) (write_record s) |> in
  let e := e <| profiles_ ::= <[serial_hash := profile]> |> in
  let '(ok, e) := TrySaveProfile profile e in
  (if ok then s <| ps_last_persist_us := now_us |> else s, e).

Definition make_entry (serial_hash : Z) (path : list byte) (kind : Z) (enabled : bool) (l : Learned)
    : InputHealthCompensationEntry :=
  mkComp serial_hash (CopyPath path) kind (if enabled then 1 else 0)%Z
    (f_of_d (l_rest_offset l)) (f_of_d (l_trigger_min l)) (f_of_d (l_trigger_max l))
    (f_of_d (l_deadzone_radius l)) (Z.min 65535 (l_debounce_us l)).

(** [corrections_enabled] of the device; true of one without a profile. *)
Definition corrections (serial_hash : Z) (e : Engine) : bool :=
  match profiles_ e !! serial_hash with Some p => dp_corrections_enabled p | None => true end.

Definition PushCompensation (serial_hash : Z) (path : list byte) (kind : Z) (l : Learned) (enabled : bool) (e : Engine) : Engine :=
  let c := connected env (calls e) in
  let e := tick_call e in
  if negb c then e
  else e <| sent ::= fun es => es ++ [make_entry serial_hash path kind (enabled && corrections serial_hash e) l] |>.

Definition PushState (s : PathState) (enabled : bool) (e : Engine) : Engine :=
  PushCompensation (ps_serial_hash s) (ps_path s) (ps_kind s) (ps_learned s) enabled e.

(** A learned or relearning state, persisted at once and pushed. *)
Definition publish_state (s : PathState) (enabled : bool) (e : Engine) : Engine :=
  let s := s <| ps_last_updated_unix := unix_s env (calls e) |> in
  let '(s, e) := SyncProfile (ps_serial_hash s) s true e in
  PushState s enabled (put_state s e).

Definition sync_state (s : PathState) (e : Engine) : Engine :=
  let '(s, e) := SyncProfile (ps_serial_hash s) s false e in put_state s e.

(** ** Observation *)

Definition quiet_window_us : Z := 500000.
Definition kMaxIntervals : nat := 1024.
Definition kDriftHoldUs : Z := 10000000.
Definition kDriftCooldownUs : Z := 60000000.

(** The path of a body that may be learned from. *)
Definition learnable (b : SnapshotBody) : option (list byte) :=
  let path := PathFromBody b in
  if (sb_serial_hash b =? 0)%Z || (length path =? 0)%nat then None
  else if IsCompensationPath (ClassifyInputPath path) then Some path else None.

(** The first percentile of the intervals, within a millisecond and twenty. *)
Definition learn_debounce (samples : list Z) : Z :=
  let samples := merge_sort Z.le samples in
  let idx := if (1 <? length samples)%nat
             then Z.to_nat (default 0%Z (trunc_to_Z (d_of_Z (Z.of_nat (length samples - 1)) * d_lit 1 100))) else 0%nat in
  Z.max 1000 (Z.min 20000 (nth idx samples 0%Z)).

Definition push_interval (interval : Z) (l : list Z) : list Z :=
  (if (kMaxIntervals <=? length l)%nat then tail l else l) ++ [interval].

Definition press (now_us : Z) (b : SnapshotBody) (s : PathState) : PathState :=
  let s := if (ps_last_press_time_us s =? 0)%Z then s
           else s <| ps_inter_press_us ::= push_interval (u64 (now_us - ps_last_press_time_us s)) |> in
  s <| ps_last_press_time_us := now_us |> <| ps_last_press_count := sb_press_count b |>
    <| ps_sample_count ::= Z.max (sb_press_count b) |>.

Definition observe_boolean (now_us : Z) (b : SnapshotBody) (e : Engine) : Engine :=
  if negb (sb_is_boolean b) then e else
  match learnable b with
  | None => e
  | Some path =>
    let '(s, e) := StateFor (sb_serial_hash b) path e in
    let s := s <| ps_kind := InputHealthCompBoolean |> in
    if (ps_last_press_count s <? sb_press_count b)%Z then
      let s := press now_us b s in
      let e := e <| device_button_quiet_until_us_ ::= <[sb_serial_hash b := u64 (now_us + quiet_window_us)]> |> in
      if negb (ps_ready s) && (ReadyThreshold (ps_kind s) <=? ps_sample_count s)%Z && negb (length (ps_inter_press_us s) =? 0)%nat
      then publish_state (s <| ps_learned ::= fun l => l <| l_debounce_us := learn_debounce (ps_inter_press_us s) |> |>
                            <| ps_ready := true |>) true e
      else sync_state s e
    else put_state s e
  end.

Definition find_entry (handle : Z) (entries : list SnapshotBody) : option SnapshotBody :=
  find (fun b => (sb_handle b =? handle)%Z) entries.

Definition small (v : float) : bool := flt (SFabs v) (f_lit 5 100).

Definition buttonsQuiet (now_us serial_hash : Z) (e : Engine) : bool :=
  match device_button_quiet_until_us_ e !! serial_hash with Some t => (t <=? now_us)%Z | None => true end.

Definition at_rest (now_us : Z) (entries : list SnapshotBody) (b : SnapshotBody) (isStick isTrigger : bool) (e : Engine) : bool :=
  let quiet := buttonsQuiet now_us (sb_serial_hash b) e in
  if isStick then
    match find_entry (sb_partner b) entries with
    | Some p => small (sb_last_value b) && small (sb_last_value p) && quiet
    | None => false
    end
  else if isTrigger then flt (sb_last_value b) (f_lit 5 100)
  else small (sb_last_value b) && quiet.

Definition trigger_peak_update (b : SnapshotBody) (s : PathState) : PathState :=
  let s := s <| ps_trigger_peak ::= fun p => std_max p (d_of_f (sb_last_value b)) |> in
  let '(init, _, observed_max) := sb_range b in
  if init then s <| ps_trigger_peak ::= fun p => std_max p (d_of_f observed_max) |> else s.

(** [while (rest_credit >= 1.0)]; the credit is zero or a half before a sample adds
    to it, so two turns are enough ([credit_settles]). *)
Fixpoint spend_credit (fuel : nat) (x : double) (s : PathState) : PathState :=
  match fuel with
  | 0%nat => s
  | S fuel =>
    if fge (ps_rest_credit s) d_one then
      spend_credit fuel x (s <| ps_rest := WelfordUpdate (ps_rest s) x |> <| ps_rest_credit ::= fun c => c - d_one |>)
    else s
  end.

Definition rest_sample (burst : bool) (x : double) (s : PathState) : PathState :=
  let s := s <| ps_rest_credit ::= fun c => c + (if burst then d_one else d_lit 1 2) |> in
  let s := spend_credit 2 x s in
  let s := s <| ps_sample_count := w_count (ps_rest s) |> in
  if negb (ps_short_mean_initialized s) then s <| ps_short_mean := x |> <| ps_short_mean_initialized := true |>
  else s <| ps_short_mean ::= fun m => m + d_lit 5 100 * (x - m) |>.

(** The drift test of a ready state: what it leaves, and whether it shifts. *)
Definition drift_test (now_us : Z) (s : PathState) : PathState * bool :=
  let gate := d_of_Z 3 * std_max (d_lit 1 1000) (l_stddev (ps_learned s)) in
  if (ps_drift_cooldown_until_us s <=? now_us)%Z &&
     fgt (SFabs (ps_short_mean s - l_rest_offset (ps_learned s))) gate then
    let s := if (ps_drift_exceeded_since_us s =? 0)%Z then s <| ps_drift_exceeded_since_us := now_us |> else s in
    if (kDriftHoldUs <=? u64 (now_us - ps_drift_exceeded_since_us s))%Z then
      (s <| ps_ready := false |> <| ps_drift_shift_pending := true |> <| ps_drift_exceeded_since_us := 0%Z |>
         <| ps_drift_cooldown_until_us := u64 (now_us + kDriftCooldownUs) |>
         <| ps_drift_shift_resets ::= fun n => u32 (n + 1) |> <| ps_sample_count := 0%Z |> <| ps_rest_credit := fzero |>
         <| ps_rest ::= WelfordReset |> <| ps_short_mean_initialized := false |> <| ps_learned := learned_zero |>, true)
    else (s, false)
  else (s <| ps_drift_exceeded_since_us := 0%Z |> <| ps_drift_shift_pending := false |>, false).

(** Whether the rest statistics suffice, and what is learned from them. *)
Definition learn_rest (isStick isTrigger : bool) (s : PathState) : option PathState :=
  let stddev := SampleStdDev (ps_rest s) in
  let limit := if isTrigger then d_lit 5 100 else d_lit 2 100 in
  if (ReadyThreshold (ps_kind s) <=? w_count (ps_rest s))%Z && flt stddev limit then
    let l := (ps_learned s) <| l_rest_offset := w_mean (ps_rest s) |> <| l_stddev := stddev |> in
    let l := if isTrigger then
        l <| l_trigger_min := ClampDouble (w_mean (ps_rest s)) fzero (d_lit 10 100) |>
          <| l_trigger_max := if fgt (ps_trigger_peak s) (d_lit 10 100) then ps_trigger_peak s else d_one |>
      else l in
    let l := if isStick then l <| l_deadzone_radius := ClampDouble (stddev * d_of_Z 3) (d_lit 1 100) (d_lit 8 100) |> else l in
    Some (s <| ps_ready := true |> <| ps_drift_shift_pending := false |> <| ps_learned := l |>)
  else None.

Definition observe_scalar (now_us : Z) (entries : list SnapshotBody) (b : SnapshotBody) (e : Engine) : Engine :=
  if negb (sb_is_scalar b) then e else
  match learnable b with
  | None => e
  | Some path =>
    let '(s, e) := StateFor (sb_serial_hash b) path e in
    let s := s <| ps_kind := KindForBody b |> in
    let isTrigger := IsTriggerKind (ps_kind s) path in
    let isStick := is_stick_kind (ps_kind s) in
    let s := if isTrigger then trigger_peak_update b s else s in
    if negb (at_rest now_us entries b isStick isTrigger e) then put_state s e else
    let s := rest_sample (rest_burst_active_ e) (d_of_f (sb_last_value b)) s in
    if ps_ready s then
      let '(s, shift) := drift_test now_us s in
      if shift then publish_state s false e else put_state s e
    else
      match learn_rest isStick isTrigger s with
      | Some s => publish_state s true e
      | None => sync_state s e
      end
  end.

(** [entries]: the reader's bodies in the order its hash map gives them. *)
Definition Tick (now_us : Z) (entries : list SnapshotBody) (e : Engine) : Engine :=
  let e := foldl (fun e b => observe_boolean now_us b e) e entries in
  foldl (fun e b => observe_scalar now_us entries b e) e entries.

Definition Flush (e : Engine) : Engine :=
  foldl (fun e '(_, s) =>
    if (ps_serial_hash s =? 0)%Z then e
    else let '(s, e) := SyncProfile (ps_serial_hash s) s true e in put_state s e) e (map_to_list (states_ e)).

Definition SetRestBurstActive (active : bool) (e : Engine) : Engine := e <| rest_burst_active_ := active |>.

(** ** Requests of the user interface *)

Definition push_record (serial_hash : Z) (enabled : bool) (e : Engine) (r : LearnedPathRecord) : Engine :=
  PushCompensation serial_hash (r_path r) (KindFromString (r_kind r)) (r_learned r) enabled e.

Definition SetDeviceCorrectionsEnabled (serial_hash : Z) (on : bool) (e : Engine) : Engine :=
  if (serial_hash =? 0)%Z then e else
  let '(p, e) := GetOrCreate serial_hash e in
  if Bool.eqb (dp_corrections_enabled p) on then e else
  let p := p <| dp_corrections_enabled := on |> in
  let e := e <| profiles_ ::= <[serial_hash := p]> |> in
  let '(_, e) := TrySaveProfile p e in
  foldl (fun e r => if on && negb (r_ready r) then e
                    else push_record (dp_serial_hash p) (on && r_ready r) e r)
    (tick_call e) (dp_learned_paths p).

(** [order]: the profiles as the hash map lists them. *)
Definition PushReadyCompensations (order : list (Z * DeviceProfile)) (e : Engine) : Engine :=
  foldl (fun e '(_, p) =>
    if negb (dp_corrections_enabled p) then e else
    foldl (fun e r => if r_ready r then push_record (dp_serial_hash p) true e r else e) e (dp_learned_paths p)) e order.

Definition UnlearnPath (serial_hash : Z) (path : list byte) (e : Engine) : Engine :=
  if (serial_hash =? 0)%Z || (length path =? 0)%nat then e else
  let '(p, e) := GetOrCreate serial_hash e in
  let kind := foldl (fun k r => if decide (r_path r = path) then KindFromString (r_kind r) else k)
                InputHealthCompScalarSingle (dp_learned_paths p) in
  let p := p <| dp_learned_paths ::= filter (fun r => r_path r <> path) |> in
  let e := e <| profiles_ ::= <[serial_hash := p]> |> in
  let '(_, e) := TrySaveProfile p e in
  let e := (tick_call e) <| states_ ::= delete (KeyFor serial_hash path) |> in
  PushCompensation serial_hash path kind learned_zero false e.

Definition UnlearnDevice (serial_hash : Z) (e : Engine) : Engine :=
  if (serial_hash =? 0)%Z then e else
  let '(p, e) := GetOrCreate serial_hash e in
  let e := foldl (fun e r => PushCompensation serial_hash (r_path r) (KindFromString (r_kind r)) learned_zero false e)
             e (dp_learned_paths p) in
  let p := p <| dp_learned_paths := [] |> in
  let e := e <| profiles_ ::= <[serial_hash := p]> |> in
  let '(_, e) := TrySaveProfile p e in
  (tick_call e) <| states_ ::= filter (fun kv => ps_serial_hash kv.2 <> serial_hash) |>.
End Engine.

(** What a view of a path shows; its correction as a value, not as text. *)
Inductive Correction :=
| CNone | CDebounce (us : Z) | CTrigger (lo hi : double) | CStick (rest dead : double) | CRest (rest : double).

Definition FormatCorrection (kind : Z) (path : list byte) (l : Learned) (ready : bool) : Correction :=
  if negb ready then CNone
  else if (kind =? InputHealthCompBoolean)%Z then CDebounce (l_debounce_us l)
  else if IsTriggerKind kind path then CTrigger (l_trigger_min l) (l_trigger_max l)
  else if is_stick_kind kind then CStick (l_rest_offset l) (l_deadzone_radius l)
  else CRest (l_rest_offset l).

Record LearningPathView := mkView {
  lv_sample_count : Z; lv_threshold : Z; lv_ready : bool; lv_drift_shift_pending : bool;
  lv_corrections_enabled : bool; lv_status : list byte; lv_correction : Correction; lv_last_updated_unix : Z }.

Definition GetPathView (serial_hash : Z) (path : list byte) (e : Engine) : LearningPathView :=
  let on := corrections serial_hash e in
  let '(count, threshold, ready, pending, correction, updated) :=
    match states_ e !! KeyFor serial_hash path with
    | Some s => (ps_sample_count s, ReadyThreshold (ps_kind s), ps_ready s, ps_drift_shift_pending s,
                 FormatCorrection (ps_kind s) (ps_path s) (ps_learned s) (ps_ready s), ps_last_updated_unix s)
    | None =>
      match p ← profiles_ e !! serial_hash; FindRecord path (dp_learned_paths p) with
      | Some r => let kind := KindFromString (r_kind r) in
          (r_sample_count r, ReadyThreshold kind, r_ready r, false,
           FormatCorrection kind (r_path r) (r_learned r) (r_ready r), r_last_updated_unix r)
      | None => (0%Z, 0%Z, false, false, CNone, 0%Z)
      end
    end in
  let status := if negb on then str "off" else if pending then str "drift-shift"
                else if ready then str "ready" else str "learning" in
  mkView count (if (threshold =? 0)%Z then 1%Z else threshold) ready pending on status correction updated.

(** ** Keys and records *)

Lemma hexdigit_inj a b : (0 <= a < 16)%Z -> (0 <= b < 16)%Z -> hexdigit a = hexdigit b -> a = b.
Proof.
  intros Ha Hb Hab. apply (f_equal bz) in Hab. unfold hexdigit in Hab. rewrite !bz_zb in Hab.
  destruct (Z.ltb_spec a 10), (Z.ltb_spec b 10); rewrite !Z.mod_small in Hab by lia; lia.
Qed.

Lemma nibble_range z i : (0 <= Z.land (Z.shiftr z i) 15 < 16)%Z.
Proof. change 15%Z with (Z.ones 4). rewrite Z.land_ones by lia. apply Z.mod_pos_bound. lia. Qed.

Lemma hex16_inj a b : (0 <= a < 2 ^ 64)%Z -> (0 <= b < 2 ^ 64)%Z -> hex16 a = hex16 b -> a = b.
Proof.
  intros Ha Hb Hab. apply Z.bits_inj'. intros n Hn.
  destruct (Z_lt_le_dec n 64) as [Hlt|Hge].
  2: { rewrite !Z.testbit_eqb, !Z.div_small; try lia.
       all: split; [lia|]; apply Z.lt_le_trans with (2 ^ 64)%Z; [lia|]; apply Z.pow_le_mono_r; lia. }
  set (i := (15 - Z.to_nat (n / 4))%nat).
  assert ((n / 4 < 16)%Z) by (apply Z.div_lt_upper_bound; lia). assert (0 <= n / 4)%Z by (apply Z.div_pos; lia).
  assert (hex16 a !! i = hex16 b !! i) as Hi by (by rewrite Hab). unfold hex16 in Hi.
  rewrite !list_lookup_fmap, !lookup_seq_lt in Hi by lia. cbn in Hi. injection Hi as Hi.
  apply hexdigit_inj in Hi; [|apply nibble_range..].
  replace (4 * (15 - Z.of_nat i))%Z with (4 * (n / 4))%Z in Hi by lia.
  assert (forall z, Z.testbit z n = Z.testbit (Z.land (Z.shiftr z (4 * (n / 4))) 15) (n mod 4)) as Hbit.
  { intros z. pose proof (Z.mod_pos_bound n 4 ltac:(lia)). change 15%Z with (Z.ones 4).
    rewrite Z.land_spec, Z.ones_spec_low, Z.shiftr_spec, andb_true_r by lia. f_equal. pose proof (Z.div_mod n 4). lia. }
  by rewrite (Hbit a), (Hbit b), Hi.
Qed.

Lemma KeyFor_inj h p h' p' :
  (0 < h < 2 ^ 64)%Z -> (0 < h' < 2 ^ 64)%Z -> KeyFor h p = KeyFor h' p' -> h = h' /\ p = p'.
Proof.
  intros Hh Hh' Hk. unfold KeyFor in Hk. apply app_inj_1 in Hk as [H1 H2]; [|by unfold hex16; rewrite !length_map].
  split; [by apply hex16_inj; [lia|lia|]|]. by injection H2.
Qed.

Lemma FindRecord_path q l r : FindRecord q l = Some r -> r_path r = q /\ r ∈ l.
Proof.
  induction l as [|x l IH]; cbn; [done|]. case_decide; [intros [= <-]; split; [done|left]|].
  intros (? & ?)%IH. split; [done|by right].
Qed.

Lemma FindRecord_in l r : NoDup (r_path <$> l) -> r ∈ l -> FindRecord (r_path r) l = Some r.
Proof.
  induction l as [|x l IH]; [by intros _ ?%not_elem_of_nil|]. cbn. intros [Hx Hl]%list.NoDup_cons.
  intros [->|Hr]%list.elem_of_cons; [by rewrite decide_True|]. rewrite decide_False; [by apply IH|].
  intros He. apply Hx. rewrite He. by apply list_elem_of_fmap_2.
Qed.

Lemma FindRecord_upsert p f l q :
  (forall r, r_path (f r) = r_path r) ->
  FindRecord q (upsert p f l) =
    if decide (q = p) then Some (f (default (record_fresh p) (FindRecord p l))) else FindRecord q l.
Proof.
  intros Hf. induction l as [|r l IH]; cbn.
  - rewrite Hf. cbn. destruct (decide (q = p)), (decide (p = q)); congruence.
  - destruct (decide (r_path r = p)) as [Hr|Hr]; cbn.
    + rewrite Hf. destruct (decide (q = p)), (decide (r_path r = q)); congruence.
    + rewrite IH. destruct (decide (q = p)), (decide (r_path r = q)); congruence.
Qed.

Lemma upsert_paths p f l :
  (forall r, r_path (f r) = r_path r) ->
  r_path <$> upsert p f l = (r_path <$> l) ++ (if decide (p ∈ r_path <$> l) then [] else [p]).
Proof.
  intros Hf. induction l as [|r l IH]; cbn.
  - by rewrite Hf, decide_False by apply not_elem_of_nil.
  - destruct (decide (r_path r = p)) as [Hr|Hr]; cbn.
    + clear IH. rewrite Hf. case_decide as Hd; [by rewrite app_nil_r|]. destruct Hd. rewrite Hr. left.
    + rewrite IH. clear IH. do 2 (f_equal; []). repeat case_decide; try done; exfalso; rewrite list.elem_of_cons in *; naive_solver.
Qed.

(** ** The credit loop *)

Definition credit_ok (s : PathState) : Prop := ps_rest_credit s = fzero \/ ps_rest_credit s = d_lit 1 2.

Definition spent (c : double) : double := if fge c d_one then (if fge (c - d_one) d_one then c - d_one - d_one else c - d_one) else c.

Lemma spend_credit_spent x s : ps_rest_credit (spend_credit 2 x s) = spent (ps_rest_credit s).
Proof.
  unfold spent. cbv [spend_credit]. destruct (fge (ps_rest_credit s) d_one); [|done].
  set (s1 := s <| ps_rest := _ |> <| ps_rest_credit ::= _ |>). change (ps_rest_credit s1) with (ps_rest_credit s - d_one).
  by destruct (fge (ps_rest_credit s - d_one) d_one).
Qed.

Lemma rest_sample_credit burst x s :
  ps_rest_credit (rest_sample burst x s) = spent (ps_rest_credit s + (if burst then d_one else d_lit 1 2)).
Proof.
  unfold rest_sample. cbv zeta.
  transitivity (ps_rest_credit (spend_credit 2 x (s <| ps_rest_credit ::= fun c => c + (if burst then d_one else d_lit 1 2) |>))).
  - by destruct (negb _).
  - by rewrite spend_credit_spent.
Qed.

(** The credit is zero or a half before and after every sample, so that the
    loop has ended within its fuel. *)
Lemma credit_settles burst x s :
  credit_ok s -> credit_ok (rest_sample burst x s) /\ fge (ps_rest_credit (rest_sample burst x s)) d_one = false.
Proof.
  unfold credit_ok. rewrite rest_sample_credit. intros [-> | ->]; destruct burst.
  - split; [left|]; by vm_compute.
  - split; [right|]; by vm_compute.
  - split; [right|]; by vm_compute.
  - split; [left|]; by vm_compute.
Qed.

(** ** Paths both sides agree on *)

Definition good_path (p : list byte) : Prop :=
  IsCompensationPath (ClassifyInputPath p) = true /\ nul_free p /\ length p <= 63.

Lemma good_path_nonempty p : good_path p -> (length p =? 0)%nat = false.
Proof. intros (H & _). destruct p; [by vm_compute in H|done]. Qed.

Lemma wire_path_string p : nul_free p -> length p <= 63 -> InputHealthPathString (wire_path p) = p.
Proof.
  intros Hp Hl. unfold InputHealthPathString, wire_path, INPUTHEALTH_PATH_LEN in *. rewrite Nat.min_l by lia.
  rewrite (take_ge p) by lia. rewrite take_ge by (rewrite length_app, length_replicate; lia).
  destruct (64 - length p)%nat as [|n] eqn:E; [lia|]. cbn [replicate]. unfold cstr.
  rewrite strnlen_nul_free by done. by rewrite take_app_length.
Qed.

Lemma entry_key h p kind on l : good_path p -> comp_key (make_entry h p kind on l) = (h, p).
Proof. intros (_ & H1 & H2). unfold comp_key, make_entry. cbn [device_serial_hash comp_path]. unfold CopyPath. by rewrite wire_path_string. Qed.

Lemma entry_accepted h p kind on l : good_path p -> (0 < h)%Z -> comp_accepted (make_entry h p kind on l) = true.
Proof.
  intros Hg Hh. pose proof (good_path_nonempty p Hg) as Hn. destruct Hg as (Hc & H1 & H2). unfold comp_accepted, make_entry.
  cbn [device_serial_hash comp_path]. unfold CopyPath. rewrite wire_path_string, Hn, Hc by done. destruct (Z.eqb_spec h 0); [lia|done].
Qed.

(** A body's path is the driver's copy of a path into its field. *)
Definition body_ok (b : SnapshotBody) : Prop :=
  (exists p, nul_free p /\ sb_path b = wire_path p) /\ (0 <= sb_serial_hash b < 2 ^ 64)%Z.

Lemma learnable_good b path : body_ok b -> learnable b = Some path -> good_path path /\ (0 < sb_serial_hash b < 2 ^ 64)%Z.
Proof.
  intros [(p & Hp & Hb) Hr]. unfold learnable, PathFromBody. rewrite Hb.
  destruct (Z.eqb_spec (sb_serial_hash b) 0); [done|]. cbn [orb]. destruct (length _ =? 0)%nat; [done|].
  destruct (IsCompensationPath _) eqn:Hc; [|done]. intros [= <-]. split; [|lia].
  unfold good_path. rewrite Hc. split; [done|].
  assert (cstr (take INPUTHEALTH_PATH_LEN (wire_path p)) = take 63 p) as ->.
  { transitivity (InputHealthPathString (wire_path (take 63 p))).
    - unfold InputHealthPathString. do 2 f_equal. unfold wire_path, INPUTHEALTH_PATH_LEN. rewrite !length_take.
      replace (Nat.min (Nat.min 63 (length p)) (64 - 1)%nat) with (Nat.min (length p) (64 - 1)%nat) by lia.
      rewrite take_take. by replace (Nat.min (Nat.min (length p) (64 - 1)%nat) 63) with (Nat.min (length p) (64 - 1)%nat) by lia.
    - apply wire_path_string; [by apply Forall_take|]. rewrite length_take. lia. }
  split; [by apply Forall_take|]. rewrite length_take. lia.
Qed.

(** ** The driver's store mirrors the profiles *)

(** What the driver holds after all that was sent to a fresh one. *)
Definition driver_store (e : Engine) : CompStore := run_comp (CompSet <$> sent e).

Definition record_of (e : Engine) (h : Z) (p : list byte) : option LearnedPathRecord :=
  pr ← profiles_ e !! h; FindRecord p (dp_learned_paths pr).

(** An entry is there exactly for a ready record of a device whose corrections
    are on, and has the record's values. *)
Definition mirrors (on : bool) (r : option LearnedPathRecord) (h : Z) (p : list byte)
    (x : option InputHealthCompensationEntry) : Prop :=
  match r with
  | Some r => if r_ready r && on then exists kind, x = Some (make_entry h p kind true (r_learned r)) else x = None
  | None => x = None
  end.

Definition good_hash (h : Z) : Prop := (0 < h < 2 ^ 64)%Z.

Definition profile_ok (h : Z) (pr : DeviceProfile) : Prop :=
  dp_serial_hash pr = h /\ good_hash h /\ NoDup (r_path <$> dp_learned_paths pr) /\
  Forall (fun r => good_path (r_path r)) (dp_learned_paths pr).

Definition good_ids (s : PathState) : Prop := good_hash (ps_serial_hash s) /\ good_path (ps_path s).

Definition consistent (s : PathState) (r : option LearnedPathRecord) : Prop :=
  match r with Some r => r_ready r = ps_ready s /\ r_learned r = ps_learned s | None => ps_ready s = false end.

Record Agree (e : Engine) : Prop := {
  ag_prof : map_Forall profile_ok (profiles_ e);
  ag_states : forall k s, states_ e !! k = Some s ->
    k = KeyFor (ps_serial_hash s) (ps_path s) /\ good_ids s /\ consistent s (record_of e (ps_serial_hash s) (ps_path s));
  ag_driver : forall h p, good_hash h -> good_path p ->
    mirrors (corrections h e) (record_of e h p) h p (flat (driver_store e) (h, p)) }.

Section Mirror.
Context (env : Env) (Hconn : forall n, connected env n = true).

Lemma driver_store_snoc es x k :
  flat (run_comp (CompSet <$> (es ++ [x]))) k = comp_spec_step k (flat (run_comp (CompSet <$> es)) k) (CompSet x).
Proof.
  unfold run_comp. rewrite fmap_app, foldl_app. cbn [fmap list_fmap foldl].
  exact (comp_step_flat _ (CompSet x) k).
Qed.

(** A push, at every key. *)
Lemma push_effect h p kind l on e :
  good_hash h -> good_path p ->
  let e' := PushCompensation env h p kind l on e in
  profiles_ e' = profiles_ e /\ states_ e' = states_ e /\
  forall k, flat (driver_store e') k =
    if decide (k = (h, p)) then (if on && corrections h e then Some (make_entry h p kind true l) else None)
    else flat (driver_store e) k.
Proof.
  intros [Hh _] Hp. unfold PushCompensation. rewrite Hconn. cbn [negb]. split_and!; [done..|].
  intros k. match goal with |- flat ?m k = _ =>
    change m with (run_comp (CompSet <$> (sent e ++ [make_entry h p kind (on && corrections h e) l]))) end.
  rewrite driver_store_snoc. cbn [comp_spec_step]. rewrite entry_accepted, entry_key by done. cbn [andb].
  destruct (decide (k = (h, p))) as [->|Hk].
  - rewrite bool_decide_eq_true_2 by done. by destruct (on && corrections h e).
  - by rewrite bool_decide_eq_false_2 by congruence.
Qed.

Lemma TrySave_same p e :
  profiles_ e !! dp_serial_hash p = Some p ->
  let '(_, e') := TrySaveProfile env p e in
  profiles_ e' = profiles_ e /\ states_ e' = states_ e /\ sent e' = sent e.
Proof.
  intros Hp. unfold TrySaveProfile. destruct (negb _ && _ && _); [|done]. split_and!; [|done..]. cbn. by apply insert_id.
Qed.

Lemma GetOrCreate_same h e :
  good_hash h -> map_Forall profile_ok (profiles_ e) ->
  let '(p, e') := GetOrCreate h e in
  profiles_ e' !! h = Some p /\ profile_ok h p /\ map_Forall profile_ok (profiles_ e') /\
  states_ e' = states_ e /\ sent e' = sent e /\ calls e' = calls e /\
  (forall h', h' <> h -> profiles_ e' !! h' = profiles_ e !! h') /\
  (forall h', corrections h' e' = corrections h' e) /\ (forall h' p', record_of e' h' p' = record_of e h' p').
Proof.
  intros Hh Hok. unfold GetOrCreate. destruct (profiles_ e !! h) as [p|] eqn:Hp.
  { split_and!; try done. by apply (Hok h p). }
  assert (profile_ok h (profile_new h)) as Hnew by (split_and!; [done|exact Hh|constructor|constructor]).
  split_and!; try done; cbn.
  - by rewrite lookup_insert_eq.
  - by apply map_Forall_insert_2.
  - intros h' Hne. by rewrite lookup_insert_ne.
  - intros h'. unfold corrections. cbn. destruct (decide (h' = h)) as [->|]; [|by rewrite lookup_insert_ne].
    by rewrite lookup_insert_eq, Hp.
  - intros h' p'. unfold record_of. cbn. destruct (decide (h' = h)) as [->|]; [|by rewrite lookup_insert_ne].
    by rewrite lookup_insert_eq, Hp.
Qed.

(** A persisted state: its record is written, nothing else changes. *)
Lemma sync_effect s imm e :
  good_ids s -> map_Forall profile_ok (profiles_ e) ->
  let h := ps_serial_hash s in
  let '(s', e') := SyncProfile env h s imm e in
  map_Forall profile_ok (profiles_ e') /\ states_ e' = states_ e /\ sent e' = sent e /\
  (forall h', corrections h' e' = corrections h' e) /\
  (exists t, s' = s <| ps_last_persist_us := t |>) /\
  ((imm = false /\ forall h' p', record_of e' h' p' = record_of e h' p') \/
   (exists r0, r_path r0 = ps_path s /\ forall h' p', record_of e' h' p' =
      if decide (h' = h /\ p' = ps_path s) then Some (write_record s r0) else record_of e h' p')).
Proof.
  intros [Hh Hp] Hok. cbv zeta. unfold SyncProfile. set (e1 := tick_call e).
  assert (exists t, s = s <| ps_last_persist_us := t |>) as Hid by (exists (ps_last_persist_us s); by destruct s).
  destruct (negb imm && _ && _) eqn:Hthr.
  { split_and!; try done. left. by destruct imm. }
  pose proof (GetOrCreate_same (ps_serial_hash s) e1 Hh Hok) as Hg.
  destruct (GetOrCreate (ps_serial_hash s) e1) as [p e2].
  destruct Hg as (G1 & (P1 & P2 & P3 & P4) & G3 & G4 & G5 & G6 & G7 & G8 & G9).
  set (p2 := p <| dp_learned_paths ::= upsert (ps_path s) (write_record s) |>).
  set (e3 := e2 <| profiles_ ::= <[ps_serial_hash s := p2]> |>).
  assert (forall r, r_path (write_record s r) = r_path r) as Hw by done.
  assert (profile_ok (ps_serial_hash s) p2) as Hp2.
  { split_and!; [done|exact Hh| |]; cbn.
    - rewrite upsert_paths by done. apply list.NoDup_app. split_and!; [done| |].
      + intros x Hx. case_decide; [by intros ?%not_elem_of_nil|]. intros ->%list_elem_of_singleton. done.
      + case_decide; [constructor|apply NoDup_singleton].
    - assert (Forall good_path (r_path <$> upsert (ps_path s) (write_record s) (dp_learned_paths p))) as Hall.
      { rewrite upsert_paths by done. apply Forall_app. split; [by apply Forall_fmap|]. case_decide; [constructor|by apply Forall_singleton]. }
      exact (proj1 (Forall_fmap _ _ _) Hall). }
  pose proof (TrySave_same p2 e3) as Ht.
  assert (profiles_ e3 !! dp_serial_hash p2 = Some p2) as Hl by (destruct Hp2 as [-> _]; cbn; by rewrite lookup_insert_eq).
  specialize (Ht Hl). destruct (TrySaveProfile env p2 e3) as [ok e4]. destruct Ht as (T1 & T2 & T3).
  split_and!.
  - rewrite T1. cbn. by apply map_Forall_insert_2.
  - by rewrite T2.
  - by rewrite T3.
  - intros h'. change (corrections h' e) with (corrections h' e1). rewrite <-(G8 h'). unfold corrections. rewrite T1. cbn.
    destruct (decide (h' = ps_serial_hash s)) as [->|]; [by rewrite lookup_insert_eq, G1|by rewrite lookup_insert_ne].
  - destruct ok; [by eexists|done].
  - right. exists (default (record_fresh (ps_path s)) (FindRecord (ps_path s) (dp_learned_paths p))). split.
    { destruct (FindRecord _ _) as [r|] eqn:Hr; [|done]. by apply FindRecord_path in Hr as []. }
    intros h' p'. change (record_of e h' p') with (record_of e1 h' p'). rewrite <-(G9 h' p'). unfold record_of. rewrite T1. cbn.
    destruct (decide (h' = ps_serial_hash s)) as [->|Hne].
    + rewrite lookup_insert_eq, G1. cbn. rewrite FindRecord_upsert by done.
      destruct (decide (p' = ps_path s)) as [->|]; [by rewrite decide_True|by rewrite decide_False by naive_solver].
    + rewrite lookup_insert_ne, decide_False by naive_solver. done.
Qed.

(** Equal up to what a state's identity and learning depend on. *)
Definition same_learning (s s0 : PathState) : Prop :=
  ps_serial_hash s = ps_serial_hash s0 /\ ps_path s = ps_path s0 /\
  ps_ready s = ps_ready s0 /\ ps_learned s = ps_learned s0.

Lemma consistent_same s s0 r : same_learning s s0 -> consistent s0 r -> consistent s r.
Proof. intros (_ & _ & H1 & H2). unfold consistent. by rewrite H1, H2. Qed.

Lemma Agree_ext e e' :
  profiles_ e' = profiles_ e -> states_ e' = states_ e -> sent e' = sent e -> Agree e -> Agree e'.
Proof.
  intros E1 E2 E3 [A B C]. constructor.
  - by rewrite E1.
  - intros k s. rewrite E2. intros Hs. unfold record_of. rewrite E1. by apply B.
  - intros h p. unfold corrections, record_of, driver_store. rewrite E1, E3. apply C.
Qed.

Lemma put_lookup s e k s' :
  states_ (put_state s e) !! k = Some s' ->
  k = KeyFor (ps_serial_hash s) (ps_path s) /\ s' = s \/
  k <> KeyFor (ps_serial_hash s) (ps_path s) /\ states_ e !! k = Some s'.
Proof.
  change (states_ (put_state s e)) with (<[KeyFor (ps_serial_hash s) (ps_path s) := s]> (states_ e)).
  intros [[<- <-]|[]]%lookup_insert_Some; auto.
Qed.

Lemma put_agree s e :
  Agree e -> good_ids s -> consistent s (record_of e (ps_serial_hash s) (ps_path s)) -> Agree (put_state s e).
Proof.
  intros [A B C] Hid Hc. constructor; [done| |done]. intros k s' [[-> ->]|[_ Hs]]%put_lookup; [done|by apply B].
Qed.

(** A state persisted and written back: profiles and states still agree. *)
Lemma sync_put s imm e :
  Agree e -> good_ids s -> imm = true \/ consistent s (record_of e (ps_serial_hash s) (ps_path s)) ->
  let '(s', e') := SyncProfile env (ps_serial_hash s) s imm e in
  let e2 := put_state s' e' in
  map_Forall profile_ok (profiles_ e2) /\
  (forall k s2, states_ e2 !! k = Some s2 ->
    k = KeyFor (ps_serial_hash s2) (ps_path s2) /\ good_ids s2 /\
    consistent s2 (record_of e2 (ps_serial_hash s2) (ps_path s2))) /\
  (forall h, corrections h e2 = corrections h e) /\ driver_store e2 = driver_store e /\ same_learning s' s /\
  ps_kind s' = ps_kind s /\
  (forall h p, (h, p) <> (ps_serial_hash s, ps_path s) -> record_of e2 h p = record_of e h p) /\
  (imm = true -> exists r, record_of e2 (ps_serial_hash s) (ps_path s) = Some r /\
     r_ready r = ps_ready s /\ r_learned r = ps_learned s) /\
  (consistent s (record_of e (ps_serial_hash s) (ps_path s)) ->
   consistent s (record_of e2 (ps_serial_hash s) (ps_path s))).
Proof.
  intros Ha Hid Hc. pose proof (sync_effect s imm e Hid (ag_prof _ Ha)) as Hs. cbv zeta in Hs.
  destruct (SyncProfile env _ s imm e) as [s' e']. destruct Hs as (S1 & S2 & S3 & S4 & [t ->] & S6).
  assert (forall h p, (h, p) <> (ps_serial_hash s, ps_path s) -> record_of e' h p = record_of e h p) as Hother.
  { intros h p Hne. destruct S6 as [[_ Hr]|(r0 & _ & Hr)]; rewrite Hr; [done|]. rewrite decide_False; [done|naive_solver]. }
  assert (imm = true -> exists r0, record_of e' (ps_serial_hash s) (ps_path s) = Some (write_record s r0)) as Himm.
  { intros ->. destruct S6 as [[? _]|(r0 & _ & Hr)]; [done|]. exists r0. by rewrite Hr, decide_True. }
  assert (consistent s (record_of e' (ps_serial_hash s) (ps_path s))) as Hcons.
  { destruct S6 as [[-> Hr]|(r0 & _ & Hr)]; rewrite Hr; [by destruct Hc|]. by rewrite decide_True. }
  cbv zeta. split_and!; try done.
  - intros k s2 [[-> ->]|[Hk Hs2]]%put_lookup; [by split_and!|]. rewrite S2 in Hs2.
    destruct (ag_states _ Ha k s2 Hs2) as (K1 & K2 & K3). split_and!; [done..|].
    change (record_of (put_state ?a e')) with (record_of e'). rewrite Hother; [done|]. intros [= E1 E2]. apply Hk.
    cbn. by rewrite K1, E1, E2.
  - unfold driver_store. cbn. by rewrite S3.
  - intros Hi. destruct (Himm Hi) as [r0 Hr]. by exists (write_record s r0).
Qed.

(** Persisting a consistent state keeps the agreement. *)
Lemma sync_agree s imm e :
  Agree e -> good_ids s -> consistent s (record_of e (ps_serial_hash s) (ps_path s)) ->
  let '(s', e') := SyncProfile env (ps_serial_hash s) s imm e in
  Agree (put_state s' e') /\ same_learning s' s.
Proof.
  intros Ha Hid Hc. pose proof (sync_put s imm e Ha Hid (or_intror Hc)) as Hs.
  destruct (SyncProfile env _ s imm e) as [s' e']. cbv zeta in Hs.
  destruct Hs as (S1 & S2 & S3 & S4 & Hsame & _ & S7 & _ & S9). split; [|done].
  constructor; [done|done|]. intros h p Hh Hp. rewrite S3, S4.
  pose proof (ag_driver _ Ha h p Hh Hp) as Hm.
  destruct (decide ((h, p) = (ps_serial_hash s, ps_path s))) as [[= -> ->]|Hne]; [|by rewrite S7].
  specialize (S9 Hc). unfold mirrors, consistent in *.
  destruct (record_of e _ _) as [r|], (record_of (put_state s' e') _ _) as [r'|]; try done.
  - destruct Hc as [C1 C2], S9 as [D1 D2]. rewrite D1, D2, <-C1, <-C2. done.
  - destruct Hc as [C1 C2]. rewrite C1, S9 in Hm. done.
  - destruct S9 as [D1 D2]. by rewrite D1, Hc.
Qed.

(** Publishing a state, whatever was there before, makes record and driver
    agree with it. *)
Lemma publish_agree s on e :
  Agree e -> good_ids s -> on = ps_ready s -> Agree (publish_state env s on e).
Proof.
  intros Ha Hid Hon. unfold publish_state. set (s0 := s <| ps_last_updated_unix := _ |>).
  pose proof (sync_put s0 true e Ha Hid (or_introl eq_refl)) as Hs.
  destruct (SyncProfile env _ s0 true e) as [s' e']. cbv zeta in Hs.
  destruct Hs as (S1 & S2 & S3 & S4 & (Q1 & Q2 & Q3 & Q4) & S6 & S7 & S8 & _).
  destruct (S8 eq_refl) as (r & R1 & R2 & R3). clear S8. unfold PushState.
  change (ps_serial_hash s0) with (ps_serial_hash s) in *. change (ps_path s0) with (ps_path s) in *.
  pose proof (push_effect (ps_serial_hash s') (ps_path s') (ps_kind s') (ps_learned s') on (put_state s' e')) as Hp.
  rewrite Q1, Q2 in Hp. specialize (Hp (proj1 Hid) (proj2 Hid)). cbv zeta in Hp. rewrite <-Q1, <-Q2 in Hp.
  destruct Hp as (P1 & P2 & P3). constructor.
  - by rewrite P1.
  - intros k s2. rewrite P2. unfold record_of. rewrite P1. apply S2.
  - intros h p Hh Hp. unfold corrections, record_of. rewrite P1, P3.
    fold (corrections h (put_state s' e')). fold (record_of (put_state s' e') h p).
    rewrite Q1, Q2. case_decide as Hk.
    + injection Hk as -> ->. rewrite R1, S3. unfold mirrors. rewrite R2, R3, Q4, Hon.
      change (ps_ready s0) with (ps_ready s). destruct (ps_ready s && _); [by eexists|done].
    + rewrite S7, S3 by done. rewrite S4. by apply Ha.
Qed.

Lemma state_for_agree h p e :
  Agree e -> good_hash h -> good_path p ->
  let '(s, e') := StateFor h p e in
  Agree e' /\ ps_serial_hash s = h /\ ps_path s = p /\ consistent s (record_of e' h p).
Proof.
  intros Ha Hh Hp. unfold StateFor.
  destruct (states_ e !! KeyFor h p) as [s|] eqn:Hs.
  - destruct (ag_states _ Ha _ _ Hs) as (K1 & K2 & K3). apply KeyFor_inj in K1 as [K1 K4]; [|done|apply K2].
    change (default state_new (Some s)) with s. rewrite <-K1, <-K4 in *.
    assert ((h =? 0)%Z = false) as -> by (unfold good_hash in Hh; lia). by split_and!.
  - change (ps_serial_hash (default state_new None) =? 0)%Z with true. cbv match.
    pose proof (GetOrCreate_same h e Hh (ag_prof _ Ha)) as Hg. destruct (GetOrCreate h e) as [pr e'].
    destruct Hg as (G1 & G2 & G3 & G4 & G5 & G6 & G7 & G8 & G9). split.
    + constructor; [done| |].
      * intros k s. rewrite G4, G9. apply Ha.
      * intros h' p' Hh' Hp'. unfold driver_store. rewrite G5, G8, G9. by apply Ha.
    + unfold record_of. rewrite G1. cbn. destruct (FindRecord p (dp_learned_paths pr)) as [r|]; [|done].
      unfold seed_state. destruct (1 <? r_sample_count r)%Z; done.
Qed.

(** ** Observations *)

Lemma same_learning_refl s : same_learning s s.
Proof. by split_and!. Qed.

Lemma same_learning_trans a b c : same_learning a b -> same_learning b c -> same_learning a c.
Proof. intros (? & ? & ? & ?) (? & ? & ? & ?). split_and!; congruence. Qed.

Lemma press_same now b s : same_learning (press now b s) s.
Proof. unfold press. destruct (ps_last_press_time_us s =? 0)%Z; by split_and!. Qed.

Lemma trigger_peak_same b s : same_learning (trigger_peak_update b s) s.
Proof. unfold trigger_peak_update. destruct (sb_range b) as [[[] ?] ?]; by split_and!. Qed.

Lemma rest_sample_same burst x s : same_learning (rest_sample burst x s) s.
Proof.
  assert (forall n s, same_learning (spend_credit n x s) s) as Hsp.
  { induction n as [|n IH]; intros s0; cbn [spend_credit]; [by split_and!|]. destruct (fge _ _); [|by split_and!].
    eapply same_learning_trans; [apply IH|by split_and!]. }
  unfold rest_sample. cbv zeta. set (s1 := s <| ps_rest_credit ::= _ |>).
  assert (same_learning (spend_credit 2 x s1) s) as Hs by (eapply same_learning_trans; [apply Hsp|by split_and!]).
  destruct (negb _); (eapply same_learning_trans; [|exact Hs]); by split_and!.
Qed.

Lemma drift_test_same now s :
  let '(s', shift) := drift_test now s in
  if shift then ps_serial_hash s' = ps_serial_hash s /\ ps_path s' = ps_path s /\ ps_ready s' = false else same_learning s' s.
Proof.
  unfold drift_test. cbv zeta. destruct (_ && _); [|by split_and!].
  destruct (ps_drift_exceeded_since_us s =? 0)%Z; destruct (_ <=? _)%Z; by split_and!.
Qed.

Lemma learn_rest_ids st tr s s' :
  learn_rest st tr s = Some s' -> ps_serial_hash s' = ps_serial_hash s /\ ps_path s' = ps_path s /\ ps_ready s' = true.
Proof. unfold learn_rest. cbv zeta. destruct (_ && _); [|done]. intros Hs. apply (inj Some) in Hs. subst s'. by split_and!. Qed.

Lemma sync_state_agree s0 s h p e :
  Agree e -> good_hash h -> good_path p -> ps_serial_hash s0 = h -> ps_path s0 = p ->
  consistent s0 (record_of e h p) -> same_learning s s0 -> Agree (sync_state env s e) /\ Agree (put_state s e).
Proof.
  intros Ha Hh Hp <- <- Hc (Q1 & Q2 & Q3 & Q4).
  assert (good_ids s) as Hid by (unfold good_ids; by rewrite Q1, Q2).
  assert (consistent s (record_of e (ps_serial_hash s) (ps_path s))) as Hcs
    by (rewrite Q1, Q2; eapply consistent_same; [|exact Hc]; by split_and!).
  split; [|by apply put_agree]. unfold sync_state. pose proof (sync_agree s false e Ha Hid Hcs) as Hs.
  destruct (SyncProfile env _ s false e). apply Hs.
Qed.

Lemma quiet_agree t h e : Agree e -> Agree (e <| device_button_quiet_until_us_ ::= <[h := t]> |>).
Proof. by apply Agree_ext. Qed.

Lemma observe_boolean_agree now b e : body_ok b -> Agree e -> Agree (observe_boolean env now b e).
Proof.
  intros Hb Ha. unfold observe_boolean. destruct (negb _); [done|]. destruct (learnable b) as [path|] eqn:Hl; [|done].
  destruct (learnable_good b path Hb Hl) as [Hp Hh].
  pose proof (state_for_agree (sb_serial_hash b) path e Ha Hh Hp) as Hs.
  destruct (StateFor _ path e) as [s e1]. destruct Hs as (Ha1 & I1 & I2 & Hc).
  set (s1 := s <| ps_kind := InputHealthCompBoolean |>). cbv zeta. destruct (_ <? _)%Z.
  2: { by apply (sync_state_agree s s1 (sb_serial_hash b) path e1). }
  pose proof (press_same now b s1) as Hpr. set (s2 := press now b s1) in *. clearbody s2.
  apply (quiet_agree (u64 (now + quiet_window_us)) (sb_serial_hash b)) in Ha1.
  set (e2 := e1 <| device_button_quiet_until_us_ ::= _ |>) in *.
  destruct (negb (ps_ready s2) && _ && _).
  - apply publish_agree; [done| |done]. destruct Hpr as (Q1 & Q2 & _). unfold good_ids. cbn. rewrite Q1, Q2. cbn.
    by rewrite I1, I2.
  - by apply (sync_state_agree s s2 (sb_serial_hash b) path e2).
Qed.

Lemma observe_scalar_agree now entries b e : body_ok b -> Agree e -> Agree (observe_scalar env now entries b e).
Proof.
  intros Hb Ha. unfold observe_scalar. destruct (negb _); [done|]. destruct (learnable b) as [path|] eqn:Hl; [|done].
  destruct (learnable_good b path Hb Hl) as [Hp Hh].
  pose proof (state_for_agree (sb_serial_hash b) path e Ha Hh Hp) as Hs.
  destruct (StateFor _ path e) as [s e1]. destruct Hs as (Ha1 & I1 & I2 & Hc). cbv zeta.
  set (s1 := s <| ps_kind := KindForBody b |>). set (tr := IsTriggerKind (ps_kind s1) path).
  set (s2 := if tr then trigger_peak_update b s1 else s1).
  assert (same_learning s2 s) as H2 by (unfold s2; destruct tr; [eapply same_learning_trans; [apply trigger_peak_same|]|]; by split_and!).
  clearbody s2. destruct (negb _); [by apply (sync_state_agree s s2 (sb_serial_hash b) path e1)|].
  pose proof (rest_sample_same (rest_burst_active_ e1) (d_of_f (sb_last_value b)) s2) as H3.
  set (s3 := rest_sample _ _ s2) in *. clearbody s3.
  assert (same_learning s3 s) as H30 by (by eapply same_learning_trans).
  assert (forall s4, ps_serial_hash s4 = ps_serial_hash s3 -> ps_path s4 = ps_path s3 -> good_ids s4) as Hids.
  { intros s4 E1 E2. destruct H30 as (Q1 & Q2 & _). unfold good_ids. rewrite E1, E2, Q1, Q2, I1, I2. by split. }
  destruct (ps_ready s3).
  - pose proof (drift_test_same now s3) as Hd. destruct (drift_test now s3) as [s4 shift]. destruct shift.
    + destruct Hd as (D1 & D2 & D3). apply publish_agree; [done|by apply Hids|done].
    + apply (sync_state_agree s s4 (sb_serial_hash b) path e1); try done.
      by eapply same_learning_trans.
  - destruct (learn_rest _ tr s3) as [s4|] eqn:Hlr.
    + destruct (learn_rest_ids _ _ _ _ Hlr) as (D1 & D2 & D3). by apply publish_agree; [done|apply Hids|].
    + by apply (sync_state_agree s s3 (sb_serial_hash b) path e1).
Qed.

Lemma Tick_agree now entries e : Forall body_ok entries -> Agree e -> Agree (Tick env now entries e).
Proof.
  intros Hb Ha. unfold Tick.
  assert (forall l e, Forall body_ok l -> Agree e -> Agree (foldl (fun e b => observe_boolean env now b e) e l)) as H1.
  { induction l as [|b l IH]; [done|]. intros e0 [Hb0 Hl]%list.Forall_cons Ha0. apply IH; [done|]. by apply observe_boolean_agree. }
  assert (forall l e, Forall body_ok l -> Agree e -> Agree (foldl (fun e b => observe_scalar env now entries b e) e l)) as H2.
  { induction l as [|b l IH]; [done|]. intros e0 [Hb0 Hl]%list.Forall_cons Ha0. apply IH; [done|]. by apply observe_scalar_agree. }
  apply H2; [done|]. by apply H1.
Qed.

(** ** Requests *)

Lemma Flush_agree e : Agree e -> Agree (Flush env e).
Proof.
  intros Ha. unfold Flush.
  assert (forall l e, NoDup l.*1 -> Agree e -> (forall k s, (k, s) ∈ l -> states_ e !! k = Some s) ->
    Agree (foldl (fun e '(_, s) =>
      if (ps_serial_hash s =? 0)%Z then e
      else let '(s, e) := SyncProfile env (ps_serial_hash s) s true e in put_state s e) e l)) as Hfold.
  { induction l as [|[k s] l IH]; [done|]. intros e0 [Hk Hnd]%list.NoDup_cons Ha0 Hl. cbn [foldl].
    assert (states_ e0 !! k = Some s) as Hs by (apply Hl; left).
    destruct (ag_states _ Ha0 k s Hs) as (K1 & K2 & K3).
    destruct (ps_serial_hash s =? 0)%Z; [apply IH; [done..|]; intros; apply Hl; by right|].
    pose proof (sync_agree s true e0 Ha0 K2 K3) as Hsync. pose proof (sync_effect s true e0 K2 (ag_prof _ Ha0)) as Heff.
    cbv zeta in Heff. destruct (SyncProfile env _ s true e0) as [s' e1]. destruct Hsync as [Hag (Q1 & Q2 & _)].
    destruct Heff as (_ & E2 & _). apply IH; [done|done|]. intros k2 s2 Hin.
    change (states_ (put_state s' e1)) with (<[KeyFor (ps_serial_hash s') (ps_path s') := s']> (states_ e1)).
    rewrite Q1, Q2, <-K1, E2. rewrite lookup_insert_ne; [apply Hl; by right|]. intros <-. apply Hk.
    by apply (list_elem_of_fmap_2 fst) in Hin. }
  apply Hfold; [apply NoDup_fst_map_to_list|done|]. intros k s Hin. by apply elem_of_map_to_list.
Qed.

(** A run of pushes of one device's records, each with its flag or skipped. *)
Lemma push_fold h (f : LearnedPathRecord -> option bool) (lr : LearnedPathRecord -> Learned) (g : Engine -> LearnedPathRecord -> Engine) rs e :
  (forall e r, g e r = match f r with None => e
     | Some on => PushCompensation env h (r_path r) (KindFromString (r_kind r)) (lr r) on e end) ->
  good_hash h -> Forall (fun r => good_path (r_path r)) rs -> NoDup (r_path <$> rs) ->
  let e' := foldl g e rs in
  profiles_ e' = profiles_ e /\ states_ e' = states_ e /\
  forall h' p', good_path p' ->
    match (if decide (h' = h) then r ← FindRecord p' rs; on ← f r; Some (r, on) else None) with
    | Some (r, on) =>
      exists kind, flat (driver_store e') (h', p') =
        (if on && corrections h e then Some (make_entry h p' kind true (lr r)) else None)
    | None => flat (driver_store e') (h', p') = flat (driver_store e) (h', p')
    end.
Proof.
  intros Hg Hh. revert e. induction rs as [|r rs IH]; intros e Hgood Hnd; cbn [foldl].
  { split_and!; [done..|]. intros h' p' _. by destruct (decide (h' = h)). }
  apply list.Forall_cons in Hgood as [Hr Hgood]. cbn in Hnd. apply list.NoDup_cons in Hnd as [Hnot Hnd].
  specialize (IH (g e r) Hgood Hnd). destruct IH as (I1 & I2 & I3). rewrite Hg in *.
  assert (forall q, q = r_path r -> FindRecord q rs = None) as Hnone.
  { intros q ->. destruct (FindRecord (r_path r) rs) as [r'|] eqn:E; [|done].
    destruct (FindRecord_path _ _ _ E) as [E1 E2]. destruct Hnot. rewrite <-E1. by apply list_elem_of_fmap_2. }
  destruct (f r) as [on|] eqn:Hf.
  - pose proof (push_effect h (r_path r) (KindFromString (r_kind r)) (lr r) on e Hh Hr) as Hp. cbv zeta in Hp.
    destruct Hp as (P1 & P2 & P3). rewrite P1, P2 in *. split_and!; [done..|].
    intros h' p' Hp'. specialize (I3 h' p' Hp').
    destruct (decide (h' = h)) as [->|Hne]; [|by rewrite I3, P3, decide_False by congruence].
    cbn. destruct (decide (r_path r = p')) as [Heq|Hne].
    + rewrite (Hnone p') in I3 by done. cbn in I3 |- *. rewrite Hf. cbn. exists (KindFromString (r_kind r)).
      rewrite I3, P3, decide_True by congruence. by rewrite Heq.
    + assert (corrections h (PushCompensation env h (r_path r) (KindFromString (r_kind r)) (lr r) on e) = corrections h e)
        as Hco by (unfold corrections; by rewrite P1). rewrite Hco in I3.
      destruct (FindRecord p' rs) as [r'|]; cbn in I3 |- *; [|by rewrite I3, P3, decide_False by congruence].
      destruct (f r'); cbn in I3 |- *; [done|]. by rewrite I3, P3, decide_False by congruence.
  - split_and!; [done..|]. intros h' p' Hp'. specialize (I3 h' p' Hp').
    destruct (decide (h' = h)) as [->|Hne]; [|done]. cbn. destruct (decide (r_path r = p')) as [Heq|Hne]; [|done].
    rewrite (Hnone p') in I3 by done. cbn in I3 |- *. by rewrite Hf.
Qed.

(** Creating an absent profile changes nothing that is seen. *)
Lemma GetOrCreate_agree h e :
  good_hash h -> Agree e -> Agree (GetOrCreate h e).2.
Proof.
  intros Hh Ha. pose proof (GetOrCreate_same h e Hh (ag_prof _ Ha)) as Hg. destruct (GetOrCreate h e) as [p e1].
  destruct Hg as (_ & _ & G3 & G4 & G5 & _ & _ & G8 & G9). cbn [snd].
  constructor; [done|intros k s; rewrite G4, G9; apply Ha|]. intros h' p'. rewrite G8, G9.
  unfold driver_store. rewrite G5. apply Ha.
Qed.

Lemma SetDeviceCorrectionsEnabled_agree h on e :
  (0 <= h < 2 ^ 64)%Z -> Agree e -> Agree (SetDeviceCorrectionsEnabled env h on e).
Proof.
  intros Hr Ha. unfold SetDeviceCorrectionsEnabled. destruct (Z.eqb_spec h 0); [done|].
  assert (good_hash h) as Hh by (unfold good_hash; lia).
  pose proof (GetOrCreate_same h e Hh (ag_prof _ Ha)) as Hg. pose proof (GetOrCreate_agree h e Hh Ha) as Ha1.
  destruct (GetOrCreate h e) as [p e1]. cbn [snd] in Ha1. destruct Hg as (G1 & (P1 & P2 & P3 & P4) & G3 & _).
  destruct (Bool.eqb (dp_corrections_enabled p) on) eqn:Hon; [done|]. cbv zeta.
  set (p2 := p <| dp_corrections_enabled := on |>). set (e2 := e1 <| profiles_ ::= <[h := p2]> |>).
  assert (profiles_ e2 !! dp_serial_hash p2 = Some p2) as Hl by (cbn; by rewrite P1, lookup_insert_eq).
  pose proof (TrySave_same p2 e2 Hl) as Ht. destruct (TrySaveProfile env p2 e2) as [ok e3]. destruct Ht as (T1 & T2 & T3).
  match goal with |- Agree (foldl ?g _ _) =>
    pose proof (push_fold h (fun r => if on && negb (r_ready r) then None else Some (on && r_ready r)) r_learned g
      (dp_learned_paths p2) (tick_call e3)) as Hf end.
  cbv zeta in Hf. set (e4 := foldl _ _ _) in *. destruct Hf as (F1 & F2 & F3); [|done|done|done|].
  { intros e0 r. rewrite <-P1. by destruct (on && negb (r_ready r)). }
  clearbody e4. change (profiles_ (tick_call e3)) with (profiles_ e3) in F1. change (states_ (tick_call e3)) with (states_ e3) in F2.
  assert (forall h' p', record_of e3 h' p' = record_of e1 h' p') as Hrec.
  { intros h' p'. unfold record_of. rewrite T1. cbn. destruct (decide (h' = h)) as [->|]; [|by rewrite lookup_insert_ne].
    by rewrite lookup_insert_eq, G1. }
  assert (forall h', corrections h' e3 = if decide (h' = h) then on else corrections h' e1) as Hco.
  { intros h'. unfold corrections. rewrite T1. cbn. case_decide as Hd; [subst; by rewrite lookup_insert_eq|].
    by rewrite lookup_insert_ne. }
  constructor.
  - rewrite F1, T1. cbn. apply map_Forall_insert_2; [|done]. by split_and!.
  - intros k s. rewrite F2, T2. intros Hs. unfold record_of. rewrite F1.
    fold (record_of e3 (ps_serial_hash s) (ps_path s)). rewrite Hrec. by apply Ha1.
  - intros h' p' Hh' Hp'. unfold corrections, record_of. rewrite F1.
    fold (corrections h' e3). fold (record_of e3 h' p'). rewrite Hrec, Hco.
    specialize (F3 h' p' Hp').
    assert (driver_store (tick_call e3) = driver_store e1) as Hds by (unfold driver_store; cbn; by rewrite T3).
    rewrite Hds in F3. case_decide as Hd; [|rewrite F3; by apply Ha1].
    subst h'. unfold record_of. rewrite G1. cbn. change (dp_learned_paths p2) with (dp_learned_paths p) in F3.
    change (corrections h (tick_call e3)) with (corrections h e3) in F3. rewrite Hco, decide_True in F3 by done.
    pose proof (ag_driver _ Ha1 h p' Hh Hp') as Hm. unfold record_of in Hm. rewrite G1 in Hm. cbn in Hm.
    destruct (FindRecord p' (dp_learned_paths p)) as [r|]; cbn in F3, Hm |- *; [|by rewrite F3].
    destruct on, (r_ready r); cbn in F3 |- *.
    + destruct F3 as [kind F3]. by exists kind.
    + rewrite F3. exact Hm.
    + by destruct F3 as [_ ->].
    + by destruct F3 as [_ ->].
Qed.

(** One device's ready records pushed. *)
Definition push_ready (e : Engine) (hp : Z * DeviceProfile) : Engine :=
  let p := hp.2 in
  if negb (dp_corrections_enabled p) then e else
  foldl (fun e r => if r_ready r then push_record env (dp_serial_hash p) true e r else e) e (dp_learned_paths p).

Lemma push_ready_fold order e : PushReadyCompensations env order e = foldl push_ready e order.
Proof. unfold PushReadyCompensations. revert e. induction order as [|[h p] order IH]; [done|]. intros e. apply IH. Qed.

Lemma push_ready_effect h p e :
  profiles_ e !! h = Some p -> profile_ok h p ->
  let e' := push_ready e (h, p) in
  profiles_ e' = profiles_ e /\ states_ e' = states_ e /\
  (forall h' p', good_path p' -> h' <> h -> flat (driver_store e') (h', p') = flat (driver_store e) (h', p')) /\
  (forall p', good_path p' ->
     mirrors (corrections h e) (record_of e h p') h p' (flat (driver_store e) (h, p')) \/
     flat (driver_store e) (h, p') = None ->
     mirrors (corrections h e) (record_of e h p') h p' (flat (driver_store e') (h, p'))).
Proof.
  intros Hp (P1 & P2 & P3 & P4). unfold push_ready. cbn [snd].
  assert (corrections h e = dp_corrections_enabled p) as Hco by (unfold corrections; by rewrite Hp).
  assert (forall p', record_of e h p' = FindRecord p' (dp_learned_paths p)) as Hrec by (intros; unfold record_of; by rewrite Hp).
  destruct (dp_corrections_enabled p) eqn:Hon; cbn [negb].
  - match goal with |- context [foldl ?g e _] =>
      pose proof (push_fold h (fun r => if r_ready r then Some true else None) r_learned g (dp_learned_paths p) e) as Hf end.
    cbv zeta in Hf. set (e4 := foldl _ _ _) in *. destruct Hf as (F1 & F2 & F3); [|done|done|done|].
    { intros e0 r. rewrite P1. by destruct (r_ready r). }
    split_and!; [done..| |].
    + intros h' p' Hp' Hne. specialize (F3 h' p' Hp'). by rewrite decide_False in F3 by done.
    + intros p' Hp' Hm. specialize (F3 h p' Hp'). rewrite decide_True in F3 by done. rewrite Hrec, Hco in *.
      destruct (FindRecord p' (dp_learned_paths p)) as [r|]; cbn in F3, Hm |- *.
      2: { rewrite F3. by destruct Hm. }
      destruct (r_ready r); cbn in F3, Hm |- *; [exact F3|]. rewrite F3. by destruct Hm.
  - split_and!; [done..|]. intros p' Hp' Hm. rewrite Hrec, Hco in *.
    destruct Hm as [Hm|Hm]; [exact Hm|]. unfold mirrors. rewrite Hm. destruct (FindRecord _ _); [|done].
    by rewrite andb_false_r.
Qed.

(** The devices in the list are pushed, the others keep what they had. *)
Lemma push_ready_all order e :
  NoDup order.*1 -> (forall h p, (h, p) ∈ order -> profiles_ e !! h = Some p /\ profile_ok h p) ->
  let e' := foldl push_ready e order in
  profiles_ e' = profiles_ e /\ states_ e' = states_ e /\
  (forall h p', good_path p' -> h ∉ order.*1 -> flat (driver_store e') (h, p') = flat (driver_store e) (h, p')) /\
  (forall h p', good_path p' -> h ∈ order.*1 ->
     mirrors (corrections h e) (record_of e h p') h p' (flat (driver_store e) (h, p')) \/
     flat (driver_store e) (h, p') = None ->
     mirrors (corrections h e) (record_of e h p') h p' (flat (driver_store e') (h, p'))).
Proof.
  revert e. induction order as [|[h p] order IH]; intros e Hnd Hin; cbn [foldl].
  { split_and!; [done..|]. intros ?? _ Hin'. by apply not_elem_of_nil in Hin'. }
  cbn in Hnd. apply list.NoDup_cons in Hnd as [Hnot Hnd].
  destruct (Hin h p) as [Hp Hok]; [left|].
  destruct (push_ready_effect h p e Hp Hok) as (E1 & E2 & E3 & E4). set (e1 := push_ready e (h, p)) in *.
  destruct (IH e1 Hnd) as (I1 & I2 & I3 & I4). { intros h' p' Hi. rewrite E1. apply Hin. by right. }
  assert (forall h', corrections h' e1 = corrections h' e) as Hco by (intros; unfold corrections; by rewrite E1).
  assert (forall h' p', record_of e1 h' p' = record_of e h' p') as Hre by (intros; unfold record_of; by rewrite E1).
  rewrite E1, E2 in *. split_and!; [done..| |].
  - intros h' p' Hp' Hn. cbn in Hn. apply not_elem_of_cons in Hn as [Hn1 Hn2]. rewrite I3, E3 by done. done.
  - intros h' p' Hp' Hi Hm. cbn in Hi. destruct (decide (h' = h)) as [->|Hne].
    + rewrite I3 by done. by apply E4.
    + apply list.elem_of_cons in Hi as [->|Hi]; [done|]. specialize (I4 h' p' Hp' Hi). rewrite Hco, Hre, E3 in I4 by done.
      by apply I4.
Qed.

(** Pushing every profile, in any order, leaves a driver that agrees: one that
    did, and one that held nothing. *)
Lemma PushReady_agree order e :
  order ≡ₚ map_to_list (profiles_ e) -> map_Forall profile_ok (profiles_ e) ->
  (forall k s, states_ e !! k = Some s ->
    k = KeyFor (ps_serial_hash s) (ps_path s) /\ good_ids s /\ consistent s (record_of e (ps_serial_hash s) (ps_path s))) ->
  (forall h p, good_hash h -> good_path p ->
    mirrors (corrections h e) (record_of e h p) h p (flat (driver_store e) (h, p)) \/ flat (driver_store e) (h, p) = None) ->
  Agree (PushReadyCompensations env order e).
Proof.
  intros Hperm Hprof Hst Hdr. rewrite push_ready_fold.
  assert (NoDup order.*1) as Hnd by (rewrite Hperm; apply NoDup_fst_map_to_list).
  assert (forall h p, (h, p) ∈ order -> profiles_ e !! h = Some p /\ profile_ok h p) as Hin.
  { intros h p Hi. rewrite Hperm, elem_of_map_to_list in Hi. split; [done|]. by apply (Hprof h p). }
  destruct (push_ready_all order e Hnd Hin) as (E1 & E2 & E3 & E4). set (e1 := foldl _ _ _) in *. clearbody e1.
  assert (forall h, corrections h e1 = corrections h e) as Hco by (intros; unfold corrections; by rewrite E1).
  assert (forall h p, record_of e1 h p = record_of e h p) as Hre by (intros; unfold record_of; by rewrite E1).
  constructor.
  - by rewrite E1.
  - intros k s. rewrite E2, Hre. apply Hst.
  - intros h p Hh Hp. rewrite Hco, Hre. destruct (decide (h ∈ order.*1)) as [Hi|Hn]; [apply E4; auto|].
    rewrite E3 by done. destruct (Hdr h p Hh Hp) as [Hm|Hm]; [done|]. rewrite Hm.
    assert (profiles_ e !! h = None) as Hnone.
    { destruct (profiles_ e !! h) as [q|] eqn:Hq; [|done]. destruct Hn. apply (elem_of_map_to_list) in Hq.
      rewrite <-Hperm in Hq. by apply (list_elem_of_fmap_2 fst) in Hq. }
    unfold record_of. by rewrite Hnone.
Qed.
Lemma FindRecord_cons q r l : FindRecord q (r :: l) = if decide (r_path r = q) then Some r else FindRecord q l.
Proof. done. Qed.

Lemma FindRecord_filter p q l :
  FindRecord q (filter (fun r => r_path r <> p) l) = if decide (q = p) then None else FindRecord q l.
Proof.
  induction l as [|r l IH]; [by destruct (decide _)|]. rewrite list.filter_cons.
  destruct (decide (r_path r <> p)) as [Hr|Hr]; rewrite !FindRecord_cons, IH.
  - destruct (decide (r_path r = q)) as [<-|]; [|done]. by rewrite decide_False.
  - destruct (decide (q = p)); [done|]. rewrite (decide_False (P := r_path r = q)); [done|]. intros Hq.
    apply Hr. congruence.
Qed.

(** The profile of one device replaced, its save tried, states dropped. *)
Lemma drop_records_agree h pr (ps : list (list byte)) e e1 e2 :
  Agree e -> good_hash h -> profile_ok h pr -> profiles_ e1 = <[h := pr]> (profiles_ e) ->
  dp_corrections_enabled pr = corrections h e ->
  (forall p, good_path p -> FindRecord p (dp_learned_paths pr) = (if decide (p ∈ ps) then None else record_of e h p)) ->
  profiles_ e2 = profiles_ e1 ->
  (forall k s, states_ e2 !! k = Some s -> states_ e !! k = Some s /\ (ps_serial_hash s = h -> ps_path s ∉ ps)) ->
  (forall h' p, good_path p -> flat (driver_store e2) (h', p) =
     if decide (h' = h /\ p ∈ ps) then None else flat (driver_store e) (h', p)) ->
  Agree e2.
Proof.
  intros Ha Hh Hpr Hp1 Hco Hfind Hp2 Hst Hdr.
  assert (forall h' p, good_path p -> record_of e2 h' p = if decide (h' = h /\ p ∈ ps) then None else record_of e h' p) as Hrec.
  { intros h' p Hp. unfold record_of at 1. rewrite Hp2, Hp1. destruct (decide (h' = h)) as [->|Hne].
    - rewrite lookup_insert_eq. cbn. rewrite Hfind by done. destruct (decide (p ∈ ps)); [by rewrite decide_True|].
      by rewrite decide_False by naive_solver.
    - rewrite lookup_insert_ne by done. by rewrite decide_False by naive_solver. }
  assert (forall h', corrections h' e2 = corrections h' e) as Hc2.
  { intros h'. unfold corrections at 1. rewrite Hp2, Hp1. destruct (decide (h' = h)) as [->|Hne].
    - by rewrite lookup_insert_eq.
    - by rewrite lookup_insert_ne. }
  constructor.
  - rewrite Hp2, Hp1. apply map_Forall_insert_2; [done|apply Ha].
  - intros k s Hs. destruct (Hst k s Hs) as [Hs0 Hn]. destruct (ag_states _ Ha k s Hs0) as (K1 & K2 & K3).
    split_and!; [done|apply K2..|]. rewrite Hrec by apply K2. by rewrite decide_False by naive_solver.
  - intros h' p Hh' Hp. rewrite Hc2, Hrec, Hdr by done. case_decide; [done|]. by apply Ha.
Qed.

Lemma UnlearnPath_agree h p e :
  (0 <= h < 2 ^ 64)%Z -> good_path p -> Agree e -> Agree (UnlearnPath env h p e).
Proof.
  intros Hr Hp Ha. unfold UnlearnPath. destruct (Z.eqb_spec h 0); [done|]. rewrite (good_path_nonempty p Hp). cbn [orb].
  assert (good_hash h) as Hh by (unfold good_hash; lia).
  pose proof (GetOrCreate_same h e Hh (ag_prof _ Ha)) as Hg. pose proof (GetOrCreate_agree h e Hh Ha) as Ha1.
  destruct (GetOrCreate h e) as [pr e1]. cbn [snd] in Ha1. destruct Hg as (G1 & (P1 & P2 & P3 & P4) & G3 & _). cbv zeta.
  set (p2 := pr <| dp_learned_paths ::= _ |>). set (e2 := e1 <| profiles_ ::= <[h := p2]> |>).
  assert (profiles_ e2 !! dp_serial_hash p2 = Some p2) as Hl by (cbn; by rewrite P1, lookup_insert_eq).
  pose proof (TrySave_same p2 e2 Hl) as Ht. destruct (TrySaveProfile env p2 e2) as [ok e3]. destruct Ht as (T1 & T2 & T3).
  set (e4 := (tick_call e3) <| states_ ::= _ |>). set (kind := foldl _ _ _).
  destruct (push_effect h p kind learned_zero false e4 Hh Hp) as (E1 & E2 & E3). cbn [andb] in E3.
  assert (driver_store e4 = driver_store e1) as Hds by (unfold driver_store; cbn; by rewrite T3).
  apply (drop_records_agree h p2 [p] e1 e2); try done.
  - split_and!; try done.
    + eapply sublist_NoDup; [exact P3|apply fmap_sublist, sublist_filter].
    + apply list.Forall_forall. intros r [_ Hin]%list_elem_of_filter. by eapply list.Forall_forall in P4.
  - unfold corrections. by rewrite G1.
  - intros q _. cbn. rewrite FindRecord_filter. unfold record_of. rewrite G1. cbn.
    destruct (decide (q = p)) as [->|]; [by rewrite decide_True by set_solver|by rewrite decide_False by set_solver].
  - rewrite E1. change (profiles_ e4) with (profiles_ e3). done.
  - intros k s. rewrite E2. change (states_ e4) with (delete (KeyFor h p) (states_ e3)). rewrite T2. change (states_ e2) with (states_ e1).
    intros [Hk Hs]%lookup_delete_Some. split; [done|]. intros <- Hin. apply list_elem_of_singleton in Hin. apply Hk.
    destruct (ag_states _ Ha1 k s Hs) as (-> & _). by rewrite Hin.
  - intros h' q Hq. rewrite E3, Hds. destruct (decide ((h', q) = (h, p))) as [[= -> ->]|Hn].
    + by rewrite decide_True by set_solver.
    + rewrite decide_False; [done|]. intros [-> Hin]. set_solver.
Qed.
Lemma FindRecord_fmap p l : is_Some (FindRecord p l) <-> p ∈ (r_path <$> l).
Proof.
  induction l as [|r l IH]; cbn [fmap list_fmap].
  - split; [by intros [? [=]]|by intros ?%not_elem_of_nil].
  - rewrite FindRecord_cons, list.elem_of_cons. case_decide as Hd; [naive_solver|]. rewrite IH. naive_solver.
Qed.

Lemma UnlearnDevice_agree h e :
  (0 <= h < 2 ^ 64)%Z -> Agree e -> Agree (UnlearnDevice env h e).
Proof.
  intros Hr Ha. unfold UnlearnDevice. destruct (Z.eqb_spec h 0); [done|].
  assert (good_hash h) as Hh by (unfold good_hash; lia).
  pose proof (GetOrCreate_same h e Hh (ag_prof _ Ha)) as Hg. pose proof (GetOrCreate_agree h e Hh Ha) as Ha1.
  destruct (GetOrCreate h e) as [pr e1]. cbn [snd] in Ha1. destruct Hg as (G1 & (P1 & P2 & P3 & P4) & G3 & _). cbv zeta.
  match goal with |- context [foldl ?g e1 _] =>
    pose proof (push_fold h (fun r => Some false) (fun _ => learned_zero) g (dp_learned_paths pr) e1) as Hf end.
  cbv zeta in Hf. set (e2 := foldl _ _ _) in *. destruct Hf as (F1 & F2 & F3); [done..|]. clearbody e2.
  set (p2 := pr <| dp_learned_paths := [] |>). set (e3 := e2 <| profiles_ ::= <[h := p2]> |>).
  assert (profiles_ e3 !! dp_serial_hash p2 = Some p2) as Hl by (cbn; by rewrite P1, lookup_insert_eq).
  pose proof (TrySave_same p2 e3 Hl) as Ht. destruct (TrySaveProfile env p2 e3) as [ok e4]. destruct Ht as (T1 & T2 & T3).
  set (e5 := (tick_call e4) <| states_ ::= _ |>).
  assert (profiles_ e3 = <[h := p2]> (profiles_ e1)) as Hp3 by (cbn; by rewrite F1).
  apply (drop_records_agree h p2 (r_path <$> dp_learned_paths pr ++ []) e1 e3); try done.
  - split_and!; try done; constructor.
  - unfold corrections. by rewrite G1.
  - intros q _. cbn. rewrite app_nil_r. destruct (decide _) as [|Hn]; [done|]. unfold record_of. rewrite G1. cbn.
    rewrite <-FindRecord_fmap in Hn. by destruct (FindRecord q _); [destruct Hn|].
  - intros k s. change (states_ e5) with (filter (fun kv => ps_serial_hash kv.2 <> h) (states_ e4)). rewrite T2.
    change (states_ e3) with (states_ e2). rewrite F2, map_lookup_filter_Some. cbn. naive_solver.
  - intros h' q Hq. rewrite app_nil_r.
    assert (driver_store e5 = driver_store e2) as -> by (unfold driver_store; cbn; by rewrite T3).
    specialize (F3 h' q Hq). destruct (decide (h' = h)) as [->|Hne]; [|by rewrite decide_False by naive_solver].
    pose proof (FindRecord_fmap q (dp_learned_paths pr)) as Hfind.
    destruct (FindRecord q (dp_learned_paths pr)) as [r|]; cbn in F3.
    + destruct F3 as [_ ->]. rewrite decide_True; [done|]. split; [done|]. by apply Hfind.
    + rewrite decide_False; [done|]. intros [_ Hin%Hfind]. by destruct Hin.
Qed.

(** ** Any run of the engine *)

Inductive EngineOp :=
| OpTick (now_us : Z) (entries : list SnapshotBody)
| OpFlush
| OpBurst (active : bool)
| OpCorrections (serial_hash : Z) (on : bool)
| OpUnlearnPath (serial_hash : Z) (path : list byte)
| OpUnlearnDevice (serial_hash : Z)
| OpReconnect.

Definition engine_op (e : Engine) (op : EngineOp) : Engine :=
  match op with
  | OpTick now_us entries => Tick env now_us entries e
  | OpFlush => Flush env e
  | OpBurst active => SetRestBurstActive active e
  | OpCorrections h on => SetDeviceCorrectionsEnabled env h on e
  | OpUnlearnPath h path => UnlearnPath env h path e
  | OpUnlearnDevice h => UnlearnDevice env h e
  | OpReconnect => PushReadyCompensations env (map_to_list (profiles_ e)) e
  end.

Definition op_ok (op : EngineOp) : Prop :=
  match op with
  | OpTick _ entries => Forall body_ok entries
  | OpCorrections h _ | OpUnlearnDevice h => (0 <= h < 2 ^ 64)%Z
  | OpUnlearnPath h path => (0 <= h < 2 ^ 64)%Z /\ good_path path
  | OpFlush | OpBurst _ | OpReconnect => True
  end.

Lemma engine_op_agree e op : op_ok op -> Agree e -> Agree (engine_op e op).
Proof.
  intros Hok Ha. destruct op; cbn [engine_op].
  - by apply Tick_agree.
  - by apply Flush_agree.
  - by apply (Agree_ext e).
  - by apply SetDeviceCorrectionsEnabled_agree.
  - destruct Hok. by apply UnlearnPath_agree.
  - by apply UnlearnDevice_agree.
  - apply PushReady_agree; [done|apply Ha..|]. intros. left. by apply Ha.
Qed.

(** An engine with loaded profiles, before it has sent anything. *)
Definition engine_start (profiles : gmap Z DeviceProfile) : Engine := mkEngine false ∅ ∅ profiles [] 0.

Lemma engine_start_agree profiles :
  map_Forall profile_ok profiles -> Agree (engine_op (engine_start profiles) OpReconnect).
Proof.
  intros Hp. apply PushReady_agree; [done|done|..].
  - intros k s Hs. cbn in Hs. by rewrite lookup_empty in Hs.
  - intros h p _ _. right. done.
Qed.
End Mirror.

(** ** Theorems *)

(** C13: whatever the engine is asked to do, in whatever order -- ticks over any
    snapshots, flushes, bursts, corrections turned on and off, paths and devices
    unlearned, reconnections -- and however saving fares, with the connection up
    the driver's lookup of a path gives the learned values exactly when the
    profile has a ready record for it and the device's corrections are on, and
    nothing otherwise. *)
Theorem driver_mirrors (env : Env) profiles ops h p :
  (forall n, connected env n = true) -> map_Forall profile_ok profiles -> Forall op_ok ops ->
  good_hash h -> good_path p ->
  let e := foldl (engine_op env) (engine_start profiles) (OpReconnect :: ops) in
  mirrors (corrections h e) (record_of e h p) h p (LookupInputHealthCompensation h p (driver_store e)).
Proof.
  intros Hconn Hprof Hops Hh Hp. cbn [foldl].
  assert (Agree (foldl (engine_op env) (engine_op env (engine_start profiles) OpReconnect) ops)) as Ha.
  { pose proof (engine_start_agree env Hconn profiles Hprof) as H0. revert H0. generalize (engine_op env (engine_start profiles) OpReconnect).
    induction ops as [|op ops IH]; [done|]. intros e0 H0. apply list.Forall_cons in Hops as [Hop Hops]. cbn [foldl].
    apply IH; [done|]. by apply engine_op_agree. }
  cbv zeta. rewrite lookup_flat; [by apply Ha|..].
  - apply (run_comp_spec _ (h, p)).
  - unfold good_hash in Hh. lia.
  - intros ->. by apply good_path_nonempty in Hp.
Qed.

(** *** What is learned stays in range *)

Definition between (lo x hi : double) : Prop := fle lo x = true /\ fle x hi = true.

(** The bounds of the three values the driver divides, gates and times with. *)
Definition learned_ok (l : Learned) : Prop :=
  between fzero (l_trigger_min l) (d_lit 10 100) /\
  (l_deadzone_radius l = fzero \/ between (d_lit 1 100) (l_deadzone_radius l) (d_lit 8 100)) /\
  (l_debounce_us l = 0 \/ 1000 <= l_debounce_us l <= 20000)%Z.

Lemma ClampDouble_between v lo hi : fle lo hi = true -> between lo (ClampDouble v lo hi) hi.
Proof.
  intros H1. destruct (fle_not_nan _ _ H1) as [Nl Nh]. pose proof (fle_refl lo Nl) as H2.
  unfold ClampDouble, between, std_max. destruct (flt lo (std_min v hi)) eqn:E; [|done].
  split; [by apply flt_fle|]. destruct (flt_not_nan _ _ E) as [_ Nw]. unfold std_min in *.
  destruct (flt hi v) eqn:E2; [by apply fle_refl|]. by apply flt_false_fle.
Qed.

Lemma learned_zero_ok : learned_ok learned_zero.
Proof. unfold learned_ok, between. split_and!; [done..|by left|by left]. Qed.

Lemma learn_debounce_range l : (1000 <= learn_debounce l <= 20000)%Z.
Proof. unfold learn_debounce. cbv zeta. lia. Qed.

Lemma learn_rest_ok st tr s s' : learn_rest st tr s = Some s' -> learned_ok (ps_learned s) -> learned_ok (ps_learned s').
Proof.
  unfold learn_rest. cbv zeta. destruct (_ && _); [|done]. intros Hs. apply (inj Some) in Hs. subst s'.
  intros (H1 & H2 & H3). destruct st, tr; cbn; split_and!; cbn; try done.
  all: try (by apply ClampDouble_between). all: right; by apply ClampDouble_between.
Qed.

Definition records_ok (rs : list LearnedPathRecord) : Prop := Forall (fun r => learned_ok (r_learned r)) rs.

Record Values (e : Engine) : Prop := {
  va_states : map_Forall (fun _ s => learned_ok (ps_learned s)) (states_ e);
  va_profiles : map_Forall (fun _ p => records_ok (dp_learned_paths p)) (profiles_ e);
  va_sent : Forall (fun x => exists h p kind on l, x = make_entry h p kind on l /\ learned_ok l) (sent e) }.

Section Values.
Context (env : Env).

Lemma Values_ext e e' :
  states_ e' = states_ e -> profiles_ e' = profiles_ e -> sent e' = sent e -> Values e -> Values e'.
Proof. intros E1 E2 E3 [V1 V2 V3]. constructor; by rewrite ?E1, ?E2, ?E3. Qed.

Lemma Values_profile e h p :
  Values e -> records_ok (dp_learned_paths p) -> Values (e <| profiles_ ::= <[h := p]> |>).
Proof. intros [V1 V2 V3] Hp. constructor; [done| |done]. cbn. by apply map_Forall_insert_2. Qed.

Lemma Values_put e s : Values e -> learned_ok (ps_learned s) -> Values (put_state s e).
Proof. intros [V1 V2 V3] Hs. constructor; [|done..]. cbn. by apply map_Forall_insert_2. Qed.

Lemma Values_states (e : Engine) (m : gmap (list byte) PathState) :
  Values e -> m ⊆ states_ e -> Values (e <| states_ := m |>).
Proof.
  intros [V1 V2 V3] Hm. constructor; [|done..]. cbn. intros k s Hk. eapply V1. by eapply lookup_weaken.
Qed.

Lemma GetOrCreate_values h e :
  Values e -> Values (GetOrCreate h e).2 /\ records_ok (dp_learned_paths (GetOrCreate h e).1).
Proof.
  intros Hv. unfold GetOrCreate. destruct (profiles_ e !! h) as [p|] eqn:Hp; cbn [fst snd].
  - split; [done|]. by apply (va_profiles _ Hv h).
  - split; [|by constructor]. apply Values_profile; [done|by constructor].
Qed.

Lemma TrySave_values p e : records_ok (dp_learned_paths p) -> Values e -> Values (TrySaveProfile env p e).2.
Proof. intros Hp Hv. unfold TrySaveProfile. destruct (_ && _); [|done]. by apply Values_profile. Qed.

Lemma upsert_ok path s rs : records_ok rs -> learned_ok (ps_learned s) -> records_ok (upsert path (write_record s) rs).
Proof.
  intros Hr Hs. induction Hr as [|r rs H1 H2 IH]; cbn [upsert].
  { by apply list.Forall_singleton. }
  case_decide; by apply list.Forall_cons.
Qed.

Lemma Sync_values h s imm e :
  Values e -> learned_ok (ps_learned s) ->
  let '(s', e') := SyncProfile env h s imm e in Values e' /\ ps_learned s' = ps_learned s.
Proof.
  intros Hv Hs. unfold SyncProfile. assert (Values (tick_call e)) as Ht by (by apply (Values_ext e)).
  destruct (_ && _); [done|]. pose proof (GetOrCreate_values h _ Ht) as [G1 G2].
  destruct (GetOrCreate h (tick_call e)) as [p e1]. cbn [fst snd] in *. cbv zeta.
  set (p2 := p <| dp_learned_paths ::= _ |>).
  assert (records_ok (dp_learned_paths p2)) as Hp2 by (by apply upsert_ok).
  pose proof (TrySave_values p2 (e1 <| profiles_ ::= <[h := p2]> |>) Hp2 (Values_profile e1 h p2 G1 Hp2)) as Hts.
  destruct (TrySaveProfile env p2 _) as [ok e3]. split; [done|]. by destruct ok.
Qed.

Lemma Push_values h p kind l on e : learned_ok l -> Values e -> Values (PushCompensation env h p kind l on e).
Proof.
  intros Hl Hv. unfold PushCompensation. destruct (negb _); [by apply (Values_ext e)|]. cbv zeta. destruct Hv as [V1 V2 V3].
  constructor; [done..|]. cbn. apply list.Forall_app. split; [done|]. apply list.Forall_singleton. naive_solver.
Qed.

Lemma publish_values s on e : Values e -> learned_ok (ps_learned s) -> Values (publish_state env s on e).
Proof.
  intros Hv Hs. unfold publish_state. cbv zeta. set (s1 := s <| ps_last_updated_unix := _ |>).
  assert (learned_ok (ps_learned s1)) as Hs1 by done. pose proof (Sync_values (ps_serial_hash s1) s1 true e Hv Hs1) as Hy.
  destruct (SyncProfile env _ s1 true e) as [s2 e2]. destruct Hy as [Hv2 Hl]. unfold PushState.
  apply Push_values; [by rewrite Hl|]. apply Values_put; [done|by rewrite Hl].
Qed.

Lemma sync_state_values s e : Values e -> learned_ok (ps_learned s) -> Values (sync_state env s e).
Proof.
  intros Hv Hs. unfold sync_state. pose proof (Sync_values (ps_serial_hash s) s false e Hv Hs) as Hy.
  destruct (SyncProfile env _ s false e) as [s2 e2]. destruct Hy as [Hv2 Hl]. apply Values_put; [done|by rewrite Hl].
Qed.

Lemma StateFor_values h p e :
  Values e -> let '(s, e') := StateFor h p e in Values e' /\ learned_ok (ps_learned s).
Proof.
  intros Hv. unfold StateFor. cbv zeta. set (s := default state_new _).
  assert (learned_ok (ps_learned s)) as Hs.
  { unfold s. destruct (states_ e !! KeyFor h p) as [s1|] eqn:Hl; [|apply learned_zero_ok]. by apply (va_states _ Hv _ _ Hl). }
  clearbody s. destruct (_ =? 0)%Z; [|done]. pose proof (GetOrCreate_values h e Hv) as [G1 G2].
  destruct (GetOrCreate h e) as [pr e1]. cbn [fst snd] in *. split; [done|].
  destruct (FindRecord p (dp_learned_paths pr)) as [r|] eqn:Hr; [|done].
  apply FindRecord_path in Hr as [_ Hin]. eapply list.Forall_forall in G2; [|done].
  unfold seed_state. cbv zeta. by destruct (1 <? _)%Z.
Qed.
Lemma observe_boolean_values now b e : Values e -> Values (observe_boolean env now b e).
Proof.
  intros Hv. unfold observe_boolean. destruct (negb _); [done|]. destruct (learnable b) as [path|]; [|done].
  pose proof (StateFor_values (sb_serial_hash b) path e Hv) as Hs. destruct (StateFor _ path e) as [s e1].
  destruct Hs as [Hv1 Hs]. set (s1 := s <| ps_kind := InputHealthCompBoolean |>). cbv zeta. destruct (_ <? _)%Z.
  2: { by apply Values_put. }
  destruct (press_same now b s1) as (_ & _ & Q3 & Q4). set (s2 := press now b s1) in *. clearbody s2.
  apply (Values_ext e1 (e1 <| device_button_quiet_until_us_ ::= <[sb_serial_hash b := u64 (now + quiet_window_us)]> |>)) in Hv1; [|done..].
  set (e2 := e1 <| device_button_quiet_until_us_ ::= _ |>) in *.
  assert (learned_ok (ps_learned s2)) as Hs2 by (by rewrite Q4).
  destruct (negb (ps_ready s2) && _ && _); [|by apply sync_state_values].
  apply publish_values; [done|]. destruct Hs2 as (R1 & R2 & R3). split_and!; [done..|]. right. apply learn_debounce_range.
Qed.

Lemma observe_scalar_values now entries b e : Values e -> Values (observe_scalar env now entries b e).
Proof.
  intros Hv. unfold observe_scalar. destruct (negb _); [done|]. destruct (learnable b) as [path|]; [|done].
  pose proof (StateFor_values (sb_serial_hash b) path e Hv) as Hs. destruct (StateFor _ path e) as [s e1].
  destruct Hs as [Hv1 Hs]. cbv zeta. set (s1 := s <| ps_kind := KindForBody b |>). set (tr := IsTriggerKind (ps_kind s1) path).
  set (s2 := if tr then trigger_peak_update b s1 else s1).
  assert (learned_ok (ps_learned s2)) as Hs2.
  { unfold s2. destruct tr; [|done]. destruct (trigger_peak_same b s1) as (_ & _ & _ & Q4). by rewrite Q4. }
  clearbody s2. destruct (negb _); [by apply Values_put|].
  destruct (rest_sample_same (rest_burst_active_ e1) (d_of_f (sb_last_value b)) s2) as (_ & _ & _ & Q4).
  set (s3 := rest_sample _ _ s2) in *. clearbody s3. rewrite <-Q4 in Hs2. destruct (ps_ready s3).
  - assert (learned_ok (ps_learned (drift_test now s3).1)) as Hd.
    { unfold drift_test. cbv zeta. repeat case_match; cbn; try done; apply learned_zero_ok. }
    destruct (drift_test now s3) as [s4 shift]. cbn [fst] in Hd.
    destruct shift; [by apply publish_values|by apply Values_put].
  - destruct (learn_rest _ tr s3) as [s4|] eqn:Hl; [|by apply sync_state_values].
    apply publish_values; [done|]. by eapply learn_rest_ok.
Qed.

Lemma fold_values {A} (g : Engine -> A -> Engine) l e :
  (forall e x, x ∈ l -> Values e -> Values (g e x)) -> Values e -> Values (foldl g e l).
Proof.
  revert e. induction l as [|x l IH]; [done|]. intros e Hg Hv. cbn [foldl].
  apply IH; [|apply Hg; [left|done]]. intros e0 y Hy. apply Hg. by right.
Qed.

Lemma Flush_values e : Values e -> Values (Flush env e).
Proof.
  intros Hv. apply fold_values; [|done]. intros e0 [k s] Hin Hv0. destruct (_ =? 0)%Z; [done|].
  apply elem_of_map_to_list in Hin. pose proof (va_states _ Hv k s Hin) as Hs.
  pose proof (Sync_values (ps_serial_hash s) s true e0 Hv0 Hs) as Hy.
  destruct (SyncProfile env _ s true e0) as [s2 e2]. destruct Hy as [Hv2 Hl]. apply Values_put; [done|by rewrite Hl].
Qed.

Lemma Corrections_values h on e : Values e -> Values (SetDeviceCorrectionsEnabled env h on e).
Proof.
  intros Hv. unfold SetDeviceCorrectionsEnabled. destruct (_ =? _)%Z; [done|].
  pose proof (GetOrCreate_values h e Hv) as [G1 G2]. destruct (GetOrCreate h e) as [p e1]. cbn [fst snd] in *.
  destruct (Bool.eqb _ _); [done|]. cbv zeta. set (p2 := p <| dp_corrections_enabled := on |>).
  pose proof (TrySave_values p2 (e1 <| profiles_ ::= <[h := p2]> |>) G2 (Values_profile e1 h p2 G1 G2)) as Ht.
  destruct (TrySaveProfile env p2 _) as [ok e3]. cbn [snd] in Ht.
  apply fold_values; [|by apply (Values_ext e3)]. intros e0 r Hin Hv0. destruct (_ && _); [done|].
  apply Push_values; [|done]. by eapply list.Forall_forall in G2.
Qed.

Lemma PushReady_values order e :
  Forall (fun hp => records_ok (dp_learned_paths hp.2)) order -> Values e -> Values (PushReadyCompensations env order e).
Proof.
  intros Ho Hv. apply fold_values; [|done]. intros e0 [h p] Hin Hv0. destruct (negb _); [done|].
  eapply list.Forall_forall in Ho; [|done]. cbn in Ho. apply fold_values; [|done]. intros e1 r Hr Hv1.
  destruct (r_ready r); [|done]. apply Push_values; [|done]. by eapply list.Forall_forall in Ho.
Qed.

Lemma UnlearnPath_values h p e : Values e -> Values (UnlearnPath env h p e).
Proof.
  intros Hv. unfold UnlearnPath. destruct (_ || _); [done|].
  pose proof (GetOrCreate_values h e Hv) as [G1 G2]. destruct (GetOrCreate h e) as [pr e1]. cbn [fst snd] in *. cbv zeta.
  set (p2 := pr <| dp_learned_paths ::= _ |>).
  assert (records_ok (dp_learned_paths p2)) as Hp2.
  { apply list.Forall_forall. intros r [_ Hin]%list_elem_of_filter. by eapply list.Forall_forall in G2. }
  pose proof (TrySave_values p2 (e1 <| profiles_ ::= <[h := p2]> |>) Hp2 (Values_profile e1 h p2 G1 Hp2)) as Ht.
  destruct (TrySaveProfile env p2 _) as [ok e3]. cbn [snd] in Ht. apply Push_values; [apply learned_zero_ok|].
  apply (Values_states (tick_call e3) (delete (KeyFor h p) (states_ e3))); [by apply (Values_ext e3)|]. apply delete_subseteq.
Qed.

Lemma UnlearnDevice_values h e : Values e -> Values (UnlearnDevice env h e).
Proof.
  intros Hv. unfold UnlearnDevice. destruct (_ =? _)%Z; [done|].
  pose proof (GetOrCreate_values h e Hv) as [G1 G2]. destruct (GetOrCreate h e) as [pr e1]. cbn [fst snd] in *. cbv zeta.
  set (e2 := foldl _ e1 _).
  assert (Values e2) as Hv2.
  { apply fold_values; [|done]. intros e0 r _ Hv0. apply Push_values; [apply learned_zero_ok|done]. }
  clearbody e2. set (p2 := pr <| dp_learned_paths := [] |>).
  assert (records_ok (dp_learned_paths p2)) as Hp2 by constructor.
  pose proof (TrySave_values p2 (e2 <| profiles_ ::= <[h := p2]> |>) Hp2 (Values_profile e2 h p2 Hv2 Hp2)) as Ht.
  destruct (TrySaveProfile env p2 _) as [ok e3]. cbn [snd] in Ht.
  apply (Values_states (tick_call e3) (filter (fun kv => ps_serial_hash kv.2 <> h) (states_ e3))); [by apply (Values_ext e3)|].
  apply map_filter_subseteq.
Qed.

Lemma engine_op_values e op : Values e -> Values (engine_op env e op).
Proof.
  intros Hv. destruct op; cbn [engine_op].
  - unfold Tick. apply fold_values; [intros; by apply observe_scalar_values|]. apply fold_values; [|done].
    intros. by apply observe_boolean_values.
  - by apply Flush_values.
  - by apply (Values_ext e).
  - by apply Corrections_values.
  - by apply UnlearnPath_values.
  - by apply UnlearnDevice_values.
  - apply PushReady_values; [|done]. apply list.Forall_forall. intros [h p] Hin%elem_of_map_to_list.
    by apply (va_profiles _ Hv h).
Qed.
End Values.

(** from profiles whose values are in range, after any operations over any
    snapshots (NaN and infinities included), with the connection up or down,
    every value the engine holds, records or has sent is in range: a trigger's
    rest within a tenth, a dead zone absent or between one and eight hundredths,
    a debounce absent or between one and twenty milliseconds. *)
Theorem learned_values_in_range (env : Env) profiles ops :
  map_Forall (fun _ p => records_ok (dp_learned_paths p)) profiles ->
  Values (foldl (engine_op env) (engine_start profiles) ops).
Proof.
  intros Hp. apply fold_values; [intros; by apply engine_op_values|].
  constructor; [|done|constructor]. intros k s Hk. cbn in Hk. by rewrite lookup_empty in Hk.
Qed.

(** *** Witnesses *)

Definition env_sample : Env := mkEnv (fun n => 6000000 * Z.of_nat n)%Z (fun _ => 1700000000%Z) (fun _ => true) (fun _ => true).
Definition path_sample : list byte := str "/input/a/click".
(** A button that the driver has counted [presses] times. *)
Definition button_sample (presses : Z) : SnapshotBody :=
  mkBody 5 1 77 0 (wire_path path_sample) false true Unpaired ph_init min_init true welford_init fzero 0 presses
    (false, fzero, fzero) [] fzero.

Definition late_ticks : list EngineOp :=
  [OpTick 1000000 [button_sample 600]; OpTick 1012000 [button_sample 601]].

Definition late_engine : Engine := foldl (engine_op env_sample) (engine_start ∅) (OpReconnect :: late_ticks).

Lemma path_sample_good : good_path path_sample.
Proof. split_and!; [by vm_compute|by repeat constructor|by vm_compute; lia]. Qed.

Lemma button_sample_ok n : body_ok (button_sample n).
Proof. split; [|cbn; lia]. exists path_sample. split; [apply path_sample_good|done]. Qed.

(** An overlay started when the driver has counted six hundred presses learns
    a debounce from the single interval between its first two presses. *)
Lemma driver_mirrors_witness :
  (forall n, connected env_sample n = true) /\ Forall op_ok late_ticks /\
  exists kind, LookupInputHealthCompensation 77 path_sample (driver_store late_engine) =
    Some (make_entry 77 path_sample kind true (learned_zero <| l_debounce_us := 12000%Z |>)).
Proof.
  assert (Forall op_ok late_ticks) as Hok by (repeat constructor; apply button_sample_ok).
  split; [done|]. split; [exact Hok|].
  pose proof (driver_mirrors env_sample ∅ late_ticks 77 path_sample (fun _ => eq_refl) (map_Forall_empty _) Hok
    ltac:(split; lia) path_sample_good) as H.
  cbv zeta in H. fold late_engine in H.
  assert (corrections 77 late_engine = true) as Hc by (vm_compute; reflexivity).
  assert ((fun r => (r_ready r, r_learned r)) <$> record_of late_engine 77 path_sample =
    Some (true, learned_zero <| l_debounce_us := 12000%Z |>)) as Hr by (vm_compute; reflexivity).
  destruct (record_of late_engine 77 path_sample) as [r|]; [|discriminate Hr]. injection Hr as Hy Hl.
  rewrite Hc in H. cbn [mirrors] in H. rewrite Hy, Hl in H. exact H.
Defined.

Lemma learned_values_in_range_witness :
  map_Forall (fun _ p => records_ok (dp_learned_paths p)) (∅ : gmap Z DeviceProfile) /\ Values late_engine.
Proof. split; [apply map_Forall_empty|]. apply (learned_values_in_range env_sample ∅ (OpReconnect :: late_ticks)). apply map_Forall_empty. Defined.
