(* ===== verification/CalibSolve.v ===== *)
(** * The calibration solver (modules/calibration/src/overlay/CalibrationCalc.cpp,
      TranslationSolveDirect.cpp, RotationMatrix3.h)

    From a buffer of paired poses to a candidate transform: the outlier test and
    the rotation fit, the two iteratively reweighted translation solvers and the
    upstream one, and the measures a candidate is judged by.  Products,
    decompositions and linear solves are Eigen's; their order, the weights, the
    loops and every guard are the source's.  Log lines are left out, and
    [nth_element] is the element of the sorted list (on numbers). *)

From S2P Require Import Prelude Floats Isometry Detectors Filters.
From stdpp Require Import sorting.
Open Scope fl_scope.

(** ** Matrices, poses and samples *)

Record Matrix3d := M3 {
  m00 : double; m01 : double; m02 : double;
  m10 : double; m11 : double; m12 : double;
  m20 : double; m21 : double; m22 : double }.

Definition m3_zero : Matrix3d := M3 fzero fzero fzero fzero fzero fzero fzero fzero fzero.
Definition m3_identity : Matrix3d := M3 d_one fzero fzero fzero d_one fzero fzero fzero d_one.
(** The identity with its last entry negated. *)
Definition m3_reflection : Matrix3d := M3 d_one fzero fzero fzero d_one fzero fzero fzero (SFopp d_one).

(** A symmetric four by four matrix, row by row. *)
Abbreviation Matrix4d := (list double) (only parsing).

(** [Eigen::AffineCompact3d]; a pose's homogeneous matrix has the same shape. *)
Record Affine := mkAff { linear : Matrix3d; aff_translation : Vector3d }.
Definition aff_identity : Affine := mkAff m3_identity v_zero.

Record Svd := mkSvd { matrixU : Matrix3d; singularValues : Vector3d; matrixV : Matrix3d }.

(** What Eigen (and [acos]) compute. *)
Class EigenSolver := {
  m_acos : double -> double;
  v_sqnorm : Vector3d -> double;
  v_cwiseMin : Vector3d -> Vector3d -> Vector3d;
  v_cwiseMax : Vector3d -> Vector3d -> Vector3d;
  v_minCoeff : Vector3d -> double;
  m_mul : Matrix3d -> Matrix3d -> Matrix3d;
  m_add : Matrix3d -> Matrix3d -> Matrix3d;
  m_sub : Matrix3d -> Matrix3d -> Matrix3d;
  m_scale : Matrix3d -> double -> Matrix3d;
  m_div : Matrix3d -> double -> Matrix3d;
  m_transpose : Matrix3d -> Matrix3d;
  m_inverse : Matrix3d -> Matrix3d;
  m_apply : Matrix3d -> Vector3d -> Vector3d;
  m_determinant : Matrix3d -> double;
  q_of_matrix : Matrix3d -> Quaterniond;
  m_of_quat : Quaterniond -> Matrix3d;
  q_angleAxis : double -> Vector3d -> Quaterniond;
  m_angleAxis : double -> Vector3d -> Matrix3d;
  h_mul : Affine -> Affine -> Affine;
  h_inverse : Affine -> Affine;
  aff_rotation : Affine -> Matrix3d;
  (** [A^T * B] for two matrices given by their rows. *)
  rows_product : list Vector3d -> list Vector3d -> Matrix3d;
  (** [A^T * A] and the least-squares solutions for three-row blocks on top of
      each other. *)
  normal_matrix : list Matrix3d -> Matrix3d;
  qr_solve : list Matrix3d -> list Vector3d -> Vector3d;
  bdcsvd_solve : list Matrix3d -> list Vector3d -> Vector3d;
  qr_solve3 : Matrix3d -> Vector3d -> Vector3d;
  bdcsvd3 : Matrix3d -> Svd;
  jacobiSvd3 : Matrix3d -> Svd;
  (** [Q * Q^T] for a matrix given by its columns. *)
  quat_gram : list Quaterniond -> Matrix4d;
  (** Of a self-adjoint matrix: the eigenvalues in increasing order, and an
      eigenvector by its index. *)
  eigenvalues4 : Matrix4d -> list double;
  eigenvector4 : Matrix4d -> nat -> Quaterniond }.

Record Pose := mkPose { p_rot : Matrix3d; p_trans : Vector3d }.
Definition ToAffine (p : Pose) : Affine := mkAff (p_rot p) (p_trans p).

Record Sample := mkSmp {
  s_ref : Pose; s_target : Pose; s_valid : bool; s_timestamp : double;
  refSpeed : double; targetSpeed : double; pairedMotionValid : bool }.

Definition d_pi : double := d_lit 884279719003555 281474976710656.

(** For every [i], every earlier [j]. *)
Fixpoint pairs_after {A} (before l : list A) : list (A * A) :=
  match l with
  | [] => []
  | x :: l => map (pair x) before ++ pairs_after (before ++ [x]) l
  end.
Definition pairs {A} (l : list A) : list (A * A) := pairs_after [] l.

(** Every [k]-th element, from the first. *)
Definition every {A} (k : nat) (l : list A) : list A :=
  omap (fun '(i, x) => if (i mod k =? 0)%nat then Some x else None) (imap pair l).

(** The middle element in order. *)
Definition nth_median (l : list double) : double := default fzero (merge_sort d_le l !! (length l / 2)%nat).

Definition count_true (l : list bool) : nat := length (filter (fun b => b = true) l).

Section Solve.
Context `{Eigen} `{EigenMore} `{Libm} `{EigenSolver}.

(** ** RotationMatrix3.h *)

Definition AxisFromRotationMatrix3 (rot : Matrix3d) : Vector3d :=
  V3 (m21 rot - m12 rot) (m02 rot - m20 rot) (m10 rot - m01 rot).

Definition AngleFromRotationMatrix3 (rot : Matrix3d) : double :=
  let c := (m00 rot + m11 rot + m22 rot - d_one) * d_lit 1 2 in
  m_acos (std_clamp c (SFopp d_one) d_one).

(** ** The rotation *)

(** The axes of the rotation between two samples, if it is large enough. *)
Definition DeltaRotationSamples (s1 s2 : Sample) : option (Vector3d * Vector3d) :=
  let dref := m_mul (p_rot (s_ref s1)) (m_transpose (p_rot (s_ref s2))) in
  let dtarget := m_mul (p_rot (s_target s1)) (m_transpose (p_rot (s_target s2))) in
  let ref := AxisFromRotationMatrix3 dref in
  let target := AxisFromRotationMatrix3 dtarget in
  let refA := AngleFromRotationMatrix3 dref in
  let targetA := AngleFromRotationMatrix3 dtarget in
  if fgt refA (d_lit 4 10) && fgt targetA (d_lit 4 10) &&
     fgt (v_norm ref) (d_lit 1 100) && fgt (v_norm target) (d_lit 1 100)
  then Some (v_normalized ref, v_normalized target) else None.

Definition deltas_of (l : list (Sample * Sample)) : list (Vector3d * Vector3d) :=
  omap (fun '(s1, s2) => DeltaRotationSamples s1 s2) l.

Definition centroid (l : list Vector3d) : Vector3d :=
  v_div (foldl v_add v_zero l) (d_of_Z (Z.of_nat (length l))).

(** The cross-covariance of the two point clouds. *)
Definition crossCV (deltas : list (Vector3d * Vector3d)) : Matrix3d :=
  let refs := deltas.*1 in
  let targets := deltas.*2 in
  let refCentroid := centroid refs in
  let targetCentroid := centroid targets in
  rows_product (map (fun p => v_sub p refCentroid) refs) (map (fun p => v_sub p targetCentroid) targets).

(** The rotation of the two clouds, from the decomposition. *)
Definition kabsch (svd : Svd) : Matrix3d :=
  let i := if flt (m_determinant (m_mul (matrixU svd) (m_transpose (matrixV svd)))) fzero
           then m3_reflection else m3_identity in
  m_transpose (m_mul (m_mul (matrixV svd) i) (m_transpose (matrixU svd))).

(** The angle between the rotated up axis and the up axis, in degrees. *)
Definition tilt_deg (rot : Matrix3d) : double :=
  m_acos (std_max (SFopp d_one) (std_min d_one (m11 rot))) * d_of_Z 180 / d_pi.

(** What a solve leaves in the solver's diagnostic members. *)
Record Diagnostics := mkDiag {
  m_so3KabschResult : Matrix3d; m_so3KabschValid : bool; m_residualPitchRollDeg : double;
  m_rotationConditionRatio : double; m_translationConditionRatio : double }.
#[export] Instance diag_settable : Settable Diagnostics := fun d =>
  mkDiag (m_so3KabschResult d) (m_so3KabschValid d) (m_residualPitchRollDeg d)
    (m_rotationConditionRatio d) (m_translationConditionRatio d).

Definition quat_outer (q : Quaterniond) : Matrix4d :=
  let v := [q_w q; q_x q; q_y q; q_z q] in a ← v; b ← v; [a * b].

Definition q_cos (a b : Quaterniond) : double :=
  q_w a * q_w b + v_dot (V3 (q_x a) (q_y a) (q_z a)) (V3 (q_x b) (q_y b) (q_z b)).

Definition kOutlierStep : nat := 5.
Definition kOutlierThreshold : double := d_lit 99 100.
Definition kOutlierIters : nat := 4.

(** One pass: the mean of the valid quaternions, and who is near it. *)
Definition mark_valid (quats : list Quaterniond) (valids : list bool) : list bool :=
  let M := foldl (fun M '(q, ok) => if (ok : bool) then zip_with d_add M (quat_outer q) else M)
             (replicate 16 fzero) (zip quats valids) in
  let quatExt := q_normalized (eigenvector4 M 3) in
  map (fun q => fge (SFabs (q_cos q quatExt)) kOutlierThreshold) quats.

Fixpoint settle_valid (iters : nat) (quats : list Quaterniond) (valids : list bool) : list bool :=
  match iters with
  | 0%nat => valids
  | S iters =>
    if (count_true valids =? 0)%nat then valids else
    let next := mark_valid quats valids in
    if bool_decide (next = valids) then valids else settle_valid iters quats next
  end.

Definition DetectOutliers (samples : list Sample) (d : Diagnostics) : list bool * Diagnostics :=
  let deltas := deltas_of (pairs (every kOutlierStep samples)) in
  if (length deltas =? 0)%nat then
    (replicate (length samples) true,
     d <| m_so3KabschResult := m3_identity |> <| m_so3KabschValid := false |> <| m_residualPitchRollDeg := fzero |>)
  else
    let rot := kabsch (bdcsvd3 (crossCV deltas)) in
    let d := d <| m_so3KabschResult := rot |> <| m_so3KabschValid := true |> <| m_residualPitchRollDeg := tilt_deg rot |> in
    let quats := map (fun s => q_normalized (q_of_matrix
                    (m_mul (m_mul (m_transpose (p_rot (s_ref s))) rot) (p_rot (s_target s))))) samples in
    (settle_valid kOutlierIters quats (replicate (length samples) true), d).

Definition condition_ratio (smax smin : double) : double := if fgt smax fzero then smin / smax else fzero.

(** The yaw of a rotation by its twist about the up axis. *)
Definition twist_yaw (R : Matrix3d) : double :=
  let q := q_of_matrix R in
  let twistY := q_normalized (Q4 (q_w q) fzero (q_y q) fzero) in
  d_of_Z 2 * m_atan2 (q_y twistY) (q_w twistY).

Definition CalibrateRotation (ignoreOutliers : bool) (samples : list Sample) (d : Diagnostics) : Vector3d * Diagnostics :=
  let '(valids, d) := DetectOutliers samples d in
  let chosen := omap (fun '((s1, v1), (s2, v2)) =>
                  if ignoreOutliers && (negb v1 || negb v2) then None else Some (s1, s2)) (pairs (zip samples valids)) in
  let deltas := deltas_of chosen in
  if (length deltas =? 0)%nat then (v_zero, d <| m_rotationConditionRatio := fzero |>) else
  let svd := jacobiSvd3 (crossCV deltas) in
  let sv := singularValues svd in
  let R := kabsch svd in
  let d := d <| m_rotationConditionRatio := condition_ratio (v_x sv) (v_z sv) |>
             <| m_so3KabschResult := R |> <| m_so3KabschValid := true |> <| m_residualPitchRollDeg := tilt_deg R |> in
  (V3 fzero (twist_yaw R * d_of_Z 180 / d_pi) fzero, d).

Definition v_unitX : Vector3d := V3 d_one fzero fzero.
Definition v_unitY : Vector3d := V3 fzero d_one fzero.
Definition v_unitZ : Vector3d := V3 fzero fzero d_one.

Definition VRRotationQuat (eulerdeg : Vector3d) : Quaterniond :=
  let euler := v_div (v_scale eulerdeg d_pi) (d_of_Z 180) in
  q_mul (q_mul (q_angleAxis (v_x euler) v_unitZ) (q_angleAxis (v_y euler) v_unitY)) (q_angleAxis (v_z euler) v_unitX).

(** ** Reweighting, shared by the two iterative solvers *)

Definition kMaxIters : nat := 5.
Definition kWeightChangeThreshold : double := d_lit 1 100.
Definition kMadFloor : double := d_lit 1 1000.
Definition kCauchyTune : double := d_lit 1345 1000.
Definition kVelocityKappa : double := d_of_Z 2.
Definition kVelocityRefMps : double := d_lit 3 10.

(** The switches of the solvers. *)
Record DirectOptions := mkOpts { useTukeyBiweight : bool; useVelocityAwareWeighting : bool }.

Definition floored (scale : double) : double := if fgt scale kMadFloor then scale else kMadFloor.

Definition mad_scale (absResid resid : list double) : double :=
  let median := nth_median absResid in
  floored (nth_median (map (fun r => SFabs (r - median)) resid)).

(** [Qn] is defined (Filters.[Qn_total]); its option is the model's. *)
Definition residual_scale (opts : DirectOptions) (absResid resid : list double) : double :=
  if useTukeyBiweight opts then floored (default fzero (Qn resid)) else mad_scale absResid resid.

Definition row_threshold (opts : DirectOptions) (c0 speed : double) : double :=
  if useVelocityAwareWeighting opts then
    let v := std_max fzero speed in
    let vScale := d_one + kVelocityKappa * v / kVelocityRefMps in
    let cThis := c0 / vScale in
    if fgt cThis (d_lit 1 1000000000) then cThis else d_lit 1 1000000000
  else c0.

Definition cauchy_weight (r c : double) : double := let rOverC := r / c in d_one / (d_one + rOverC * rOverC).

Definition reweight (opts : DirectOptions) (scale : double) (rows : list (double * double)) : list double :=
  let c0 := (if useTukeyBiweight opts then kTukeyTune else kCauchyTune) * scale in
  map (fun '(r, speed) =>
    let cThis := row_threshold opts c0 speed in
    if useTukeyBiweight opts then TukeyWeight r cThis else cauchy_weight r cThis) rows.

Definition max_change (prev cur : list double) : double :=
  foldl (fun acc '(p, c) =>
    let denom := std_max (SFabs p) (d_lit 1 1000000000) in
    let rel := SFabs (c - p) / denom in
    if fgt rel acc then rel else acc) fzero (zip prev cur).

(** ** TranslationSolveDirect.cpp *)

Record DirectResult := mkDirect {
  dr_translation : Vector3d; dr_offset : Vector3d; dr_residualRms : double; dr_conditionRatio : double; dr_iterations : nat }.
Definition direct_zero : DirectResult := mkDirect v_zero v_zero fzero fzero 0.

Definition kMaxSampleTranslationM : double := d_of_Z 5.

Definition allFinite (v : Vector3d) : bool := isfinite (v_x v) && isfinite (v_y v) && isfinite (v_z v).
Definition maxAbsCoeff (v : Vector3d) : double := std_max (std_max (SFabs (v_x v)) (SFabs (v_y v))) (SFabs (v_z v)).

Definition usable_translations (s : Sample) : bool :=
  negb (negb (allFinite (p_trans (s_ref s))) || negb (allFinite (p_trans (s_target s))) ||
        fgt (maxAbsCoeff (p_trans (s_ref s))) kMaxSampleTranslationM ||
        fgt (maxAbsCoeff (p_trans (s_target s))) kMaxSampleTranslationM).

Definition solvable (s : Sample) : bool :=
  usable_translations s && isfinite (refSpeed s) && isfinite (targetSpeed s).

(** A sample's rotation and its translation seen through the candidate rotation. *)
Definition b_world (C_R : Matrix3d) (s : Sample) : Vector3d :=
  v_sub (p_trans (s_ref s)) (m_apply C_R (p_trans (s_target s))).

Definition weighted_sums (rows : list (double * (Matrix3d * Vector3d))) : double * Matrix3d * Vector3d * Vector3d :=
  foldl (fun '(W, M, sum_b, sum_AT_b) '(w, (A, b)) =>
    (W + w, m_add M (m_scale A w), v_add sum_b (v_scale b w),
     v_add sum_AT_b (v_scale (m_apply (m_transpose A) b) w)))
    (fzero, m3_zero, v_zero, v_zero) rows.

(** The translation and the offset for one set of weights. *)
Definition schur_solve (rows : list (double * (Matrix3d * Vector3d))) : Vector3d * Vector3d :=
  let '(W, M, sum_b, sum_AT_b) := weighted_sums rows in
  let schur := m_sub (m_scale m3_identity (W * W)) (m_mul M (m_transpose M)) in
  let rhs := v_sub (v_scale sum_b W) (m_apply M sum_AT_b) in
  let c := qr_solve3 schur rhs in
  (c, v_div (v_sub (m_apply (m_transpose M) c) sum_AT_b) W).

Definition direct_residual (c offset : Vector3d) (row : Matrix3d * Vector3d) : double :=
  let '(A, b) := row in
  v_norm (v_sub (v_sub (m_apply (m_transpose A) c) offset) (m_apply (m_transpose A) b)).

Definition sample_speed (s : Sample) : double := std_max (refSpeed s) (targetSpeed s).

Fixpoint direct_loop (opts : DirectOptions) (fuel iter : nat) (rows : list (Matrix3d * Vector3d)) (speeds : list double)
    (weights : list double) (r : DirectResult) : list double * DirectResult :=
  match fuel with
  | 0%nat => (weights, r)
  | S fuel =>
    let '(c, offset) := schur_solve (zip weights rows) in
    let residMag := map (direct_residual c offset) rows in
    let ssq := foldl (fun s m => s + m * m) fzero residMag in
    let rms := d_sqrt (ssq / d_of_Z (Z.of_nat (length rows))) in
    let next := reweight opts (residual_scale opts residMag residMag) (zip residMag speeds) in
    let r := mkDirect c offset rms (dr_conditionRatio r) (iter + 1) in
    if (0 <? iter)%nat && flt (max_change weights next) kWeightChangeThreshold then (next, r)
    else direct_loop opts fuel (iter + 1) rows speeds next r
  end.

Definition schur_condition (weights : list double) (rots : list Matrix3d) : double :=
  let '(W, M) := foldl (fun '(W, M) '(w, A) => (W + w, m_add M (m_scale A w))) (fzero, m3_zero) (zip weights rots) in
  if fgt W fzero then
    let mean := m_div M W in
    let sv := singularValues (jacobiSvd3 (m_sub m3_identity (m_mul mean (m_transpose mean)))) in
    if fgt (v_x sv) fzero then d_sqrt (v_z sv / v_x sv) else fzero
  else fzero.

Definition SolveDirect (samples : list Sample) (C_R : Matrix3d) (opts : DirectOptions) : DirectResult :=
  if (length samples <? 2)%nat then direct_zero else
  if negb (forallb solvable samples) then direct_zero else
  let rows := map (fun s => (p_rot (s_ref s), b_world C_R s)) samples in
  let '(weights, r) := direct_loop opts kMaxIters 0 rows (map sample_speed samples) (replicate (length samples) d_one) direct_zero in
  mkDirect (dr_translation r) (dr_offset r) (dr_residualRms r) (schur_condition weights (map (fun s => p_rot (s_ref s)) samples))
    (dr_iterations r).

(** ** The pairwise systems *)

Definition rotate_target (C_R : Matrix3d) (s : Sample) : Sample :=
  mkSmp (s_ref s) (mkPose (m_mul C_R (p_rot (s_target s))) (m_apply C_R (p_trans (s_target s)))) (s_valid s) (s_timestamp s)
    (refSpeed s) (targetSpeed s) (pairedMotionValid s).

(** The two blocks of a pair, each a right-hand side and three rows. *)
Definition pair_blocks (s_i s_j : Sample) : list (Vector3d * Matrix3d) :=
  let apart s := v_sub (p_trans (s_ref s)) (p_trans (s_target s)) in
  let block rot :=
    let Qi := m_transpose (rot s_i) in
    let Qj := m_transpose (rot s_j) in
    (v_sub (m_apply Qj (apart s_j)) (m_apply Qi (apart s_i)), m_sub Qj Qi) in
  [block (fun s => p_rot (s_ref s)); block (fun s => p_rot (s_target s))].

Definition CalibrateTranslationUpstream (samples : list Sample) (C_R : Matrix3d) : DirectResult :=
  let deltas := '(s_i, s_j) ← pairs (map (rotate_target C_R) samples); pair_blocks s_i s_j in
  if (length deltas =? 0)%nat then direct_zero else
  mkDirect (bdcsvd_solve deltas.*2 deltas.*1) v_zero fzero d_one 1.

(** *** [CalibrateTranslationLegacyPairwise] *)

Definition pair_speed (s_i s_j : Sample) : double :=
  std_max (std_max (refSpeed s_i) (targetSpeed s_i)) (std_max (refSpeed s_j) (targetSpeed s_j)).

Definition block_residual (trans : Vector3d) (block : Vector3d * Matrix3d) : double :=
  let '(c, q) := block in
  let r := v_sub (m_apply q trans) c in
  d_sqrt (fzero + v_x r * v_x r + v_y r * v_y r + v_z r * v_z r).

(** The last translation and the weighted rows it solved. *)
Fixpoint pairwise_loop (opts : DirectOptions) (fuel iter : nat) (blocks : list (Vector3d * Matrix3d)) (speeds : list double)
    (weights : list double) (last : Vector3d * list Matrix3d) : Vector3d * list Matrix3d :=
  match fuel with
  | 0%nat => last
  | S fuel =>
    let scaled := zip_with (fun w '(c, q) => let sw := d_sqrt (std_max fzero w) in (v_scale c sw, m_scale q sw)) weights blocks in
    let trans := qr_solve scaled.*2 scaled.*1 in
    let perPair := map (block_residual trans) blocks in
    let next := reweight opts (residual_scale opts (map SFabs perPair) perPair) (zip perPair speeds) in
    if (0 <? iter)%nat && flt (max_change weights next) kWeightChangeThreshold then (trans, scaled.*2)
    else pairwise_loop opts fuel (iter + 1) blocks speeds next (trans, scaled.*2)
  end.

(** The translation and its condition ratio. *)
Definition CalibrateTranslationLegacyPairwise (opts : DirectOptions) (samples : list Sample) (rotation : Matrix3d)
    : Vector3d * double :=
  let ps := pairs (map (rotate_target rotation) samples) in
  let blocks := '(s_i, s_j) ← ps; pair_blocks s_i s_j in
  let speeds := '(s_i, s_j) ← ps; [pair_speed s_i s_j; pair_speed s_i s_j] in
  if (length blocks =? 0)%nat then (v_zero, fzero) else
  let '(trans, coefficients) := pairwise_loop opts kMaxIters 0 blocks speeds (replicate (length blocks) d_one) (v_zero, []) in
  let sv := singularValues (jacobiSvd3 (normal_matrix coefficients)) in
  (trans, if fgt (v_x sv) fzero then d_sqrt (v_z sv / v_x sv) else fzero).

(** ** Choosing a solver, and a candidate *)

Record MathSwitches := mkMath { useUpstreamMath : bool; useLegacyMath : bool }.

Definition CalibrateTranslation (math : MathSwitches) (opts : DirectOptions) (samples : list Sample) (rotation : Matrix3d)
    : Vector3d * double :=
  if useUpstreamMath math then
    let r := CalibrateTranslationUpstream samples rotation in (dr_translation r, dr_conditionRatio r)
  else if useLegacyMath math then CalibrateTranslationLegacyPairwise opts samples rotation
  else let r := SolveDirect samples rotation opts in (dr_translation r, dr_conditionRatio r).

Definition ComputeCalibration (math : MathSwitches) (opts : DirectOptions) (ignoreOutliers : bool) (samples : list Sample)
    (d : Diagnostics) : Affine * Diagnostics :=
  let '(rotation, d) := CalibrateRotation ignoreOutliers samples d in
  let rotationMat := m_of_quat (VRRotationQuat rotation) in
  let '(translation, ratio) := CalibrateTranslation math opts samples rotationMat in
  (mkAff rotationMat (v_add v_zero translation), d <| m_translationConditionRatio := ratio |>).

(** ** How good a candidate is *)

Definition aff_apply (t : Affine) (p : Vector3d) : Vector3d := v_add (m_apply (linear t) p) (aff_translation t).

Definition valid_samples (samples : list Sample) : list Sample := filter (fun s => s_valid s = true) samples.

Definition d_infinity : double := S754_infinity false.

Definition RetargetingErrorRMS (hmdToTargetPos : Vector3d) (calibration : Affine) (samples : list Sample) : double :=
  let l := valid_samples samples in
  let errorAccum := foldl (fun acc s =>
      let updated := aff_apply calibration (p_trans (s_target s)) in
      let hmdPoseSpace := v_add (m_apply (p_rot (s_ref s)) hmdToTargetPos) (p_trans (s_ref s)) in
      acc + v_sqnorm (v_sub updated hmdPoseSpace)) fzero l in
  if (length l =? 0)%nat then d_infinity else d_sqrt (errorAccum / d_of_Z (Z.of_nat (length l))).

Definition hmd_space (calibration : Affine) (s : Sample) : Vector3d :=
  m_apply (m_inverse (p_rot (s_ref s))) (v_sub (aff_apply calibration (p_trans (s_target s))) (p_trans (s_ref s))).

Definition ComputeRefToTargetOffset (calibration : Affine) (samples : list Sample) : Vector3d :=
  let l := valid_samples samples in
  if (length l =? 0)%nat then v_zero else
  v_div (foldl (fun acc s => v_add acc (hmd_space calibration s)) v_zero l) (d_of_Z (Z.of_nat (length l))).

Fixpoint second_differences (use : Sample -> Vector3d) (l : list Sample) : list double :=
  match l with
  | s0 :: ((s1 :: s2 :: _) as rest) =>
    let more := second_differences use rest in
    if s_valid s0 && s_valid s1 && s_valid s2 then
      v_sqnorm (v_add (v_sub (use s2) (v_scale (use s1) (d_of_Z 2))) (use s0)) :: more
    else more
  | _ => []
  end.

Definition SampleNoiseStdMagnitude (samples : list Sample) (useTarget : bool) : double :=
  let a := second_differences (fun s => p_trans (if useTarget then s_target s else s_ref s)) samples in
  if (length a =? 0)%nat then fzero
  else d_sqrt (foldl d_add fzero a / d_of_Z (Z.of_nat (length a)) / d_of_Z 6).

Definition ReferenceJitter (samples : list Sample) : double := SampleNoiseStdMagnitude samples false.
Definition TargetJitter (samples : list Sample) : double := SampleNoiseStdMagnitude samples true.

(** The gate on the error of a candidate. *)
Definition rms_threshold (samples : list Sample) : double :=
  let jRef := ReferenceJitter samples in
  let jTgt := TargetJitter samples in
  std_max (d_lit 5 1000) (d_of_Z 3 * d_sqrt (jRef * jRef + jTgt * jTgt)).

Definition quat4 (m : Matrix3d) : list double :=
  let q := q_of_matrix m in [q_w q; q_x q; q_y q; q_z q].

(** The eigenvalues of the covariance of the target's quaternions. *)
Definition ComputeAxisVariance (samples : list Sample) : list double :=
  let points := map (fun s => quat4 (p_rot (s_target s))) (valid_samples samples) in
  if (length points =? 0)%nat then replicate 4 fzero else
  let n := d_of_Z (Z.of_nat (length points)) in
  let mean := map (fun x => x / n) (foldl (zip_with d_add) (replicate 4 fzero) points) in
  let outer p := let e := zip_with d_sub p mean in a ← e; b ← e; [a * b] in
  eigenvalues4 (map (fun x => x / n) (foldl (zip_with d_add) (replicate 16 fzero) (map outer points))).

(** *** [PoseAverager] *)

Definition AverageFor (poseProvider : Sample -> Affine) (samples : list Sample) : Affine :=
  let poses := map poseProvider (valid_samples samples) in
  let quats := map (fun p => q_of_matrix (aff_rotation p)) poses in
  let accum := foldl (fun acc p => v_add acc (aff_translation p)) v_zero poses in
  let avgQ := q_normalized (q_normalized (eigenvector4 (quat_gram quats) 3)) in
  mkAff (m_of_quat avgQ) (v_add v_zero (v_scale accum (d_one / d_of_Z (Z.of_nat (length poses))))).

Definition EstimateRefToTargetPose (calibration : Affine) (samples : list Sample) : Affine :=
  AverageFor (fun s => h_mul (h_mul (h_inverse (ToAffine (s_ref s))) calibration) (ToAffine (s_target s))) samples.

Definition CalibrateByRelPose (refToTargetPose : Affine) (samples : list Sample) : Affine :=
  AverageFor (fun s => h_mul (h_mul (ToAffine (s_ref s)) refToTargetPose) (h_inverse (ToAffine (s_target s)))) samples.

(** *** Motion coverage *)

Definition paired_samples (samples : list Sample) : list Sample :=
  filter (fun s => s_valid s = true /\ pairedMotionValid s = true) samples.

Definition target_box (l : list Sample) : Vector3d * Vector3d :=
  foldl (fun '(lo, hi) s => (v_cwiseMin lo (p_trans (s_target s)), v_cwiseMax hi (p_trans (s_target s))))
    (V3 d_infinity d_infinity d_infinity, V3 (SFopp d_infinity) (SFopp d_infinity) (SFopp d_infinity)) l.

Definition clamp01 (score : double) : double := std_min (std_max score fzero) d_one.

Definition TranslationDiversity (samples : list Sample) : double :=
  let l := paired_samples samples in
  if (length samples <? 2)%nat || (length l <? 2)%nat then fzero else
  let '(lo, hi) := target_box l in
  clamp01 (v_minCoeff (v_sub hi lo) / d_lit 20 100).

Definition TranslationAxisRangesCm (samples : list Sample) : Vector3d :=
  let l := paired_samples samples in
  if (length samples <? 2)%nat || (length l <? 2)%nat then v_zero else
  let '(lo, hi) := target_box l in v_scale (v_sub hi lo) (d_of_Z 100).

Definition RotationDiversity (samples : list Sample) : double :=
  if (length samples <? 2)%nat then fzero else
  match map (fun s => q_of_matrix (p_rot (s_target s))) (paired_samples samples) with
  | [] => clamp01 (fzero / (d_pi / d_of_Z 2))
  | first :: rest =>
    let maxAngle := foldl (fun m q => let a := q_angularDistance first q in if fgt a m then a else m) fzero rest in
    clamp01 (maxAngle / (d_pi / d_of_Z 2))
  end.
End Solve.

(** ** A concrete instance, for the witnesses

    The products are the real ones; the decompositions answer a fixed, well
    conditioned solution. *)
Definition solver_sample : EigenSolver := {|
  m_acos x := d_one - x;
  v_sqnorm v := v_x v * v_x v + v_y v * v_y v + v_z v * v_z v;
  v_cwiseMin a b := V3 (std_min (v_x a) (v_x b)) (std_min (v_y a) (v_y b)) (std_min (v_z a) (v_z b));
  v_cwiseMax a b := V3 (std_max (v_x a) (v_x b)) (std_max (v_y a) (v_y b)) (std_max (v_z a) (v_z b));
  v_minCoeff v := std_min (std_min (v_x v) (v_y v)) (v_z v);
  m_mul a b := M3
    (m00 a * m00 b + m01 a * m10 b + m02 a * m20 b) (m00 a * m01 b + m01 a * m11 b + m02 a * m21 b)
    (m00 a * m02 b + m01 a * m12 b + m02 a * m22 b)
    (m10 a * m00 b + m11 a * m10 b + m12 a * m20 b) (m10 a * m01 b + m11 a * m11 b + m12 a * m21 b)
    (m10 a * m02 b + m11 a * m12 b + m12 a * m22 b)
    (m20 a * m00 b + m21 a * m10 b + m22 a * m20 b) (m20 a * m01 b + m21 a * m11 b + m22 a * m21 b)
    (m20 a * m02 b + m21 a * m12 b + m22 a * m22 b);
  m_add a b := M3 (m00 a + m00 b) (m01 a + m01 b) (m02 a + m02 b) (m10 a + m10 b) (m11 a + m11 b) (m12 a + m12 b)
    (m20 a + m20 b) (m21 a + m21 b) (m22 a + m22 b);
  m_sub a b := M3 (m00 a - m00 b) (m01 a - m01 b) (m02 a - m02 b) (m10 a - m10 b) (m11 a - m11 b) (m12 a - m12 b)
    (m20 a - m20 b) (m21 a - m21 b) (m22 a - m22 b);
  m_scale a k := M3 (m00 a * k) (m01 a * k) (m02 a * k) (m10 a * k) (m11 a * k) (m12 a * k) (m20 a * k) (m21 a * k) (m22 a * k);
  m_div a k := M3 (m00 a / k) (m01 a / k) (m02 a / k) (m10 a / k) (m11 a / k) (m12 a / k) (m20 a / k) (m21 a / k) (m22 a / k);
  m_transpose a := M3 (m00 a) (m10 a) (m20 a) (m01 a) (m11 a) (m21 a) (m02 a) (m12 a) (m22 a);
  m_inverse a := M3 (m00 a) (m10 a) (m20 a) (m01 a) (m11 a) (m21 a) (m02 a) (m12 a) (m22 a);
  m_apply a v := V3 (m00 a * v_x v + m01 a * v_y v + m02 a * v_z v) (m10 a * v_x v + m11 a * v_y v + m12 a * v_z v)
    (m20 a * v_x v + m21 a * v_y v + m22 a * v_z v);
  m_determinant _ := d_one;
  q_of_matrix _ := q_identity;
  m_of_quat _ := m3_identity;
  q_angleAxis _ _ := q_identity;
  m_angleAxis _ _ := m3_identity;
  h_mul a _ := a;
  h_inverse a := a;
  aff_rotation a := linear a;
  rows_product _ _ := m3_identity;
  normal_matrix _ := m3_identity;
  qr_solve _ _ := v_zero;
  bdcsvd_solve _ _ := v_zero;
  qr_solve3 _ _ := v_zero;
  bdcsvd3 _ := mkSvd m3_identity (V3 d_one d_one d_one) m3_identity;
  jacobiSvd3 _ := mkSvd m3_identity (V3 d_one d_one d_one) m3_identity;
  quat_gram _ := replicate 16 fzero;
  eigenvalues4 _ := [fzero; d_one; d_one; d_one];
  eigenvector4 _ _ := q_identity |}.

(** ** Theorems *)

Section SolveProps.
Context `{Eigen} `{EigenMore} `{Libm} `{EigenSolver}.

Lemma settle_length iters quats valids :
  length valids = length quats -> length (settle_valid iters quats valids) = length quats.
Proof.
  revert valids. induction iters as [|iters IH]; intros valids Hl; [done|]. cbn.
  destruct (_ =? 0)%nat; [done|]. case_bool_decide; [done|]. apply IH. unfold mark_valid. by rewrite length_map.
Qed.

Lemma pairs_after_in {A} (before l : list A) x y :
  (x, y) ∈ pairs_after before l -> x ∈ l /\ (y ∈ before \/ y ∈ l).
Proof.
  revert before. induction l as [|z l IH]; intros before Hin; cbn in Hin; [by apply not_elem_of_nil in Hin|].
  apply elem_of_app in Hin as [Hin|Hin].
  - apply list_elem_of_fmap in Hin as (w & [= -> ->] & Hw). split; [left|by left].
  - destruct (IH _ Hin) as [Hx Hy]. rewrite elem_of_app in Hy. set_solver.
Qed.

(** the outlier test answers one flag per sample; the rotation it leads to
    is a yaw, and with no two samples turned far enough apart -- among the kept
    ones, when outliers are ignored -- it is the zero rotation with condition
    ratio zero. *)
Theorem rotation_is_yaw ignoreOutliers samples d :
  let valids := (DetectOutliers samples d).1 in
  let '(euler, d') := CalibrateRotation ignoreOutliers samples d in
  length valids = length samples /\
  v_x euler = fzero /\ v_z euler = fzero /\
  ((forall s1 s2 v1 v2, (s1, v1) ∈ zip samples valids -> (s2, v2) ∈ zip samples valids ->
      (ignoreOutliers = true -> v1 = true /\ v2 = true) -> DeltaRotationSamples s1 s2 = None) ->
   euler = v_zero /\ m_rotationConditionRatio d' = fzero).
Proof.
  intros valids. unfold CalibrateRotation.
  assert (length valids = length samples) as Hlen.
  { unfold valids, DetectOutliers. destruct (_ =? 0)%nat; cbn [fst]; [by rewrite length_replicate|].
    rewrite settle_length; rewrite ?length_replicate, ?length_map; done. }
  subst valids. destruct (DetectOutliers samples d) as [valids d1]. cbn [fst] in *. cbv zeta.
  set (chosen := omap _ _).
  destruct (length (deltas_of chosen) =? 0)%nat eqn:He; split_and!; try done.
  intros Hno. exfalso. apply Nat.eqb_neq in He. apply He.
  destruct (deltas_of chosen) as [|x l] eqn:Hd; [done|].
  assert (x ∈ deltas_of chosen) as Hx by (rewrite Hd; left). unfold deltas_of in Hx.
  apply list_elem_of_omap in Hx as ([s1 s2] & Hs & Hx). unfold chosen in Hs.
  apply list_elem_of_omap in Hs as ([[t1 v1] [t2 v2]] & Ht & Hs). clear He Hd chosen d1 Hlen.
  destruct (pairs_after_in _ _ _ _ Ht) as [H1' [H2'|H2']]; [by apply not_elem_of_nil in H2'|].
  destruct (ignoreOutliers && (negb v1 || negb v2)) eqn:Hi; [discriminate Hs|]. injection Hs as -> ->.
  assert (DeltaRotationSamples s1 s2 = None) as Hnone.
  { apply (Hno s1 s2 v1 v2); [exact H1'|exact H2'|]. clear -Hi. intros ->. destruct v1, v2; cbn in Hi; split; congruence. }
  rewrite Hnone in Hx. discriminate Hx.
Qed.

Lemma direct_loop_iterations opts fuel iter rows speeds weights r :
  dr_iterations r <= iter -> 0 < fuel ->
  let '(_, r') := direct_loop opts fuel iter rows speeds weights r in
  dr_iterations r' <= iter + fuel /\ (1 < iter + fuel -> 1 < dr_iterations r')%nat /\
  exists w, (dr_translation r', dr_offset r') = schur_solve (zip w rows).
Proof.
  revert iter weights r. induction fuel as [|fuel IH]; intros iter weights r Hr Hf; [lia|]. cbn [direct_loop].
  destruct (schur_solve (zip weights rows)) as [c offset] eqn:Hs. cbv zeta.
  set (r1 := mkDirect c offset _ _ _). destruct ((0 <? iter)%nat && _) eqn:Hb.
  - apply andb_true_iff in Hb as [Hi _]. apply Nat.ltb_lt in Hi. cbn. split_and!; [lia|lia|]. by exists weights.
  - destruct fuel as [|fuel].
    + cbn. split_and!; [lia|lia|]. by exists weights.
    + match goal with |- context [direct_loop opts (S fuel) (iter + 1) rows speeds ?w r1] =>
        specialize (IH (iter + 1)%nat w r1 ltac:(cbn; lia) ltac:(lia));
        destruct (direct_loop opts (S fuel) (iter + 1) rows speeds w r1) as [w' r'] end.
      destruct IH as (I1 & I2 & I3). split_and!; [lia|intros _; apply I2; lia|exact I3].
Qed.

(** the direct translation solver answers zero with condition ratio zero
    for fewer than two samples, or if one sample's translations or speeds are
    not finite or a translation is beyond five metres; otherwise it solves its
    weighted system between two and five times and answers the last solution. *)
Theorem direct_solver samples C_R opts :
  let r := SolveDirect samples C_R opts in
  if (length samples <? 2)%nat || negb (forallb solvable samples) then r = direct_zero
  else 2 <= dr_iterations r <= kMaxIters /\
    exists weights, (dr_translation r, dr_offset r) =
      schur_solve (zip weights (map (fun s => (p_rot (s_ref s), b_world C_R s)) samples)).
Proof.
  cbv zeta. unfold SolveDirect. destruct (length samples <? 2)%nat; cbn [orb]; [done|].
  destruct (negb (forallb solvable samples)); [done|].
  match goal with |- context [direct_loop opts kMaxIters 0 ?rows ?sp ?w ?z] =>
    pose proof (direct_loop_iterations opts kMaxIters 0 rows sp w z ltac:(cbn; lia) ltac:(unfold kMaxIters; lia)) as Hl;
    destruct (direct_loop opts kMaxIters 0 rows sp w z) as [w' r'] end.
  destruct Hl as (I1 & I2 & I3). unfold kMaxIters in *. cbn. split; [|exact I3]. split; [apply I2; lia|lia].
Qed.
End SolveProps.
