(* ===== verification/CalibCalc.v ===== *)
(** * CalibrationCalc (modules/calibration/src/overlay/CalibrationCalc.h, .cpp)

    The sample buffer, the one-shot calibration over the frozen and the live
    samples, and the incremental calibration with its gates, its blend and its
    watchdog, over the solver of CalibSolve.v. *)

From S2P Require Import Prelude Floats Isometry Detectors Filters InputStats CalibSolve.
Open Scope fl_scope.

(** ** State *)

(** What is pushed to the metrics, in order. *)
Inductive Metric :=
| RecordTimestamp
| posOffset_byRelPose (v : Vector3d) | error_byRelPose (x : double)
| samplesInBuffer (x : double) | watchdogResetCount (x : double)
| posOffset_currentCal (v : Vector3d) | error_currentCal (x : double)
| axisIndependence (x : double) | rotationConditionRatio (x : double)
| posOffset_rawComputed (v : Vector3d) | effectivePriorMm (x : double) | error_rawComputed (x : double)
| posOffset_lastSample (v : Vector3d) | error_currentCalRelPose (x : double)
| calibrationApplied (b : bool) | consecutiveRejections (x : double) | watchdogHealthySkip (x : double)
| validateRmsThresholdMm (x : double).

Record Calc := mkCalc {
  m_isValid : bool; m_estimatedTransformation : Affine;
  m_relativePosCalibrated : bool; m_refToTargetPose : Affine;
  m_diag : Diagnostics; m_posOffset : Vector3d; m_axisVariance : double;
  m_consecutiveRejections : Z; m_lastSuccessfulIncrementalTime : double; m_lastSampleTime : double;
  m_watchdogResets : Z; m_rejectReasonTag : list byte; m_healthyHoldAnnotated : bool;
  m_lastRejectRmsTooHigh : bool; m_lastRejectRms : double; m_lastRejectRmsThreshold : double;
  m_blendFilter : BlendState; m_blendFilterLastUpdateTime : double;
  m_samples : list Sample; m_rotationFrozen : list Sample;
  metrics : list Metric; lastRejectReason : list byte }.

#[export] Instance calc_settable : Settable Calc := fun s =>
  mkCalc (m_isValid s) (m_estimatedTransformation s) (m_relativePosCalibrated s) (m_refToTargetPose s)
    (m_diag s) (m_posOffset s) (m_axisVariance s) (m_consecutiveRejections s) (m_lastSuccessfulIncrementalTime s)
    (m_lastSampleTime s) (m_watchdogResets s) (m_rejectReasonTag s) (m_healthyHoldAnnotated s)
    (m_lastRejectRmsTooHigh s) (m_lastRejectRms s) (m_lastRejectRmsThreshold s)
    (m_blendFilter s) (m_blendFilterLastUpdateTime s) (m_samples s) (m_rotationFrozen s) (metrics s) (lastRejectReason s).

Definition diag_init : Diagnostics := mkDiag m3_identity false fzero fzero fzero.

Definition calc_init : Calc :=
  mkCalc false aff_identity false aff_identity diag_init v_zero fzero 0 fzero fzero 0 [] false false fzero fzero
    blend_init fzero [] [] [] [].

(** The switches the caller sets before each call. *)
Record Flags := mkFlags {
  fl_enableStaticRecalibration : bool; fl_lockRelativePosition : bool; fl_useBlendFilter : bool;
  fl_opts : DirectOptions; fl_math : MathSwitches }.

Definition push (m : Metric) (s : Calc) : Calc := s <| metrics ::= fun l => l ++ [m] |>.
Definition SampleCount (s : Calc) : nat := length (m_samples s).

(** ** The buffer *)

Definition PushSample (sample : Sample) (s : Calc) : Calc :=
  if negb (usable_translations sample) then s else
  let s := s <| m_samples ::= fun l => l ++ [sample] |> in
  if s_valid sample && fgt (s_timestamp sample) (m_lastSampleTime s) then s <| m_lastSampleTime := s_timestamp sample |> else s.

Definition ShiftSample (s : Calc) : Calc := s <| m_samples ::= tail |>.

Definition FreezeRotationPhaseSamples (s : Calc) : Calc := s <| m_rotationFrozen := m_samples s |> <| m_samples := [] |>.

Definition Clear (s : Calc) : Calc :=
  s <| m_estimatedTransformation := aff_identity |> <| m_isValid := false |> <| m_samples := [] |>
    <| m_rotationFrozen := [] |> <| m_axisVariance := fzero |> <| m_refToTargetPose := aff_identity |>
    <| m_relativePosCalibrated := false |> <| m_diag ::= fun d => d <| m_rotationConditionRatio := fzero |> |>
    <| m_consecutiveRejections := 0%Z |> <| m_blendFilter ::= BlendReset |> <| m_blendFilterLastUpdateTime := fzero |>.

Definition setRelativeTransformation (transform : Affine) (calibrated : bool) (s : Calc) : Calc :=
  s <| m_refToTargetPose := transform |> <| m_relativePosCalibrated := calibrated |>.

Definition AxisVarianceThreshold : double := d_lit 1 1000.
Definition RotationConditionMin : double := d_lit 5 100.
Definition kMinSamples : nat := 6.
Definition kRejectionFloor : double := d_lit 5 1000.
Definition kEmaAlpha : double := d_lit 3 10.

Section Calc.
Context `{Eigen} `{EigenMore} `{Libm} `{EigenSolver}.

(** The verdict, the error and the offset of a transform on the buffer. *)
Definition ValidateCalibration (calibration : Affine) (s : Calc) : bool * double * Vector3d * Calc :=
  let posOffset := ComputeRefToTargetOffset calibration (m_samples s) in
  let rmsError := RetargetingErrorRMS posOffset calibration (m_samples s) in
  let rmsThreshold := rms_threshold (m_samples s) in
  let s := push (validateRmsThresholdMm (rmsThreshold * d_of_Z 1000)) s in
  let bad := fgt rmsError rmsThreshold in
  (negb bad, rmsError, posOffset,
   s <| m_lastRejectRms := rmsError |> <| m_lastRejectRmsThreshold := rmsThreshold |> <| m_lastRejectRmsTooHigh := bad |>).

Definition compute_candidate (flags : Flags) (ignoreOutliers : bool) (s : Calc) : Affine * Calc :=
  let '(calibration, d) := ComputeCalibration (fl_math flags) (fl_opts flags) ignoreOutliers (m_samples s) (m_diag s) in
  (calibration, s <| m_diag := d |>).

Definition rotation_ratio (s : Calc) : double := CalibSolve.m_rotationConditionRatio (m_diag s).
Definition translation_ratio (s : Calc) : double := CalibSolve.m_translationConditionRatio (m_diag s).
Definition axis_variance (s : Calc) : double := nth 1 (ComputeAxisVariance (m_samples s)) fzero.

(** ** One-shot *)

(** The part with the frozen samples in front of the live ones. *)
Definition oneshot_spliced (flags : Flags) (ignoreOutliers : bool) (s : Calc) : bool * Calc :=
  if (SampleCount s <? kMinSamples)%nat then (false, s) else
  let '(calibration, s) := compute_candidate flags ignoreOutliers s in
  if feq (rotation_ratio s) fzero then (false, s) else
  let '(valid, rmsError, _, s) := ValidateCalibration calibration s in
  let s := if valid then s else if m_isValid s then (ValidateCalibration (m_estimatedTransformation s) s).2 else s in
  (true, s <| m_estimatedTransformation := calibration |> <| m_isValid := true |>).

Definition ComputeOneshot (flags : Flags) (ignoreOutliers : bool) (s : Calc) : bool * Calc :=
  let frozen := m_rotationFrozen s in
  let s := s <| m_samples ::= fun l => frozen ++ l |> in
  let '(ok, s) := oneshot_spliced flags ignoreOutliers s in
  (ok, s <| m_samples ::= drop (length frozen) |>).

(** ** Incremental *)

Definition mm (v : Vector3d) : Vector3d := v_scale v (d_of_Z 1000).

(** With the relative position locked, the transform it gives, if it fits. *)
Definition lock_try (flags : Flags) (s : Calc) : bool * Calc :=
  if negb (fl_lockRelativePosition flags) then (false, s) else
  let byRelPose := CalibrateByRelPose (m_refToTargetPose s) (m_samples s) in
  let '(ok, err, off, s) := ValidateCalibration byRelPose s in
  if negb ok then (false, s) else
  let s := push (error_byRelPose (err * d_of_Z 1000)) (push (posOffset_byRelPose (mm off)) s) in
  (true, s <| m_isValid := true |> <| m_estimatedTransformation := byRelPose |>).

Definition prior_error (s : Calc) : double * Calc :=
  if negb (m_isValid s) then (d_infinity, s) else
  let '(ok, err, off, s) := ValidateCalibration (m_estimatedTransformation s) s in
  (err, if ok then push (error_currentCal (err * d_of_Z 1000)) (push (posOffset_currentCal (mm off)) s) else s).

(** What the relative pose gives: no use this tick, the end of the tick, or the
    tick's result; with its error. *)
Inductive RelPose := RelNone (relPoseError : double) (byRelPose : Affine) | RelReturn | RelUse (relPoseError : double) (byRelPose : Affine).

Definition static_try (flags : Flags) (threshold relPoseMaxError priorError : double) (s : Calc) : RelPose * Calc :=
  if negb (fl_enableStaticRecalibration flags) then (RelNone d_infinity aff_identity, s) else
  let byRelPose := CalibrateByRelPose (m_refToTargetPose s) (m_samples s) in
  let '(ok, err, off, s) := ValidateCalibration byRelPose s in
  if negb ok then (RelNone err byRelPose, s) else
  let s := push (error_byRelPose (err * d_of_Z 1000)) (push (posOffset_byRelPose (mm off)) s) in
  if flt err (d_lit 10 1000) || (m_relativePosCalibrated s && flt err (d_lit 25 1000)) then
    if fge (err * threshold) priorError then (RelReturn, s)
    else if fgt err relPoseMaxError then (RelReturn, s)
    else (RelUse err byRelPose, s)
  else (RelNone err byRelPose, s).

(** The verdict on a candidate: accepted, open to a rapid correction, its error. *)
Definition judge (threshold priorError : double) (calibration : Affine) (newVariance : double) (s : Calc)
    : bool * bool * double * Calc :=
  let '(valid, rapid, newError, s) :=
    if flt newVariance AxisVarianceThreshold && flt newVariance (m_axisVariance s) then
      (false, false, d_infinity, s <| m_rejectReasonTag := str "axis_variance_low" |>)
    else if flt (rotation_ratio s) RotationConditionMin then
      (false, true, d_infinity, s <| m_rejectReasonTag := if feq (rotation_ratio s) fzero then str "rotation_no_deltas" else str "rotation_planar" |>)
    else if flt (translation_ratio s) RotationConditionMin then
      (false, true, d_infinity, s <| m_rejectReasonTag := if feq (translation_ratio s) fzero then str "translation_no_deltas" else str "translation_planar" |>)
    else
      let '(ok, err, off, s) := ValidateCalibration calibration s in
      let s := push (posOffset_rawComputed (mm off)) (s <| m_posOffset := off |>) in
      (ok, true, err, if ok then s else s <| m_rejectReasonTag := str "validate_failed" |>) in
  if m_isValid s && isfinite newError then
    let effectivePrior := std_max priorError kRejectionFloor in
    let s := push (effectivePriorMm (effectivePrior * d_of_Z 1000)) s in
    if flt effectivePrior (newError * threshold)
    then (false, false, newError, s <| m_rejectReasonTag := str "below_floor_or_worse" |>)
    else (valid, rapid, newError, s)
  else (valid, rapid, newError, s).

(** Of the latest sample. *)
Definition ComputeInstantOffset (s : Calc) : Calc :=
  match list.last (m_samples s) with
  | Some latest => push (posOffset_lastSample (mm (hmd_space (m_estimatedTransformation s) latest))) s
  | None => s
  end.

Definition swing_twist_yaw (m : Matrix3d) : double :=
  let q := q_of_matrix m in
  let twistNorm := d_sqrt (q_w q * q_w q + q_y q * q_y q) in
  if fgt twistNorm (d_lit 1 1000000000000) then d_of_Z 2 * m_atan2 (q_y q / twistNorm) (q_w q / twistNorm) else fzero.

Definition filter_update (f : BlendState) (calibration : Affine) (dt : double) : BlendState * double * double :=
  let t := aff_translation calibration in
  BlendUpdate f (swing_twist_yaw (aff_rotation calibration)) (v_x t) (v_y t) (v_z t) dt.

Definition filter_estimate (f : BlendState) : Affine := mkAff (m_angleAxis (b_yaw f) v_unitY) (V3 (b_tx f) (b_ty f) (b_tz f)).

Definition ema (prior new : Affine) : Affine :=
  let q := q_slerp (q_of_matrix (aff_rotation prior)) kEmaAlpha (q_of_matrix (aff_rotation new)) in
  mkAff (m_of_quat q)
    (v_add (v_scale (aff_translation prior) (d_one - kEmaAlpha)) (v_scale (aff_translation new) kEmaAlpha)).

(** The published transform: blended with a valid one, or as it is. *)
Definition publish (flags : Flags) (usingRelPose : bool) (calibration : Affine) (s : Calc) : Calc :=
  if m_isValid s && negb usingRelPose then
    if fl_useBlendFilter flags then
      let now := m_lastSampleTime s in
      let dt := std_max fzero (now - m_blendFilterLastUpdateTime s) in
      let '(f, yawInnov, posInnov) := filter_update (m_blendFilter s) calibration dt in
      let s := s <| m_blendFilterLastUpdateTime := now |> in
      if IsDivergent yawInnov posInnov then
        s <| m_blendFilter := BlendReset f |> <| m_estimatedTransformation ::= fun prior => ema prior calibration |>
      else s <| m_blendFilter := f |> <| m_estimatedTransformation := filter_estimate f |>
    else s <| m_estimatedTransformation ::= fun prior => ema prior calibration |>
  else
    let s := s <| m_estimatedTransformation := calibration |> in
    if fl_useBlendFilter flags && negb usingRelPose then
      let '(f, _, _) := filter_update (BlendReset (m_blendFilter s)) calibration fzero in
      s <| m_blendFilter := f |> <| m_blendFilterLastUpdateTime := m_lastSampleTime s |>
    else s.

Definition accept (flags : Flags) (usingRelPose : bool) (newError newVariance : double) (calibration : Affine) (s : Calc)
    : Calc :=
  let s := s <| m_relativePosCalibrated ::= fun b => b || flt newError (d_lit 5 1000) |> in
  let s := publish flags usingRelPose calibration s in
  let s := s <| m_isValid := true |> <| m_axisVariance := newVariance |> in
  let s := if usingRelPose then s else
    s <| m_refToTargetPose := EstimateRefToTargetPose (m_estimatedTransformation s) (m_samples s) |> in
  (push (calibrationApplied (negb usingRelPose)) s)
    <| m_consecutiveRejections := 0%Z |> <| m_lastSuccessfulIncrementalTime := m_lastSampleTime s |>
    <| m_rejectReasonTag := [] |> <| lastRejectReason := [] |> <| m_healthyHoldAnnotated := false |>.

(** An [int] counter; beyond 2^31 it is undefined, and wraps in practice. *)
Definition int_inc (n : Z) : Z := s32 (n + 1).

Definition reject (priorError : double) (s : Calc) : Calc :=
  let s := s <| m_consecutiveRejections ::= int_inc |> in
  let s := (push (consecutiveRejections (d_of_Z (m_consecutiveRejections s))) s) <| lastRejectReason := m_rejectReasonTag s |> in
  let healthy := IsCalibrationHealthy (m_isValid s) priorError in
  let full := m_isValid s && (kMaxConsecutiveRejections <=? m_consecutiveRejections s)%Z in
  let s := push (watchdogHealthySkip (if full && healthy then d_one else fzero)) s in
  if negb full then s
  else if healthy then
    s <| m_healthyHoldAnnotated := true |> <| m_consecutiveRejections := (kMaxConsecutiveRejections - 5)%Z |>
      <| m_rejectReasonTag := str "healthy_below_floor" |>
  else Clear (s <| m_isValid := false |> <| m_watchdogResets ::= int_inc |>).

(** A new solve, when the relative pose has not settled the tick. *)
Definition solve_tick (flags : Flags) (threshold : double) (ignoreOutliers : bool) (priorError relPoseError : double)
    (byRelPose : Affine) (s : Calc) : bool * bool * double * double * Affine * Calc :=
  let '(calibration, s) := compute_candidate flags ignoreOutliers s in
  let newVariance := axis_variance s in
  let s := push (rotationConditionRatio (rotation_ratio s)) (push (axisIndependence newVariance) s) in
  let '(valid, rapid, newError, s) := judge threshold priorError calibration newVariance s in
  let s := ComputeInstantOffset (push (error_rawComputed (newError * d_of_Z 1000)) s) in
  if negb valid && rapid then
    let existing := RetargetingErrorRMS (aff_translation (m_refToTargetPose s)) (m_estimatedTransformation s) (m_samples s) in
    let s := push (error_currentCalRelPose (existing * d_of_Z 1000)) s in
    if flt (relPoseError * threshold) existing then (true, true, relPoseError, newVariance, byRelPose, s)
    else (false, false, newError, newVariance, calibration, s)
  else (valid, false, newError, newVariance, calibration, s).

(** The answer and the caller's [lerp]. *)
Definition ComputeIncremental (flags : Flags) (lerp : bool) (threshold relPoseMaxError : double) (ignoreOutliers : bool)
    (s : Calc) : bool * bool * Calc :=
  let s := push RecordTimestamp s in
  if (SampleCount s <? kMinSamples)%nat then (false, lerp, s) else
  let '(locked, s) := lock_try flags s in
  if locked then (true, lerp, s) else
  let s := push (watchdogResetCount (d_of_Z (m_watchdogResets s))) (push (samplesInBuffer (d_of_Z (Z.of_nat (SampleCount s)))) s) in
  let '(priorError, s) := prior_error s in
  let '(rel, s) := static_try flags threshold relPoseMaxError priorError s in
  match rel with
  | RelReturn => (false, lerp, s)
  | RelUse err byRelPose => (true, m_isValid s, accept flags true err fzero byRelPose s)
  | RelNone err byRelPose =>
    let '(valid, usingRelPose, newError, newVariance, calibration, s) :=
      solve_tick flags threshold ignoreOutliers priorError err byRelPose s in
    if valid then (true, m_isValid s, accept flags usingRelPose newError newVariance calibration s)
    else (false, lerp, reject priorError s)
  end.
End Calc.

(** ** What the stages leave alone *)

(** Everything but the metrics and the diagnostics of the last solve. *)
Definition core (s : Calc) :=
  (m_isValid s, m_estimatedTransformation s, m_relativePosCalibrated s, m_refToTargetPose s,
   (m_axisVariance s, m_consecutiveRejections s, m_lastSuccessfulIncrementalTime s, m_lastSampleTime s),
   (m_watchdogResets s, m_healthyHoldAnnotated s, m_blendFilter s, m_blendFilterLastUpdateTime s),
   (m_samples s, m_rotationFrozen s)).

Definition usable_buffer (s : Calc) : Prop :=
  Forall (fun x => usable_translations x = true) (m_samples s) /\
  Forall (fun x => usable_translations x = true) (m_rotationFrozen s).

Section Contract.
Context `{Eigen} `{EigenMore} `{Libm} `{EigenSolver}.

(** The error of a transform on a buffer, as [ValidateCalibration] measures it. *)
Definition buffer_error (t : Affine) (l : list Sample) : double := RetargetingErrorRMS (ComputeRefToTargetOffset t l) t l.

Lemma Validate_effect t s :
  let '(ok, err, off, s') := ValidateCalibration t s in
  core s' = core s /\ err = buffer_error t (m_samples s) /\ ok = negb (fgt err (rms_threshold (m_samples s))) /\
  m_diag s' = m_diag s /\ m_rejectReasonTag s' = m_rejectReasonTag s.
Proof. by split_and!. Qed.

Lemma candidate_effect flags ign s :
  let '(cal, s') := compute_candidate flags ign s in
  core s' = core s /\ m_rejectReasonTag s' = m_rejectReasonTag s /\
  (cal, m_diag s') = ComputeCalibration (fl_math flags) (fl_opts flags) ign (m_samples s) (m_diag s).
Proof. unfold compute_candidate. by destruct (ComputeCalibration _ _ _ _ _). Qed.

Lemma lock_effect flags s :
  let '(locked, s') := lock_try flags s in
  if locked then
    fl_lockRelativePosition flags = true /\
    core s' = core (s <| m_isValid := true |> <| m_estimatedTransformation := CalibrateByRelPose (m_refToTargetPose s) (m_samples s) |>)
  else core s' = core s /\ m_diag s' = m_diag s.
Proof.
  unfold lock_try. destruct (fl_lockRelativePosition flags); cbn [negb]; [|done].
  unfold ValidateCalibration. cbv zeta. by destruct (fgt _ _).
Qed.

Lemma prior_effect s :
  let '(prior, s') := prior_error s in
  core s' = core s /\ m_diag s' = m_diag s /\
  prior = if m_isValid s then buffer_error (m_estimatedTransformation s) (m_samples s) else d_infinity.
Proof.
  unfold prior_error. destruct (m_isValid s) eqn:Hv; cbn [negb]; [|done].
  unfold ValidateCalibration. cbv zeta. by destruct (fgt _ _).
Qed.

Lemma static_effect flags threshold mx prior s :
  let '(rel, s') := static_try flags threshold mx prior s in
  core s' = core s /\ m_diag s' = m_diag s /\
  (fl_enableStaticRecalibration flags = false -> rel = RelNone d_infinity aff_identity).
Proof.
  unfold static_try. destruct (fl_enableStaticRecalibration flags); cbn [negb]; [|done].
  pose proof (Validate_effect (CalibrateByRelPose (m_refToTargetPose s) (m_samples s)) s) as Hv.
  destruct (ValidateCalibration _ s) as [[[ok err] off] s1]. destruct Hv as (Hc & _ & _ & Hd & _).
  destruct ok; cbn [negb]; [|done]. cbv zeta. destruct (_ || _); [|done].
  destruct (fge _ _); [done|]. by destruct (fgt _ _).
Qed.

Lemma judge_effect threshold prior cal var s :
  let '(valid, rapid, newError, s') := judge threshold prior cal var s in
  core s' = core s /\
  valid = negb (flt var AxisVarianceThreshold && flt var (m_axisVariance s)) &&
    negb (flt (rotation_ratio s) RotationConditionMin) && negb (flt (translation_ratio s) RotationConditionMin) &&
    negb (fgt (buffer_error cal (m_samples s)) (rms_threshold (m_samples s))) &&
    negb (m_isValid s && isfinite (buffer_error cal (m_samples s)) &&
          flt (std_max prior kRejectionFloor) (buffer_error cal (m_samples s) * threshold)) /\
  (valid = true -> newError = buffer_error cal (m_samples s)).
Proof.
  unfold judge. destruct (flt var AxisVarianceThreshold && flt var (m_axisVariance s)); cbn [negb andb].
  { rewrite andb_false_r. by split_and!. }
  destruct (flt (rotation_ratio s) RotationConditionMin); cbn [negb andb].
  { rewrite andb_false_r. by split_and!. }
  destruct (flt (translation_ratio s) RotationConditionMin); cbn [negb andb].
  { rewrite andb_false_r. by split_and!. }
  unfold ValidateCalibration. cbv zeta. fold (buffer_error cal (m_samples s)).
  set (err := buffer_error cal (m_samples s)). set (thr := rms_threshold (m_samples s)).
  destruct (fgt err thr); cbn [negb andb];
    (match goal with |- context [m_isValid ?x && isfinite err] => change (m_isValid x) with (m_isValid s) end);
    destruct (m_isValid s && isfinite err) eqn:Hb; cbn [andb negb]; rewrite ?Hb; try by split_and!.
  all: destruct (flt _ _) eqn:Hlt; rewrite ?Hb, ?Hlt; by split_and!.
Qed.
Lemma instant_core s : core (ComputeInstantOffset s) = core s.
Proof. unfold ComputeInstantOffset. by destruct (list.last _). Qed.

(** The candidate of a tick passes: enough variety in the motion, both solves
    conditioned, the error within the gate, and no worse than the prior. *)
Definition candidate_passes (flags : Flags) (ignoreOutliers : bool) (threshold prior : double) (s : Calc) : bool :=
  let '(cal, s1) := compute_candidate flags ignoreOutliers s in
  let err := buffer_error cal (m_samples s) in
  negb (flt (axis_variance s) AxisVarianceThreshold && flt (axis_variance s) (m_axisVariance s)) &&
  negb (flt (rotation_ratio s1) RotationConditionMin) && negb (flt (translation_ratio s1) RotationConditionMin) &&
  negb (fgt err (rms_threshold (m_samples s))) &&
  negb (m_isValid s && isfinite err && flt (std_max prior kRejectionFloor) (err * threshold)).

Lemma core_fields s s' : core s' = core s ->
  m_isValid s' = m_isValid s /\ m_estimatedTransformation s' = m_estimatedTransformation s /\ m_samples s' = m_samples s /\
  m_rotationFrozen s' = m_rotationFrozen s /\ m_consecutiveRejections s' = m_consecutiveRejections s /\
  m_axisVariance s' = m_axisVariance s /\ m_refToTargetPose s' = m_refToTargetPose s /\
  m_watchdogResets s' = m_watchdogResets s /\ m_lastSampleTime s' = m_lastSampleTime s.
Proof. unfold core. intros [=]. by split_and!. Qed.

Lemma solve_effect flags threshold ign prior relErr byRel s :
  let '(valid, usingRel, newError, newVariance, cal, s') := solve_tick flags threshold ign prior relErr byRel s in
  core s' = core s /\ newVariance = axis_variance s /\
  if usingRel then valid = true /\ cal = byRel /\ candidate_passes flags ign threshold prior s = false /\
    flt (relErr * threshold) (RetargetingErrorRMS (aff_translation (m_refToTargetPose s)) (m_estimatedTransformation s) (m_samples s)) = true
  else valid = candidate_passes flags ign threshold prior s /\ cal = (compute_candidate flags ign s).1 /\
    (valid = true -> newError = buffer_error cal (m_samples s)).
Proof.
  unfold solve_tick, candidate_passes. pose proof (candidate_effect flags ign s) as Hc.
  destruct (compute_candidate flags ign s) as [cal s1]. destruct Hc as (Hc & _ & _). cbv zeta.
  destruct (core_fields _ _ Hc) as (C1 & C2 & C3 & _ & _ & C6 & C7 & _).
  assert (axis_variance s1 = axis_variance s) as Hv by (unfold axis_variance; by rewrite C3). rewrite Hv.
  set (s2 := push _ (push _ s1)). assert (core s2 = core s) as Hc2 by exact Hc.
  pose proof (judge_effect threshold prior cal (axis_variance s) s2) as Hj.
  destruct (judge threshold prior cal (axis_variance s) s2) as [[[valid rapid] newError] s3].
  destruct Hj as (J1 & J2 & J3). destruct (core_fields _ _ Hc2) as (D1 & D2 & D3 & _ & _ & D6 & D7 & _).
  rewrite D1, D3, D6 in J2. rewrite D3 in J3.
  change (rotation_ratio s2) with (rotation_ratio s1) in J2. change (translation_ratio s2) with (translation_ratio s1) in J2.
  set (s4 := ComputeInstantOffset _). assert (core s4 = core s) as Hc4.
  { unfold s4. rewrite instant_core. change (core s3 = core s). by rewrite J1. }
  destruct (core_fields _ _ Hc4) as (E1 & E2 & E3 & _ & _ & E6 & E7 & _).
  destruct (negb valid && rapid) eqn:Hvr.
  - apply andb_true_iff in Hvr as [Hv0 _]. apply negb_true_iff in Hv0. rewrite Hv0 in J2.
    match goal with |- context [if ?b then (true, true, _, _, _, _) else _] => destruct b eqn:Hlt end.
    + split; [exact Hc4|]. split; [done|]. split_and!; [done|done|by rewrite <-J2|].
      by rewrite E7, E2, E3 in Hlt.
    + split; [exact Hc4|]. split; [done|]. split_and!; [done|done|by intros].
  - split; [exact Hc4|]. split; [done|]. by split_and!.
Qed.

Lemma publish_effect flags usingRel cal s :
  let s' := publish flags usingRel cal s in
  m_isValid s' = m_isValid s /\ m_samples s' = m_samples s /\ m_rotationFrozen s' = m_rotationFrozen s /\
  m_lastSampleTime s' = m_lastSampleTime s /\ m_refToTargetPose s' = m_refToTargetPose s /\
  m_watchdogResets s' = m_watchdogResets s /\
  (m_isValid s = false \/ usingRel = true -> m_estimatedTransformation s' = cal) /\
  (m_isValid s = true -> usingRel = false ->
     m_estimatedTransformation s' = ema (m_estimatedTransformation s) cal \/
     (fl_useBlendFilter flags = true /\ m_estimatedTransformation s' = filter_estimate (m_blendFilter s'))).
Proof.
  unfold publish. destruct (m_isValid s) eqn:Hv, usingRel; cbn [andb negb].
  2: { destruct (fl_useBlendFilter flags); cbv zeta.
       - destruct (filter_update _ cal _) as [[f yi] pi]. destruct (IsDivergent yi pi); split_and!; auto; naive_solver.
       - split_and!; auto; naive_solver. }
  all: rewrite ?andb_false_r, ?andb_true_r; cbv zeta.
  - split_and!; auto; naive_solver.
  - split_and!; auto; naive_solver.
  - destruct (fl_useBlendFilter flags); [destruct (filter_update _ cal _) as [[f yi] pi]|]; split_and!; auto; naive_solver.
Qed.

Lemma accept_effect flags usingRel newError newVariance cal s :
  let s' := accept flags usingRel newError newVariance cal s in
  m_isValid s' = true /\ m_samples s' = m_samples s /\ m_rotationFrozen s' = m_rotationFrozen s /\
  m_consecutiveRejections s' = 0%Z /\ m_axisVariance s' = newVariance /\ m_watchdogResets s' = m_watchdogResets s /\
  m_lastSuccessfulIncrementalTime s' = m_lastSampleTime s /\
  (m_isValid s = false \/ usingRel = true -> m_estimatedTransformation s' = cal) /\
  (m_isValid s = true -> usingRel = false ->
     m_estimatedTransformation s' = ema (m_estimatedTransformation s) cal \/
     (fl_useBlendFilter flags = true /\ m_estimatedTransformation s' = filter_estimate (m_blendFilter s'))).
Proof.
  unfold accept. cbv zeta. set (s1 := s <| m_relativePosCalibrated ::= _ |>).
  pose proof (publish_effect flags usingRel cal s1) as Hp. cbv zeta in Hp. set (s2 := publish flags usingRel cal s1) in *.
  destruct Hp as (P1 & P2 & P3 & P4 & P5 & P6 & P7 & P8). clearbody s2.
  destruct usingRel; split_and!; try done; cbn.
  all: try (by rewrite ?P1, ?P2, ?P3, ?P4, ?P6). all: auto.
Qed.

Lemma reject_effect prior s :
  let s' := reject prior s in
  let n := int_inc (m_consecutiveRejections s) in
  if m_isValid s && (kMaxConsecutiveRejections <=? n)%Z && negb (IsCalibrationHealthy (m_isValid s) prior) then
    m_isValid s' = false /\ m_samples s' = [] /\ m_rotationFrozen s' = [] /\ m_estimatedTransformation s' = aff_identity /\
    m_consecutiveRejections s' = 0%Z /\ m_watchdogResets s' = int_inc (m_watchdogResets s)
  else
    m_isValid s' = m_isValid s /\ m_samples s' = m_samples s /\ m_rotationFrozen s' = m_rotationFrozen s /\
    m_estimatedTransformation s' = m_estimatedTransformation s /\ m_refToTargetPose s' = m_refToTargetPose s /\
    m_watchdogResets s' = m_watchdogResets s /\ m_axisVariance s' = m_axisVariance s /\
    m_consecutiveRejections s' =
      if m_isValid s && (kMaxConsecutiveRejections <=? n)%Z then (kMaxConsecutiveRejections - 5)%Z else n.
Proof.
  unfold reject. cbv zeta. set (s1 := s <| m_consecutiveRejections ::= int_inc |>).
  set (s2 := (push _ s1) <| lastRejectReason := _ |>). set (s3 := push _ s2).
  change (m_isValid s2) with (m_isValid s). change (m_consecutiveRejections s2) with (int_inc (m_consecutiveRejections s)).
  destruct (m_isValid s && _) eqn:Hf; cbn [negb andb]; [|by split_and!].
  destruct (IsCalibrationHealthy _ _); cbn [negb]; by split_and!.
Qed.
(** The error of the transform in force; infinite without one. *)
Definition prior_of (s : Calc) : double :=
  if m_isValid s then buffer_error (m_estimatedTransformation s) (m_samples s) else d_infinity.

(** What a tick leaves when it publishes. *)
Definition published (flags : Flags) (lerp : bool) (s : Calc) (lerp' : bool) (s' : Calc) : Prop :=
  m_isValid s' = true /\ m_samples s' = m_samples s /\ m_rotationFrozen s' = m_rotationFrozen s /\
  m_watchdogResets s' = m_watchdogResets s /\
  ((fl_lockRelativePosition flags = true /\ lerp' = lerp /\
    m_estimatedTransformation s' = CalibrateByRelPose (m_refToTargetPose s) (m_samples s) /\
    m_consecutiveRejections s' = m_consecutiveRejections s) \/
   (lerp' = m_isValid s /\ m_consecutiveRejections s' = 0%Z /\ m_lastSuccessfulIncrementalTime s' = m_lastSampleTime s)).

(** What a tick leaves when it does not. *)
Definition kept (s s' : Calc) : Prop :=
  m_isValid s' = m_isValid s /\ m_estimatedTransformation s' = m_estimatedTransformation s /\
  m_refToTargetPose s' = m_refToTargetPose s /\ m_samples s' = m_samples s /\ m_rotationFrozen s' = m_rotationFrozen s /\
  m_watchdogResets s' = m_watchdogResets s /\ m_axisVariance s' = m_axisVariance s /\
  (m_consecutiveRejections s' = m_consecutiveRejections s \/
   (m_consecutiveRejections s' = int_inc (m_consecutiveRejections s) /\
    (m_isValid s = true -> int_inc (m_consecutiveRejections s) < kMaxConsecutiveRejections)%Z) \/
   (m_consecutiveRejections s' = (kMaxConsecutiveRejections - 5)%Z /\ m_isValid s = true /\
    (kMaxConsecutiveRejections <= int_inc (m_consecutiveRejections s))%Z /\ IsCalibrationHealthy true (prior_of s) = true)).

Definition dropped (s s' : Calc) : Prop :=
  m_isValid s = true /\ (kMaxConsecutiveRejections <= int_inc (m_consecutiveRejections s))%Z /\
  IsCalibrationHealthy true (prior_of s) = false /\
  m_isValid s' = false /\ m_samples s' = [] /\ m_rotationFrozen s' = [] /\ m_estimatedTransformation s' = aff_identity /\
  m_consecutiveRejections s' = 0%Z /\ m_watchdogResets s' = int_inc (m_watchdogResets s).

Lemma core_kept s s' : core s' = core s -> kept s s'.
Proof.
  intros Hc. destruct (core_fields _ _ Hc) as (C1 & C2 & C3 & C4 & C5 & C6 & C7 & C8 & _). unfold kept. split_and!; auto.
Qed.

Lemma core_published flags usingRel newError newVariance cal lerp s0 s :
  core s = core s0 ->
  published flags lerp s0 (m_isValid s) (accept flags usingRel newError newVariance cal s).
Proof.
  intros Hc. destruct (core_fields _ _ Hc) as (C1 & C2 & C3 & C4 & C5 & C6 & C7 & C8 & C9).
  destruct (accept_effect flags usingRel newError newVariance cal s) as (A1 & A2 & A3 & A4 & A5 & A6 & A7 & _).
  unfold published. rewrite A1, A2, A3, A4, A6, A7, C1, C3, C4, C8, C9. split_and!; auto.
Qed.

Lemma core_rejected prior s0 s :
  core s = core s0 -> prior = prior_of s0 -> kept s0 (reject prior s) \/ dropped s0 (reject prior s).
Proof.
  intros Hc ->. destruct (core_fields _ _ Hc) as (C1 & C2 & C3 & C4 & C5 & C6 & C7 & C8 & C9).
  pose proof (reject_effect (prior_of s0) s) as Hr. cbv zeta in Hr. set (s' := reject (prior_of s0) s) in *. clearbody s'.
  rewrite C1, C2, C3, C4, C5, C6, C7, C8 in Hr.
  destruct (m_isValid s0) eqn:Hv; cbn [andb] in Hr.
  2: { left. destruct Hr as (R1 & R2 & R3 & R4 & R5 & R6 & R7 & R8). unfold kept. rewrite Hv. split_and!; auto. right. by left. }
  destruct (Z.leb_spec kMaxConsecutiveRejections (int_inc (m_consecutiveRejections s0))) as [Hle|Hlt]; cbn [andb] in Hr.
  2: { left. destruct Hr as (R1 & R2 & R3 & R4 & R5 & R6 & R7 & R8). unfold kept. rewrite Hv. split_and!; auto. }
  destruct (IsCalibrationHealthy true (prior_of s0)) eqn:Hh; cbn [negb andb] in Hr.
  - left. destruct Hr as (R1 & R2 & R3 & R4 & R5 & R6 & R7 & R8). unfold kept. rewrite Hv, Hh. split_and!; auto. right. right. by split_and!.
  - right. destruct Hr as (R1 & R2 & R3 & R4 & R5 & R6). unfold dropped. by split_and!.
Qed.

Lemma incremental_cases flags lerp threshold mx ign s :
  let '(ok, lerp', s') := ComputeIncremental flags lerp threshold mx ign s in
  if ok then published flags lerp s lerp' s' else lerp' = lerp /\ (kept s s' \/ dropped s s').
Proof.
  unfold ComputeIncremental. cbv zeta. set (s1 := push RecordTimestamp s).
  destruct (SampleCount s1 <? kMinSamples)%nat; [split; [done|left; by apply core_kept]|].
  pose proof (lock_effect flags s1) as Hl. destruct (lock_try flags s1) as [locked s2]. destruct locked.
  { destruct Hl as [Hlock Hc]. destruct (core_fields _ _ Hc) as (C1 & C2 & C3 & C4 & C5 & C6 & C7 & C8 & C9).
    unfold published. rewrite C1, C2, C3, C4, C5, C8. split_and!; auto. }
  destruct Hl as [Hc2 _]. set (s3 := push _ (push _ s2)).
  assert (core s3 = core s) as Hc3 by exact Hc2.
  pose proof (prior_effect s3) as Hp. destruct (prior_error s3) as [prior s4]. destruct Hp as (Hc4 & _ & Hprior).
  assert (prior = prior_of s) as Hpr.
  { destruct (core_fields _ _ Hc3) as (D1 & D2 & D3 & _). unfold prior_of. by rewrite Hprior, D1, D2, D3. }
  pose proof (static_effect flags threshold mx prior s4) as Hs.
  destruct (static_try flags threshold mx prior s4) as [rel s5]. destruct Hs as (Hc5 & _ & _).
  assert (core s5 = core s) as Hc by (by rewrite Hc5, Hc4, Hc3). destruct rel as [err byRel| |err byRel].
  - pose proof (solve_effect flags threshold ign prior err byRel s5) as Hv.
    destruct (solve_tick flags threshold ign prior err byRel s5) as [[[[[valid usingRel] newError] newVariance] cal] s6].
    destruct Hv as (Hc6 & _ & _). rewrite Hc in Hc6. destruct valid; [by apply core_published|].
    split; [done|]. by apply core_rejected.
  - split; [done|]. left. by apply core_kept.
  - by apply core_published.
Qed.

(** ** Any sequence of operations *)

Inductive calc_op :=
| OpPush (sample : Sample)
| OpShift
| OpFreeze
| OpClear
| OpRelative (transform : Affine) (calibrated : bool)
| OpOneshot (flags : Flags) (ignoreOutliers : bool)
| OpIncremental (flags : Flags) (lerp : bool) (threshold relPoseMaxError : double) (ignoreOutliers : bool).

Definition calc_step (s : Calc) (op : calc_op) : Calc :=
  match op with
  | OpPush sample => PushSample sample s
  | OpShift => ShiftSample s
  | OpFreeze => FreezeRotationPhaseSamples s
  | OpClear => Clear s
  | OpRelative t b => setRelativeTransformation t b s
  | OpOneshot flags ign => (ComputeOneshot flags ign s).2
  | OpIncremental flags lerp threshold mx ign => (ComputeIncremental flags lerp threshold mx ign s).2
  end.

Definition calc_run (s : Calc) (ops : list calc_op) : Calc := foldl calc_step s ops.

(** What one-shot leaves. *)
Lemma oneshot_effect flags ign s :
  let '(ok, s') := ComputeOneshot flags ign s in
  let union := s <| m_samples ::= fun l => m_rotationFrozen s ++ l |> in
  m_samples s' = m_samples s /\ m_rotationFrozen s' = m_rotationFrozen s /\
  m_consecutiveRejections s' = m_consecutiveRejections s /\ m_refToTargetPose s' = m_refToTargetPose s /\
  m_relativePosCalibrated s' = m_relativePosCalibrated s /\ m_blendFilter s' = m_blendFilter s /\
  m_axisVariance s' = m_axisVariance s /\ m_watchdogResets s' = m_watchdogResets s /\
  ok = negb (SampleCount union <? kMinSamples)%nat &&
       negb (feq (rotation_ratio (compute_candidate flags ign union).2) fzero) /\
  if ok then m_isValid s' = true /\ m_estimatedTransformation s' = (compute_candidate flags ign union).1
  else m_isValid s' = m_isValid s /\ m_estimatedTransformation s' = m_estimatedTransformation s.
Proof.
  unfold ComputeOneshot. cbv zeta. set (u := s <| m_samples ::= _ |>). set (n := length (m_rotationFrozen s)).
  assert (forall s', core s' = core u -> let r := s' <| m_samples ::= drop n |> in
    m_samples r = m_samples s /\ m_rotationFrozen r = m_rotationFrozen s /\
    m_consecutiveRejections r = m_consecutiveRejections s /\ m_refToTargetPose r = m_refToTargetPose s /\
    m_relativePosCalibrated r = m_relativePosCalibrated s /\ m_blendFilter r = m_blendFilter s /\
    m_axisVariance r = m_axisVariance s /\ m_watchdogResets r = m_watchdogResets s /\ m_isValid r = m_isValid s /\ m_estimatedTransformation r = m_estimatedTransformation s)
    as Hcore.
  { intros s' Hc. unfold core in Hc. injection Hc as E1 E2 E3 E4 E5 E6 E7 E8 E9 E10 E11 E12 E13 E14.
    assert (drop n (m_samples s') = m_samples s) as Hd by (rewrite E13; apply drop_app_length).
    cbn. rewrite Hd. by split_and!. }
  unfold oneshot_spliced. destruct (SampleCount u <? kMinSamples)%nat; cbn [negb andb].
  { destruct (Hcore u eq_refl) as (Q1 & Q2 & Q3 & Q4 & Q5 & Q6 & Q7 & Q8 & Q9 & Q10). by split_and!. }
  pose proof (candidate_effect flags ign u) as Hcand. destruct (compute_candidate flags ign u) as [cal s1].
  destruct Hcand as (Hc1 & _). cbn [fst snd]. destruct (feq (rotation_ratio s1) fzero); cbn [negb].
  { destruct (Hcore s1 Hc1) as (Q1 & Q2 & Q3 & Q4 & Q5 & Q6 & Q7 & Q8 & Q9 & Q10). by split_and!. }
  pose proof (Validate_effect cal s1) as Hval. destruct (ValidateCalibration cal s1) as [[[valid err] off] s2].
  destruct Hval as (Hc2 & _). cbv zeta.
  set (s3 := if valid then s2 else _).
  assert (core s3 = core u) as Hc3.
  { unfold s3. destruct valid; [by rewrite Hc2|]. destruct (m_isValid s2); [|by rewrite Hc2].
    pose proof (Validate_effect (m_estimatedTransformation s2) s2) as Hv2.
    destruct (ValidateCalibration (m_estimatedTransformation s2) s2) as [[[v2 e2] o2] s4]. destruct Hv2 as (Hc4 & _).
    cbn [snd]. by rewrite Hc4, Hc2. }
  destruct (Hcore s3 Hc3) as (Q1 & Q2 & Q3 & Q4 & Q5 & Q6 & Q7 & Q8 & Q9 & Q10). by split_and!.
Qed.
Lemma PushSample_effect x s :
  core (PushSample x s) = core (s <| m_samples := m_samples (PushSample x s) |> <| m_lastSampleTime := m_lastSampleTime (PushSample x s) |>) /\
  m_samples (PushSample x s) = m_samples s ++ (if usable_translations x then [x] else []) /\
  m_diag (PushSample x s) = m_diag s.
Proof.
  unfold PushSample. destruct (usable_translations x); cbn [negb].
  - cbv zeta. destruct (_ && _); by split_and!.
  - rewrite app_nil_r. split; [|done]. by destruct s.
Qed.

(** *** Invariants of any sequence *)

Definition fits_int (n : Z) : Prop := (- 2 ^ 31 <= n < 2 ^ 31)%Z.

Lemma int_inc_fits n : fits_int (int_inc n).
Proof. unfold fits_int, int_inc, s32. pose proof (Z.mod_pos_bound (n + 1 + 2 ^ 31) (2 ^ 32) ltac:(lia)). lia. Qed.

Lemma int_inc_le n : fits_int n -> (int_inc n <= n + 1)%Z.
Proof.
  unfold fits_int, int_inc, s32. intros Hn. pose proof (Z.mod_le (n + 1 + 2 ^ 31) (2 ^ 32) ltac:(lia) ltac:(lia)). lia.
Qed.

Lemma zero_fits : fits_int 0.
Proof. unfold fits_int. lia. Qed.

Record calc_ok (s : Calc) : Prop := {
  co_buffer : usable_buffer s;
  co_rejections : fits_int (m_consecutiveRejections s);
  co_resets : fits_int (m_watchdogResets s);
  co_identity : m_isValid s = false -> m_estimatedTransformation s = aff_identity }.

Lemma calc_step_ok s op : calc_ok s -> calc_ok (calc_step s op).
Proof.
  intros [[B1 B2] R1 R2 E1]. destruct op; cbn [calc_step].
  - destruct (PushSample_effect sample s) as (Hc & Hs & _).
    unfold core in Hc. injection Hc as C1 C2 C3 C4 C5 C6 C7 C8 C9 C10 C11 C12.
    constructor; [|by rewrite ?C6|by rewrite ?C8|by rewrite C1, C2]. unfold usable_buffer. rewrite Hs, C12. split; [|exact B2].
    apply list.Forall_app. split; [done|]. destruct (usable_translations sample) eqn:Hu; by constructor.
  - constructor; [|done..]. split; [|done]. cbn. by destruct B1.
  - constructor; [|done..]. by split.
  - constructor; [|done..]. by split.
  - by constructor.
  - pose proof (oneshot_effect flags ignoreOutliers s) as Ho. destruct (ComputeOneshot flags ignoreOutliers s) as [ok s'].
    destruct Ho as (O1 & O2 & O3 & O4 & O5 & O6 & O7 & O8 & _ & O9). cbn [snd]. constructor.
    + unfold usable_buffer. by rewrite O1, O2.
    + by rewrite O3.
    + by rewrite O8.
    + destruct ok; destruct O9 as [V1 V2]; rewrite V1; [done|]. by rewrite V2.
  - pose proof (incremental_cases flags lerp threshold relPoseMaxError ignoreOutliers s) as Hi.
    destruct (ComputeIncremental flags lerp threshold relPoseMaxError ignoreOutliers s) as [[ok l] s']. cbn [snd].
    destruct ok.
    + destruct Hi as (P1 & P2 & P3 & P4 & P5). constructor.
      * unfold usable_buffer. by rewrite P2, P3.
      * destruct P5 as [(_ & _ & _ & ->)|(_ & -> & _)]; [done|apply zero_fits].
      * by rewrite P4.
      * by rewrite P1.
    + destruct Hi as [_ [(K1 & K2 & K3 & K4 & K5 & K6 & K7 & K8)|(D1 & D2 & D3 & D4 & D5 & D6 & D7 & D8 & D9)]]; constructor.
      * unfold usable_buffer. by rewrite K4, K5.
      * destruct K8 as [->|[[-> _]|(-> & _)]]; [done|apply int_inc_fits|unfold fits_int, kMaxConsecutiveRejections; lia].
      * by rewrite K6.
      * by rewrite K1, K2.
      * unfold usable_buffer. rewrite D5, D6. by split.
      * rewrite D8. apply zero_fits.
      * rewrite D9. apply int_inc_fits.
      * done.
Qed.
Lemma calc_run_ok ops s : calc_ok s -> calc_ok (calc_run s ops).
Proof. revert s. induction ops as [|op ops IH]; [done|]. intros s Hs. cbn. apply IH. by apply calc_step_ok. Qed.

Lemma calc_run_snoc s ops op : calc_run s (ops ++ [op]) = calc_step (calc_run s ops) op.
Proof. unfold calc_run. by rewrite foldl_app. Qed.

(** *** A calibration in force *)

Definition is_tick (op : calc_op) : bool := match op with OpIncremental _ _ _ _ _ => true | _ => false end.
Definition is_clear (op : calc_op) : bool := match op with OpClear => true | _ => false end.
Definition tick_count (ops : list calc_op) : Z := Z.of_nat (length (filter (fun op => is_tick op = true) ops)).

Lemma tick_count_cons op ops : tick_count (op :: ops) = ((if is_tick op then 1 else 0) + tick_count ops)%Z.
Proof.
  unfold tick_count. rewrite list.filter_cons. destruct (is_tick op).
  - rewrite decide_True by done. cbn [length]. lia.
  - rewrite decide_False by done. lia.
Qed.

(** One operation on a calibration in force. *)
Lemma in_force_step s op :
  m_isValid s = true -> is_clear op = false -> fits_int (m_consecutiveRejections s) ->
  (m_isValid (calc_step s op) = true /\
   (m_consecutiveRejections (calc_step s op) <= m_consecutiveRejections s + (if is_tick op then 1 else 0) \/
    m_consecutiveRejections (calc_step s op) = kMaxConsecutiveRejections - 5 /\ kMaxConsecutiveRejections <= m_consecutiveRejections s + 1 \/
    m_consecutiveRejections (calc_step s op) = 0)%Z) \/
  (is_tick op = true /\ dropped s (calc_step s op)).
Proof.
  intros Hv Hc Hf. destruct op; cbn [calc_step is_tick] in *; try done.
  - left. destruct (PushSample_effect sample s) as (He & _). unfold core in He.
    injection He as C1 C2 C3 C4 C5 C6 C7 C8 C9 C10 C11 C12. rewrite C1, C6. split; [done|lia].
  - left. split; [done|]. cbn. lia.
  - left. split; [done|]. cbn. lia.
  - left. split; [done|]. cbn. lia.
  - left. pose proof (oneshot_effect flags ignoreOutliers s) as Ho. destruct (ComputeOneshot flags ignoreOutliers s) as [ok s'].
    destruct Ho as (O1 & O2 & O3 & O4 & O5 & O6 & O7 & O8 & _ & O9). cbn [snd]. rewrite O3. split; [|lia].
    destruct ok; [by destruct O9|]. destruct O9 as [-> _]. done.
  - pose proof (incremental_cases flags lerp threshold relPoseMaxError ignoreOutliers s) as Hi.
    destruct (ComputeIncremental flags lerp threshold relPoseMaxError ignoreOutliers s) as [[ok l] s']. cbn [snd].
    destruct ok.
    + left. destruct Hi as (P1 & _ & _ & _ & P5). split; [done|]. destruct P5 as [(_ & _ & _ & ->)|(_ & -> & _)]; lia.
    + destruct Hi as [_ [(K1 & _ & _ & _ & _ & _ & _ & K8)|Hd]]; [|by right]. left. split; [by rewrite K1|].
      pose proof (int_inc_le _ Hf). destruct K8 as [->|[[-> _]|(-> & _ & Hle & _)]]; lia.
Qed.

Lemma calc_step_fits s op :
  fits_int (m_consecutiveRejections s) -> fits_int (m_consecutiveRejections (calc_step s op)).
Proof.
  intros Hf. destruct op; cbn [calc_step]; try done.
  - destruct (PushSample_effect sample s) as (Hc & _). unfold core in Hc.
    injection Hc as C1 C2 C3 C4 C5 C6 C7 C8 C9 C10 C11 C12. by rewrite C6.
  - pose proof (oneshot_effect flags ignoreOutliers s) as Ho. destruct (ComputeOneshot flags ignoreOutliers s) as [ok s'].
    destruct Ho as (_ & _ & O3 & _). cbn [snd]. by rewrite O3.
  - pose proof (incremental_cases flags lerp threshold relPoseMaxError ignoreOutliers s) as Hi.
    destruct (ComputeIncremental flags lerp threshold relPoseMaxError ignoreOutliers s) as [[ok l] s']. cbn [snd]. destruct ok.
    + destruct Hi as (_ & _ & _ & _ & [(_ & _ & _ & ->)|(_ & -> & _)]); [done|apply zero_fits].
    + destruct Hi as [_ [(_ & _ & _ & _ & _ & _ & _ & [->|[[-> _]|(-> & _)]])|(_ & _ & _ & _ & _ & _ & _ & -> & _)]];
        [done|apply int_inc_fits|unfold fits_int, kMaxConsecutiveRejections; lia|apply zero_fits].
Qed.

Lemma calc_run_fits ops s : fits_int (m_consecutiveRejections s) -> fits_int (m_consecutiveRejections (calc_run s ops)).
Proof. revert s. induction ops as [|op ops IH]; [done|]. intros s Hs. cbn. by apply IH, calc_step_fits. Qed.

(** C29: a transform in force stays so through any pushes, shifts, freezes,
    one-shots and incremental ticks, with any switches and thresholds, unless a
    tick drops it: a rejected tick, the fiftieth or later in a row by the
    counter, while the error of the transform in force on the buffer is not below
    five millimetres -- exactly five and not a number included; and fewer than
    fifty ticks, counting those on the counter, never do. *)
Theorem calibration_in_force s ops :
  m_isValid s = true -> fits_int (m_consecutiveRejections s) -> forallb (fun op => negb (is_clear op)) ops = true ->
  (m_isValid (calc_run s ops) = true \/
   exists pre op post, ops = pre ++ op :: post /\ is_tick op = true /\
     dropped (calc_run s pre) (calc_run s (pre ++ [op]))) /\
  ((Z.max 0 (m_consecutiveRejections s) + tick_count ops < kMaxConsecutiveRejections)%Z ->
   m_isValid (calc_run s ops) = true).
Proof.
  intros Hv Hf Hops. split.
  - induction ops as [|op ops IH] using rev_ind; [by left|].
    rewrite forallb_app in Hops. apply andb_true_iff in Hops as [Hops Hop]. cbn in Hop. rewrite andb_true_r in Hop.
    apply negb_true_iff in Hop. destruct (IH Hops) as [Hin|(pre & o & post & -> & Ht & Hd)].
    + rewrite calc_run_snoc. destruct (in_force_step _ op Hin Hop (calc_run_fits ops s Hf)) as [[Hin' _]|[Ht Hd]]; [by left|].
      right. exists ops, op, []. rewrite calc_run_snoc. by split_and!.
    + right. exists pre, o, (post ++ [op]). by rewrite <-app_assoc.
  - intros Hlt.
    enough (forall B, (m_consecutiveRejections s <= B)%Z -> (0 <= B)%Z -> (B + tick_count ops < kMaxConsecutiveRejections)%Z ->
      m_isValid (calc_run s ops) = true) as Hgen by (apply (Hgen (Z.max 0 (m_consecutiveRejections s))); lia).
    clear Hlt. revert s Hv Hf. induction ops as [|op ops IH]; intros s Hv Hf B HB Hz Hlt; [done|].
    cbn in Hops. apply andb_true_iff in Hops as [Hop Hops]. apply negb_true_iff in Hop. cbn [calc_run foldl].
    rewrite tick_count_cons in Hlt. assert (0 <= tick_count ops)%Z by (unfold tick_count; lia).
    destruct (in_force_step s op Hv Hop Hf) as [[Hin Hn]|[Ht (D1 & D2 & _)]]; unfold kMaxConsecutiveRejections in *.
    + apply (IH Hops _ Hin (calc_step_fits s op Hf) (B + (if is_tick op then 1 else 0))%Z); destruct (is_tick op); lia.
    + rewrite Ht in Hlt. pose proof (int_inc_le _ Hf). lia.
Qed.

(** over any operations from a fresh calculator, every sample in the live
    and the frozen buffer has finite translations within five metres, the
    counters fit an int, and a calculator with nothing in force holds
    the identity. *)
Theorem calc_invariant ops : calc_ok (calc_run calc_init ops).
Proof. apply calc_run_ok. constructor; [by split|done..]. Qed.

(** *** The verdict of a solve *)

Lemma infinity_never_less t x : flt fzero t = true -> flt (d_infinity * t) x = false.
Proof.
  destruct t as [[]|[]| |[] m e]; try done; intros _;
    (change (d_infinity * _) with d_infinity || idtac); by destruct x as [[]|[]| |[] ? ?].
Qed.

Lemma candidate_core flags ign s s' :
  core s' = core s -> m_diag s' = m_diag s ->
  (compute_candidate flags ign s').1 = (compute_candidate flags ign s).1 /\
  forall threshold prior, candidate_passes flags ign threshold prior s' = candidate_passes flags ign threshold prior s.
Proof.
  intros Hc Hd. destruct (core_fields _ _ Hc) as (C1 & C2 & C3 & C4 & C5 & C6 & C7 & C8 & C9).
  unfold candidate_passes, compute_candidate, axis_variance, rotation_ratio, translation_ratio. rewrite C3, Hd.
  destruct (ComputeCalibration _ _ _ _ _) as [cal d]. by rewrite C1, C6.
Qed.

(** C30: without the relative pose, a tick on six samples or more publishes
    exactly when the candidate passes every gate; the first one as it is, a
    later one by the moving average or the filter.  A candidate whose error is
    not a number passes the last two gates whatever is in force. *)
Theorem incremental_accepts_iff flags lerp threshold mx ign s :
  fl_lockRelativePosition flags = false -> fl_enableStaticRecalibration flags = false ->
  flt fzero threshold = true -> kMinSamples <= SampleCount s ->
  let '(ok, _, s') := ComputeIncremental flags lerp threshold mx ign s in
  let '(cal, s1) := compute_candidate flags ign s in
  ok = candidate_passes flags ign threshold (prior_of s) s /\
  (ok = true ->
    if m_isValid s then m_estimatedTransformation s' = ema (m_estimatedTransformation s) cal \/
      (fl_useBlendFilter flags = true /\ m_estimatedTransformation s' = filter_estimate (m_blendFilter s'))
    else m_estimatedTransformation s' = cal) /\
  (is_nan (buffer_error cal (m_samples s)) = true ->
    ok = negb (flt (axis_variance s) AxisVarianceThreshold && flt (axis_variance s) (m_axisVariance s)) &&
         negb (flt (rotation_ratio s1) RotationConditionMin) && negb (flt (translation_ratio s1) RotationConditionMin)).
Proof.
  intros Hlock Hstat Hthr Hn. unfold ComputeIncremental. cbv zeta. set (s1 := push RecordTimestamp s).
  destruct (Nat.ltb_spec (SampleCount s1) kMinSamples) as [Hlt|_]; [unfold SampleCount in *; cbn in Hlt; lia|].
  unfold lock_try. rewrite Hlock. cbn [negb]. set (s3 := push _ (push _ s1)).
  pose proof (prior_effect s3) as Hp. destruct (prior_error s3) as [prior s4]. destruct Hp as (Hc4 & Hd4 & Hprior).
  assert (prior = prior_of s) as -> by exact Hprior.
  unfold static_try. rewrite Hstat. cbn [negb].
  pose proof (solve_effect flags threshold ign (prior_of s) d_infinity aff_identity s4) as Hv.
  destruct (solve_tick flags threshold ign (prior_of s) d_infinity aff_identity s4) as [[[[[valid usingRel] newError] newVariance] cal] s6].
  destruct Hv as (Hc6 & _ & Hv). assert (core s4 = core s) as Hc by exact Hc4. assert (m_diag s4 = m_diag s) as Hd by exact Hd4.
  destruct (candidate_core flags ign s s4 Hc Hd) as [Hcand Hpass]. rewrite Hcand, Hpass in Hv.
  destruct usingRel. { destruct Hv as (_ & _ & _ & Hv). by rewrite infinity_never_less in Hv. }
  destruct Hv as (-> & -> & Hnew).
  assert (core s6 = core s) as Hcs by (by rewrite Hc6). destruct (core_fields _ _ Hcs) as (C1 & C2 & C3 & _).
  assert (forall b, b = candidate_passes flags ign threshold (prior_of s) s ->
    is_nan (buffer_error (compute_candidate flags ign s).1 (m_samples s)) = true ->
    b = negb (flt (axis_variance s) AxisVarianceThreshold && flt (axis_variance s) (m_axisVariance s)) &&
        negb (flt (rotation_ratio (compute_candidate flags ign s).2) RotationConditionMin) &&
        negb (flt (translation_ratio (compute_candidate flags ign s).2) RotationConditionMin)) as Hnan.
  { intros b -> Hx. unfold candidate_passes. destruct (compute_candidate flags ign s) as [c s7]. cbn [fst snd] in *.
    destruct (buffer_error c (m_samples s)) eqn:He; try done.
    unfold fgt. change (SFltb (rms_threshold (m_samples s)) S754_nan) with (flt (rms_threshold (m_samples s)) S754_nan).
    rewrite (flt_nan_r (rms_threshold (m_samples s)) S754_nan) by done. cbn [isfinite negb]. by rewrite andb_false_r, !andb_true_r. }
  destruct (candidate_passes flags ign threshold (prior_of s) s) eqn:Hok; specialize (Hnan _ eq_refl);
    destruct (compute_candidate flags ign s) as [c s7]; cbn [fst snd] in *.
  - split; [done|]. split; [|exact Hnan]. intros _.
    destruct (accept_effect flags false newError newVariance c s6) as (_ & _ & _ & _ & _ & _ & _ & A8 & A9).
    rewrite C1, C2 in A9. rewrite C1 in A8. destruct (m_isValid s); [by apply A9|apply A8; by left].
  - split; [done|]. split; [done|exact Hnan].
Qed.

(** *** Two-phase one-shot *)

Definition usable (l : list Sample) : list Sample := filter (fun x => usable_translations x = true) l.

Lemma push_all s l :
  let s' := calc_run s (OpPush <$> l) in
  m_samples s' = m_samples s ++ usable l /\ m_rotationFrozen s' = m_rotationFrozen s /\ m_diag s' = m_diag s /\
  m_isValid s' = m_isValid s /\ m_estimatedTransformation s' = m_estimatedTransformation s.
Proof.
  revert s. induction l as [|x l IH]; intros s; cbn [fmap list_fmap calc_run foldl].
  { unfold usable. cbn. by rewrite app_nil_r. }
  destruct (IH (PushSample x s)) as (I1 & I2 & I3 & I4 & I5). cbn [calc_step]. unfold calc_run in *.
  destruct (PushSample_effect x s) as (Hc & Hs & Hd). unfold core in Hc.
  injection Hc as C1 C2 C3 C4 C5 C6 C7 C8 C9 C10 C11 C12. rewrite I1, I2, I3, I4, I5, Hs, C1, C2, C12, Hd.
  split_and!; try done. unfold usable. rewrite list.filter_cons, <-app_assoc. by destruct (usable_translations x).
Qed.

(** C31: a two-phase one-shot calibration solves over the usable samples of the
    rotation phase followed by those of the translation phase, leaves the live
    buffer as it was, fails exactly with fewer than six of them or with no
    rotation at all, and otherwise puts the candidate in force whatever its
    error and whatever was in force. *)
Theorem two_phase_oneshot flags ign s rotationPhase translationPhase :
  let before := calc_run (Clear s) ((OpPush <$> rotationPhase) ++ OpFreeze :: (OpPush <$> translationPhase)) in
  let union := usable rotationPhase ++ usable translationPhase in
  let '(cal, d) := ComputeCalibration (fl_math flags) (fl_opts flags) ign union (m_diag (Clear s)) in
  let '(ok, s') := ComputeOneshot flags ign before in
  m_samples s' = usable translationPhase /\ m_rotationFrozen s' = usable rotationPhase /\
  ok = negb (length union <? kMinSamples)%nat && negb (feq (CalibSolve.m_rotationConditionRatio d) fzero) /\
  m_isValid s' = ok /\ m_estimatedTransformation s' = if ok then cal else aff_identity.
Proof.
  intros before union.
  assert (m_samples before = usable translationPhase /\ m_rotationFrozen before = usable rotationPhase /\
    m_diag before = m_diag (Clear s) /\ m_isValid before = false /\ m_estimatedTransformation before = aff_identity)
    as (B1 & B2 & B3 & B4 & B5).
  { unfold before, calc_run. rewrite foldl_app. cbn [foldl calc_step].
    destruct (push_all (Clear s) rotationPhase) as (I1 & I2 & I3 & I4 & I5). unfold calc_run in *.
    set (s1 := foldl calc_step (Clear s) (OpPush <$> rotationPhase)) in *. clearbody s1.
    destruct (push_all (FreezeRotationPhaseSamples s1) translationPhase) as (J1 & J2 & J3 & J4 & J5). unfold calc_run in *.
    set (s2 := foldl calc_step (FreezeRotationPhaseSamples s1) _) in *. clearbody s2.
    cbn in J1, J2, J3, J4, J5, I1, I2, I3, I4, I5. rewrite J1, J2, J3, J4, J5, I1, I3, I4, I5. by split_and!. }
  pose proof (oneshot_effect flags ign before) as Ho. cbv zeta in Ho.
  destruct (ComputeCalibration _ _ _ union _) as [cal d] eqn:Hcal.
  destruct (ComputeOneshot flags ign before) as [ok s'].
  destruct Ho as (O1 & O2 & _ & _ & _ & _ & _ & _ & O8 & O9). set (u := before <| m_samples ::= _ |>) in *.
  assert (m_samples u = union) as Hu by (cbn; by rewrite B1, B2).
  assert (compute_candidate flags ign u = (cal, u <| m_diag := d |>)) as Hcu.
  { unfold compute_candidate. rewrite Hu. change (m_diag u) with (m_diag before). by rewrite B3, Hcal. }
  rewrite Hcu in O8, O9. cbn [fst snd] in O8, O9. unfold SampleCount in O8. rewrite Hu in O8.
  rewrite O1, O2, B1, B2. split_and!; try done.
  - destruct ok; destruct O9 as [-> _]; done.
  - destruct ok; destruct O9 as [_ ->]; done.
Qed.
End Contract.

(** ** Witnesses *)

#[local] Existing Instance eigen_sample.
#[local] Existing Instance libm_sample.
#[local] Existing Instance solver_sample.

(** Two poses a quarter turn apart, both devices at one place. *)
Definition turned : Matrix3d := M3 fzero fzero d_one fzero d_one fzero (SFopp d_one) fzero fzero.
Definition pose_at (m : Matrix3d) : Pose := mkPose m (V3 d_one d_one fzero).
Definition sample_at (i : nat) : Sample :=
  let m := if Nat.even (i / 5) then m3_identity else turned in
  mkSmp (pose_at m) (pose_at m) true (d_of_Z (Z.of_nat i)) fzero fzero true.
Definition walk (n : nat) : list Sample := map sample_at (seq 0 n).
Definition plain_flags : Flags := mkFlags false false false (mkOpts false false) (mkMath false false).
Definition walked : Calc := calc_run calc_init (OpPush <$> walk 7).

Lemma incremental_accepts_iff_witness :
  (ComputeIncremental plain_flags false (d_lit 3 2) (d_lit 5 100) true walked).1.1 = true.
Proof.
  pose proof (incremental_accepts_iff plain_flags false (d_lit 3 2) (d_lit 5 100) true walked
    eq_refl eq_refl ltac:(vm_compute; reflexivity) ltac:(vm_compute; lia)) as Hi.
  assert (candidate_passes plain_flags true (d_lit 3 2) (prior_of walked) walked = true) as Hp by (vm_compute; reflexivity).
  destruct (ComputeIncremental plain_flags false (d_lit 3 2) (d_lit 5 100) true walked) as [[ok l] s'].
  destruct (compute_candidate plain_flags true walked) as [cal s1]. cbn [fst]. rewrite (proj1 Hi). exact Hp.
Defined.

(** A transform in force through five ticks. *)
Definition in_force : Calc := (ComputeOneshot plain_flags true walked).2.
Definition five_ticks : list calc_op := replicate 5 (OpIncremental plain_flags false (d_lit 3 2) (d_lit 5 100) true).

Lemma calibration_in_force_witness : m_isValid (calc_run in_force five_ticks) = true.
Proof.
  apply (proj2 (calibration_in_force in_force five_ticks ltac:(vm_compute; reflexivity)
    ltac:(vm_compute; split; congruence) ltac:(vm_compute; reflexivity))); vm_compute; done.
Defined.
