(* ===== verification/CalibScan.v ===== *)
(** * The profile scan (modules/calibration/src/overlay/Calibration.cpp)

    ScanAndApplyProfile and the caches in front of the driver: what every
    tracked device is told, the fallbacks of whole tracking systems, and the
    requests that are suppressed because the same one was sent before.  A send
    that fails throws: the scan is abandoned where it stands, as a value of the
    monad below; a request counts as sent once it was answered.  SteamVR's
    properties and the chaperone's bounds are read through [VR]; log lines are
    events. *)

From S2P Require Import Prelude Floats Shmem Isometry FallbackTable InputConfig PoseProvider Driver Detectors Filters CalibSolve.
From stdpp Require Import gmap.
Open Scope fl_scope.

(** ** State *)

Inductive DeviceClass := DeviceInvalid | DeviceHMD | DeviceController | DeviceTracker | DeviceReference | DeviceOther.
Inductive DeviceProperty := SerialNumber | TrackingSystemName | RenderModelName | ConnectedWirelessDongle | ModelNumber.

#[export] Instance DeviceClass_eqdec : EqDecision DeviceClass.
Proof. solve_decision. Defined.

(** A string property: whether the read succeeded, and the buffer after it. *)
Record VR := mkVR {
  GetTrackedDeviceClass : nat -> DeviceClass;
  GetString : nat -> DeviceProperty -> bool * list byte;
  eyeToHeadLeft : nat -> nat -> float;
  liveQuadCount : nat }.

(** [AdditionalCalibration], as far as the scan reads it. *)
Record Extra := mkExtra {
  x_enabled : bool; x_valid : bool; x_targetTrackingSystem : list byte;
  x_calibratedRotation : Vector3d; x_calibratedTranslation : Vector3d; x_calibratedScale : double }.

(** [CalibrationContext], as far as the scan reads or writes it. *)
Record Profile := mkProfile {
  c_state : CalibrationState; c_targetID : Z;
  c_calibratedRotation : Vector3d; c_calibratedTranslation : Vector3d; c_calibratedScale : double;
  c_referenceTrackingSystem : list byte; c_targetTrackingSystem : list byte;
  c_enabled : bool; c_validProfile : bool; c_quashTargetInContinuous : bool; c_recalibrateOnMovement : bool;
  c_alignmentSpeedParams : AlignmentSpeedParams; c_additional : list Extra;
  c_chaperoneValid : bool; c_chaperoneAutoApply : bool; c_chaperoneQuads : nat }.

#[export] Instance profile_settable : Settable Profile := fun c =>
  mkProfile (c_state c) (c_targetID c) (c_calibratedRotation c) (c_calibratedTranslation c) (c_calibratedScale c)
    (c_referenceTrackingSystem c) (c_targetTrackingSystem c) (c_enabled c) (c_validProfile c)
    (c_quashTargetInContinuous c) (c_recalibrateOnMovement c) (c_alignmentSpeedParams c) (c_additional c)
    (c_chaperoneValid c) (c_chaperoneAutoApply c) (c_chaperoneQuads c).

Record LastAppliedTransform := mkLA { la_valid : bool; la_payload : SetDeviceTransform_req }.
#[export] Instance la_settable : Settable LastAppliedTransform := fun c => mkLA (la_valid c) (la_payload c).

Record AdoptedTracker := mkAT { at_serial : list byte; at_model : list byte }.

Inductive scan_event :=
| AdoptedNew (t : AdoptedTracker)
| TrackerDisconnected (t : AdoptedTracker)
| ChaperoneApplied
| SnapConsumed.

(** The file-scope variables, with the requests the driver has answered and what
    was logged. *)
Record Overlay := mkOverlay {
  g_lastApplied : list LastAppliedTransform;
  g_lastSeenSerial : list (list byte);
  g_lastTargetSystem : list byte; g_lastEnabled : bool;
  g_lastAlignmentSpeed : AlignmentSpeedParams; g_alignmentSpeedSent : bool;
  g_lastFallback : SetTrackingSystemFallback_req; g_lastFallbackSent : bool;
  g_lastFallbacksBySystem : gmap (list byte) SetTrackingSystemFallback_req;
  g_snapNextProfileApply : bool;
  g_lastAdoptedTrackers : gmap nat AdoptedTracker;
  sent : list Request; events : list scan_event;
  ctx : Profile }.

#[export] Instance overlay_settable : Settable Overlay := fun o =>
  mkOverlay (g_lastApplied o) (g_lastSeenSerial o) (g_lastTargetSystem o) (g_lastEnabled o) (g_lastAlignmentSpeed o)
    (g_alignmentSpeedSent o) (g_lastFallback o) (g_lastFallbackSent o) (g_lastFallbacksBySystem o)
    (g_snapNextProfileApply o) (g_lastAdoptedTrackers o) (sent o) (events o) (ctx o).

(** ** Steps that may throw *)

Definition M (A : Type) : Type := Overlay -> option A * Overlay.

#[export] Instance M_ret : MRet M := fun A a o => (Some a, o).
#[export] Instance M_bind : MBind M := fun A B k m o =>
  match m o with
  | (Some a, o) => k a o
  | (None, o) => (None, o)
  end.
Definition gets {A} (f : Overlay -> A) : M A := fun o => (Some (f o), o).
Definition modify (f : Overlay -> Overlay) : M unit := fun o => (Some tt, f o).
Definition when (b : bool) (m : M unit) : M unit := if b then m else mret tt.

Fixpoint each {A} (f : A -> M unit) (l : list A) : M unit :=
  match l with
  | [] => mret tt
  | x :: l => f x ;; each f l
  end.

(** ** Payloads *)

Definition transform_default : SetDeviceTransform_req :=
  mkSDT 0 false false false false v_zero q_identity d_one false false (replicate MaxTrackingSystemNameLen x00) 0 false.
Definition fallback_default : SetTrackingSystemFallback_req :=
  mkSTF (replicate MaxTrackingSystemNameLen x00) false v_zero (Q4 fzero fzero fzero fzero) fzero 0 false.
Definition alignment_default : AlignmentSpeedParams :=
  mkASP fzero fzero fzero fzero fzero fzero fzero fzero fzero.

Definition overlay_init (c : Profile) : Overlay :=
  mkOverlay (replicate 64 (mkLA false transform_default)) (replicate 64 []) [] false alignment_default false
    fallback_default false ∅ false ∅ [] [] c.

(** A name copied into a zeroed [char[32]]: one byte is left for the NUL. *)
Definition system_field (system : list byte) : list byte :=
  padded (take (MaxTrackingSystemNameLen - 1) system).

Definition v_same (a b : Vector3d) : bool := feq (v_x a) (v_x b) && feq (v_y a) (v_y b) && feq (v_z a) (v_z b).
Definition q_same (a b : Quaterniond) : bool :=
  feq (q_w a) (q_w b) && feq (q_x a) (q_x b) && feq (q_y a) (q_y b) && feq (q_z a) (q_z b).

Definition TransformPayloadEqual (a b : SetDeviceTransform_req) : bool :=
  (sd_openVRID a =? sd_openVRID b)%Z && Bool.eqb (sd_enabled a) (sd_enabled b) &&
  Bool.eqb (sd_updateTranslation a) (sd_updateTranslation b) && Bool.eqb (sd_updateRotation a) (sd_updateRotation b) &&
  Bool.eqb (sd_updateScale a) (sd_updateScale b) && Bool.eqb (sd_lerp a) (sd_lerp b) &&
  Bool.eqb (sd_quash a) (sd_quash b) && (sd_predictionSmoothness a =? sd_predictionSmoothness b)%Z &&
  Bool.eqb (sd_recalibrateOnMovement a) (sd_recalibrateOnMovement b) && feq (sd_scale a) (sd_scale b) &&
  v_same (sd_translation a) (sd_translation b) && q_same (sd_rotation a) (sd_rotation b) &&
  bool_decide (sd_target_system a = sd_target_system b).

Definition FallbackPayloadEqual (a b : SetTrackingSystemFallback_req) : bool :=
  bool_decide (sf_system_name a = sf_system_name b) && Bool.eqb (sf_enabled a) (sf_enabled b) &&
  (sf_predictionSmoothness a =? sf_predictionSmoothness b)%Z &&
  Bool.eqb (sf_recalibrateOnMovement a) (sf_recalibrateOnMovement b) && feq (sf_scale a) (sf_scale b) &&
  v_same (sf_translation a) (sf_translation b) && q_same (sf_rotation a) (sf_rotation b).

(** The bytes of the two records. *)
Definition alignment_same (a b : AlignmentSpeedParams) : bool :=
  forallb (fun f => bool_decide (f a = f b))
    [thr_trans_tiny; thr_trans_small; thr_trans_large; thr_rot_tiny; thr_rot_small; thr_rot_large;
     align_speed_tiny; align_speed_small; align_speed_large].

Definition InvalidateTransformCacheForId (id : nat) (o : Overlay) : Overlay :=
  o <| g_lastApplied ::= alter (fun c => c <| la_valid := false |>) id |> <| g_lastSeenSerial ::= <[id := []]> |>.

Definition InvalidateAllTransformCaches (o : Overlay) : Overlay :=
  o <| g_lastApplied ::= fmap (fun c => c <| la_valid := false |>) |>
    <| g_lastSeenSerial ::= fmap (fun _ => []) |>
    <| g_alignmentSpeedSent := false |> <| g_lastFallbackSent := false |>.

Definition device_ids : list nat := seq 0 k_unMaxTrackedDeviceCount.

Section Scan.
Context `{Eigen} `{EigenSolver}.
(** Whether the [n]-th request of the session is answered. *)
Variable answered : nat -> bool.

Definition SendBlocking (r : Request) : M unit := fun o =>
  if answered (length (sent o)) then (Some tt, o <| sent ::= fun l => l ++ [r] |>) else (None, o).

Definition last_applied (id : nat) (o : Overlay) : LastAppliedTransform :=
  default (mkLA false transform_default) (g_lastApplied o !! id).
Definition last_serial (id : nat) (o : Overlay) : list byte := default [] (g_lastSeenSerial o !! id).

Definition SendDeviceTransformIfChanged (id : nat) (payload : SetDeviceTransform_req) : M unit :=
  cache ← gets (last_applied id);
  if la_valid cache && TransformPayloadEqual (la_payload cache) payload then mret tt else
  SendBlocking (RequestSetDeviceTransform payload) ;;
  modify (fun o => o <| g_lastApplied ::= <[id := mkLA true payload]> |>).

Definition VRTranslationVec (transcm : Vector3d) : Vector3d := v_scale transcm (d_lit 1 100).

Definition fallback_payload (system : list byte) (translationCm : Vector3d) (rot : Quaterniond) (k : double)
    (recal : bool) : SetTrackingSystemFallback_req :=
  mkSTF (system_field system) true (v_scale translationCm (d_lit 1 100)) rot k 0 recal.

Definition SendFallbackIfChanged (system : list byte) (payload : SetTrackingSystemFallback_req) : M unit :=
  known ← gets g_lastFallbacksBySystem;
  if match known !! system with Some p => FallbackPayloadEqual p payload | None => false end then mret tt else
  SendBlocking (RequestSetTrackingSystemFallback payload) ;;
  modify (fun o => o <| g_lastFallbacksBySystem ::= <[system := payload]> |>
                     <| g_lastFallback := payload |> <| g_lastFallbackSent := true |>).

(** The five-argument constructor of the request sets all three update flags. *)
Definition disable_payload (id : nat) (system : list byte) : SetDeviceTransform_req :=
  mkSDT (Z.of_nat id) false true true true v_zero q_identity d_one false false (system_field system) 0 false.

Definition ResetAndDisableOffsets (id : nat) (system : list byte) : M unit :=
  SendDeviceTransformIfChanged id (disable_payload id system).

(** ** One device *)

Definition isCrystalHmd (m : nat -> nat -> float) : bool :=
  let e (i j : nat) (v : float) := feq (m i j) v in
  e 0%nat 0%nat f_one && e 0%nat 1%nat fzero && e 0%nat 2%nat fzero &&
  e 1%nat 0%nat fzero && e 1%nat 1%nat f_one && e 1%nat 2%nat fzero && e 1%nat 3%nat fzero &&
  e 2%nat 0%nat fzero && e 2%nat 1%nat fzero && e 2%nat 2%nat f_one && e 2%nat 3%nat fzero.

(** The tracking system the headset, and any other device, counts for. *)
Definition hmd_system (vr : VR) (system : list byte) : list byte :=
  if bool_decide (system = str "aapvr") && isCrystalHmd (eyeToHeadLeft vr) then str "Pimax Crystal HMD" else system.

Definition device_system (vr : VR) (id : nat) (system : list byte) : list byte :=
  if bool_decide (GetTrackedDeviceClass vr id = DeviceController) && bool_decide (system = str "oculus") then
    let renderModel := cstr (GetString vr id RenderModelName).2 in
    let dongle := cstr (GetString vr id ConnectedWirelessDongle).2 in
    if contains (str "{aapvr}") renderModel && contains (str "crystal") renderModel && contains (str "lighthouse") dongle
    then str "Pimax Crystal Controllers" else system
  else system.

(** The serial as the scan reads it: empty when the read fails. *)
Definition serial_of (vr : VR) (id : nat) : list byte :=
  let '(ok, buf) := GetString vr id SerialNumber in if ok : bool then cstr buf else [].

(** A device id given to another device is disabled before anything else. *)
Definition check_serial (vr : VR) (id : nat) : M unit :=
  seen ← gets (last_serial id);
  let serial := serial_of vr id in
  if bool_decide (seen = serial) then mret tt else
  when (0 <? length seen)%nat
    (modify (fun o => o <| g_lastApplied ::= alter (fun c => c <| la_valid := false |>) id |>) ;;
     ResetAndDisableOffsets id []) ;;
  modify (fun o => o <| g_lastSeenSerial ::= <[id := serial]> |>).

Definition adopt_payload (c : Profile) (id : nat) : SetDeviceTransform_req :=
  mkSDT (Z.of_nat id) true true true true (VRTranslationVec (c_calibratedTranslation c))
    (VRRotationQuat (c_calibratedRotation c)) (c_calibratedScale c) false
    (bool_decide (c_state c = StContinuous) && (Z.of_nat id =? c_targetID c)%Z && c_quashTargetInContinuous c)
    (system_field (c_targetTrackingSystem c)) 0 (c_recalibrateOnMovement c).

Definition with_lerp (b : bool) (p : SetDeviceTransform_req) : SetDeviceTransform_req :=
  mkSDT (sd_openVRID p) (sd_enabled p) (sd_updateTranslation p) (sd_updateRotation p) (sd_updateScale p)
    (sd_translation p) (sd_rotation p) (sd_scale p) b (sd_quash p) (sd_target_system p)
    (sd_predictionSmoothness p) (sd_recalibrateOnMovement p).

Definition adopt (vr : VR) (snapThisCycle : bool) (id : nat) : M AdoptedTracker :=
  c ← gets ctx;
  cache ← gets (last_applied id);
  let isFreshlyAdopted := negb (la_valid cache) || negb (sd_enabled (la_payload cache)) in
  let lerp := MotionGate.ShouldBlendCycle (bool_decide (c_state c = StContinuous)) isFreshlyAdopted snapThisCycle in
  SendDeviceTransformIfChanged id (with_lerp lerp (adopt_payload c id)) ;;
  serial ← gets (last_serial id);
  let '(ok, model) := GetString vr id ModelNumber in
  mret (mkAT serial (if ok : bool then cstr model else [])).

Definition scan_device (vr : VR) (snapThisCycle : bool) (id : nat) : M (option AdoptedTracker) :=
  if bool_decide (GetTrackedDeviceClass vr id = DeviceInvalid) then
    modify (fun o => if (0 <? length (last_serial id o))%nat || la_valid (last_applied id o)
                     then InvalidateTransformCacheForId id o else o) ;;
    mret None
  else
    check_serial vr id ;;
    c ← gets ctx;
    if negb (c_enabled c) then ResetAndDisableOffsets id [] ;; mret None else
    let '(ok, buf) := GetString vr id TrackingSystemName in
    if negb ok then ResetAndDisableOffsets id [] ;; mret None
    else if (id =? 0)%nat then
      let trackingSystem := hmd_system vr (cstr buf) in
      when (negb (bool_decide (trackingSystem = c_referenceTrackingSystem c)))
        (modify (fun o => o <| ctx ::= fun c => c <| c_enabled := false |> |>)) ;;
      ResetAndDisableOffsets id trackingSystem ;; mret None
    else
      let trackingSystem := device_system vr id (cstr buf) in
      if negb (bool_decide (trackingSystem = c_targetTrackingSystem c))
      then ResetAndDisableOffsets id trackingSystem ;; mret None
      else t ← adopt vr snapThisCycle id; mret (Some t).

(** Every id in order, collecting the adopted devices. *)
Fixpoint scan_devices (vr : VR) (snapThisCycle : bool) (ids : list nat) (adopted : gmap nat AdoptedTracker)
    : M (gmap nat AdoptedTracker) :=
  match ids with
  | [] => mret adopted
  | id :: ids =>
    t ← scan_device vr snapThisCycle id;
    scan_devices vr snapThisCycle ids (match t with Some t => <[id := t]> adopted | None => adopted end)
  end.

(** ** The scan *)

(** The target system or the switch changed since the last scan. *)
Definition refresh_target : M unit :=
  o ← gets (fun o => o);
  let changed := negb (bool_decide (c_targetTrackingSystem (ctx o) = g_lastTargetSystem o)) in
  if changed || negb (Bool.eqb (c_enabled (ctx o)) (g_lastEnabled o)) then
    when (changed && (0 <? length (g_lastTargetSystem o))%nat && g_lastFallbackSent o && sf_enabled (g_lastFallback o))
      (SendBlocking (RequestSetTrackingSystemFallback
         (mkSTF (system_field (g_lastTargetSystem o)) false v_zero q_identity d_one 0 false))) ;;
    modify (fun o => (InvalidateAllTransformCaches o)
      <| g_lastTargetSystem := c_targetTrackingSystem (ctx o) |> <| g_lastEnabled := c_enabled (ctx o) |>)
  else mret tt.

Definition send_alignment : M unit :=
  o ← gets (fun o => o);
  let params := c_alignmentSpeedParams (ctx o) in
  if negb (g_alignmentSpeedSent o) || negb (alignment_same (g_lastAlignmentSpeed o) params) then
    SendBlocking (RequestSetAlignmentSpeedParams params) ;;
    modify (fun o => o <| g_lastAlignmentSpeed := params |> <| g_alignmentSpeedSent := true |>)
  else mret tt.

Definition primary_payload (c : Profile) : SetTrackingSystemFallback_req :=
  fallback_payload (c_targetTrackingSystem c) (c_calibratedTranslation c) (VRRotationQuat (c_calibratedRotation c))
    (c_calibratedScale c) (c_recalibrateOnMovement c).

Definition extra_payload (c : Profile) (x : Extra) : SetTrackingSystemFallback_req :=
  fallback_payload (x_targetTrackingSystem x) (x_calibratedTranslation x) (VRRotationQuat (x_calibratedRotation x))
    (x_calibratedScale x) (c_recalibrateOnMovement c).

Definition extra_applies (c : Profile) (x : Extra) : bool :=
  x_enabled x && x_valid x && (0 <? length (x_targetTrackingSystem x))%nat &&
  negb (bool_decide (x_targetTrackingSystem x = c_targetTrackingSystem c)).

Definition send_fallbacks : M unit :=
  c ← gets ctx;
  when (c_enabled c && (0 <? length (c_targetTrackingSystem c))%nat)
    (SendFallbackIfChanged (c_targetTrackingSystem c) (primary_payload c)) ;;
  each (fun x => if extra_applies c x
                 then SendFallbackIfChanged (x_targetTrackingSystem x) (extra_payload c x) else mret tt) (c_additional c).

Definition log (e : scan_event) (o : Overlay) : Overlay := o <| events ::= fun l => l ++ [e] |>.

(** The entries in the order of [std::map]. *)
Definition by_id (m : gmap nat AdoptedTracker) : list (nat * AdoptedTracker) :=
  omap (fun id => pair id <$> m !! id) (seq 0 k_unMaxTrackedDeviceCount).

Definition log_adopted (current : gmap nat AdoptedTracker) (o : Overlay) : Overlay :=
  let last := g_lastAdoptedTrackers o in
  if c_enabled (ctx o) then
    let o := foldl (fun o '(id, t) => if last !! id is Some _ then o else log (AdoptedNew t) o) o (by_id current) in
    foldl (fun o '(id, t) => if current !! id is Some _ then o else log (TrackerDisconnected t) o) o (by_id last)
  else o.

Definition apply_chaperone (vr : VR) (o : Overlay) : Overlay :=
  let c := ctx o in
  if c_enabled c && c_chaperoneValid c && c_chaperoneAutoApply c && negb (liveQuadCount vr =? c_chaperoneQuads c)%nat
  then log ChaperoneApplied o else o.

Definition ScanAndApplyProfile (vr : VR) : M unit :=
  modify (fun o => o <| ctx ::= fun c => c <| c_enabled := c_validProfile c |> |>) ;;
  snapThisCycle ← gets g_snapNextProfileApply;
  refresh_target ;;
  send_alignment ;;
  send_fallbacks ;;
  current ← scan_devices vr snapThisCycle device_ids ∅;
  modify (fun o => (log_adopted current o) <| g_lastAdoptedTrackers := current |>) ;;
  modify (apply_chaperone vr) ;;
  modify (fun o => if snapThisCycle : bool then log SnapConsumed (o <| g_snapNextProfileApply := false |>) else o).
End Scan.

(** ** What the driver has been told *)

(** The last request the driver answered about a device, and about a system. *)
Definition last_transform (id : nat) (l : list Request) : option SetDeviceTransform_req :=
  foldl (fun acc r => match r with
                      | RequestSetDeviceTransform p => if (sd_openVRID p =? Z.of_nat id)%Z then Some p else acc
                      | _ => acc
                      end) None l.
Definition last_fallback (field : list byte) (l : list Request) : option SetTrackingSystemFallback_req :=
  foldl (fun acc r => match r with
                      | RequestSetTrackingSystemFallback p => if bool_decide (sf_system_name p = field) then Some p else acc
                      | _ => acc
                      end) None l.

#[global] Arguments last_transform : simpl never.
#[global] Arguments last_fallback : simpl never.

Lemma last_transform_snoc id l r :
  last_transform id (l ++ [r]) =
  match r with
  | RequestSetDeviceTransform p => if (sd_openVRID p =? Z.of_nat id)%Z then Some p else last_transform id l
  | _ => last_transform id l
  end.
Proof. unfold last_transform. rewrite foldl_app. cbn [foldl]. by destruct r. Qed.

(** The handlers of the driver behind the three requests. *)
Definition driver_request (now : Z) (s : Provider) (r : Request) : Provider :=
  match r with
  | RequestSetDeviceTransform p => SetDeviceTransform p now s
  | RequestSetTrackingSystemFallback p => SetTrackingSystemFallback p (fun _ => now) s
  | RequestSetAlignmentSpeedParams p => HandleSetAlignmentSpeedParams p s
  | _ => s
  end.
Definition drive (l : list (Request * Z)) (s : Provider) : Provider :=
  foldl (fun s '(r, now) => driver_request now s r) s l.

(** What the driver keeps of the last request about an entry of its table. *)
Definition follows (p : SetDeviceTransform_req) (tf : DeviceTransform) : Prop :=
  enabled tf = sd_enabled p /\ quash tf = sd_quash p /\ recalibrateOnMovement tf = sd_recalibrateOnMovement p /\
  (sd_updateScale p = true -> scale tf = sd_scale p) /\
  (sd_enabled p = true -> sd_updateRotation p = true -> sd_updateTranslation p = true ->
   targetTransform tf = mkIso (sd_rotation p) (sd_translation p)).

Lemma drop_followers_idle name now systems tfs :
  Forall (fun tf => fallbackActive tf = false) tfs -> drop_followers name now systems tfs = tfs.
Proof.
  unfold drop_followers. intros Hf. apply list_eq. intros i. rewrite list_lookup_imap.
  destruct (tfs !! i) as [tf|] eqn:Htf; [|done]. cbn. rewrite list.Forall_forall in Hf.
  rewrite (Hf tf) by (by eapply list_elem_of_lookup_2). done.
Qed.

Lemma fallback_keeps_transforms req now s :
  Forall (fun tf => fallbackActive tf = false) (transforms s) ->
  transforms (SetTrackingSystemFallback req now s) = transforms s.
Proof.
  intros Hf. unfold SetTrackingSystemFallback, set_fallback. cbv zeta. case_match; [done|].
  destruct (sf_enabled req); cbn [negb].
  - by destruct (AcquireFallbackSlot _ _ _) as [[[i|] l]|].
  - destruct (FindFallbackSlot _ _) as [[i|]|]; [exact (drop_followers_idle _ _ _ _ Hf)..|done].
Qed.

Definition request_ok (r : Request) : Prop :=
  match r with RequestSetDeviceTransform p => (0 <= sd_openVRID p)%Z | _ => True end.

Lemma device_index_range z i : (0 <= z)%Z -> device_index z = Some i -> z = Z.of_nat i.
Proof. intros Hz Hi. destruct (device_index_Some _ _ Hi) as [-> _]. lia. Qed.

(** Between requests only, with no pose in between. *)
Lemma drive_follows l s :
  length (transforms s) = 64 -> Forall (fun tf => fallbackActive tf = false) (transforms s) ->
  Forall request_ok l.*1 ->
  length (transforms (drive l s)) = 64 /\ Forall (fun tf => fallbackActive tf = false) (transforms (drive l s)) /\
  forall id p, id < 64 -> last_transform id l.*1 = Some p ->
    exists tf, transforms (drive l s) !! id = Some tf /\ follows p tf.
Proof.
  intros Hlen Hact. induction l as [|[r now] l IH] using rev_ind; [intros _; split_and!; done|].
  rewrite fmap_app, list.Forall_app. cbn [fmap list_fmap fst]. intros [Hl Hr%list.Forall_cons]. destruct Hr as [Hr _].
  destruct (IH Hl) as (Il & Ia & If). unfold drive in *. rewrite foldl_app. cbn [foldl].
  set (s1 := foldl _ s l) in *. clearbody s1.
  assert (transforms (driver_request now s1 r) = transforms s1 ->
    (forall id, id < 64 -> last_transform id (l.*1 ++ [r]) = last_transform id l.*1) ->
    length (transforms (driver_request now s1 r)) = 64 /\
    Forall (fun tf => fallbackActive tf = false) (transforms (driver_request now s1 r)) /\
    forall id p, id < 64 -> last_transform id (l.*1 ++ [r]) = Some p ->
      exists tf, transforms (driver_request now s1 r) !! id = Some tf /\ follows p tf) as Hskip.
  { intros -> Hlast. split_and!; [done|done|]. intros id p Hid. rewrite Hlast by done. by apply If. }
  destruct r as [| |q|asp| |q| | | | | | | | | | | | | ];
    try (apply Hskip; [done|intros id _; by rewrite last_transform_snoc]).
  - cbn [request_ok] in Hr. cbn [driver_request] in *. unfold SetDeviceTransform in *.
    destruct (device_index (sd_openVRID q)) as [i|] eqn:Hi.
    + pose proof (device_index_range _ _ Hr Hi) as Hq. clear Hskip. cbn. rewrite length_alter. split_and!; [done| |].
      * apply Forall_alter; [done|]. intros tf _ _. by destruct (set_transform_spec q now tf) as (_ & -> & _).
      * intros id p Hid. rewrite last_transform_snoc, Hq. destruct (Z.eqb_spec (Z.of_nat i) (Z.of_nat id)) as [He|He].
        -- intros [= <-]. apply Nat2Z.inj in He as ->. rewrite list_lookup_alter_eq.
           destruct (lookup_64 (transforms s1) id Il Hid) as [tf Htf]. rewrite Htf. eexists. split; [done|].
           destruct (set_transform_spec q now tf) as (S1 & _ & _ & _ & S5 & S6 & S7 & S8 & _).
           unfold follows. rewrite S1, S5, S6, S7. split_and!; try done; [by intros ->|].
           intros He1 Hrot Ht. rewrite S8 by (by left). by rewrite Hrot, Ht.
        -- intros Hp. destruct (If id p Hid Hp) as (tf & Htf & Hfol). exists tf. split; [|done].
           rewrite list_lookup_alter_ne; [done|]. lia.
    + apply Hskip; [done|]. intros id Hid. rewrite last_transform_snoc.
      destruct (Z.eqb_spec (sd_openVRID q) (Z.of_nat id)) as [He|He]; [|done]. exfalso.
      unfold device_index in Hi. rewrite He in Hi. destruct (Z.leb_spec (Z.of_nat k_unMaxTrackedDeviceCount) (Z.of_nat id)) as [Hle|]; [|done].
      change (Z.of_nat k_unMaxTrackedDeviceCount) with 64%Z in Hle. lia.
  - apply Hskip; [by apply fallback_keeps_transforms|]. intros id _. by rewrite last_transform_snoc.
Qed.

(** ** The caches and the driver agree *)

Record coherent (o : Overlay) : Prop := {
  coh_applied : length (g_lastApplied o) = 64;
  coh_serials : length (g_lastSeenSerial o) = 64;
  coh_sent : Forall request_ok (sent o);
  coh_last id c : g_lastApplied o !! id = Some c -> la_valid c = true ->
    last_transform id (sent o) = Some (la_payload c) }.

Definition transform_same (p q : SetDeviceTransform_req) : Prop := p = q \/ TransformPayloadEqual p q = true.

(** What handling one device leaves alone. *)
Definition others (o : Overlay) :=
  (g_lastTargetSystem o, g_lastEnabled o, g_lastAlignmentSpeed o, g_alignmentSpeedSent o, g_lastFallback o,
   g_lastFallbackSent o, g_lastFallbacksBySystem o, g_snapNextProfileApply o).

Record untouched (P : nat -> Prop) (o o' : Overlay) : Prop := {
  un_others : others o' = others o;
  un_applied j : ~ P j -> g_lastApplied o' !! j = g_lastApplied o !! j;
  un_serial j : ~ P j -> g_lastSeenSerial o' !! j = g_lastSeenSerial o !! j;
  un_last j : ~ P j -> last_transform j (sent o') = last_transform j (sent o);
  un_fallback f : last_fallback f (sent o') = last_fallback f (sent o) }.

Lemma untouched_refl P o : untouched P o o.
Proof. by constructor. Qed.

Lemma untouched_trans P o1 o2 o3 : untouched P o1 o2 -> untouched P o2 o3 -> untouched P o1 o3.
Proof.
  intros [A1 A2 A3 A4 A5] [B1 B2 B3 B4 B5]. constructor.
  - by rewrite B1.
  - intros j Hj. by rewrite B2, A2.
  - intros j Hj. by rewrite B3, A3.
  - intros j Hj. by rewrite B4, A4.
  - intros f. by rewrite B5, A5.
Qed.

Lemma untouched_mono (P Q : nat -> Prop) o o' : (forall j, P j -> Q j) -> untouched P o o' -> untouched Q o o'.
Proof. intros HPQ [A1 A2 A3 A4 A5]. constructor; auto. Qed.

Lemma last_fallback_snoc f l r :
  last_fallback f (l ++ [r]) =
  match r with
  | RequestSetTrackingSystemFallback p => if bool_decide (sf_system_name p = f) then Some p else last_fallback f l
  | _ => last_fallback f l
  end.
Proof. unfold last_fallback. rewrite foldl_app. cbn [foldl]. by destruct r. Qed.

#[export] Hint Resolve untouched_refl : wk.

Section Coherence.
Context `{Eigen} `{EigenSolver}.
Variable answered : nat -> bool.

(** A step on one device: the caches stay true, whether it throws or not. *)
Definition one_device (id : nat) (o : Overlay) (o' : Overlay) : Prop :=
  coherent o' /\ untouched (eq id) o o' /\ ctx o' = ctx o.

Lemma send_device id p o :
  id < 64 -> coherent o -> sd_openVRID p = Z.of_nat id ->
  let '(r, o') := SendDeviceTransformIfChanged answered id p o in
  one_device id o o' /\ g_lastSeenSerial o' = g_lastSeenSerial o /\
  (is_Some r -> exists q, g_lastApplied o' !! id = Some (mkLA true q) /\ transform_same q p).
Proof.
  intros Hid Hc Hp. unfold SendDeviceTransformIfChanged, mbind, M_bind, gets.
  destruct (lookup_64 (g_lastApplied o) id (coh_applied o Hc) Hid) as [c Hlook].
  assert (last_applied id o = c) as -> by (unfold last_applied; by rewrite Hlook).
  destruct (la_valid c && TransformPayloadEqual (la_payload c) p) eqn:Hsame.
  - apply andb_true_iff in Hsame as [Hv He]. split; [by split_and!; auto with wk|]. split; [done|]. intros _.
    exists (la_payload c). split; [|by right]. rewrite Hlook. by destruct c; cbn in Hv |- *; subst.
  - unfold SendBlocking. destruct (answered _); cbn; [|split; [by split_and!; auto with wk|split; [done|by intros [? ?]]]].
    split; [split_and!; [| |done]|split; [done|]].
    + destruct Hc as [C1 C2 C3 C4]. constructor; cbn.
      * by rewrite length_insert.
      * done.
      * apply list.Forall_app. split; [done|]. apply list.Forall_cons. split; [cbn; lia|done].
      * intros j c' Hj Hv. rewrite last_transform_snoc, Hp. destruct (decide (j = id)) as [->|Hne].
        -- rewrite list_lookup_insert_eq in Hj by lia. injection Hj as <-. by rewrite Z.eqb_refl.
        -- rewrite list_lookup_insert_ne in Hj by done. destruct (Z.eqb_spec (Z.of_nat id) (Z.of_nat j)); [lia|]. by apply C4.
    + constructor; cbn; try done.
      * intros j Hj. by rewrite list_lookup_insert_ne.
      * intros j Hj. rewrite last_transform_snoc, Hp. destruct (Z.eqb_spec (Z.of_nat id) (Z.of_nat j)); [lia|done].
      * intros f. by rewrite last_fallback_snoc.
    + intros _. exists p. split; [|by left]. apply list_lookup_insert_eq. rewrite (coh_applied o Hc). done.
Qed.

Lemma invalidate_one id o : coherent o ->
  coherent (o <| g_lastApplied ::= alter (fun c => c <| la_valid := false |>) id |>).
Proof.
  intros [C1 C2 C3 C4]. constructor; cbn; [by rewrite length_alter|done|done|].
  intros j c Hj Hv. destruct (decide (j = id)) as [->|Hne].
  - rewrite list_lookup_alter_eq in Hj. destruct (g_lastApplied o !! id); [|done]. injection Hj as <-. done.
  - rewrite list_lookup_alter_ne in Hj by done. by apply C4.
Qed.

Lemma set_serial id x o : coherent o -> coherent (o <| g_lastSeenSerial ::= <[id := x]> |>).
Proof. intros [C1 C2 C3 C4]. constructor; cbn; [done|by rewrite length_insert|done|done]. Qed.

Lemma check_serial_spec vr id o :
  id < 64 -> coherent o ->
  let '(r, o') := check_serial answered vr id o in
  one_device id o o' /\ (is_Some r -> g_lastSeenSerial o' !! id = Some (serial_of vr id)).
Proof.
  intros Hid Hc. unfold check_serial, mbind, M_bind, gets.
  destruct (lookup_64 (g_lastSeenSerial o) id (coh_serials o Hc) Hid) as [s Hlook].
  assert (last_serial id o = s) as -> by (unfold last_serial; by rewrite Hlook).
  case_bool_decide as He; [subst s; by split_and!; auto with wk|].
  unfold when. destruct (0 <? length s)%nat.
  - cbn [modify]. unfold ResetAndDisableOffsets.
    set (o1 := o <| g_lastApplied ::= _ |>).
    assert (coherent o1) as Hc1 by by apply invalidate_one.
    pose proof (send_device id (disable_payload id []) o1 Hid Hc1 eq_refl) as Hs.
    assert (untouched (eq id) o o1) as Hu.
    { constructor; try done. intros j Hj. cbn. by rewrite list_lookup_alter_ne. }
    destruct (SendDeviceTransformIfChanged answered id (disable_payload id []) o1) as [[u|] o2];
      destruct Hs as ((D1 & D2 & D3) & D4 & _).
    + cbn. split; [|intros _; apply list_lookup_insert_eq; rewrite D4; cbn; by rewrite (coh_serials o Hc)].
      split_and!; [by apply set_serial| |by rewrite D3]. eapply untouched_trans; [exact Hu|].
      eapply untouched_trans; [exact D2|]. constructor; try done. intros j Hj. cbn. by rewrite list_lookup_insert_ne.
    + split; [|by intros [? ?]]. split_and!; [done|by eapply untouched_trans|by rewrite D3].
  - cbn. split; [|intros _; apply list_lookup_insert_eq; by rewrite (coh_serials o Hc)].
    split_and!; [by apply set_serial| |done]. constructor; try done. intros j Hj. cbn. by rewrite list_lookup_insert_ne.
Qed.

(** What the scan means for a device, up to the blend flag. *)
Definition wanted (vr : VR) (c : Profile) (id : nat) : SetDeviceTransform_req :=
  if negb (c_enabled c) then disable_payload id [] else
  let '(ok, buf) := GetString vr id TrackingSystemName in
  if negb ok then disable_payload id []
  else if (id =? 0)%nat then disable_payload id (hmd_system vr (cstr buf))
  else if bool_decide (device_system vr id (cstr buf) = c_targetTrackingSystem c) then adopt_payload c id
  else disable_payload id (device_system vr id (cstr buf)).

(** The profile once the headset was seen: switched off under one of another
    tracking system than the calibration's. *)
Definition hmd_fits (vr : VR) (c : Profile) : bool :=
  bool_decide (GetTrackedDeviceClass vr 0 = DeviceInvalid) || negb (c_enabled c) ||
  let '(ok, buf) := GetString vr 0 TrackingSystemName in
  negb ok || bool_decide (hmd_system vr (cstr buf) = c_referenceTrackingSystem c).
Definition after_hmd (vr : VR) (c : Profile) : Profile :=
  if hmd_fits vr c then c else c <| c_enabled := false |>.

(** The device was handled: nothing is known of an absent one, and a present one
    was last told what is wanted of it. *)
Definition settled (vr : VR) (snap : bool) (c : Profile) (id : nat) (o : Overlay) : Prop :=
  if bool_decide (GetTrackedDeviceClass vr id = DeviceInvalid)
  then last_serial id o = [] /\ la_valid (last_applied id o) = false
  else g_lastSeenSerial o !! id = Some (serial_of vr id) /\
    exists q lerp, g_lastApplied o !! id = Some (mkLA true q) /\
      transform_same q (with_lerp lerp (wanted vr c id)) /\
      (lerp = true -> c_state c = StContinuous /\ snap = false).

Lemma with_lerp_id p : with_lerp (sd_lerp p) p = p.
Proof. by destruct p. Qed.

Lemma told_settled vr snap c id o q p :
  GetTrackedDeviceClass vr id <> DeviceInvalid -> g_lastSeenSerial o !! id = Some (serial_of vr id) ->
  g_lastApplied o !! id = Some (mkLA true q) -> transform_same q p -> wanted vr c id = p -> sd_lerp p = false ->
  settled vr snap c id o.
Proof.
  intros Hcl Hser Hla Hs Hw Hl. unfold settled. rewrite bool_decide_false by done. split; [done|].
  exists q, false. split; [done|]. split; [|done]. rewrite Hw, <-Hl, with_lerp_id. done.
Qed.

Lemma invalidate_absent vr snap c id o :
  id < 64 -> coherent o -> GetTrackedDeviceClass vr id = DeviceInvalid ->
  let o' := if (0 <? length (last_serial id o))%nat || la_valid (last_applied id o)
            then InvalidateTransformCacheForId id o else o in
  one_device id o o' /\ settled vr snap c id o'.
Proof.
  intros Hid Hc Hcl. unfold settled. rewrite bool_decide_true by done. destruct (_ || _) eqn:Hb.
  - split; [split_and!|split].
    + apply (set_serial id []), invalidate_one, Hc.
    + constructor; try done; intros j Hj; cbn; [by rewrite list_lookup_alter_ne|by rewrite list_lookup_insert_ne].
    + done.
    + unfold last_serial, InvalidateTransformCacheForId. cbn.
      rewrite list_lookup_insert_eq by (by rewrite (coh_serials o Hc)). done.
    + unfold last_applied, InvalidateTransformCacheForId. cbn. rewrite list_lookup_alter_eq.
      by destruct (g_lastApplied o !! id).
  - apply orb_false_iff in Hb as [H1 H2]. split; [by split_and!; auto with wk|]. split; [|done].
    destruct (last_serial id o); [done|discriminate H1].
Qed.

(** The outcome of a step that ends by telling the device [p]. *)
Lemma reset_settled vr snap c c' id o p :
  id < 64 -> coherent o -> ctx o = c' -> GetTrackedDeviceClass vr id <> DeviceInvalid ->
  g_lastSeenSerial o !! id = Some (serial_of vr id) -> sd_openVRID p = Z.of_nat id -> sd_lerp p = false ->
  wanted vr c id = p ->
  let '(r, o') := SendDeviceTransformIfChanged answered id p o in
  coherent o' /\ untouched (eq id) o o' /\ ctx o' = c' /\ (is_Some r -> settled vr snap c id o').
Proof.
  intros Hid Hc Hx Hcl Hser Hp Hl Hw. pose proof (send_device id p o Hid Hc Hp) as Hs.
  destruct (SendDeviceTransformIfChanged answered id p o) as [r o']. destruct Hs as ((S1 & S2 & S3) & S4 & S5).
  split_and!; [done|done|congruence|]. intros Hr. destruct (S5 Hr) as (q & Hq & Hqp).
  apply (told_settled vr snap c id o' q p); try done. by rewrite S4.
Qed.

Definition ctx_at (vr : VR) (c : Profile) (id : nat) : Profile := if (id =? 0)%nat then after_hmd vr c else c.

Lemma scan_device_spec vr snap id o :
  id < 64 -> coherent o ->
  let '(r, o') := scan_device answered vr snap id o in
  coherent o' /\ untouched (eq id) o o' /\
  (ctx o' = ctx o \/ ctx o' = ctx_at vr (ctx o) id) /\
  (is_Some r -> ctx o' = ctx_at vr (ctx o) id /\ settled vr snap (ctx o) id o').
Proof.
  intros Hid Hc. unfold scan_device. case_bool_decide as Hcl.
  { pose proof (invalidate_absent vr snap (ctx o) id o Hid Hc Hcl) as [(I1 & I2 & I3) I4].
    unfold mbind, M_bind, modify, mret, M_ret. split_and!; [done|done|by left|]. intros _. split; [|done].
    rewrite I3. unfold ctx_at, after_hmd, hmd_fits. destruct (Nat.eqb_spec id 0) as [->|]; [|done].
    by rewrite bool_decide_true. }
  unfold mbind, M_bind, gets, mret, M_ret.
  pose proof (check_serial_spec vr id o Hid Hc) as Hcs. destruct (check_serial answered vr id o) as [[[]|] o1];
    destruct Hcs as ((K1 & K2 & K3) & K4); [|split_and!; [done|done|by left|by intros [? ?]]].
  specialize (K4 ltac:(eauto)).
  assert (forall p, sd_openVRID p = Z.of_nat id -> sd_lerp p = false -> wanted vr (ctx o) id = p ->
    ctx_at vr (ctx o) id = ctx o ->
    let '(r, o') := match SendDeviceTransformIfChanged answered id p o1 with
                    | (Some _, o) => (Some None, o) | (None, o) => (@None (option AdoptedTracker), o) end in
    coherent o' /\ untouched (eq id) o o' /\ (ctx o' = ctx o \/ ctx o' = ctx_at vr (ctx o) id) /\
    (is_Some r -> ctx o' = ctx_at vr (ctx o) id /\ settled vr snap (ctx o) id o')) as Hreset.
  { intros p Hp Hl Hw Hat. pose proof (reset_settled vr snap (ctx o) (ctx o) id o1 p Hid K1 K3 Hcl K4 Hp Hl Hw) as Hr.
    destruct (SendDeviceTransformIfChanged answered id p o1) as [[u|] o2]; destruct Hr as (R1 & R2 & R3 & R4);
      (split_and!; [done|by eapply untouched_trans|by left|]).
    - intros _. rewrite Hat. split; [done|]. apply R4. eauto.
    - by intros [? ?]. }
  rewrite K3. unfold wanted in Hreset.
  destruct (c_enabled (ctx o)) eqn:Hen; cbn [negb] in *.
  2:{ apply Hreset; try done. unfold ctx_at, after_hmd, hmd_fits. destruct (id =? 0)%nat; [|done].
      rewrite Hen, orb_true_r. done. }
  destruct (GetString vr id TrackingSystemName) as [ok buf] eqn:Hbuf.
  destruct ok; cbn [negb] in *.
  2:{ apply Hreset; try done. unfold ctx_at, after_hmd, hmd_fits. destruct (Nat.eqb_spec id 0) as [->|]; [|done].
      rewrite Hbuf. cbn. by rewrite orb_true_r. }
  destruct (Nat.eqb_spec id 0) as [->|Hne].
  - set (o2 := if negb (bool_decide (hmd_system vr (cstr buf) = c_referenceTrackingSystem (ctx o)))
               then o1 <| ctx ::= fun c => c <| c_enabled := false |> |> else o1).
    assert (coherent o2 /\ untouched (eq 0) o o2 /\ ctx o2 = ctx_at vr (ctx o) 0 /\
            g_lastSeenSerial o2 !! 0 = Some (serial_of vr 0)) as (Q1 & Q2 & Q3 & Q4).
    { unfold ctx_at, after_hmd, hmd_fits. rewrite Hbuf, Hen, (bool_decide_false _ Hcl). unfold o2. cbn [negb orb Nat.eqb].
      case_bool_decide; cbn [negb]; [done|]. split_and!; [by destruct K1| |cbn; by rewrite K3|done].
      eapply untouched_trans; [exact K2|]. by constructor. }
    assert (forall r, when (negb (bool_decide (hmd_system vr (cstr buf) = c_referenceTrackingSystem (ctx o))))
      (modify (fun o => o <| ctx ::= fun c => c <| c_enabled := false |> |>)) o1 = r -> r = (Some tt, o2)) as Hwhen.
    { intros r <-. unfold o2, when. by case_bool_decide. }
    rewrite (Hwhen _ eq_refl). clear Hwhen.
    pose proof (reset_settled vr snap (ctx o) (ctx_at vr (ctx o) 0) 0 o2 (disable_payload 0 (hmd_system vr (cstr buf))) ltac:(lia) Q1 Q3 Hcl Q4
      eq_refl eq_refl) as Hr.
    unfold wanted in Hr. rewrite Hen, Hbuf in Hr. specialize (Hr eq_refl). unfold ResetAndDisableOffsets.
    destruct (SendDeviceTransformIfChanged answered 0 _ o2) as [[u|] o3]; destruct Hr as (R1 & R2 & R3 & R4);
      (split_and!; [done|by eapply untouched_trans|by right|]).
    + intros _. split; [done|]. apply R4. eauto.
    + by intros [? ?].
  - case_bool_decide as Hsys; cbn [negb].
    + unfold adopt, mbind, M_bind, gets. rewrite K3. set (lerp := MotionGate.ShouldBlendCycle _ _ _).
      pose proof (send_device id (with_lerp lerp (adopt_payload (ctx o) id)) o1 Hid K1 eq_refl) as Hs.
      assert (ctx_at vr (ctx o) id = ctx o) as Hat by (unfold ctx_at; by destruct (Nat.eqb_spec id 0)). rewrite Hat.
      destruct (SendDeviceTransformIfChanged answered id _ o1) as [[u|] o2]; destruct Hs as ((S1 & S2 & S3) & S4 & S5).
      * destruct (GetString vr id ModelNumber) as [mok model]. cbn [mret M_ret].
        split_and!; [done|by eapply untouched_trans|left; by rewrite S3|]. intros _. split; [by rewrite S3|].
        unfold settled. rewrite bool_decide_false by done. rewrite S4. split; [done|].
        destruct (S5 ltac:(eauto)) as (q & Hq & Hqp). exists q, lerp. split; [done|]. split.
        { unfold wanted. rewrite Hen, Hbuf. cbn [negb]. rewrite (proj2 (Nat.eqb_neq id 0) Hne), (bool_decide_true _ Hsys). done. }
        unfold lerp, MotionGate.ShouldBlendCycle. intros Hl. bool_prop. split; [by eapply bool_decide_eq_true_1|done].
      * split_and!; [done|by eapply untouched_trans|left; by rewrite S3|by intros [? ?]].
    + apply Hreset; try done. unfold ctx_at. by destruct (Nat.eqb_spec id 0).
Qed.

Lemma settled_untouched (P : nat -> Prop) vr snap c id o o' :
  untouched P o o' -> ~ P id -> settled vr snap c id o -> settled vr snap c id o'.
Proof.
  intros Hu Hn. unfold settled, last_serial, last_applied.
  by rewrite (un_serial _ _ _ Hu id Hn), (un_applied _ _ _ Hu id Hn).
Qed.

Lemma scan_rest vr snap ids m o :
  Forall (fun id => 0 < id < 64) ids -> NoDup ids -> coherent o ->
  let '(r, o') := scan_devices answered vr snap ids m o in
  coherent o' /\ untouched (fun j => j ∈ ids) o o' /\ ctx o' = ctx o /\
  (is_Some r -> forall id, id ∈ ids -> settled vr snap (ctx o) id o').
Proof.
  revert m o. induction ids as [|id ids IH]; intros m o Hids Hnd Hc; cbn [scan_devices].
  { unfold mret, M_ret. split_and!; auto with wk. intros _ id Hin. by apply not_elem_of_nil in Hin. }
  apply list.Forall_cons in Hids as [Hid Hids]. apply list.NoDup_cons in Hnd as [Hnin Hnd].
  unfold mbind, M_bind. pose proof (scan_device_spec vr snap id o ltac:(lia) Hc) as Hs.
  destruct (scan_device answered vr snap id o) as [[t|] o1]; destruct Hs as (S1 & S2 & S3 & S4).
  - assert (ctx_at vr (ctx o) id = ctx o) as Hat by (unfold ctx_at; destruct (Nat.eqb_spec id 0); [lia|done]).
    rewrite Hat in *. destruct (S4 ltac:(eauto)) as [Hx Hset].
    specialize (IH (match t with Some t0 => <[id:=t0]> m | None => m end) o1 Hids Hnd S1).
    destruct (scan_devices answered vr snap ids _ o1) as [r o2]. destruct IH as (I1 & I2 & I3 & I4).
    split_and!; [done| |congruence|].
    + eapply untouched_trans; eapply untouched_mono; [| exact S2| |exact I2]; set_solver.
    + intros Hr j Hj. apply list.elem_of_cons in Hj as [->|Hj].
      * by apply (settled_untouched _ _ _ _ _ _ _ I2 Hnin).
      * rewrite <-Hx. by apply I4.
  - split_and!; [done|eapply untouched_mono; [|exact S2]; set_solver| |by intros [? ?]].
    destruct S3 as [S3 | S3]; rewrite S3; [done|]. unfold ctx_at. destruct (Nat.eqb_spec id 0); [lia|done].
Qed.

Definition ctx_for (vr : VR) (c : Profile) (id : nat) : Profile := if (id =? 0)%nat then c else after_hmd vr c.

Lemma scan_from_hmd vr snap ids m o :
  Forall (fun id => 0 < id < 64) ids -> NoDup ids -> coherent o ->
  let '(r, o') := scan_devices answered vr snap (0 :: ids) m o in
  coherent o' /\ untouched (fun _ => True) o o' /\
  (is_Some r -> ctx o' = after_hmd vr (ctx o) /\
    forall id, id ∈ 0 :: ids -> settled vr snap (ctx_for vr (ctx o) id) id o').
Proof.
  intros Hids Hnd Hc. cbn [scan_devices].
  unfold mbind, M_bind. pose proof (scan_device_spec vr snap 0 o ltac:(lia) Hc) as Hs.
  destruct (scan_device answered vr snap 0 o) as [[t|] o1]; destruct Hs as (S1 & S2 & S3 & S4).
  2:{ split_and!; [done|eapply untouched_mono; [|exact S2]; done|by intros [? ?]]. }
  destruct (S4 ltac:(eauto)) as [Hx Hset]. unfold ctx_at in Hx. cbn in Hx.
  pose proof (scan_rest vr snap ids (match t with Some t0 => <[0:=t0]> m | None => m end) o1 Hids Hnd S1) as Hr.
  destruct (scan_devices answered vr snap ids _ o1) as [r o2]. destruct Hr as (R1 & R2 & R3 & R4).
  split_and!; [done|eapply untouched_trans; [eapply untouched_mono; [|exact S2]; done|eapply untouched_mono; [|exact R2]; done]|].
  intros Hr. split; [by rewrite R3|]. intros id Hin. unfold ctx_for. destruct (Nat.eqb_spec id 0) as [->|Hne].
  - apply (settled_untouched _ _ _ _ _ _ _ R2); [|done]. intros Hz. rewrite list.Forall_forall in Hids.
    specialize (Hids _ Hz). lia.
  - rewrite <-Hx. apply R4; [done|]. by apply list.elem_of_cons in Hin as [Hin|Hin].
Qed.

Lemma device_ids_eq : exists ids, device_ids = 0 :: ids /\ Forall (fun id => 0 < id < 64) ids /\ NoDup ids /\
  forall id, id < 64 -> id ∈ 0 :: ids.
Proof.
  exists (seq 1 63). split; [reflexivity|]. split; [|split; [apply NoDup_seq|]].
  - apply list.Forall_forall. intros x Hx. apply elem_of_seq in Hx. lia.
  - intros id Hid. destruct id; [left|right]. apply elem_of_seq. lia.
Qed.

Lemma scan_all vr snap o :
  coherent o ->
  let '(r, o') := scan_devices answered vr snap device_ids ∅ o in
  coherent o' /\ untouched (fun _ => True) o o' /\
  (is_Some r -> ctx o' = after_hmd vr (ctx o) /\ forall id, id < 64 -> settled vr snap (ctx_for vr (ctx o) id) id o').
Proof.
  intros Hc. destruct device_ids_eq as (ids & -> & Hids & Hnd & Hin).
  pose proof (scan_from_hmd vr snap ids ∅ o Hids Hnd Hc) as Hs.
  destruct (scan_devices answered vr snap (0 :: ids) ∅ o) as [r o']. destruct Hs as (S1 & S2 & S3).
  split_and!; [done|done|]. intros Hr. destruct (S3 Hr) as [Hx Hset]. split; [done|]. intros id Hid. by apply Hset, Hin.
Qed.

Definition keeps (m : M unit) : Prop :=
  forall o, coherent o -> let '(r, o') := m o in
    coherent o' /\ ctx o' = ctx o /\ g_snapNextProfileApply o' = g_snapNextProfileApply o.

Lemma keeps_bind (m k : M unit) : keeps m -> keeps k -> keeps (m ;; k).
Proof.
  intros Hm Hk o Hc. unfold mbind, M_bind. specialize (Hm o Hc). destruct (m o) as [[u|] o1]; [|done].
  destruct Hm as (M1 & M2 & M3). specialize (Hk o1 M1). destruct (k o1) as [r o2].
  destruct Hk as (K1 & K2 & K3). split_and!; [done|congruence|congruence].
Qed.

Lemma keeps_get {A} (f : Overlay -> A) (k : A -> M unit) : (forall a, keeps (k a)) -> keeps (x ← gets f; k x).
Proof. intros Hk o Hc. apply (Hk (f o) o Hc). Qed.

Lemma keeps_if (b : bool) m k : keeps m -> keeps k -> keeps (if b then m else k).
Proof. by destruct b. Qed.

Lemma keeps_ret : keeps (mret tt).
Proof. by intros o Hc. Qed.

Lemma keeps_when b m : keeps m -> keeps (when b m).
Proof. intros Hm. unfold when. apply keeps_if; [done|apply keeps_ret]. Qed.

Lemma keeps_modify f :
  (forall o, g_lastApplied (f o) = g_lastApplied o /\ g_lastSeenSerial (f o) = g_lastSeenSerial o /\ sent (f o) = sent o /\
     ctx (f o) = ctx o /\ g_snapNextProfileApply (f o) = g_snapNextProfileApply o) -> keeps (modify f).
Proof.
  intros Hf o [C1 C2 C3 C4]. destruct (Hf o) as (F1 & F2 & F3 & F4 & F5). cbn. split_and!; [|done|done].
  constructor; rewrite ?F1, ?F2, ?F3; done.
Qed.

Lemma keeps_send r : (forall p, r <> RequestSetDeviceTransform p) -> keeps (SendBlocking answered r).
Proof.
  intros Hr o [C1 C2 C3 C4]. unfold SendBlocking. destruct (answered _); cbn; [|done]. split_and!; [|done|done].
  constructor; cbn; [done|done| |].
  - apply list.Forall_app. split; [done|]. apply list.Forall_cons. split; [|done]. destruct r; try done. by destruct (Hr r).
  - intros id c Hi Hv. rewrite last_transform_snoc. destruct r; try by apply C4. by destruct (Hr r).
Qed.

Lemma invalidate_all_coherent o : coherent o -> coherent (InvalidateAllTransformCaches o).
Proof.
  intros [C1 C2 C3 C4]. constructor; cbn; [by rewrite length_map|by rewrite length_map|done|].
  intros id c Hi Hv. apply list_lookup_fmap_Some in Hi as (c' & -> & _). done.
Qed.
#[local] Hint Resolve keeps_bind keeps_get keeps_if keeps_ret keeps_when : wk.

Lemma keeps_refresh : keeps (refresh_target answered).
Proof.
  unfold refresh_target. apply keeps_get. intros o0. cbv zeta. apply keeps_if; [|apply keeps_ret].
  apply keeps_bind; [apply keeps_when, keeps_send; by intros p|].
  intros o Hc. cbn. split_and!; [|done|done]. pose proof (invalidate_all_coherent o Hc) as [C1 C2 C3 C4]. by constructor.
Qed.

Lemma keeps_alignment : keeps (send_alignment answered).
Proof.
  unfold send_alignment. apply keeps_get. intros o. cbv zeta. apply keeps_if; [|apply keeps_ret].
  apply keeps_bind; [apply keeps_send; by intros p|]. by apply keeps_modify.
Qed.

Lemma keeps_fallback system p : keeps (SendFallbackIfChanged answered system p).
Proof.
  unfold SendFallbackIfChanged. apply keeps_get. intros known. apply keeps_if; [apply keeps_ret|].
  apply keeps_bind; [apply keeps_send; by intros q|]. by apply keeps_modify.
Qed.

Lemma keeps_fallbacks : keeps (send_fallbacks answered).
Proof.
  unfold send_fallbacks. apply keeps_get. intros c. apply keeps_bind; [apply keeps_when, keeps_fallback|].
  induction (c_additional c) as [|x l IH]; cbn [each]; [apply keeps_ret|].
  apply keeps_bind; [|done]. apply keeps_if; [apply keeps_fallback|apply keeps_ret].
Qed.

Definition start_ctx (c : Profile) : Profile := c <| c_enabled := c_validProfile c |>.

(** The scan in its three parts. *)
Definition before_devices : M unit := refresh_target answered ;; send_alignment answered ;; send_fallbacks answered.

Definition after_devices (vr : VR) (snap : bool) (current : gmap nat AdoptedTracker) (o : Overlay) : Overlay :=
  let o := apply_chaperone vr ((log_adopted current o) <| g_lastAdoptedTrackers := current |>) in
  if snap then log SnapConsumed (o <| g_snapNextProfileApply := false |>) else o.

Lemma scan_eq vr o :
  ScanAndApplyProfile answered vr o =
  match before_devices (o <| ctx ::= start_ctx |>) with
  | (Some _, o1) =>
    match scan_devices answered vr (g_snapNextProfileApply o) device_ids ∅ o1 with
    | (Some current, o2) => (Some tt, after_devices vr (g_snapNextProfileApply o) current o2)
    | (None, o2) => (None, o2)
    end
  | (None, o1) => (None, o1)
  end.
Proof.
  unfold ScanAndApplyProfile, before_devices, mbind, M_bind, gets. cbn [modify].
  change (upd ctx (fun c => upd c_enabled (fun _ => c_validProfile c) c) o) with (o <| ctx ::= start_ctx |>).
  change (g_snapNextProfileApply (o <| ctx ::= start_ctx |>)) with (g_snapNextProfileApply o).
  set (o0 := o <| ctx ::= start_ctx |>). clearbody o0.
  destruct (refresh_target answered o0) as [[u|] o1]; [|done].
  destruct (send_alignment answered o1) as [[u2|] o2]; [|done].
  destruct (send_fallbacks answered o2) as [[u3|] o3]; [|done].
  by destruct (scan_devices answered vr _ device_ids ∅ o3) as [[cur|] o4].
Qed.

Lemma keeps_before : keeps before_devices.
Proof.
  apply keeps_bind; [apply keeps_refresh|]. apply keeps_bind; [apply keeps_alignment|apply keeps_fallbacks].
Qed.

Lemma log_adopted_frame current o :
  exists ev, log_adopted current o = o <| events := ev |>.
Proof.
  unfold log_adopted. destruct (c_enabled (ctx o)); [|exists (events o); by destruct o].
  assert (forall (f : nat * AdoptedTracker -> bool) (e : AdoptedTracker -> scan_event) l (o1 : Overlay),
    exists ev, foldl (fun o '(id, t) => if f (id, t) then o else log (e t) o) o1 l = o1 <| events := ev |>) as Hf.
  { intros f e l. induction l as [|[id t] l IH]; intros o1; cbn [foldl]; [exists (events o1); by destruct o1|].
    destruct (f (id, t)); [apply IH|]. destruct (IH (log (e t) o1)) as [ev ->]. by exists ev. }
  destruct (Hf (fun '(id, _) => bool_decide (is_Some (g_lastAdoptedTrackers o !! id))) AdoptedNew (by_id current) o) as [ev1 He1].
  destruct (Hf (fun '(id, _) => bool_decide (is_Some (current !! id))) TrackerDisconnected (by_id (g_lastAdoptedTrackers o)) (o <| events := ev1 |>))
    as [ev2 He2]. exists ev2. etrans; [|etrans; [exact He2|done]].
  assert (forall (m : gmap nat AdoptedTracker) (e : AdoptedTracker -> scan_event) l (o1 : Overlay),
    foldl (fun o '(id, t) => if m !! id is Some _ then o else log (e t) o) o1 l =
    foldl (fun o '(id, t) => if bool_decide (is_Some (m !! id)) then o else log (e t) o) o1 l) as Hm.
  { intros m e l. induction l as [|[id t] l IH]; intros o1; cbn [foldl]; [done|]. rewrite IH. f_equal.
    destruct (m !! id); [by rewrite bool_decide_true by eauto|]. rewrite bool_decide_false; [done|by intros [? ?]]. }
  rewrite !Hm. f_equal. exact He1.
Qed.

(** The end of the scan leaves the caches, the requests and the profile. *)
Lemma after_devices_frame vr snap current o :
  let o' := after_devices vr snap current o in
  g_lastApplied o' = g_lastApplied o /\ g_lastSeenSerial o' = g_lastSeenSerial o /\ sent o' = sent o /\ ctx o' = ctx o /\
  g_lastTargetSystem o' = g_lastTargetSystem o /\ g_lastEnabled o' = g_lastEnabled o /\
  g_lastAlignmentSpeed o' = g_lastAlignmentSpeed o /\ g_alignmentSpeedSent o' = g_alignmentSpeedSent o /\
  g_lastFallback o' = g_lastFallback o /\ g_lastFallbackSent o' = g_lastFallbackSent o /\
  g_lastFallbacksBySystem o' = g_lastFallbacksBySystem o.
Proof.
  destruct (log_adopted_frame current o) as [ev Hev]. cbv zeta. unfold after_devices, apply_chaperone. rewrite Hev.
  destruct snap; destruct (_ && _); by split_and!.
Qed.

Lemma coherent_eq o o' : g_lastApplied o' = g_lastApplied o -> g_lastSeenSerial o' = g_lastSeenSerial o ->
  sent o' = sent o -> coherent o -> coherent o'.
Proof. intros E1 E2 E3 [C1 C2 C3 C4]. constructor; rewrite ?E1, ?E2, ?E3; done. Qed.

Lemma scan_spec vr o :
  coherent o ->
  let '(r, o') := ScanAndApplyProfile answered vr o in
  coherent o' /\
  (is_Some r -> ctx o' = after_hmd vr (start_ctx (ctx o)) /\
    forall id, id < 64 -> settled vr (g_snapNextProfileApply o) (ctx_for vr (start_ctx (ctx o)) id) id o').
Proof.
  intros Hc. rewrite scan_eq. assert (coherent (o <| ctx ::= start_ctx |>)) as Hc0 by (by apply (coherent_eq o)).
  pose proof (keeps_before _ Hc0) as Hb. destruct (before_devices (o <| ctx ::= start_ctx |>)) as [[u|] o1];
    destruct Hb as (B1 & B2 & B3); [|split; [done|by intros [? ?]]].
  pose proof (scan_all vr (g_snapNextProfileApply o) o1 B1) as Hs.
  destruct (scan_devices answered vr (g_snapNextProfileApply o) device_ids ∅ o1) as [[cur|] o2];
    destruct Hs as (S1 & S2 & S3); [|split; [done|by intros [? ?]]].
  destruct (after_devices_frame vr (g_snapNextProfileApply o) cur o2) as (F1 & F2 & F3 & F4 & _).
  split; [by apply (coherent_eq o2)|]. intros _. destruct (S3 ltac:(eauto)) as [Hx Hset].
  rewrite F4, Hx, B2. split; [done|]. intros id Hid. specialize (Hset id Hid). rewrite B2 in Hset.
  unfold settled, last_serial, last_applied in *. rewrite F1, F2. exact Hset.
Qed.
End Coherence.

(** ** Histories *)

Inductive overlay_op :=
| OpScan (answered : nat -> bool) (vr : VR)
| OpContext (f : Profile -> Profile)
| OpSnap
| OpInvalidate.

Section History.
Context `{Eigen} `{EigenSolver}.

Definition overlay_step (o : Overlay) (op : overlay_op) : Overlay :=
  match op with
  | OpScan answered vr => (ScanAndApplyProfile answered vr o).2
  | OpContext f => o <| ctx ::= f |>
  | OpSnap => o <| g_snapNextProfileApply := true |>
  | OpInvalidate => InvalidateAllTransformCaches o
  end.
Definition overlay_run (o : Overlay) (ops : list overlay_op) : Overlay := foldl overlay_step o ops.

Lemma overlay_init_coherent c : coherent (overlay_init c).
Proof.
  constructor; try done. intros id x Hi Hv. change (replicate 64 (mkLA false transform_default) !! id = Some x) in Hi. apply lookup_replicate in Hi as [-> _]. done.
Qed.

Lemma overlay_run_coherent c ops : coherent (overlay_run (overlay_init c) ops).
Proof.
  induction ops as [|op ops IH] using rev_ind; [apply overlay_init_coherent|].
  unfold overlay_run in *. rewrite foldl_app. cbn [foldl]. destruct op as [ans vr|f| |]; cbn [overlay_step].
  - pose proof (scan_spec ans vr _ IH) as Hs. destruct (ScanAndApplyProfile ans vr _) as [r o']. apply Hs.
  - by apply (coherent_eq (foldl overlay_step (overlay_init c) ops)).
  - by apply (coherent_eq (foldl overlay_step (overlay_init c) ops)).
  - by apply invalidate_all_coherent.
Qed.

(** C26: whatever was scanned, thrown, changed or invalidated before, when a
    scan completes every present device was last told what its profile and its
    tracking system ask for -- the calibration for the devices of the target
    system, disabled otherwise, everything disabled under a headset of another
    system -- blending only in continuous mode and not in the cycle after a
    recovery; and a driver that handled the session's requests in order has
    taken that over. *)
Theorem scan_reaches_driver c ops answered vr o' freq asp seg l id :
  let o := overlay_run (overlay_init c) ops in
  ScanAndApplyProfile answered vr o = (Some tt, o') -> l.*1 = sent o' -> id < 64 ->
  GetTrackedDeviceClass vr id <> DeviceInvalid ->
  exists p lerp tf, transforms (drive l (provider_init freq asp seg)) !! id = Some tf /\ follows p tf /\
    transform_same p (with_lerp lerp (wanted vr (ctx_for vr (start_ctx (ctx o)) id) id)) /\
    (lerp = true -> c_state (ctx o) = StContinuous /\ g_snapNextProfileApply o = false).
Proof.
  intros o Hscan Hl Hid Hcl. pose proof (scan_spec answered vr o (overlay_run_coherent c ops)) as Hs.
  rewrite Hscan in Hs. destruct Hs as [Hc Hs]. destruct (Hs ltac:(eauto)) as [_ Hset].
  specialize (Hset id Hid). unfold settled in Hset. rewrite bool_decide_false in Hset by done.
  destruct Hset as (_ & q & lerp & Hq & Hsame & Hlerp).
  pose proof (coh_last o' Hc id _ Hq eq_refl) as Hlast. cbn in Hlast.
  destruct (drive_follows l (provider_init freq asp seg)) as (_ & _ & Hd).
  { done. } { by apply Forall_replicate. } { rewrite Hl. apply coh_sent, Hc. }
  rewrite Hl in Hd. destruct (Hd id q Hid Hlast) as (tf & Htf & Hfol).
  exists q, lerp, tf. split_and!; [done|done|done|]. intros Hle. destruct (Hlerp Hle) as [Hst Hsn]. split; [|done].
  rewrite <-Hst. unfold ctx_for, after_hmd. destruct (id =? 0)%nat; [done|]. by destruct (hmd_fits _ _).
Qed.
End History.

(** *** A scan repeated *)

Section Quiet.
Context `{Eigen} `{EigenSolver}.
Variable answered : nat -> bool.

(** No number the profile sends is a NaN. *)
Definition numbers_ok (c : Profile) : bool :=
  FallbackPayloadEqual (primary_payload c) (primary_payload c) &&
  forallb (fun x => FallbackPayloadEqual (extra_payload c x) (extra_payload c x)) (c_additional c).

Definition applied_extras (c : Profile) : list (list byte) :=
  x_targetTrackingSystem <$> filter (fun x => extra_applies c x = true) (c_additional c).

(** What a completed scan leaves in the caches that are not a device's. *)
Record up_to_date (c : Profile) (o : Overlay) : Prop := {
  utd_target : g_lastTargetSystem o = c_targetTrackingSystem c;
  utd_enabled : g_lastEnabled o = c_enabled c;
  utd_sent : g_alignmentSpeedSent o = true;
  utd_alignment : alignment_same (g_lastAlignmentSpeed o) (c_alignmentSpeedParams c) = true;
  utd_primary : c_enabled c && (0 <? length (c_targetTrackingSystem c))%nat = true ->
    exists p, g_lastFallbacksBySystem o !! c_targetTrackingSystem c = Some p /\ FallbackPayloadEqual p (primary_payload c) = true;
  utd_extra x : x ∈ c_additional c -> extra_applies c x = true ->
    exists p, g_lastFallbacksBySystem o !! x_targetTrackingSystem x = Some p /\ FallbackPayloadEqual p (extra_payload c x) = true }.

(** What the scan's first steps do not change for one another. *)
Definition slow (o : Overlay) := (g_lastTargetSystem o, g_lastEnabled o, ctx o).
Definition aligned (o : Overlay) := (g_alignmentSpeedSent o, g_lastAlignmentSpeed o).


Lemma alignment_same_refl a : alignment_same a a = true.
Proof. unfold alignment_same. cbn. by rewrite !bool_decide_true. Qed.

Lemma refresh_done o o' : refresh_target answered o = (Some tt, o') ->
  g_lastTargetSystem o' = c_targetTrackingSystem (ctx o) /\ g_lastEnabled o' = c_enabled (ctx o) /\ ctx o' = ctx o.
Proof.
  unfold refresh_target, mbind, M_bind, gets. set (b := negb _ || _). destruct b eqn:Hb.
  - unfold when, SendBlocking. destruct (_ && _ && _ && _); [destruct (answered _)|]; cbn; intros [= <-]; done.
  - intros [= <-]. unfold b in Hb. apply orb_false_iff in Hb as [H1 H2]. apply negb_false_iff, bool_decide_eq_true_1 in H1.
    apply negb_false_iff, Bool.eqb_prop in H2. done.
Qed.

Lemma alignment_done o o' : send_alignment answered o = (Some tt, o') ->
  slow o' = slow o /\ g_alignmentSpeedSent o' = true /\
  alignment_same (g_lastAlignmentSpeed o') (c_alignmentSpeedParams (ctx o)) = true.
Proof.
  unfold send_alignment, mbind, M_bind, gets. destruct (negb (g_alignmentSpeedSent o) || _) eqn:Hb.
  - unfold SendBlocking. destruct (answered _); [|done]. cbn. intros [= <-]. cbn. split_and!; [done|done|].
    apply alignment_same_refl.
  - intros [= <-]. apply orb_false_iff in Hb as [H1 H2]. apply negb_false_iff in H1, H2. done.
Qed.

Lemma fallback_done system p o o' :
  SendFallbackIfChanged answered system p o = (Some tt, o') -> FallbackPayloadEqual p p = true ->
  slow o' = slow o /\ aligned o' = aligned o /\
  (exists q, g_lastFallbacksBySystem o' !! system = Some q /\ FallbackPayloadEqual q p = true) /\
  forall s, s <> system -> g_lastFallbacksBySystem o' !! s = g_lastFallbacksBySystem o !! s.
Proof.
  unfold SendFallbackIfChanged, mbind, M_bind, gets. intros Hs Hp.
  destruct (g_lastFallbacksBySystem o !! system) as [q|] eqn:Hq; [destruct (FallbackPayloadEqual q p) eqn:He|].
  - injection Hs as <-. split_and!; [done|done|by exists q|done].
  - unfold SendBlocking in Hs. destruct (answered _); [|done]. cbn in Hs. injection Hs as <-. cbn.
    split_and!; [done|done|exists p; by rewrite lookup_insert_eq|intros s Hn; by rewrite lookup_insert_ne].
  - unfold SendBlocking in Hs. destruct (answered _); [|done]. cbn in Hs. injection Hs as <-. cbn.
    split_and!; [done|done|exists p; by rewrite lookup_insert_eq|intros s Hn; by rewrite lookup_insert_ne].
Qed.

Lemma extras_done c l o o' :
  each (fun x => if extra_applies c x then SendFallbackIfChanged answered (x_targetTrackingSystem x) (extra_payload c x)
                 else mret tt) l o = (Some tt, o') ->
  forallb (fun x => FallbackPayloadEqual (extra_payload c x) (extra_payload c x)) l = true ->
  NoDup (x_targetTrackingSystem <$> filter (fun x => extra_applies c x = true) l) ->
  slow o' = slow o /\ aligned o' = aligned o /\
  (forall x, x ∈ l -> extra_applies c x = true ->
    exists q, g_lastFallbacksBySystem o' !! x_targetTrackingSystem x = Some q /\ FallbackPayloadEqual q (extra_payload c x) = true) /\
  forall s, s ∉ (x_targetTrackingSystem <$> filter (fun x => extra_applies c x = true) l) ->
    g_lastFallbacksBySystem o' !! s = g_lastFallbacksBySystem o !! s.
Proof.
  revert o. induction l as [|x l IH]; intros o; cbn [each forallb].
  { intros [= <-] _ _. split_and!; [done|done|intros x Hx; by apply not_elem_of_nil in Hx|done]. }
  unfold mbind, M_bind. rewrite list.filter_cons. intros Hs [Hp Hl]%andb_true_iff.
  destruct (extra_applies c x) eqn:Hx.
  - rewrite decide_True by done. cbn [fmap list_fmap]. intros [Hnin Hnd]%list.NoDup_cons.
    destruct (SendFallbackIfChanged answered _ _ o) as [[[]|] o1] eqn:H1; [|done].
    destruct (fallback_done _ _ _ _ H1 Hp) as (F1 & F2 & F3 & F4). destruct (IH _ Hs Hl Hnd) as (I1 & I2 & I3 & I4).
    split_and!; [congruence|congruence| |].
    + intros y Hy Hay. apply list.elem_of_cons in Hy as [->|Hy]; [|by apply I3]. by rewrite (I4 _ Hnin).
    + intros s Hn. apply not_elem_of_cons in Hn as [Hn1 Hn2]. by rewrite I4, F4.
  - rewrite decide_False by done. intros Hnd. destruct (IH _ Hs Hl Hnd) as (I1 & I2 & I3 & I4). split_and!; [done|done| |done].
    intros y Hy Hay. apply list.elem_of_cons in Hy as [->|Hy]; [congruence|by apply I3].
Qed.

Lemma before_done o o' :
  before_devices answered o = (Some tt, o') -> numbers_ok (ctx o) = true -> NoDup (applied_extras (ctx o)) ->
  up_to_date (ctx o) o' /\ ctx o' = ctx o.
Proof.
  unfold before_devices, mbind, M_bind. intros Hb [Hn1 Hn2]%andb_true_iff Hnd.
  destruct (refresh_target answered o) as [[[]|] o1] eqn:H1; [|done]. destruct (refresh_done _ _ H1) as (R1 & R2 & R3).
  destruct (send_alignment answered o1) as [[[]|] o2] eqn:H2; [|done]. destruct (alignment_done _ _ H2) as (A1 & A2 & A3).
  unfold send_fallbacks, mbind, M_bind, gets in Hb.
  assert (ctx o2 = ctx o) as Hx2 by (unfold slow in A1; congruence). rewrite Hx2 in Hb.
  destruct (when _ _ o2) as [[[]|] o3] eqn:H3; [|done].
  assert (slow o3 = slow o2 /\ aligned o3 = aligned o2 /\
    (c_enabled (ctx o) && (0 <? length (c_targetTrackingSystem (ctx o)))%nat = true ->
     exists p, g_lastFallbacksBySystem o3 !! c_targetTrackingSystem (ctx o) = Some p /\
       FallbackPayloadEqual p (primary_payload (ctx o)) = true)) as (P1 & P2 & P3).
  { unfold when in H3. destruct (c_enabled (ctx o) && _).
    - destruct (fallback_done _ _ _ _ H3 Hn1) as (F1 & F2 & F3 & F4). done.
    - injection H3 as <-. done. }
  destruct (extras_done _ _ _ _ Hb Hn2 Hnd) as (E1 & E2 & E3 & E4). unfold slow, aligned in *.
  injection A1 as A11 A12 A13. injection P1 as P11 P12 P13. injection P2 as P21 P22. injection E1 as E11 E12 E13.
  injection E2 as E21 E22.
  split; [|congruence]. constructor; [congruence|congruence|congruence| | |].
  - assert (g_lastAlignmentSpeed o' = g_lastAlignmentSpeed o2) as -> by congruence.
    assert (ctx o1 = ctx o) as Hx1 by congruence. by rewrite Hx1 in A3.
  - intros Hen. destruct (P3 Hen) as (p & Hp & He). exists p. split; [|done]. rewrite E4; [done|].
    intros (x & Hx & Hin)%list_elem_of_fmap. apply list_elem_of_filter in Hin as [Hap _].
    unfold extra_applies in Hap. apply andb_true_iff in Hap as [_ Hap]. apply negb_true_iff in Hap.
    by rewrite bool_decide_true in Hap.
  - exact E3.
Qed.

Lemma wanted_self vr c id : numbers_ok c = true -> TransformPayloadEqual (wanted vr c id) (wanted vr c id) = true.
Proof.
  assert (forall system, TransformPayloadEqual (disable_payload id system) (disable_payload id system) = true) as Hd.
  { intros system. unfold TransformPayloadEqual. cbn. by rewrite Z.eqb_refl, bool_decide_true. }
  intros [Hp _]%andb_true_iff. unfold wanted. destruct (negb (c_enabled c)); [apply Hd|].
  destruct (GetString vr id TrackingSystemName) as [ok buf]. destruct (negb ok); [apply Hd|].
  destruct (id =? 0)%nat; [apply Hd|]. case_bool_decide; [|apply Hd].
  unfold FallbackPayloadEqual, primary_payload, fallback_payload in Hp. cbn in Hp. bool_prop.
  unfold TransformPayloadEqual. rewrite Z.eqb_refl, !Bool.eqb_reflx, bool_decide_true by done.
  unfold adopt_payload, VRTranslationVec. cbn.
  by repeat match goal with E : ?a = true |- context [?a] => rewrite E; clear E end.
Qed.

Lemma wanted_no_lerp vr c id : with_lerp false (wanted vr c id) = wanted vr c id.
Proof.
  unfold wanted. destruct (negb (c_enabled c)); [done|]. destruct (GetString vr id TrackingSystemName) as [ok buf].
  destruct (negb ok); [done|]. destruct (id =? 0)%nat; [done|]. by case_bool_decide.
Qed.

Lemma send_quiet id p q o : g_lastApplied o !! id = Some (mkLA true q) -> TransformPayloadEqual q p = true ->
  SendDeviceTransformIfChanged answered id p o = (Some tt, o).
Proof.
  intros Hla He. unfold SendDeviceTransformIfChanged, mbind, M_bind, gets.
  assert (last_applied id o = mkLA true q) as -> by (unfold last_applied; by rewrite Hla). cbn. by rewrite He.
Qed.

Lemma set_ctx_id o : o <| ctx := ctx o |> = o.
Proof. by destruct o. Qed.

Lemma device_quiet vr snap snap' id o :
  settled vr snap (ctx o) id o -> c_state (ctx o) <> StContinuous -> numbers_ok (ctx o) = true ->
  exists t, scan_device answered vr snap' id o = (Some t, o <| ctx := ctx_at vr (ctx o) id |>).
Proof.
  intros Hset Hst Hn. unfold scan_device, settled in *. case_bool_decide as Hcl.
  { destruct Hset as [Hs1 Hs2]. exists None. unfold mbind, M_bind, modify, mret, M_ret. 
    assert ((0 <? length (last_serial id o))%nat || la_valid (last_applied id o) = false) as -> by (by rewrite Hs1, Hs2).
    f_equal.
    unfold ctx_at, after_hmd, hmd_fits. destruct (Nat.eqb_spec id 0) as [->|]; [|by rewrite set_ctx_id].
    rewrite bool_decide_true by done. cbn [orb]. by rewrite set_ctx_id. }
  destruct Hset as (Hser & q & lerp & Hq & Hsame & Hlerp).
  destruct lerp; [by destruct (Hlerp eq_refl)|]. rewrite wanted_no_lerp in Hsame.
  assert (TransformPayloadEqual q (wanted vr (ctx o) id) = true) as Heq.
  { destruct Hsame as [->|]; [by apply wanted_self|done]. }
  assert (check_serial answered vr id o = (Some tt, o)) as Hcs.
  { unfold check_serial, mbind, M_bind, gets, last_serial. rewrite Hser. cbn. by rewrite bool_decide_true. }
  unfold mbind, M_bind, gets, mret, M_ret. rewrite Hcs. unfold wanted in Heq. unfold ctx_at, after_hmd, hmd_fits.
  destruct (c_enabled (ctx o)) eqn:Hen; cbn [negb] in *.
  2:{ unfold ResetAndDisableOffsets. rewrite (send_quiet _ _ _ _ Hq Heq). exists None. rewrite orb_true_r. cbn [orb].
      destruct (id =? 0)%nat; by rewrite set_ctx_id. }
  destruct (GetString vr id TrackingSystemName) as [ok buf] eqn:Hbuf.
  destruct ok; cbn [negb] in *.
  2:{ unfold ResetAndDisableOffsets. rewrite (send_quiet _ _ _ _ Hq Heq). exists None.
      destruct (Nat.eqb_spec id 0) as [->|]; [|by rewrite set_ctx_id]. rewrite Hbuf. cbn [negb orb].
      rewrite orb_true_r. by rewrite set_ctx_id. }
  destruct (Nat.eqb_spec id 0) as [->|Hne].
  - rewrite Hbuf. cbn [negb orb]. rewrite (bool_decide_false _ Hcl). cbn [orb]. exists None. unfold when, ResetAndDisableOffsets.
    case_bool_decide; cbn [negb].
    + unfold mret, M_ret. rewrite (send_quiet _ _ _ _ Hq Heq). by rewrite set_ctx_id.
    + cbn [modify]. rewrite (send_quiet _ _ q); [done| |done]. exact Hq.
  - case_bool_decide as Hsys; cbn [negb].
    + unfold adopt, mbind, M_bind, gets. unfold MotionGate.ShouldBlendCycle. rewrite (bool_decide_false _ Hst). cbn [andb].
      rewrite (send_quiet _ _ q _ Hq) by exact Heq.
      destruct (GetString vr id ModelNumber) as [mok model]. eexists. unfold mret, M_ret. by rewrite set_ctx_id.
    + unfold ResetAndDisableOffsets. rewrite (send_quiet _ _ _ _ Hq Heq). exists None. by rewrite set_ctx_id.
Qed.
Lemma rest_quiet vr snap snap' ids m o :
  Forall (fun id => 0 < id < 64) ids -> (forall id, id ∈ ids -> settled vr snap (ctx o) id o) ->
  c_state (ctx o) <> StContinuous -> numbers_ok (ctx o) = true ->
  exists m', scan_devices answered vr snap' ids m o = (Some m', o).
Proof.
  intros Hids Hset Hst Hn. revert m Hset. induction ids as [|id ids IH]; intros m Hset; [by exists m|].
  apply list.Forall_cons in Hids as [Hid Hids]. cbn [scan_devices]. unfold mbind, M_bind.
  destruct (device_quiet vr snap snap' id o ltac:(apply Hset; left) Hst Hn) as [t ->].
  unfold ctx_at. destruct (Nat.eqb_spec id 0); [lia|]. rewrite set_ctx_id. apply IH; [done|]. intros j Hj. apply Hset. by right.
Qed.

Lemma all_quiet vr snap snap' o :
  (forall id, id < 64 -> settled vr snap (ctx_for vr (ctx o) id) id o) ->
  c_state (ctx o) <> StContinuous -> numbers_ok (ctx o) = true ->
  exists m', scan_devices answered vr snap' device_ids ∅ o = (Some m', o <| ctx := after_hmd vr (ctx o) |>).
Proof.
  intros Hset Hst Hn. destruct device_ids_eq as (ids & -> & Hids & _ & _). cbn [scan_devices]. unfold mbind, M_bind.
  destruct (device_quiet vr snap snap' 0 o (Hset 0 ltac:(lia)) Hst Hn) as [t ->].
  change (ctx_at vr (ctx o) 0) with (after_hmd vr (ctx o)).
  apply (rest_quiet vr snap); [done| | |].
  - intros id Hin. rewrite list.Forall_forall in Hids. specialize (Hids id Hin). specialize (Hset id ltac:(lia)).
    unfold ctx_for in Hset. destruct (Nat.eqb_spec id 0); [lia|]. exact Hset.
  - cbn. unfold after_hmd. by destruct (hmd_fits vr (ctx o)).
  - cbn. unfold after_hmd. by destruct (hmd_fits vr (ctx o)).
Qed.

Lemma fallback_quiet system p q o : g_lastFallbacksBySystem o !! system = Some q -> FallbackPayloadEqual q p = true ->
  SendFallbackIfChanged answered system p o = (Some tt, o).
Proof. intros Hq He. unfold SendFallbackIfChanged, mbind, M_bind, gets. by rewrite Hq, He. Qed.

Lemma before_quiet o : up_to_date (ctx o) o -> before_devices answered o = (Some tt, o).
Proof.
  intros [U1 U2 U3 U4 U5 U6]. unfold before_devices, mbind, M_bind.
  assert (refresh_target answered o = (Some tt, o)) as ->.
  { unfold refresh_target, mbind, M_bind, gets. rewrite U1, U2, bool_decide_true, Bool.eqb_reflx by done. done. }
  assert (send_alignment answered o = (Some tt, o)) as ->.
  { unfold send_alignment, mbind, M_bind, gets. by rewrite U3, U4. }
  unfold send_fallbacks, mbind, M_bind, gets, when.
  assert ((if c_enabled (ctx o) && (0 <? length (c_targetTrackingSystem (ctx o)))%nat
    then SendFallbackIfChanged answered (c_targetTrackingSystem (ctx o)) (primary_payload (ctx o)) else mret tt) o = (Some tt, o)) as ->.
  { destruct (_ && _) eqn:Hen; [|done]. destruct (U5 eq_refl) as (p & Hp & He). by apply (fallback_quiet _ _ p). }
  revert U6. generalize (c_additional (ctx o)). intros l U6. induction l as [|x l IH]; cbn [each]; [done|].
  unfold mbind, M_bind. destruct (extra_applies (ctx o) x) eqn:Hx.
  - destruct (U6 x ltac:(left) Hx) as (p & Hp & He). rewrite (fallback_quiet _ _ p) by done.
    apply IH. intros y Hy. apply U6. by right.
  - cbn [mret M_ret]. apply IH. intros y Hy. apply U6. by right.
Qed.
End Quiet.

Section Repeat.
Context `{Eigen} `{EigenSolver}.

(** C28: outside continuous mode a second scan of the same devices and profile
    sends nothing, whatever happened before the first -- so a driver that was
    restarted in between, and starts from its defaults, is told nothing --
    provided the profile's numbers are numbers and no two of the additional
    calibrations in force are for the same tracking system.  Two that are, and
    that differ, overwrite each other's cached payload and are both sent again by
    every scan ([two_extras_resent]). *)
Theorem scan_repeated_is_silent c ops answered answered' vr o1 :
  let o := overlay_run (overlay_init c) ops in
  let now := start_ctx (ctx o) in
  ScanAndApplyProfile answered vr o = (Some tt, o1) -> c_state now <> StContinuous -> numbers_ok now = true ->
  NoDup (applied_extras now) ->
  exists o2, ScanAndApplyProfile answered' vr o1 = (Some tt, o2) /\ sent o2 = sent o1.
Proof.
  intros o now Hscan Hst Hn Hnd. pose proof (overlay_run_coherent c ops) as Hc. fold o in Hc.
  pose proof (scan_spec answered vr o Hc) as Hs. rewrite Hscan in Hs. destruct Hs as [Hc1 Hs].
  destruct (Hs ltac:(eauto)) as [Hx Hset]. fold now in Hx, Hset. clear Hs.
  assert (up_to_date now o1) as Hutd.
  { rewrite scan_eq in Hscan. destruct (before_devices answered (o <| ctx ::= start_ctx |>)) as [[[]|] ob] eqn:Hb; [|done].
    destruct (before_done answered _ _ Hb Hn Hnd) as [Hu Hxb]. change (ctx (o <| ctx ::= start_ctx |>)) with now in Hu, Hxb.
    assert (coherent ob) as Hcb.
    { pose proof (keeps_before answered (o <| ctx ::= start_ctx |>) ltac:(by apply (coherent_eq o))) as Hk. rewrite Hb in Hk. apply Hk. }
    pose proof (scan_all answered vr (g_snapNextProfileApply o) ob Hcb) as Ha.
    destruct (scan_devices answered vr (g_snapNextProfileApply o) device_ids ∅ ob) as [[cur|] od]; [|done].
    injection Hscan as <-. destruct Ha as (_ & Hun & _). pose proof (un_others _ _ _ Hun) as Ho. unfold others in Ho.
    injection Ho as O1 O2 O3 O4 O5 O6 O7 O8.
    destruct (after_devices_frame vr (g_snapNextProfileApply o) cur od) as (_ & _ & _ & _ & F5 & F6 & F7 & F8 & _ & _ & F11).
    destruct Hu as [U1 U2 U3 U4 U5 U6]. constructor; rewrite ?F5, ?F6, ?F7, ?F8, ?F11, ?O1, ?O2, ?O3, ?O4, ?O7; done. }
  rewrite scan_eq. set (os := o1 <| ctx ::= start_ctx |>).
  assert (ctx os = now) as Hos.
  { unfold os. cbn. rewrite Hx. unfold after_hmd. destruct (hmd_fits vr now); [by destruct (ctx o)|]. by destruct (ctx o). }
  rewrite (before_quiet answered' os); [|rewrite Hos; destruct Hutd; by constructor].
  destruct (all_quiet answered' vr (g_snapNextProfileApply o) (g_snapNextProfileApply o1) os) as [m ->].
  { intros id Hid. rewrite Hos. exact (Hset id Hid). } { by rewrite Hos. } { by rewrite Hos. }
  eexists. split; [done|]. destruct (after_devices_frame vr (g_snapNextProfileApply o1) m (os <| ctx := after_hmd vr (ctx os) |>))
    as (_ & _ & -> & _). done.
Qed.
End Repeat.

(** *** A tracking system left and come back to *)

Section Returning.
Context `{Eigen} `{EigenSolver}.
Variable answered : nat -> bool.

(** What the fallbacks of a scan without extras do to the requests about [f]
    and to the cache's entry of [A]. *)
Lemma refresh_fallback f o o' : refresh_target answered o = (Some tt, o') ->
  g_lastFallbacksBySystem o' = g_lastFallbacksBySystem o /\ ctx o' = ctx o /\
  (system_field (g_lastTargetSystem o) <> f -> last_fallback f (sent o') = last_fallback f (sent o)) /\
  (c_targetTrackingSystem (ctx o) <> g_lastTargetSystem o -> g_lastTargetSystem o <> [] -> g_lastFallbackSent o = true ->
   sf_enabled (g_lastFallback o) = true -> system_field (g_lastTargetSystem o) = f ->
   exists q, last_fallback f (sent o') = Some q /\ sf_enabled q = false).
Proof.
  unfold refresh_target, mbind, M_bind, gets, when. set (changed := negb (bool_decide _)).
  destruct (changed || _) eqn:Hb.
  - destruct (changed && _ && _ && _) eqn:Hd.
    + unfold SendBlocking. destruct (answered _); [|done]. cbn [modify]. intros Hs. injection Hs as <-.
      unfold InvalidateAllTransformCaches. cbn. rewrite last_fallback_snoc. cbn [sf_system_name].
      split_and!; [done|done|intros Hn; by rewrite bool_decide_false|]. intros _ _ _ _ Hf. rewrite bool_decide_true by done. eauto.
    + cbn. intros Hs. injection Hs as <-. cbn. split_and!; [done|done|done|]. intros Hn Hne Hs He _. exfalso.
      rewrite Hs, He, !andb_true_r in Hd. unfold changed in Hd. rewrite bool_decide_false in Hd by done.
      by destruct (g_lastTargetSystem o).
  - intros Hs. injection Hs as <-. split_and!; [done|done|done|]. intros Hn. exfalso. apply orb_false_iff in Hb as [Hb _].
    unfold changed in Hb. by rewrite bool_decide_false in Hb.
Qed.

Lemma alignment_fallback f o o' : send_alignment answered o = (Some tt, o') ->
  g_lastFallbacksBySystem o' = g_lastFallbacksBySystem o /\ ctx o' = ctx o /\ last_fallback f (sent o') = last_fallback f (sent o).
Proof.
  unfold send_alignment, mbind, M_bind, gets. destruct (_ || _); [|by intros [= <-]].
  unfold SendBlocking. destruct (answered _); [|done]. cbn. intros [= <-]. cbn. by rewrite last_fallback_snoc.
Qed.

Lemma fallback_other f A system p o o' : SendFallbackIfChanged answered system p o = (Some tt, o') ->
  sf_system_name p <> f -> system <> A ->
  g_lastFallbacksBySystem o' !! A = g_lastFallbacksBySystem o !! A /\ last_fallback f (sent o') = last_fallback f (sent o).
Proof.
  unfold SendFallbackIfChanged, mbind, M_bind, gets. intros Hs Hf Hn. destruct (match _ with Some _ => _ | None => _ end).
  - by injection Hs as <-.
  - unfold SendBlocking in Hs. destruct (answered _); [|done]. cbn in Hs. injection Hs as <-. cbn.
    rewrite lookup_insert_ne by done. by rewrite last_fallback_snoc, bool_decide_false.
Qed.

Lemma scan_fallbacks vr o o' A q :
  coherent o -> ScanAndApplyProfile answered vr o = (Some tt, o') -> c_additional (ctx o) = [] ->
  let f := system_field A in
  let target := c_targetTrackingSystem (ctx o) in
  (target = A -> exists p, g_lastFallbacksBySystem o !! A = Some p /\ FallbackPayloadEqual p (primary_payload (ctx o)) = true) ->
  (target <> A -> system_field target <> f) ->
  (g_lastTargetSystem o <> A -> system_field (g_lastTargetSystem o) <> f /\ last_fallback f (sent o) = Some q /\ sf_enabled q = false) ->
  (g_lastTargetSystem o = A -> A <> [] /\ target <> A /\ g_lastFallbackSent o = true /\ sf_enabled (g_lastFallback o) = true) ->
  g_lastFallbacksBySystem o' !! A = g_lastFallbacksBySystem o !! A /\ g_lastTargetSystem o' = target /\
  exists q, last_fallback f (sent o') = Some q /\ sf_enabled q = false.
Proof.
  intros Hc Hscan Hx f target Hin Hout Hleft Hleaving. rewrite scan_eq in Hscan.
  set (o0 := o <| ctx ::= start_ctx |>) in *. destruct (before_devices answered o0) as [[[]|] ob] eqn:Hb; [|done].
  assert (coherent ob) as Hcb.
  { pose proof (keeps_before answered o0 ltac:(by apply (coherent_eq o))) as Hk. rewrite Hb in Hk. apply Hk. }
  pose proof (scan_all answered vr (g_snapNextProfileApply o) ob Hcb) as Ha.
  destruct (scan_devices answered vr (g_snapNextProfileApply o) device_ids ∅ ob) as [[cur|] od]; [|done].
  injection Hscan as <-. destruct Ha as (_ & Hun & _). pose proof (un_others _ _ _ Hun) as Ho. unfold others in Ho.
  injection Ho as O1 _ _ _ _ _ O7 _. pose proof (un_fallback _ _ _ Hun f) as Of.
  destruct (after_devices_frame vr (g_snapNextProfileApply o) cur od) as (_ & _ & F3 & _ & F5 & _ & _ & _ & _ & _ & F11).
  rewrite F3, F5, F11, Of, O1, O7. clear F3 F5 F11 Of O1 O7 Hun Hcb.
  unfold before_devices, mbind, M_bind in Hb. destruct (refresh_target answered o0) as [[[]|] o1] eqn:H1; [|done].
  destruct (refresh_fallback f _ _ H1) as (R1 & R2 & R3 & R4).
  change (g_lastTargetSystem o0) with (g_lastTargetSystem o) in R3, R4. destruct (refresh_done answered _ _ H1) as (R5 & _ & _).
  destruct (send_alignment answered o1) as [[[]|] o2] eqn:H2; [|done]. destruct (alignment_fallback f _ _ H2) as (A1 & A2 & A3).
  destruct (alignment_done answered _ _ H2) as (A4 & _ & _). unfold slow in A4. injection A4 as A4 _ _.
  assert (exists q, last_fallback f (sent o2) = Some q /\ sf_enabled q = false) as Hlast.
  { rewrite A3. destruct (decide (g_lastTargetSystem o = A)) as [He|Hn].
    - destruct (Hleaving He) as (L1 & L2 & L3 & L4). apply R4; [|by rewrite He|done|done|by rewrite He].
      change (target <> g_lastTargetSystem o). by rewrite He.
    - destruct (Hleft Hn) as (L1 & L2 & L3). exists q. by rewrite (R3 L1). }
  unfold send_fallbacks, mbind, M_bind, gets in Hb.
  assert (ctx o2 = start_ctx (ctx o)) as Hx2 by (rewrite A2, R2; done). rewrite Hx2 in Hb.
  change (c_additional (start_ctx (ctx o))) with (c_additional (ctx o)) in Hb. rewrite Hx in Hb. cbn [each] in Hb.
  change (c_targetTrackingSystem (start_ctx (ctx o))) with target in Hb.
  change (primary_payload (start_ctx (ctx o))) with (primary_payload (ctx o)) in Hb.
  assert (g_lastFallbacksBySystem o2 !! A = g_lastFallbacksBySystem o !! A) as Hby by (by rewrite A1, R1).
  unfold when in Hb. destruct (c_enabled (start_ctx (ctx o)) && (0 <? length target)%nat).
  - destruct (SendFallbackIfChanged answered target (primary_payload (ctx o)) o2) as [[[]|] o3] eqn:H3; [|done].
    injection Hb as <-. destruct (decide (target = A)) as [He|Hn].
    + destruct (Hin He) as (p & Hp & Heq). rewrite He in H3.
      rewrite (fallback_quiet answered A _ p) in H3; [|by rewrite Hby|done]. injection H3 as <-.
      split_and!; [done|rewrite A4, R5; done|done].
    + destruct (fallback_other f A _ _ _ _ H3 (Hout Hn) Hn) as [-> ->].
      assert (slow o3 = slow o2) as Hs3.
      { unfold SendFallbackIfChanged, mbind, M_bind, gets in H3. destruct (match _ with Some _ => _ | None => _ end).
        - by injection H3 as <-.
        - unfold SendBlocking in H3. destruct (answered _); [|done]. cbn in H3. by injection H3 as <-. }
      unfold slow in Hs3. injection Hs3 as Hs3 _ _. split_and!; [done|rewrite Hs3, A4, R5; done|done].
  - injection Hb as <-. split_and!; [done|rewrite A4, R5; done|done].
Qed.
End Returning.

Section ReturningTheorem.
Context `{Eigen} `{EigenSolver}.

(** C27: when the calibration moves from a target system [A] whose fallback is
    on to another system and back to [A] with the same calibration, there being
    no additional calibration on either move, and the flag that remembers the
    fallback being set -- as a send leaves it, and an invalidation does not --
    the last request the driver was sent about [A] is the one that switched it
    off: the cache of the systems still holds the first one, and answers for it. *)
Theorem returning_system_stays_off c ops f1 f2 answered1 answered2 vr1 vr2 o1 o2 A p :
  let o := overlay_run (overlay_init c) ops in
  g_lastTargetSystem o = A -> A <> [] -> g_lastFallbackSent o = true -> sf_enabled (g_lastFallback o) = true ->
  g_lastFallbacksBySystem o !! A = Some p ->
  let left := o <| ctx ::= f1 |> in
  let B := c_targetTrackingSystem (ctx left) in
  B <> A -> system_field B <> system_field A -> c_additional (ctx left) = [] ->
  ScanAndApplyProfile answered1 vr1 left = (Some tt, o1) ->
  let back := o1 <| ctx ::= f2 |> in
  c_targetTrackingSystem (ctx back) = A -> c_additional (ctx back) = [] ->
  FallbackPayloadEqual p (primary_payload (ctx back)) = true ->
  ScanAndApplyProfile answered2 vr2 back = (Some tt, o2) ->
  exists q, last_fallback (system_field A) (sent o2) = Some q /\ sf_enabled q = false.
Proof.
  intros o HA HnA Hs He Hp left B HB HfB Hx1 Hscan1 back Ht2 Hx2 Heq Hscan2.
  assert (coherent left) as Hcl by (apply (coherent_eq o); [done|done|done|apply overlay_run_coherent]).
  destruct (scan_fallbacks answered1 vr1 left o1 A fallback_default Hcl Hscan1 Hx1) as (K1 & K2 & q & K3 & K4).
  { intros Hta. by destruct HB. } { by intros _. } { intros Hn. by destruct Hn. } { intros _. by split_and!. }
  assert (coherent back) as Hcb.
  { apply (coherent_eq o1); [done|done|done|]. pose proof (scan_spec answered1 vr1 left Hcl) as Hk. rewrite Hscan1 in Hk. apply Hk. }
  destruct (scan_fallbacks answered2 vr2 back o2 A q Hcb Hscan2 Hx2) as (_ & _ & Hq); [| | | |done].
  - intros _. exists p. split; [|done]. change (g_lastFallbacksBySystem o1 !! A = Some p). by rewrite K1.
  - intros Hn. by destruct Hn.
  - intros _. change (system_field (g_lastTargetSystem o1) <> system_field A /\ last_fallback (system_field A) (sent o1) = Some q /\
      sf_enabled q = false). rewrite K2. done.
  - intros Hl. exfalso. change (g_lastTargetSystem o1 = A) in Hl. rewrite K2 in Hl. by apply HB.
Qed.
End ReturningTheorem.

(** ** Witnesses *)

(** A headset and a controller of two tracking systems, and a calibration. *)
Definition vr_sample : VR := {|
  GetTrackedDeviceClass id := match id with 0 => DeviceHMD | 1 => DeviceController | _ => DeviceInvalid end;
  GetString id prop :=
    match prop with
    | SerialNumber => (true, str "LHR-" ++ [zb (Z.of_nat id)])
    | TrackingSystemName => (true, if (id =? 0)%nat then str "oculus" else str "lighthouse")
    | _ => (false, [])
    end;
  eyeToHeadLeft _ _ := fzero;
  liveQuadCount := 0 |}.

Definition profile_sample : Profile :=
  mkProfile StNone 1 (V3 fzero (d_of_Z 30) fzero) (V3 d_one d_one d_one) d_one (str "oculus") (str "lighthouse")
    false true true true alignment_default [] false true 0.

Definition always : nat -> bool := fun _ => true.

#[local] Existing Instance eigen_sample.
#[local] Existing Instance solver_sample.

Definition scanned : Overlay := (ScanAndApplyProfile always vr_sample (overlay_init profile_sample)).2.

Lemma scan_reaches_driver_witness :
  exists p lerp tf,
    transforms (drive (map (fun r => (r, 0%Z)) (sent scanned)) (provider_init 1000 asp_sample None)) !! 1 = Some tf /\
    follows p tf /\ transform_same p (with_lerp lerp (wanted vr_sample (ctx_for vr_sample (start_ctx profile_sample) 1) 1)) /\
    (lerp = true -> c_state profile_sample = StContinuous /\ false = false).
Proof.
  apply (scan_reaches_driver profile_sample [] always vr_sample scanned 1000 asp_sample None _ 1);
    [vm_compute; reflexivity|vm_compute; reflexivity|lia|].
  vm_compute. discriminate.
Defined.

Lemma scan_repeated_is_silent_witness :
  exists o2, ScanAndApplyProfile (fun _ => false) vr_sample scanned = (Some tt, o2) /\ sent o2 = sent scanned.
Proof.
  apply (scan_repeated_is_silent profile_sample [] always (fun _ => false) vr_sample scanned);
    [vm_compute; reflexivity|vm_compute; discriminate|vm_compute; reflexivity|]. constructor.
Defined.

Definition to_oculus (c : Profile) : Profile := c <| c_targetTrackingSystem := str "oculus" |>.
Definition to_lighthouse (c : Profile) : Profile := c <| c_targetTrackingSystem := str "lighthouse" |>.
Definition left_sample : Overlay := (ScanAndApplyProfile always vr_sample (scanned <| ctx ::= to_oculus |>)).2.
Definition back_sample : Overlay := (ScanAndApplyProfile always vr_sample (left_sample <| ctx ::= to_lighthouse |>)).2.

Lemma returning_system_stays_off_witness :
  exists q, last_fallback (system_field (str "lighthouse")) (sent back_sample) = Some q /\ sf_enabled q = false.
Proof.
  apply (returning_system_stays_off profile_sample [OpScan always vr_sample] to_oculus to_lighthouse always always
    vr_sample vr_sample left_sample back_sample (str "lighthouse") (primary_payload profile_sample));
    first [vm_compute; reflexivity|vm_compute; discriminate].
Defined.

(** Two additional calibrations of one system, as running the wizard twice
    leaves them: each scan sends both fallbacks again. *)
Definition extra_at (y : Z) : Extra := mkExtra true true (str "vive") v_zero (V3 fzero (d_of_Z y) fzero) d_one.
Definition two_extras : Profile := profile_sample <| c_additional := [extra_at 1; extra_at 2] |>.
Definition scan_sample (o : Overlay) : Overlay := (ScanAndApplyProfile always vr_sample o).2.

Example two_extras_resent :
  let o1 := scan_sample (overlay_init two_extras) in
  let o2 := scan_sample o1 in
  let o3 := scan_sample o2 in
  (length (sent o2) = length (sent o1) + 2 /\ length (sent o3) = length (sent o2) + 2)%nat.
Proof. vm_compute. split; reflexivity. Qed.
