(* ===== verification/CalibLatency.v ===== *)
(** * Latency estimation (modules/calibration/src/overlay/LatencyEstimator.h)

    The lag between two series of speeds: the energy gate, the direct
    cross-correlation and the whitened one (GCC-PHAT) with its two Fourier sums,
    and the parabola through the peak. *)

From S2P Require Import Prelude Floats CalibSolve InputStats.
Open Scope fl_scope.

Definition kMinRmsSpeed : double := d_lit 1 10.
Definition kPhatFloor : double := d_lit 1 1000000000000.

Definition d_len {A} (l : list A) : double := d_of_Z (Z.of_nat (length l)).

(** Sums in the order of the loops. *)
Definition d_sum (l : list double) : double := foldl d_add fzero l.
Definition dot (a b : list double) : double := d_sum (zip_with d_mul a b).

(** ** The peak *)

Definition ParabolicSubsamplePeak (C : list double) (bestIdx : Z) : double :=
  if (bestIdx <=? 0)%Z || (Z.of_nat (length C) - 1 <=? bestIdx)%Z then fzero else
  let at_ (i : Z) := nth (Z.to_nat i) C fzero in
  let y0 := at_ (bestIdx - 1)%Z in let y1 := at_ bestIdx in let y2 := at_ (bestIdx + 1)%Z in
  let denom := y0 - d_of_Z 2 * y1 + y2 in
  if fle (SFabs denom) (d_lit 1 1000000000000) then fzero else
  let frac := d_lit 1 2 * (y0 - y2) / denom in
  if negb (isfinite frac) || fgt (SFabs frac) d_one then fzero else frac.

(** The first greatest entry: its index, [-1] when no entry is above minus
    infinity. *)
Fixpoint best_from (i : Z) (C : list double) (best : Z * double) : Z * double :=
  match C with
  | [] => best
  | c :: C => best_from (i + 1) C (if fgt c best.2 then (i, c) else best)
  end.
Definition best_index (C : list double) : Z := (best_from 0 C (-1, S754_infinity true)%Z).1.

Definition lag_at_peak (maxTau : Z) (C : list double) : double :=
  let bestIdx := best_index C in
  if (bestIdx <=? 0)%Z || (Z.of_nat (length C) - 1 <=? bestIdx)%Z
  then d_of_Z (bestIdx - maxTau)
  else d_of_Z (bestIdx - maxTau) + ParabolicSubsamplePeak C bestIdx.

(** Every lag of the search window, in order. *)
Definition lags (maxTau : Z) : list Z := map (fun i => Z.of_nat i - maxTau)%Z (seq 0 (Z.to_nat (2 * maxTau + 1))).

(** ** The series *)

Definition rms (l : list double) : double := d_sqrt (dot l l / d_len l).
Definition centred (l : list double) : list double := let mean := d_sum l / d_len l in map (fun x => x - mean) l.

Definition PrepareSeries (ref tgt : list double) : option (list double * list double) :=
  if (length ref <? 4)%nat || negb (length tgt =? length ref)%nat then None else
  if flt (rms ref) kMinRmsSpeed || flt (rms tgt) kMinRmsSpeed then None else
  Some (centred ref, centred tgt).

(** The loop's bounds: [k] from [max 0 (-tau)], [k + tau] from [max 0 tau], to
    the end of the shorter. *)
Definition correlation (r t : list double) (tau : Z) : double :=
  dot (drop (Z.to_nat (- tau)) r) (drop (Z.to_nat tau) t).

Definition EstimateLagTimeDomain (ref tgt : list double) (maxTau : Z) : option double :=
  if (Z.of_nat (length ref) <? 2 * maxTau + 4)%Z then None else
  '(r, t) ← PrepareSeries ref tgt;
  Some (lag_at_peak maxTau (map (correlation r t) (lags maxTau))).

(** ** GCC-PHAT *)

Section Gcc.
Context `{Libm}.

Definition d_nat (n : nat) : double := d_of_Z (Z.of_nat n).

(** [sum_n x[n] * g(w * k * n)]. *)
Definition fourier_sum (g : double -> double) (w : double) (k : nat) (x : list double) : double :=
  d_sum (imap (fun n v => v * g (w * d_nat k * d_nat n)) x).

Definition phat (xr xi yr yi : double) : double * double :=
  let pr := xr * yr + xi * yi in
  let p_i := xr * yi - xi * yr in
  let inv := d_one / std_max (d_sqrt (pr * pr + p_i * p_i)) kPhatFloor in
  (pr * inv, p_i * inv).

Definition gcc_spectrum (r t : list double) : list (double * double) :=
  let w := d_of_Z (-2) * d_pi / d_len r in
  map (fun k => phat (fourier_sum m_cos w k r) (fourier_sum m_sin w k r) (fourier_sum m_cos w k t) (fourier_sum m_sin w k t))
    (seq 0 (length r)).

Definition gcc_value (p : list (double * double)) (tau : Z) : double :=
  let w := d_of_Z 2 * d_pi / d_len p in
  let n := Z.to_nat (tau mod Z.of_nat (length p)) in
  d_sum (imap (fun k '(pr, p_i) =>
    let th := w * d_nat k * d_nat n in pr * m_cos th - p_i * m_sin th) p) * (d_one / d_len p).

Definition EstimateLagGccPhat (ref tgt : list double) (maxTau : Z) : option double :=
  if (Z.of_nat (length ref) <? 2 * maxTau + 4)%Z then None else
  '(r, t) ← PrepareSeries ref tgt;
  let p := gcc_spectrum r t in
  Some (lag_at_peak maxTau (map (gcc_value p) (lags maxTau))).

(** [EstimateLatencyLagSamples] (Calibration.cpp). *)
Definition EstimateLatencyLagSamples (ref tgt : list double) (maxTau : Z) (useGccPhat : bool) : option double :=
  if useGccPhat then EstimateLagGccPhat ref tgt maxTau else EstimateLagTimeDomain ref tgt maxTau.
End Gcc.

(** ** Theorems *)

(** No entry is greater than [y] (a NaN is not). *)
Definition none_above (y : double) (C : list double) : Prop := Forall (fun c => flt y c = false) C.

Lemma not_above_trans c y y' : flt y c = false -> flt y y' = true -> flt y' c = false.
Proof.
  intros H1 H2. destruct (flt y' c) eqn:H3; [|done].
  pose proof (flt_fle_trans y y' c H2 (flt_fle _ _ H3)). congruence.
Qed.

(** The fold keeps what it was given unless an entry is greater; then it keeps
    the first of the greatest. *)
Lemma best_from_spec i C best :
  best_from i C best = best /\ none_above best.2 C \/
  exists k y, C !! k = Some y /\ best_from i C best = ((i + Z.of_nat k)%Z, y) /\ flt best.2 y = true /\
    none_above y C /\ Forall (fun c => flt c y = true \/ is_nan c = true) (take k C).
Proof.
  revert i best. induction C as [|c C IH]; intros i best; cbn [best_from]; [left; by split; [|constructor]|].
  change (fgt c best.2) with (flt best.2 c). destruct (flt best.2 c) eqn:Hc.
  - right. destruct (IH (i + 1)%Z (i, c)) as [[-> Hn]|(k & y & Hk & -> & Hy & Hn & Hf)]; cbn [snd] in *.
    + exists 0%nat, c. split_and!; [done|f_equal; lia|done| |constructor]. constructor; [apply flt_irrefl|done].
    + exists (Datatypes.S k), y. split_and!; [done|f_equal; lia| | |].
      * by apply (flt_fle_trans _ _ _ Hc), flt_fle.
      * constructor; [|done]. destruct (flt y c) eqn:E; [|done]. apply flt_asym in E. by rewrite (flt_fle _ _ Hy) in E.
      * cbn [take]. constructor; [by left|done].
  - destruct (IH (i + 1)%Z best) as [[-> Hn]|(k & y & Hk & -> & Hy & Hn & Hf)].
    + left. split; [done|]. by constructor.
    + right. exists (Datatypes.S k), y. split_and!; [done|f_equal; lia|done| |].
      * constructor; [|done]. by eapply not_above_trans.
      * cbn [take]. constructor; [|done]. destruct (is_nan c) eqn:En; [by right|left].
        destruct (flt_not_nan _ _ Hy) as [Hb _]. by apply (fle_flt_trans _ best.2), Hy; apply flt_false_fle.
Qed.

Lemma parabola_bound C i : isfinite (ParabolicSubsamplePeak C i) = true /\ fgt (SFabs (ParabolicSubsamplePeak C i)) d_one = false.
Proof.
  unfold ParabolicSubsamplePeak. cbv zeta. destruct (_ || _); [done|]. destruct (fle _ _); [done|].
  destruct (_ || _) eqn:E; [done|]. apply orb_false_iff in E as [E1 E2]. split; [|done]. by apply negb_false_iff.
Qed.

Section LatencyProps.
Context `{Libm}.

(** The curve that is searched: the correlation at every lag of the window. *)
Definition lag_curve (useGccPhat : bool) (r t : list double) (maxTau : Z) : list double :=
  if useGccPhat then map (gcc_value (gcc_spectrum r t)) (lags maxTau) else map (correlation r t) (lags maxTau).

Lemma estimate_eq ref tgt maxTau gcc :
  EstimateLatencyLagSamples ref tgt maxTau gcc =
  if (Z.of_nat (length ref) <? 2 * maxTau + 4)%Z then None else
  '(r, t) ← PrepareSeries ref tgt; Some (lag_at_peak maxTau (lag_curve gcc r t maxTau)).
Proof. by destruct gcc. Qed.

Lemma prepare_spec ref tgt r t : PrepareSeries ref tgt = Some (r, t) ->
  length tgt = length ref /\ flt (rms ref) kMinRmsSpeed = false /\ flt (rms tgt) kMinRmsSpeed = false /\
  r = centred ref /\ t = centred tgt.
Proof.
  unfold PrepareSeries. destruct (_ || _) eqn:E1; [done|]. destruct (flt (rms ref) _ || _) eqn:E2; [done|].
  intros [= <- <-]. apply orb_false_iff in E1 as [_ E1], E2 as [E2 E3].
  apply negb_false_iff, Nat.eqb_eq in E1. by split_and!.
Qed.

(** Not a number, or minus infinity. *)
Definition no_peak (c : double) : Prop := is_nan c = true \/ c = S754_infinity true.

Lemma not_above_infinity c : flt (S754_infinity true) c = false -> no_peak c.
Proof. destruct c as [[]|[]| |[] m e]; try done; by (left + right). Qed.

End LatencyProps.

(** Sixteen samples, a pulse arriving one sample later: the lag is one. *)
Definition pulse (n : nat) : list double := map (fun i => d_of_Z (if (i =? n)%nat then 2 else 0)) (seq 0 16).

Definition pulse_curve : list double := @lag_curve libm_sample false (centred (pulse 5)) (centred (pulse 6)) 2.

