(* ===== verification/CalibRest.v ===== *)
(** * Rest-locked yaw and tilt (modules/calibration/src/overlay/RestLockedYaw.h,
      TiltDiagnostic.h)

    The phase machine that locks a resting tracker's orientation, the weights,
    the fusion and the bounded step of the yaw correction drawn from it, and the
    sustained-tilt diagnostic. *)

From S2P Require Import Prelude Floats Isometry Detectors Filters InputConfig InputStats CalibSolve.
From stdpp Require Import gmap sorting.
Open Scope fl_scope.

(** Eigen's dot product of quaternions and Euler angles of a matrix. *)
Class EigenRot := {
  q_dot : Quaterniond -> Quaterniond -> double;
  m_eulerAngles210 : Matrix3d -> Vector3d }.

(** ** RestLockedYaw.h *)

Inductive TrackingSystemClass := ClsUnknown | ClsLighthouse | ClsQuest | ClsSlimeVR.
Inductive RestPhase := Moving | RecentlyAtRest | AtRest.

#[export] Instance RestPhase_eqdec : EqDecision RestPhase.
Proof. solve_decision. Defined.
#[export] Instance Class_eqdec : EqDecision TrackingSystemClass.
Proof. solve_decision. Defined.

Definition global_ceiling_deg_per_sec : double := d_lit 1 2.
Definition class_cap (c : TrackingSystemClass) : double :=
  match c with
  | ClsLighthouse => d_lit 5 100
  | ClsQuest => d_lit 15 100
  | ClsSlimeVR => d_lit 30 100
  | ClsUnknown => d_lit 15 100
  end.
Definition CapForClass (c : TrackingSystemClass) : double := std_min (class_cap c) global_ceiling_deg_per_sec.

Definition kRestEnterDegPerSec : double := d_of_Z 120.
Definition kRestEnterSec : double := d_one.

Record RestState := mkRest {
  phase : RestPhase; lastRot : Quaterniond; phaseEnteredAt : double;
  lockedRot : Quaterniond; haveLock : bool; initialized : bool }.

#[export] Instance rest_settable : Settable RestState := fun s =>
  mkRest (phase s) (lastRot s) (phaseEnteredAt s) (lockedRot s) (haveLock s) (initialized s).

Definition rest_init : RestState := mkRest Moving q_identity fzero q_identity false false.

Definition tau_age : double := d_of_Z 120.

Section Rest.
Context `{Eigen} `{EigenMore} `{Libm} `{EigenSolver} `{EigenRot}.

(** The speed a tick is judged by, in degrees per second. *)
Definition angular_speed (last new : Quaterniond) (dt_sec : double) : double :=
  let dotProd := std_clamp (SFabs (q_dot last new)) fzero d_one in
  let angleDeg := d_of_Z 2 * m_acos dotProd * (d_of_Z 180 / d_pi) in
  angleDeg / std_max dt_sec (d_lit 1 10000).

Definition UpdatePhase (prior : RestState) (newRot : Quaterniond) (now dt_sec : double) : RestState :=
  let s := prior in
  if negb (initialized s) then
    s <| phase := Moving |> <| lastRot := newRot |> <| phaseEnteredAt := now |> <| haveLock := false |>
      <| initialized := true |>
  else
    let fast := fgt (angular_speed (lastRot s) newRot dt_sec) kRestEnterDegPerSec in
    let s := s <| lastRot := newRot |> in
    if fast then s <| phase := Moving |> <| phaseEnteredAt := now |> <| haveLock := false |>
    else match phase s with
         | Moving => s <| phase := RecentlyAtRest |> <| phaseEnteredAt := now |>
         | RecentlyAtRest =>
           if fge (now - phaseEnteredAt s) kRestEnterSec
           then s <| phase := AtRest |> <| lockedRot := newRot |> <| haveLock := true |> else s
         | AtRest => s
         end.

Definition SignedYawDeltaRad (fromQ toQ : Quaterniond) : double :=
  let d := q_mul toQ (q_conjugate fromQ) in
  m_atan2 (d_of_Z 2 * (q_w d * q_y d + q_z d * q_x d)) (d_one - d_of_Z 2 * (q_x d * q_x d + q_y d * q_y d)).

Definition ClassWeight (c : TrackingSystemClass) : double :=
  match c with ClsLighthouse => d_one | ClsQuest => d_lit 6 10 | ClsSlimeVR => d_lit 3 10 | ClsUnknown => d_lit 5 10 end.

Definition AgeWeight (secondsSinceLock : double) : double :=
  if fle secondsSinceLock fzero then d_one else m_exp (SFopp secondsSinceLock / tau_age).

Definition QualityWeight (sigmaYawRad : double) : double := d_one / (d_one + sigmaYawRad * sigmaYawRad).

Record YawContribution := mkYaw { yawErrRad : double; weight : double; yaw_cls : TrackingSystemClass }.

Definition FuseYawContributionsRad (xs : list YawContribution) : double :=
  let sumSin := foldl (fun a x => a + weight x * m_sin (yawErrRad x)) fzero xs in
  let sumCos := foldl (fun a x => a + weight x * m_cos (yawErrRad x)) fzero xs in
  let weightTotal := foldl (fun a x => a + weight x) fzero xs in
  if fle weightTotal fzero then fzero else m_atan2 sumSin sumCos.
End Rest.

Definition ApplyBoundedYawStep (meanYawErrRad dtSec capDegPerSec : double) : double :=
  let capRad := capDegPerSec * (d_pi / d_of_Z 180) * dtSec in
  if fgt meanYawErrRad capRad then capRad
  else if flt meanYawErrRad (SFopp capRad) then SFopp capRad
  else meanYawErrRad.

(** ** The tick's use of it (Calibration.cpp) *)

Definition byte_lower (b : byte) : byte :=
  let n := N.to_nat (Byte.to_N b) in
  if ((65 <=? n) && (n <=? 90))%nat then default b (Byte.of_N (N.of_nat (n + 32))) else b.

Definition ClassifyTrackingSystem (name : list byte) : TrackingSystemClass :=
  let lower := map byte_lower name in
  if (length name =? 0)%nat then ClsUnknown
  else if contains (str "lighthouse") lower then ClsLighthouse
  else if contains (str "oculus") lower then ClsQuest
  else if contains (str "quest") lower then ClsQuest
  else if contains (str "slime") lower then ClsSlimeVR
  else ClsUnknown.

(** A device the tick considers: its id, whether its pose can be used, its
    orientation in the world, and its tracking system. *)
Record RestDevice := mkRD { rd_id : nat; rd_ok : bool; rd_rot : Quaterniond; rd_system : list byte }.

Record RestTick := mkRTk { restStates : gmap nat RestState; lastTickTime : double }.

#[export] Instance resttick_settable : Settable RestTick := fun s => mkRTk (restStates s) (lastTickTime s).

Definition rest_tick_init : RestTick := mkRTk ∅ minus_one.

Section RestTick.
Context `{Eigen} `{EigenMore} `{Libm} `{EigenSolver} `{EigenRot}.

Definition considerDevice (now dt : double) (d : RestDevice) (states : gmap nat RestState)
    : option YawContribution * gmap nat RestState :=
  if negb (rd_ok d) then (None, delete (rd_id d) states) else
  let prior := default rest_init (states !! rd_id d) in
  let rest := UpdatePhase prior (rd_rot d) now dt in
  if bool_decide (phase rest = AtRest) && haveLock rest then
    let rest := if haveLock prior then rest else rest <| phaseEnteredAt := now |> in
    let cls := ClassifyTrackingSystem (rd_system d) in
    let ageSec := std_max fzero (now - phaseEnteredAt rest) in
    (Some (mkYaw (SFopp (SignedYawDeltaRad (lockedRot rest) (rd_rot d)))
             (ClassWeight cls * AgeWeight ageSec * QualityWeight fzero) cls),
     <[rd_id d := rest]> states)
  else (None, <[rd_id d := rest]> states).

(** The primary target first, then the extras whose id no contribution has yet:
    the contributions, and the ids that made one. *)
Fixpoint consider_all (now dt : double) (ds : list RestDevice) (seen : list nat) (states : gmap nat RestState)
    : list YawContribution * gmap nat RestState :=
  match ds with
  | [] => ([], states)
  | d :: ds =>
    if bool_decide (rd_id d ∈ seen) then consider_all now dt ds seen states else
    let '(c, states) := considerDevice now dt d states in
    match c with
    | Some c => let '(cs, states) := consider_all now dt ds (rd_id d :: seen) states in (c :: cs, states)
    | None => consider_all now dt ds seen states
    end
  end.

Definition yaw_cap (cs : list YawContribution) : double :=
  foldl (fun cap c => let k := CapForClass (yaw_cls c) in if flt k cap then k else cap) global_ceiling_deg_per_sec cs.

(** [TickRestLockedYaw] for the states it runs in: the change of the calibrated
    yaw, in degrees. *)
Definition rest_yaw_step (now : double) (ds : list RestDevice) (g : RestTick) : option double * RestTick :=
  let dt := if fgt (lastTickTime g) fzero then now - lastTickTime g else fzero in
  let '(cs, states) := consider_all now dt ds [] (restStates g) in
  let g := mkRTk states now in
  match cs with
  | [] => (None, g)
  | _ =>
    if fle dt fzero then (None, g)
    else (Some (ApplyBoundedYawStep (FuseYawContributionsRad cs) dt (yaw_cap cs) * (d_of_Z 180 / d_pi)), g)
  end.
End RestTick.

(** ** TiltDiagnostic.h *)

Definition kSustainedTiltThresholdDeg : double := d_one.
Definition kHysteresisFraction : double := d_lit 1 2.
Definition kSustainedWindowSeconds : double := d_of_Z 60.
Definition kMinSamplesForDecision : nat := 30.

Record TiltSample := mkTilt { timestamp_s : double; tiltDeg : double }.

Definition MedianOverWindow (window : list TiltSample) (now_s : double) : double :=
  let cutoff := now_s - kSustainedWindowSeconds in
  let inWindow := map tiltDeg (filter (fun s => fge (timestamp_s s) cutoff = true) window) in
  if (length inWindow <? kMinSamplesForDecision)%nat then minus_one else nth_median inWindow.

(** The alarm, and the median. *)
Definition EvaluateTilt (window : list TiltSample) (now_s : double) (wasAlarmed : bool) : bool * double :=
  let medianDeg := MedianOverWindow window now_s in
  (if flt medianDeg fzero then wasAlarmed
   else if wasAlarmed then fge medianDeg (kSustainedTiltThresholdDeg * kHysteresisFraction)
   else fgt medianDeg kSustainedTiltThresholdDeg, medianDeg).

(** ** Theorems *)

Section RestProps.
Context `{Eigen} `{EigenMore} `{Libm} `{EigenSolver} `{EigenRot}.

(** One update of one tracker. *)
Record RestObs := mkObs { ob_rot : Quaterniond; ob_now : double; ob_dt : double }.

(** The states a tracker passes through since its entry was made; the time of a
    lock may be stamped. *)
Inductive rest_trace : list RestObs -> RestState -> Prop :=
| trace_nil : rest_trace [] rest_init
| trace_update l s o : rest_trace l s -> rest_trace (l ++ [o]) (UpdatePhase s (ob_rot o) (ob_now o) (ob_dt o))
| trace_stamp l s t : rest_trace l s -> haveLock s = true -> rest_trace l (s <| phaseEnteredAt := t |>).

Definition last_rot (l : list RestObs) : Quaterniond := match last l with Some o => ob_rot o | None => q_identity end.

(** No update of [l], the first after the orientation [prev], turned faster
    than the bound (something that is not a number did not). *)
Fixpoint slow_chain (prev : Quaterniond) (l : list RestObs) : Prop :=
  match l with
  | [] => True
  | o :: l => fgt (angular_speed prev (ob_rot o) (ob_dt o)) kRestEnterDegPerSec = false /\ slow_chain (ob_rot o) l
  end.

Lemma slow_chain_snoc prev l o :
  slow_chain prev (l ++ [o]) <->
  slow_chain prev l /\ fgt (angular_speed (match last l with Some x => ob_rot x | None => prev end) (ob_rot o) (ob_dt o))
                         kRestEnterDegPerSec = false.
Proof.
  revert prev. induction l as [|x l IH]; intros prev; cbn [app slow_chain last].
  - by split; intros [? ?].
  - rewrite IH. destruct l as [|y l]; [cbn [last]|change (last (x :: y :: l)) with (last (y :: l)); destruct (last (y :: l)) eqn:E; [|by apply last_None in E]];
      (split; [intros (Ha & Hb & Hc); exact (conj (conj Ha Hb) Hc)|intros ((Ha & Hb) & Hc); exact (conj Ha (conj Hb Hc))]).
Qed.

(** Slow from [o0] on to the end of [l]. *)
Definition resting (l : list RestObs) (o0 : RestObs) (pre post : list RestObs) : Prop :=
  l = pre ++ o0 :: post /\ slow_chain (last_rot pre) (o0 :: post).

Definition locked_at (l : list RestObs) (rot : Quaterniond) : Prop :=
  exists pre o0 mid o1 post, resting l o0 pre (mid ++ o1 :: post) /\
    fge (ob_now o1 - ob_now o0) kRestEnterSec = true /\ rot = ob_rot o1.

Definition phase_ok (l : list RestObs) (s : RestState) : Prop :=
  match phase s with
  | Moving => haveLock s = false
  | RecentlyAtRest => haveLock s = false /\
      exists pre o0 post, resting l o0 pre post /\ phaseEnteredAt s = ob_now o0
  | AtRest => haveLock s = true /\ locked_at l (lockedRot s)
  end.

Lemma last_rot_snoc l o : last_rot (l ++ [o]) = ob_rot o.
Proof. unfold last_rot. by rewrite last_snoc. Qed.

Lemma resting_snoc l o0 pre post o :
  resting l o0 pre post -> fgt (angular_speed (last_rot l) (ob_rot o) (ob_dt o)) kRestEnterDegPerSec = false ->
  resting (l ++ [o]) o0 pre (post ++ [o]).
Proof.
  intros [-> Hc] Ho. split; [by rewrite <-app_assoc|].
  change (o0 :: post ++ [o]) with ((o0 :: post) ++ [o]). apply slow_chain_snoc. split; [done|].
  unfold last_rot in Ho. rewrite last_app in Ho. revert Ho.
  destruct (last (o0 :: post)) eqn:E; [|by apply last_None in E]. exact id.
Qed.

Lemma trace_phase l s : rest_trace l s ->
  phase_ok l s /\ (if initialized s then lastRot s = last_rot l else l = [] /\ phase s = Moving).
Proof.
  induction 1 as [|l s o _ [IHp IHi]|l s t _ [IHp IHi] Hl]; [by repeat split| |].
  2:{ split; [|done]. revert IHp Hl. unfold phase_ok. cbn. intros Hp Hl.
      destruct (phase s); [congruence|destruct Hp; congruence|exact Hp]. }
  destruct s as [ph lr pe lk hl []]; cbn [initialized lastRot] in IHi; [|by split; [|cbn; rewrite last_rot_snoc]].
  unfold UpdatePhase. cbn [initialized negb lastRot]. rewrite IHi. destruct (fgt _ _) eqn:Ef.
  { split; [done|]. cbn. by rewrite last_rot_snoc. }
  unfold phase_ok in IHp. cbn [phase haveLock phaseEnteredAt lockedRot] in IHp.
  destruct ph.
  - split; [|cbn; by rewrite last_rot_snoc]. split; [done|]. exists l, o, []. split; [split; [done|by split]|done].
  - destruct IHp as (Hh & pre & o0 & post & Hr & Ht). pose proof (resting_snoc _ _ _ _ _ Hr Ef) as Hr'.
    cbv beta match. match goal with |- context [fge ?a ?b] => change (fge a b) with (fge (ob_now o - pe) kRestEnterSec) end.
    destruct (fge _ _) eqn:Eg; (split; [|cbn; by rewrite last_rot_snoc]).
    + split; [done|]. exists pre, o0, post, o, []. by rewrite <-Ht.
    + split; [done|]. by exists pre, o0, (post ++ [o]).
  - destruct IHp as (Hh & pre & o0 & mid & o1 & post & Hr & Ht). split; [|cbn; by rewrite last_rot_snoc].
    split; [done|]. exists pre, o0, mid, o1, (post ++ [o]). split; [|done]. apply (resting_snoc _ _ _ _ o) in Hr; [|done].
    by rewrite <-app_assoc in Hr.
Qed.
End RestProps.

Section RestTickProps.
Context `{Eigen} `{EigenMore} `{Libm} `{EigenSolver} `{EigenRot}.

Definition states_ok (m : gmap nat RestState) : Prop := map_Forall (fun _ s => exists l, rest_trace l s) m.

(** A contribution of a tick: a tracker with a usable pose, at rest up to this
    very tick, by its drift from the orientation it was locked at. *)
Definition contributes (now dt : double) (ds : list RestDevice) (c : YawContribution) : Prop :=
  exists d l rot, d ∈ ds /\ rd_ok d = true /\ last l = Some (mkObs (rd_rot d) now dt) /\ locked_at l rot /\
    yawErrRad c = SFopp (SignedYawDeltaRad rot (rd_rot d)) /\ yaw_cls c = ClassifyTrackingSystem (rd_system d).

Lemma consider_ok now dt d m c m' : states_ok m -> considerDevice now dt d m = (c, m') ->
  states_ok m' /\ (forall c', c = Some c' -> forall ds, d ∈ ds -> contributes now dt ds c').
Proof.
  intros Hm. unfold considerDevice. destruct (rd_ok d) eqn:Hok; cbn [negb].
  2:{ intros [= <- <-]. split; [|done]. by apply map_Forall_delete. }
  set (prior := default rest_init (m !! rd_id d)).
  assert (exists l, rest_trace l prior) as [l Hl].
  { unfold prior. destruct (m !! rd_id d) as [s|] eqn:E; [by apply (Hm (rd_id d))|]. exists []. constructor. }
  pose proof (trace_update _ _ (mkObs (rd_rot d) now dt) Hl) as Hs. cbn [ob_rot ob_now ob_dt] in Hs.
  set (s := UpdatePhase prior (rd_rot d) now dt) in *. destruct (trace_phase _ _ Hs) as [Hp _].
  destruct (bool_decide _ && haveLock s) eqn:E.
  - apply andb_true_iff in E as [E%bool_decide_eq_true Eh]. unfold phase_ok in Hp. rewrite E in Hp.
    destruct Hp as [_ Hlk]. intros [= <- <-]. split.
    + apply map_Forall_insert_2; [|done]. destruct (haveLock prior); eexists; [exact Hs|].
      by apply (trace_stamp _ _ now Hs).
    + intros c' [= <-] ds Hin. exists d, (l ++ [mkObs (rd_rot d) now dt]), (lockedRot s).
      split_and!; [done|done|by rewrite last_snoc|done| |done]. by destruct (haveLock prior).
  - intros [= <- <-]. split; [|done]. apply map_Forall_insert_2; [|done]. by eexists.
Qed.

Lemma consider_all_ok now dt all ds seen m : (forall d, d ∈ ds -> d ∈ all) -> states_ok m ->
  Forall (contributes now dt all) (consider_all now dt ds seen m).1 /\ states_ok (consider_all now dt ds seen m).2.
Proof.
  revert seen m. induction ds as [|d ds IH]; intros seen m Hin Hm; [done|]. cbn [consider_all].
  assert (forall d, d ∈ ds -> d ∈ all) as Hin' by (intros; apply Hin; by right).
  case_bool_decide; [by apply IH|]. destruct (considerDevice now dt d m) as [c m'] eqn:E.
  destruct (consider_ok _ _ _ _ _ _ Hm E) as [Hm' Hc]. destruct c as [c|]; [|by apply IH].
  specialize (IH (rd_id d :: seen) m' Hin' Hm'). destruct (consider_all now dt ds _ m') as [cs m''].
  cbn [fst snd] in *. split; [|by apply IH]. constructor; [|by apply IH]. apply Hc; [done|]. apply Hin. by left.
Qed.

Definition rest_run (ticks : list (double * list RestDevice)) : RestTick :=
  foldl (fun g '(now, ds) => (rest_yaw_step now ds g).2) rest_tick_init ticks.

Lemma rest_step_states now ds g : restStates (rest_yaw_step now ds g).2 =
  (consider_all now (if fgt (lastTickTime g) fzero then now - lastTickTime g else fzero) ds [] (restStates g)).2.
Proof. unfold rest_yaw_step. destruct (consider_all _ _ _ _ _) as [[|c cs] m]; [done|]. by destruct (fle _ _). Qed.

Lemma rest_run_ok ticks : states_ok (restStates (rest_run ticks)).
Proof.
  unfold rest_run. induction ticks as [|[now ds] ticks IH] using rev_ind; [apply map_Forall_empty|].
  rewrite foldl_snoc, rest_step_states. by apply (consider_all_ok _ _ ds).
Qed.

(** The cap is one of the class caps or the ceiling. *)
Lemma yaw_cap_finite cs : exists m e, yaw_cap cs = S754_finite false m e /\ fle (yaw_cap cs) global_ceiling_deg_per_sec = true /\
  (forall rate, rate = d_pi / d_of_Z 180 -> exists m' e', yaw_cap cs * rate = S754_finite false m' e').
Proof.
  assert (yaw_cap cs ∈ [global_ceiling_deg_per_sec; d_lit 5 100; d_lit 15 100; d_lit 30 100]) as Hin.
  { unfold yaw_cap. induction cs as [|c l IH] using rev_ind; [left|]. rewrite foldl_snoc. destruct (flt _ _); [|exact IH].
    assert (CapForClass (yaw_cls c) = class_cap (yaw_cls c)) as -> by (destruct (yaw_cls c); vm_compute; reflexivity).
    destruct (yaw_cls c); unfold class_cap; [do 2 right; left|right; left|do 2 right; left|do 3 right; left]. }
  assert (forall x, x ∈ [global_ceiling_deg_per_sec; d_lit 5 100; d_lit 15 100; d_lit 30 100] ->
    exists m e, x = S754_finite false m e /\ fle x global_ceiling_deg_per_sec = true /\
      (forall rate, rate = d_pi / d_of_Z 180 -> exists m' e', x * rate = S754_finite false m' e')) as Hall; [|by apply Hall].
  intros x Hx. repeat (apply list.elem_of_cons in Hx as [->|Hx]); [..|by apply not_elem_of_nil in Hx];
    (do 2 eexists; split_and!; [vm_compute; reflexivity|vm_compute; reflexivity|];
     intros ? ->; do 2 eexists; vm_compute; reflexivity).
Qed.

Definition caps : list double := [global_ceiling_deg_per_sec; d_lit 5 100; d_lit 15 100; d_lit 30 100].

Lemma caps_not_nan x : x ∈ caps -> is_nan x = false.
Proof. intros Hx. repeat (apply list.elem_of_cons in Hx as [->|Hx]); [vm_compute; reflexivity..|by apply not_elem_of_nil in Hx]. Qed.

Lemma class_cap_caps c : CapForClass c ∈ caps /\ fle (CapForClass c) (class_cap c) = true.
Proof.
  split; [|by destruct c; vm_compute].
  assert (CapForClass c = class_cap c) as -> by (destruct c; vm_compute; reflexivity).
  destruct c; unfold class_cap; [do 2 right; left|right; left|do 2 right; left|do 3 right; left].
Qed.

(** The cap is the least of the ceiling and the caps of the classes. *)
Definition least_cap (cs : list YawContribution) (cap : double) : Prop :=
  fle cap global_ceiling_deg_per_sec = true /\ (forall c, c ∈ cs -> fle cap (CapForClass (yaw_cls c)) = true) /\
  (cap = global_ceiling_deg_per_sec \/ exists c, c ∈ cs /\ cap = CapForClass (yaw_cls c)).

Lemma yaw_cap_least cs : least_cap cs (yaw_cap cs) /\ yaw_cap cs ∈ caps.
Proof.
  unfold yaw_cap. induction cs as [|c cs [(L1 & L2 & L3) L4]] using rev_ind.
  { split; [split_and!; [vm_compute; reflexivity|by intros c Hc%not_elem_of_nil|by left]|left]. }
  rewrite foldl_snoc. cbv zeta. set (cap := foldl _ _ cs) in *. destruct (class_cap_caps (yaw_cls c)) as [K1 _].
  set (k := CapForClass (yaw_cls c)) in *. pose proof (caps_not_nan _ K1) as Nk. pose proof (caps_not_nan _ L4) as Nc.
  destruct (flt k cap) eqn:E.
  - pose proof (flt_fle _ _ E) as Hle. split; [|done]. split_and!.
    + by eapply fle_trans.
    + intros x [Hx|Hx%list_elem_of_singleton]%elem_of_app; [eapply fle_trans; [exact Hle|by apply L2]|subst x; by apply fle_refl].
    + right. exists c. split; [|done]. apply elem_of_app. right. by apply list_elem_of_singleton.
  - split; [|done]. split_and!; [done| |].
    + intros x [Hx|Hx%list_elem_of_singleton]%elem_of_app; [by apply L2|subst x; by apply flt_false_fle].
    + destruct L3 as [L3|(x & Hx & L3)]; [by left|]. right. exists x. split; [|done]. apply elem_of_app. by left.
Qed.

(** The drift itself within the cap, else the cap with the drift's sign. *)
Lemma bounded_step mean dt cap :
  let capRad := cap * (d_pi / d_of_Z 180) * dt in
  let r := ApplyBoundedYawStep mean dt cap in
  nonneg capRad = true ->
  (is_nan mean = true -> r = mean) /\
  (flt capRad mean = true -> r = capRad) /\ (flt mean (SFopp capRad) = true -> r = SFopp capRad) /\
  (fle (SFopp capRad) mean = true -> fle mean capRad = true -> r = mean) /\
  (is_nan mean = false -> fle (SFabs r) capRad = true).
Proof.
  intros capRad r Hc. pose proof (nonneg_not_nan _ Hc) as Hn. subst r. unfold ApplyBoundedYawStep. fold capRad. cbv zeta.
  unfold fgt. change (SFltb capRad mean) with (flt capRad mean).
  assert (is_nan (SFopp capRad) = false) as Hno by by destruct capRad. split_and!.
  - intros Hm. by rewrite flt_nan_r, flt_nan_l by done.
  - by intros ->.
  - intros Hlt. rewrite Hlt. pose proof (flt_asym _ _ (flt_fle_trans _ _ _ Hlt (nonneg_opp_le _ Hc))) as Ha.
    destruct (flt capRad mean) eqn:E; [|done]. apply flt_fle in E. congruence.
  - intros Hlo Hhi. destruct (fle_not_nan _ _ Hhi) as [Hm _].
    by rewrite (flt_negb capRad mean), (flt_negb mean (SFopp capRad)), Hlo, Hhi by done.
  - intros Hm. destruct (flt capRad mean) eqn:E1; [apply abs_fle; [by apply fle_refl|by apply nonneg_opp_le]|].
    destruct (flt mean (SFopp capRad)) eqn:E2; [apply abs_fle; [by apply nonneg_opp_le|by apply fle_refl]|].
    by apply abs_fle; apply flt_false_fle.
Qed.

End RestTickProps.

(** ** Witness *)

#[export] Instance rot_sample : EigenRot := {|
  q_dot a b := q_w a * q_w b + q_x a * q_x b + q_y a * q_y b + q_z a * q_z b;
  m_eulerAngles210 _ := v_zero |}.

#[local] Existing Instances eigen_sample libm_sample solver_sample.

(** One lighthouse tracker that does not move. *)
Definition still_tracker : list RestDevice := [mkRD 3 true q_identity (str "lighthouse")].
Definition still_ticks : list (double * list RestDevice) := [(d_of_Z 1, still_tracker); (d_of_Z 2, still_tracker)].

