(* ===== verification/CalibContext.v ===== *)
(** * The calibration context (modules/calibration/src/overlay/Calibration.h,
      Calibration.cpp, VRState.cpp, core/src/overlay/DeviceFilters.cpp)

    What the overlay keeps between ticks, as one record over the overlay's send
    caches (CalibScan.v) and the calculator (CalibCalc.v); the steps of a tick
    as a state monad whose steps may return from the tick or throw; the device
    list, the poses, sample collection with its paired-motion, latency and
    rigidity windows, the buffer size, and starting and ending a calibration.
    Log lines are left out; saving the profile is recorded with what was saved. *)

From S2P Require Import Prelude Floats Shmem Isometry FallbackTable InputConfig PoseProvider Driver Detectors Filters CalibSolve CalibCalc CalibRest CalibScan.
From stdpp Require Import gmap.
Open Scope fl_scope.

(** ** Devices *)

Record StandbyDevice := mkStandby { sb_trackingSystem : list byte; sb_model : list byte; sb_serial : list byte }.

(** [vr::DriverPose_t] with its tracking result. *)
Record DevPose := mkDevPose { dv_pose : DriverPose; dv_result : Z }.
Definition Running_OK : Z := 200.
Definition zero_q : Quaterniond := Q4 fzero fzero fzero fzero.
(** As [memset] leaves it. *)
Definition zero_pose : DevPose :=
  mkDevPose (mkDP fzero zero_q v_zero zero_q v_zero v_zero v_zero v_zero v_zero false false) 0.

Definition pose_ok (d : DevPose) : bool := poseIsValid (dv_pose d) && (dv_result d =? Running_OK)%Z.
Definition pose_live (d : DevPose) : bool :=
  poseIsValid (dv_pose d) && PoseProvider.deviceIsConnected (dv_pose d) && (dv_result d =? Running_OK)%Z.

Record AugmentedPose := mkAugPose { ap_deviceId : Z; ap_sample_time : Z; ap_pose : DevPose }.

(** What one call of a tick or of a button finds around it. *)
Record Env := mkEnv {
  e_vrReady : bool;                        (* vr::VRSystem() *)
  e_time : double; e_now : double;         (* the tick's argument, and glfwGetTime *)
  e_vr : VR; e_role : nat -> Z;            (* controller roles *)
  e_answered : nat -> bool;                (* the driver *)
  e_newPoses : option (list AugmentedPose); (* None: the segment is not open *)
  e_errSeries : list (double * double);    (* Metrics::error_currentCal *)
  e_qpcFreq : Z;
  e_axes : Z -> float * float }.           (* trackpad and trigger of a controller *)

(** ** Settings: what the user sets and a tick only reads *)

Inductive LockMode := LockOff | LockOn | LockAuto.
Inductive Speed := FAST | SLOW | VERY_SLOW | AUTO.
#[export] Instance Speed_eqdec : EqDecision Speed.
Proof. solve_decision. Defined.

Record Settings := mkSettings {
  referenceStandby : StandbyDevice; targetStandby : StandbyDevice;
  lockRelativePositionMode : LockMode; calibrationSpeed : Speed; jitterThreshold : float;
  requireTriggerPressToApply : bool; ignoreOutliers : bool; enableStaticRecalibration : bool;
  continuousCalibrationThreshold : float; maxRelativeErrorThreshold : float;
  continuousCalibrationOffset : Vector3d;
  targetLatencyOffsetMs : double; latencyAutoDetect : bool; useGccPhatLatency : bool;
  useCusumGeometryShift : bool; useVelocityAware : bool; useTukey : bool; useBlendFilter : bool;
  useLegacy : bool; useUpstream : bool;
  restLockedYawEnabled : bool; predictiveRecoveryEnabled : bool; reanchorChiSquareEnabled : bool;
  baseStationDriftCorrectionEnabled : bool; calibrationPaused : bool }.

(** ** State *)

(** The windows sample collection feeds. *)
Record Sampling := mkSampling {
  pairedMotionPosSeeded : bool; pairedMotionPrevRefPos : Vector3d; pairedMotionPrevTgtPos : Vector3d;
  pairedMotionMismatchCount : Z;
  refSpeedHistory : list double; targetSpeedHistory : list double; speedSampleTimes : list double;
  autoLockHistory : list Affine; autoLockEffectivelyLocked : bool;
  jitterRef_last : double; jitterTarget_last : double }.

#[export] Instance sampling_settable : Settable Sampling := fun s =>
  mkSampling (pairedMotionPosSeeded s) (pairedMotionPrevRefPos s) (pairedMotionPrevTgtPos s) (pairedMotionMismatchCount s)
    (refSpeedHistory s) (targetSpeedHistory s) (speedSampleTimes s) (autoLockHistory s) (autoLockEffectivelyLocked s)
    (jitterRef_last s) (jitterTarget_last s).

(** The function statics of [ResolvedCalibrationSpeed]. *)
Record SpeedSel := mkSpeed { s_lastResolved : Speed; s_pendingResolved : Speed; s_pendingTicks : Z }.

(** The part of [AdditionalCalibration] the scan does not read. *)
Record ExtraRun := mkExtraRun {
  xr_referenceID : Z; xr_targetID : Z; xr_calc : Calc; xr_lockMode : Z;
  xr_refToTargetPose : Affine; xr_relativePosCalibrated : bool;
  xr_autoLockHistory : list Affine; xr_autoLocked : bool; xr_lockRelativePosition : bool }.

#[export] Instance extrarun_settable : Settable ExtraRun := fun s =>
  mkExtraRun (xr_referenceID s) (xr_targetID s) (xr_calc s) (xr_lockMode s) (xr_refToTargetPose s)
    (xr_relativePosCalibrated s) (xr_autoLockHistory s) (xr_autoLocked s) (xr_lockRelativePosition s).

Record AutoRecoverySnapshot := mkSnap {
  sn_valid : bool; sn_refToTargetPose : Affine; sn_relativePosCalibrated : bool; sn_hasApplied : bool }.

Record RelocState := mkReloc {
  havePrevHmd : bool; prevHmd : Affine; hmdTrackingSystem : list byte; prevBodyTrans : gmap nat Vector3d;
  rl_lastFireTime : double; lastFireDelta : Vector3d; lastFireRotRad : double;
  lastAutoRecoverTime : double; lastHmdInvalidTime : double;
  snapshot : AutoRecoverySnapshot; autoRecoverBannerDismissed : bool }.

#[export] Instance reloc_settable : Settable RelocState := fun s =>
  mkReloc (havePrevHmd s) (prevHmd s) (hmdTrackingSystem s) (prevBodyTrans s) (rl_lastFireTime s) (lastFireDelta s)
    (lastFireRotRad s) (lastAutoRecoverTime s) (lastHmdInvalidTime s) (snapshot s) (autoRecoverBannerDismissed s).

Record BaseStations := mkBases {
  baseStationCache : gmap (list byte) (list byte * Affine); lastBaseStationShiftAcceptedTime : double }.

Record Tilt := mkTiltState {
  tiltDiagnosticWindow : list TiltSample; tiltSustainedAlarmed : bool; tiltLastAnnotatedMedian : double }.

Record Cal := mkCal {
  ov : Overlay; calc : Calc; opts : Settings;
  referenceID : Z; controllerIDs : list Z;
  timeLastTick : double; timeLastScan : double; timeLastAssign : double; timeLastLatencyEstimate : double;
  wantedUpdateInterval : double;
  wasWaitingForTriggers : bool; hasAppliedCalibrationResult : bool;
  hmdPrev : float * float * float; consecutiveHmdStalls : Z;
  smp : Sampling; speed : SpeedSel; estimatedLatencyOffsetMs : double;
  lockRelativePosition : bool; refToTargetPose : Affine; relativePosCalibrated : bool;
  devicePoses : list DevPose; devicePoseSampleTimes : list Z;
  geo : GeometryTick; gate : LivenessGate; reanchor : ReanchorTick; recovery : Buffer; predictiveLast : double;
  rest : RestTick; reloc : RelocState; bases : BaseStations; tilt : Tilt;
  extras : list ExtraRun; saves : list Profile }.

#[export] Instance cal_settable : Settable Cal := fun c =>
  mkCal (ov c) (calc c) (opts c) (referenceID c) (controllerIDs c) (timeLastTick c) (timeLastScan c) (timeLastAssign c)
    (timeLastLatencyEstimate c) (wantedUpdateInterval c) (wasWaitingForTriggers c) (hasAppliedCalibrationResult c)
    (hmdPrev c) (consecutiveHmdStalls c) (smp c) (speed c) (estimatedLatencyOffsetMs c) (lockRelativePosition c)
    (refToTargetPose c) (relativePosCalibrated c) (devicePoses c) (devicePoseSampleTimes c) (geo c) (gate c) (reanchor c)
    (recovery c) (predictiveLast c) (rest c) (reloc c) (bases c) (tilt c) (extras c) (saves c).

Definition prof (c : Cal) : Profile := ctx (ov c).
Definition set_prof (f : Profile -> Profile) (c : Cal) : Cal := c <| ov ::= fun o => o <| ctx ::= f |> |>.
Definition state (c : Cal) : CalibrationState := c_state (prof c).
Definition set_state (s : CalibrationState) (c : Cal) : Cal := set_prof (fun p => p <| c_state := s |>) c.
Definition targetID (c : Cal) : Z := c_targetID (prof c).
Definition pose_at (c : Cal) (id : Z) : DevPose := default zero_pose (devicePoses c !! Z.to_nat id).

Definition in_continuous (s : CalibrationState) : bool := bool_decide (s = StContinuous \/ s = StContinuousStandby).
Definition in_oneshot (s : CalibrationState) : bool := bool_decide (s = StBegin \/ s = StRotation \/ s = StTranslation).

(** *** Initial values *)

Definition MAX_CONTROLLERS : nat := 8.
Definition sampling_init : Sampling := mkSampling false v_zero v_zero 0 [] [] [] [] false fzero fzero.
Definition speed_init : SpeedSel := mkSpeed SLOW SLOW 0.
Definition gate_init : LivenessGate := mkGate live_init live_init false false.
Definition reloc_init : RelocState :=
  mkReloc false aff_identity [] ∅ neg_1e9 v_zero fzero neg_1e9 neg_1e9 (mkSnap false aff_identity false false) false.

Definition cal_init (p : Profile) (s : Settings) : Cal :=
  mkCal (overlay_init p) calc_init s (-1) (replicate MAX_CONTROLLERS 0%Z) fzero fzero fzero fzero d_one false false
    (fzero, fzero, fzero) 0 sampling_init speed_init fzero false aff_identity false
    (replicate k_unMaxTrackedDeviceCount zero_pose) (replicate k_unMaxTrackedDeviceCount 0%Z)
    geometry_init gate_init (mkRT det_init minus_one) buf_init minus_one rest_tick_init reloc_init
    (mkBases ∅ neg_1e9) (mkTiltState [] false minus_one) [] [].

(** ** Steps of a tick *)

Inductive exit := Returned | Threw.
Definition T (A : Type) : Type := Cal -> (exit + A) * Cal.

#[export] Instance T_ret : MRet T := fun A a c => (inr a, c).
#[export] Instance T_bind : MBind T := fun A B k m c =>
  match m c with
  | (inr a, c) => k a c
  | (inl x, c) => (inl x, c)
  end.
Definition asks {A} (f : Cal -> A) : T A := fun c => (inr (f c), c).
Definition put (f : Cal -> Cal) : T unit := fun c => (inr tt, f c).
Definition leave {A} : T A := fun c => (inl Returned, c).
Definition throw {A} : T A := fun c => (inl Threw, c).
Definition only (b : bool) (m : T unit) : T unit := if b then m else mret tt.
(** A step that cannot fail, with an answer. *)
Definition run_step {A} (f : Cal -> A * Cal) : T A := fun c => let '(a, c) := f c in (inr a, c).

(** ** The device list (DeviceFilters.cpp, VRState.cpp) *)

Definition LowerAscii (s : list byte) : list byte := map byte_lower s.
Definition EqualsNoCase (a b : list byte) : bool := bool_decide (LowerAscii a = LowerAscii b).
Definition ContainsNoCase (haystack needle : list byte) : bool := contains (LowerAscii needle) (LowerAscii haystack).

Definition IsFaceTrackingSink (serial model : list byte) : bool :=
  EqualsNoCase serial (str "OpenVRPair-FaceTracking-Sink") || EqualsNoCase serial (str "WKOpenVR-FaceTracking-Sink") ||
  ((ContainsNoCase serial (str "openvrpair") || ContainsNoCase serial (str "wkopenvr") ||
    ContainsNoCase model (str "openvrpair") || ContainsNoCase model (str "wkopenvr")) &&
   (ContainsNoCase serial (str "facetracking-sink") || ContainsNoCase model (str "facetracking-sink"))).

Definition IsUserPoseDeviceClass (c : DeviceClass) : bool :=
  match c with DeviceHMD | DeviceController | DeviceTracker => true | _ => false end.

Definition ShouldShowInCalibrationDeviceList (c : DeviceClass) (serial model : list byte) : bool :=
  IsUserPoseDeviceClass c && negb (IsFaceTrackingSink serial model).

Record VRDevice := mkVRDevice {
  vd_id : Z; vd_class : DeviceClass; vd_model : list byte; vd_serial : list byte;
  vd_trackingSystem : list byte; vd_role : Z }.

Record VRState := mkVRState { trackingSystems : list (list byte); devices : list VRDevice }.

(** The headset's system comes first. *)
Definition add_system (cls : DeviceClass) (system : list byte) (l : list (list byte)) : list (list byte) :=
  if bool_decide (system ∈ l) then
    if bool_decide (cls = DeviceHMD) then system :: list_difference l [system] else l
  else l ++ [system].

Definition load_system (vr : VR) (id : nat) (system : list byte) : list byte :=
  if bool_decide (GetTrackedDeviceClass vr id = DeviceHMD) && bool_decide (system = str "aapvr") then hmd_system vr system
  else device_system vr id system.

Definition load_device (vr : VR) (role : nat -> Z) (s : VRState) (id : nat) : VRState :=
  let cls := GetTrackedDeviceClass vr id in
  if bool_decide (cls = DeviceInvalid) || bool_decide (cls = DeviceReference) then s else
  let '(ok, buf) := GetString vr id TrackingSystemName in
  if negb ok then s else
  let d := mkVRDevice (Z.of_nat id) cls (cstr (GetString vr id ModelNumber).2) (cstr (GetString vr id SerialNumber).2)
             (load_system vr id (cstr buf)) (role id) in
  if negb (ShouldShowInCalibrationDeviceList cls (vd_serial d) (vd_model d)) then s else
  mkVRState (add_system cls (vd_trackingSystem d) (trackingSystems s)) (devices s ++ [d]).

Definition Load (vrReady : bool) (vr : VR) (role : nat -> Z) : VRState :=
  if negb vrReady then mkVRState [] [] else foldl (load_device vr role) (mkVRState [] []) device_ids.

Definition device_matches (sb : StandbyDevice) (d : VRDevice) : bool :=
  let model := bool_decide (vd_model d = sb_model sb) in
  let serial := bool_decide (vd_serial d = sb_serial sb) in
  bool_decide (vd_trackingSystem d = sb_trackingSystem sb) &&
  (if bool_decide (vd_class d = DeviceHMD) then model || serial else model && serial).

Definition FindDevice (s : VRState) (sb : StandbyDevice) : Z :=
  match filter (fun d => device_matches sb d = true) (devices s) with d :: _ => vd_id d | [] => (-1)%Z end.

Definition k_LeftHand : Z := 1.
Definition k_RightHand : Z := 2.

Definition controller_at (s : VRState) (system : list byte) (i : nat) : Z :=
  match devices s !! i with
  | Some d =>
    if bool_decide (vd_trackingSystem d = system) && bool_decide (vd_class d = DeviceController) &&
       ((vd_role d =? k_LeftHand)%Z || (vd_role d =? k_RightHand)%Z)
    then vd_id d else (-1)%Z
  | None => (-1)%Z
  end.

(** The answer: both devices are known. *)
Definition AssignTargets (e : Env) (c : Cal) : bool * Cal :=
  let s := Load (e_vrReady e) (e_vr e) (e_role e) in
  let c := if (referenceID c <? 0)%Z then c <| referenceID := FindDevice s (referenceStandby (opts c)) |> else c in
  let c := if (targetID c <? 0)%Z
           then set_prof (fun p => p <| c_targetID := FindDevice s (targetStandby (opts c)) |>) c else c in
  let c := c <| controllerIDs := map (controller_at s (c_targetTrackingSystem (prof c))) (seq 0 MAX_CONTROLLERS) |> in
  ((0 <=? referenceID c)%Z && (0 <=? targetID c)%Z, c).

(** ** Poses *)

(** [vr::HmdQuaternion_t operator*] *)
Definition hq_mul (a b : Quaterniond) : Quaterniond :=
  Q4 (q_w a * q_w b - q_x a * q_x b - q_y a * q_y b - q_z a * q_z b)
     (q_w a * q_x b + q_x a * q_w b + q_y a * q_z b - q_z a * q_y b)
     (q_w a * q_y b + q_y a * q_w b + q_z a * q_x b - q_x a * q_z b)
     (q_w a * q_z b + q_z a * q_w b + q_x a * q_y b - q_y a * q_x b).

Definition maxLinearMps : double := d_of_Z 50.
Definition maxAngularRadps : double := d_of_Z 50.

(** [std::sqrt] of the sum of the squares. *)
Definition plain_norm (v : Vector3d) : double := d_sqrt (v_x v * v_x v + v_y v * v_y v + v_z v * v_z v).

Definition velocity_plausible (v w : double) : bool :=
  isfinite v && isfinite w && negb (fgt (SFabs v) maxLinearMps) && negb (fgt (SFabs w) maxAngularRadps).

Definition speedFromVel (v : Vector3d) : double := let s := plain_norm v in if isfinite s then s else fzero.

(** The bits of a double. *)
Class DoubleBits := { bits_of : double -> Z }.

Definition HashPositionLow64 `{DoubleBits} (v : Vector3d) : Z :=
  Z.lxor (Z.lxor (bits_of (v_x v)) ((bits_of (v_y v) * 0x9E3779B97F4A7C15) mod 2 ^ 64))
         ((bits_of (v_z v) * 0xC2B2AE3D27D4EB4F) mod 2 ^ 64).

Section Context_.
Context `{Eigen} `{EigenMore} `{Libm} `{EigenSolver}.

Definition ConvertPose (p : DriverPose) : Pose :=
  let driverRot := q_normalized (q_mul (qWorldFromDriverRotation p) (qRotation p)) in
  let driverPos := v_add (vecWorldFromDriverTranslation p) (q_rotate (qWorldFromDriverRotation p) (vecPosition p)) in
  mkPose (aff_rotation (mkAff (m_of_quat driverRot) driverPos)) driverPos.

(** The pose, moved by its velocities; unchanged when they are implausible. *)
Definition ExtrapolateReferencePose (p : DriverPose) (dtSeconds : double) : bool * DriverPose :=
  if feq dtSeconds fzero then (true, p) else
  let v := vecVelocity p in let w := vecAngularVelocity p in
  if negb (velocity_plausible (v_x v) (v_x w) && velocity_plausible (v_y v) (v_y w) && velocity_plausible (v_z v) (v_z w))
  then (false, p) else
  let p := p <| vecPosition ::= fun x =>
    V3 (v_x x + v_x v * dtSeconds) (v_y x + v_y v * dtSeconds) (v_z x + v_z v * dtSeconds) |> in
  let angSpeed := plain_norm w in
  if fgt angSpeed (d_lit 1 1000000000) then
    let half := angSpeed * dtSeconds * d_lit 1 2 in
    let s := m_sin half in
    let deltaQ := Q4 (m_cos half) (v_x w / angSpeed * s) (v_y w / angSpeed * s) (v_z w / angSpeed * s) in
    (true, p <| qRotation ::= hq_mul deltaQ |>)
  else (true, p).

(** ** The auto-lock detector *)

Definition kAutoLockHistoryMax : nat := 30.
Definition kAutoLockSamplesNeeded : nat := 30.
Definition kAutoLockTranslThreshM : double := d_lit 5 1000.
Definition kAutoLockRotThreshRad : double := d_one * d_pi / d_of_Z 180.

(** [pop_front] while longer than [n]. *)
Definition keep_last {A} (n : nat) (l : list A) : list A := drop (length l - n) l.

(** The pair moves as one: the spread of the translations and the largest turn
    from the middle sample. *)
Definition rigid (history : list Affine) : bool :=
  let n := d_of_Z (Z.of_nat (length history)) in
  let meanT := v_div (foldl (fun acc a => v_add acc (aff_translation a)) v_zero history) n in
  let translVar := foldl (fun acc a => acc + v_sqnorm (v_sub (aff_translation a) meanT)) fzero history / n in
  let medianQ := q_of_matrix (aff_rotation (nth (length history / 2)%nat history aff_identity)) in
  let rotMaxAngle := foldl (fun m a =>
    let angle := q_angularDistance medianQ (q_of_matrix (aff_rotation a)) in if fgt angle m then angle else m) fzero history in
  flt (d_sqrt translVar) kAutoLockTranslThreshM && flt rotMaxAngle kAutoLockRotThreshRad.

Definition relative_pose (refWorld targetWorld : Affine) : Affine := h_mul (h_inverse refWorld) targetWorld.

Definition UpdateAutoLockDetector (refWorld targetWorld : Affine) (s : Sampling) : Sampling :=
  let history := keep_last kAutoLockHistoryMax (autoLockHistory s ++ [relative_pose refWorld targetWorld]) in
  s <| autoLockHistory := history |>
    <| autoLockEffectivelyLocked := negb (length history <? kAutoLockSamplesNeeded)%nat && rigid history |>.

Definition ResolveLockMode (c : Cal) : Cal :=
  c <| lockRelativePosition :=
    match lockRelativePositionMode (opts c) with
    | LockOff => false
    | LockOn => true
    | LockAuto => autoLockEffectivelyLocked (smp c)
    end |>.
End Context_.

(** ** Collecting a sample *)

Definition kLatencyHistoryCapacity : nat := 100.
Definition kPairedMotionDeltaMeters : double := d_lit 2 1000.
Definition kPairedMotionMismatchMax : Z := 30.

Definition GetActiveLatencyOffsetMs (c : Cal) : double :=
  if useUpstream (opts c) then fzero
  else if latencyAutoDetect (opts c) then estimatedLatencyOffsetMs c else targetLatencyOffsetMs (opts c).

Definition sample_time (c : Cal) (id : Z) : Z := default 0%Z (devicePoseSampleTimes c !! Z.to_nat id).

Section Collect.
Context `{Eigen} `{EigenMore} `{Libm} `{EigenSolver}.

(** The reference as the sample takes it: with the manual offset in continuous
    mode, and moved to the time of the target. *)
Definition sampled_reference (e : Env) (c : Cal) : DriverPose :=
  let p := dv_pose (pose_at c (referenceID c)) in
  let off := continuousCalibrationOffset (opts c) in
  let p := if in_continuous (state c)
           then p <| vecPosition ::= fun x => V3 (v_x x + v_x off) (v_y x + v_y off) (v_z x + v_z off) |> else p in
  let activeOffsetMs := GetActiveLatencyOffsetMs c in
  if negb (feq activeOffsetMs fzero) && negb (sample_time c (referenceID c) =? 0)%Z && negb (sample_time c (targetID c) =? 0)%Z
  then
    let shmemDeltaSec := d_of_Z (sample_time c (targetID c) - sample_time c (referenceID c)) / d_of_Z (e_qpcFreq e) in
    (ExtrapolateReferencePose p (shmemDeltaSec - activeOffsetMs / d_of_Z 1000)).2
  else p.

(** Whether exactly one of the two moved since the last sample. *)
Definition paired_motion (refPos tgtPos : Vector3d) (s : Sampling) : bool * Sampling :=
  let keep s := s <| pairedMotionPrevRefPos := refPos |> <| pairedMotionPrevTgtPos := tgtPos |> in
  if negb (pairedMotionPosSeeded s) then (true, (keep s) <| pairedMotionPosSeeded := true |>) else
  let refMoved := fgt (v_norm (v_sub refPos (pairedMotionPrevRefPos s))) kPairedMotionDeltaMeters in
  let tgtMoved := fgt (v_norm (v_sub tgtPos (pairedMotionPrevTgtPos s))) kPairedMotionDeltaMeters in
  if negb (Bool.eqb refMoved tgtMoved)
  then (false, keep (s <| pairedMotionMismatchCount ::= fun n => Z.min (n + 1) kPairedMotionMismatchMax |>))
  else (true, keep (s <| pairedMotionMismatchCount ::= fun n => if (0 <? n)%Z then (n - 1)%Z else n |>)).

Definition push_speeds (refSpeed tgtSpeed now : double) (s : Sampling) : Sampling :=
  s <| refSpeedHistory ::= fun l => keep_last kLatencyHistoryCapacity (l ++ [refSpeed]) |>
    <| targetSpeedHistory ::= fun l => keep_last kLatencyHistoryCapacity (l ++ [tgtSpeed]) |>
    <| speedSampleTimes ::= fun l => keep_last kLatencyHistoryCapacity (l ++ [now]) |>.

Definition push_jitter (k : Calc) (s : Sampling) : Sampling :=
  if (2 <=? CalibCalc.SampleCount k)%nat
  then s <| jitterRef_last := ReferenceJitter (m_samples k) |> <| jitterTarget_last := TargetJitter (m_samples k) |> else s.

Definition CollectSample (e : Env) (c : Cal) : bool * Cal :=
  let rp := pose_at c (referenceID c) in let tp := pose_at c (targetID c) in
  if negb (pose_ok rp && pose_ok tp) then
    (false, if bool_decide (state c = StContinuous) then c else set_state StNone c)
  else
    let reference := sampled_reference e c in
    let refSpeed := speedFromVel (vecVelocity (dv_pose rp)) in
    let tgtSpeed := speedFromVel (vecVelocity (dv_pose tp)) in
    let refPose := ConvertPose reference in let tgtPose := ConvertPose (dv_pose tp) in
    let s := push_speeds refSpeed tgtSpeed (e_now e) (smp c) in
    let '(paired, s) := paired_motion (p_trans refPose) (p_trans tgtPose) s in
    let k := PushSample (mkSmp refPose tgtPose true (e_now e) refSpeed tgtSpeed paired) (calc c) in
    let s := UpdateAutoLockDetector (ToAffine refPose) (ToAffine tgtPose) s in
    (true, c <| calc := k |> <| smp := push_jitter k s |>).
End Collect.

(** ** The size of the buffer *)

Definition kRequiredStableTicks : Z := 5.
Definition kFastThreshold : double := d_lit 5 1000.
Definition kSlowThreshold : double := d_lit 10 1000.

Definition speed_candidate (jRef jTgt : double) : Speed :=
  let j := std_max jRef jTgt in
  if fle j fzero || flt j kFastThreshold then FAST else if flt j kSlowThreshold then SLOW else VERY_SLOW.

Definition speed_tick (candidate : Speed) (s : SpeedSel) : SpeedSel :=
  if bool_decide (candidate = s_lastResolved s) then mkSpeed (s_lastResolved s) candidate 0
  else if bool_decide (candidate = s_pendingResolved s) then
    if (kRequiredStableTicks <=? s_pendingTicks s + 1)%Z then mkSpeed candidate (s_pendingResolved s) 0
    else mkSpeed (s_lastResolved s) (s_pendingResolved s) (s_pendingTicks s + 1)
  else mkSpeed (s_lastResolved s) candidate 1.

Definition ResolvedCalibrationSpeed (c : Cal) : Speed * Cal :=
  if negb (bool_decide (calibrationSpeed (opts c) = AUTO)) then (calibrationSpeed (opts c), c)
  else if negb (in_continuous (state c)) then (FAST, c)
  else
    let s := speed_tick (speed_candidate (jitterRef_last (smp c)) (jitterTarget_last (smp c))) (speed c) in
    (s_lastResolved s, c <| speed := s |>).

Definition speed_samples (s : Speed) : nat :=
  match s with FAST => 30 | SLOW => 100 | VERY_SLOW => 200 | AUTO => 30 end.

(** Every call evaluates the speed anew. *)
Definition SampleCount : T nat := run_step (fun c => let '(s, c) := ResolvedCalibrationSpeed c in (speed_samples s, c)).

(** [while (count(c) > SampleCount()) shift]: the buffer shrinks on every turn. *)
Fixpoint shift_down (fuel : nat) (count : Cal -> nat) (shift : Cal -> Cal) : T unit :=
  match fuel with
  | O => mret tt
  | Datatypes.S fuel =>
    n ← SampleCount;
    have ← asks count;
    if (n <? have)%nat then put shift ;; shift_down fuel count shift else mret tt
  end.

(** ** Starting and ending *)

Definition StartCalibration (e : Env) (c : Cal) : Cal :=
  let c := c <| hasAppliedCalibrationResult := false |> in
  let c := (AssignTargets e c).2 in
  let c := (set_state StBegin c) <| wantedUpdateInterval := fzero |> <| calc ::= Clear |> in
  c <| smp ::= fun s => s <| pairedMotionPosSeeded := false |> <| pairedMotionMismatchCount := 0%Z |>
                          <| pairedMotionPrevRefPos := v_zero |> <| pairedMotionPrevTgtPos := v_zero |> |>.

Definition StartContinuousCalibration (e : Env) (c : Cal) : Cal :=
  let c := c <| hasAppliedCalibrationResult := false |> in
  let c := (AssignTargets e c).2 in
  let c := set_state StContinuous (StartCalibration e c) in
  c <| calc ::= setRelativeTransformation (refToTargetPose c) (relativePosCalibrated c) |>
    <| gate := gate_init |>.

Definition SaveProfile (c : Cal) : Cal := c <| saves ::= fun l => l ++ [prof c] |>.

Definition EndContinuousCalibration (c : Cal) : Cal :=
  SaveProfile ((set_state StNone c) <| relativePosCalibrated := false |>).

(** [CalibrationContext::Clear]; the "Clear profile" buttons save afterwards.
    [Eigen::Vector3d()] leaves its entries unset, hence the two arguments. *)
Definition Clear_context (unset_rotation unset_translation : Vector3d) (c : Cal) : Cal :=
  let c := set_prof (fun p =>
    p <| c_chaperoneValid := false |> <| c_chaperoneQuads := 0%nat |>
      <| c_calibratedRotation := unset_rotation |> <| c_calibratedTranslation := unset_translation |> <| c_calibratedScale := d_one |>
      <| c_referenceTrackingSystem := [] |> <| c_targetTrackingSystem := [] |>
      <| c_enabled := false |> <| c_validProfile := false |> <| c_recalibrateOnMovement := true |>) c in
  let s := opts c in
  c <| refToTargetPose := aff_identity |> <| estimatedLatencyOffsetMs := fzero |> <| timeLastLatencyEstimate := fzero |>
    <| opts := mkSettings (referenceStandby s) (targetStandby s) (lockRelativePositionMode s) (calibrationSpeed s)
         (jitterThreshold s) (requireTriggerPressToApply s) (ignoreOutliers s) (enableStaticRecalibration s)
         (continuousCalibrationThreshold s) (maxRelativeErrorThreshold s) v_zero fzero false (useGccPhatLatency s)
         (useCusumGeometryShift s) (useVelocityAware s) (useTukey s) (useBlendFilter s) (useLegacy s) (useUpstream s)
         (restLockedYawEnabled s) (predictiveRecoveryEnabled s) (reanchorChiSquareEnabled s)
         (baseStationDriftCorrectionEnabled s) false |>
    <| smp ::= fun s => s <| refSpeedHistory := [] |> <| targetSpeedHistory := [] |> <| speedSampleTimes := [] |>
                          <| autoLockHistory := [] |> <| autoLockEffectivelyLocked := false |> |>
    <| lockRelativePosition := false |> <| relativePosCalibrated := false |>.

(** ** Recovery *)

Definition RecoverFromWedgedCalibration (e : Env) (c : Cal) : Cal :=
  let c := c <| calc ::= Clear |> <| refToTargetPose := aff_identity |> <| relativePosCalibrated := false |>
             <| hasAppliedCalibrationResult := false |> in
  let c := set_prof (fun p => p <| c_calibratedTranslation := v_zero |> <| c_calibratedRotation := v_zero |>) c in
  StartContinuousCalibration e (c <| ov ::= fun o => o <| g_snapNextProfileApply := true |> |>).

(** Whether a snapshot was restored. *)
Definition UndoLastAutoRecovery (c : Cal) : bool * Cal :=
  let sn := snapshot (reloc c) in
  if negb (sn_valid sn) then (false, c) else
  (true, c <| refToTargetPose := sn_refToTargetPose sn |> <| relativePosCalibrated := sn_relativePosCalibrated sn |>
           <| hasAppliedCalibrationResult := sn_hasApplied sn |>
           <| reloc ::= fun s => s <| snapshot := mkSnap false (sn_refToTargetPose sn) (sn_relativePosCalibrated sn) (sn_hasApplied sn) |>
                                   <| autoRecoverBannerDismissed := true |> |>).

Definition DismissAutoRecoveryBanner (c : Cal) : Cal := c <| reloc ::= fun s => s <| autoRecoverBannerDismissed := true |> |>.

(** Age and size of the recovery the banner shows. *)
Definition LastAutoRecoveryActive `{Eigen} (now : double) (c : Cal) : option (double * double) :=
  let s := reloc c in
  if negb (sn_valid (snapshot s)) || autoRecoverBannerDismissed s || fle (lastAutoRecoverTime s) (d_of_Z (-100000000)) then None
  else let age := now - lastAutoRecoverTime s in
       if fgt age (d_of_Z 60) then None else Some (age, v_norm (lastFireDelta s)).

(** Age, size and turn of the last detection. *)
Definition LastDetectedRelocalization `{Eigen} (now : double) (c : Cal) : option (double * double * double) :=
  let s := reloc c in
  if fle (rl_lastFireTime s) (d_of_Z (-100000000)) then None
  else Some (now - rl_lastFireTime s, v_norm (lastFireDelta s), lastFireRotRad s * d_of_Z 180 / d_pi).
