(* ===== verification/CalibReloc.v ===== *)
(** * Drift and relocalization (modules/calibration/src/overlay/Calibration.cpp)

    The detectors a tick runs before it reads new poses, over the calibration
    context: shifts of a tracking universe seen on its base stations, the
    relocalization of the headset with the automatic recovery it may lead to,
    the yaw correction drawn from resting trackers, and the predictive
    correction. *)

From S2P Require Import Prelude Floats Shmem Isometry FallbackTable InputConfig PoseProvider Driver Detectors Filters CalibSolve CalibCalc CalibRest CalibScan CalibContext.
From stdpp Require Import gmap sorting.
Open Scope fl_scope.

Section Reloc.
Context `{Eigen} `{EigenMore} `{Libm} `{EigenSolver} `{EigenRot}.

(** ** Base stations *)

Definition kBsDeltaSignificanceTransM : double := d_lit 1 1000.
Definition kBsDeltaSignificanceRotRad : double := d_lit 5 100 * d_pi / d_of_Z 180.
Definition kBsConsensusTransM : double := d_lit 5 1000.
Definition kBsConsensusRotRad : double := d_lit 1 2 * d_pi / d_of_Z 180.
Definition kBsThrottleSec : double := d_of_Z 5.

Definition RigidDeltaAngleRad (delta : Affine) : double :=
  d_of_Z 2 * m_acos (std_min d_one (SFabs (q_w (q_of_matrix (linear delta))))).

(** A calibration as stored (centimetres, degrees), shifted on the reference or
    on the target side. *)
Definition applyDelta (D : Affine) (refSide : bool) (cal : Vector3d * Vector3d) : Vector3d * Vector3d :=
  let '(transCm, rotDeg) := cal in
  let eulerRad := v_div (v_scale rotDeg d_pi) (d_of_Z 180) in
  let rotQ := q_mul (q_mul (q_angleAxis (v_x eulerRad) v_unitZ) (q_angleAxis (v_y eulerRad) v_unitY))
                (q_angleAxis (v_z eulerRad) v_unitX) in
  let a := mkAff (m_of_quat rotQ) (v_scale transCm (d_lit 1 100)) in
  let new := if refSide then h_mul D a else h_mul a (h_inverse D) in
  (v_scale (aff_translation new) (d_of_Z 100), v_div (v_scale (m_eulerAngles210 (linear new)) (d_of_Z 180)) d_pi).

Definition shift_profile (D : Affine) (refSide : bool) (p : Profile) : Profile :=
  let '(t, r) := applyDelta D refSide (c_calibratedTranslation p, c_calibratedRotation p) in
  p <| c_calibratedTranslation := t |> <| c_calibratedRotation := r |>.

Definition shift_extra (D : Affine) (primaryRefShift : bool) (system : list byte) (x : Extra) : Extra :=
  let moved refSide :=
    let '(t, r) := applyDelta D refSide (x_calibratedTranslation x, x_calibratedRotation x) in
    mkExtra (x_enabled x) (x_valid x) (x_targetTrackingSystem x) r t (x_calibratedScale x) in
  if negb (x_valid x) then x
  else if primaryRefShift then moved true
  else if bool_decide (x_targetTrackingSystem x = system) then moved false else x.

Definition ApplyUniverseShiftToCalibrations (D : Affine) (system : list byte) (o : Overlay) : Overlay :=
  let p := ctx o in
  let primaryRefShift := bool_decide (system = c_referenceTrackingSystem p) in
  let primaryTargetShift := bool_decide (system = c_targetTrackingSystem p) in
  let q := if primaryRefShift then shift_profile D true p
           else if primaryTargetShift then shift_profile D false p else p in
  InvalidateAllTransformCaches (o <| ctx := q <| c_additional ::= map (shift_extra D primaryRefShift system) |> |>).

Record Observation := mkObservation { ob_serial : list byte; ob_system : list byte; ob_pose : Affine }.

(** A base station that is tracked and whose serial and system can be read. *)
Definition observe (vr : VR) (c : Cal) (id : nat) : option Observation :=
  if negb (bool_decide (GetTrackedDeviceClass vr id = DeviceReference)) then None else
  let dp := pose_at c (Z.of_nat id) in
  if negb (pose_live dp) then None else
  let '(ok, serial) := GetString vr id SerialNumber in
  if negb ok then None else
  let '(ok, system) := GetString vr id TrackingSystemName in
  if negb ok then None else
  Some (mkObservation (cstr serial) (cstr system) (ToAffine (ConvertPose (dv_pose dp)))).

(** The order of [std::string]. *)
Fixpoint bytes_leb (a b : list byte) : bool :=
  match a, b with
  | [], _ => true
  | _ :: _, [] => false
  | x :: a, y :: b =>
    if (Byte.to_N x <? Byte.to_N y)%N then true
    else if (Byte.to_N y <? Byte.to_N x)%N then false else bytes_leb a b
  end.
Definition bytes_le (a b : list byte) : Prop := bytes_leb a b = true.
#[local] Instance bytes_le_dec : RelDecision bytes_le.
Proof. intros a b. unfold bytes_le. apply _. Defined.

Definition systems_of (l : list Observation) : list (list byte) := merge_sort bytes_le (remove_dups (map ob_system l)).

Definition delta_of (cache : gmap (list byte) (list byte * Affine)) (system : list byte) (o : Observation) : option Affine :=
  match cache !! ob_serial o with
  | Some (sys, pose) => if bool_decide (sys = system) then Some (h_mul (ob_pose o) (h_inverse pose)) else None
  | None => None
  end.

Definition significant (d : Affine) : bool :=
  fgt (v_norm (aff_translation d)) kBsDeltaSignificanceTransM || fgt (RigidDeltaAngleRad d) kBsDeltaSignificanceRotRad.

(** All the same shift; a single one must be large. *)
Definition consensus (deltas : list Affine) : bool :=
  match deltas with
  | [] => true
  | [only] => negb (flt (v_norm (aff_translation only)) (d_lit 10 100) &&
                    flt (RigidDeltaAngleRad only) (d_of_Z 5 * d_pi / d_of_Z 180))
  | ref :: rest => forallb (fun d =>
      let diff := h_mul d (h_inverse ref) in
      negb (fgt (v_norm (aff_translation diff)) kBsConsensusTransM || fgt (RigidDeltaAngleRad diff) kBsConsensusRotRad)) rest
  end.

Definition calibrated_system (p : Profile) (system : list byte) : bool :=
  bool_decide (system = c_referenceTrackingSystem p) || bool_decide (system = c_targetTrackingSystem p) ||
  existsb (fun x => x_valid x && bool_decide (x_targetTrackingSystem x = system)) (c_additional p).

(** One system: the shift it agrees on, if it is to be applied. *)
Definition shift_of (cache : gmap (list byte) (list byte * Affine)) (current : list Observation) (p : Profile)
    (system : list byte) : option Affine :=
  if negb (calibrated_system p system) then None else
  let deltas := omap (delta_of cache system) (filter (fun o => ob_system o = system) current) in
  if existsb significant deltas && consensus deltas then head deltas else None.

(** The systems in order; [throttled] is what it was before the first. *)
Definition drift_system (throttled : bool) (now : double) (current : list Observation) (c : Cal) (system : list byte) : Cal :=
  if throttled then c else
  match shift_of (baseStationCache (bases c)) current (prof c) system with
  | Some D => c <| ov ::= ApplyUniverseShiftToCalibrations D system |>
                <| bases ::= fun b => mkBases (baseStationCache b) now |>
  | None => c
  end.

Definition TickBaseStationDrift (e : Env) (now : double) (c : Cal) : Cal :=
  if negb (baseStationDriftCorrectionEnabled (opts c)) || negb (e_vrReady e) ||
     negb (c_validProfile (prof c) && c_enabled (prof c)) then c else
  let throttled := flt (now - lastBaseStationShiftAcceptedTime (bases c)) kBsThrottleSec in
  let current := omap (observe (e_vr e) c) device_ids in
  match current with
  | [] => c <| bases ::= fun b => mkBases ∅ (lastBaseStationShiftAcceptedTime b) |>
  | _ =>
    let c := foldl (drift_system throttled now current) c (systems_of current) in
    c <| bases ::= fun b =>
      mkBases (foldl (fun m o => <[ob_serial o := (ob_system o, ob_pose o)]> m) ∅ current)
        (lastBaseStationShiftAcceptedTime b) |>
  end.

(** ** Relocalization of the headset *)

Definition kRelocHmdJumpM : double := d_lit 5 100.
Definition kRelocBodyMaxDeltaM : double := d_lit 5 100.
Definition kRelocBaseStableM : double := d_lit 1 1000.
Definition kRelocThrottleSec : double := d_of_Z 5.
Definition kRelocMinBaseStations : nat := 2.
Definition kRelocAutoRecoverThresholdM : double := d_lit 30 100.
Definition kRelocAutoRecoverStartupSec : double := d_of_Z 30.
Definition kRelocAutoRecoverThrottleSec : double := d_of_Z 30.
Definition kRelocAutoRecoverPostStallSec : double := d_of_Z 10.

Definition greatest (l : list double) : double := foldl (fun m d => if fgt d m then d else m) fzero l.

(** Tracked base stations: their number, and the largest move since the cache
    of the drift detector was filled. *)
Definition base_stations (vr : VR) (c : Cal) : nat * double :=
  let ids := filter (fun id => GetTrackedDeviceClass vr id = DeviceReference /\ pose_live (pose_at c (Z.of_nat id)) = true) device_ids in
  (length ids, greatest (omap (fun id =>
    let '(ok, serial) := GetString vr id SerialNumber in
    if negb ok then None else
    match baseStationCache (bases c) !! cstr serial with
    | Some (_, pose) => Some (v_norm (v_sub (p_trans (ConvertPose (dv_pose (pose_at c (Z.of_nat id))))) (aff_translation pose)))
    | None => None
    end) ids)).

(** Trackers and controllers of other systems: where they are, and the largest
    move since the last tick. *)
Definition body_trackers (vr : VR) (c : Cal) (hmdSystem : list byte) (prev : gmap nat Vector3d)
    : gmap nat Vector3d * double :=
  let bodies := omap (fun id =>
    if negb (bool_decide (GetTrackedDeviceClass vr id = DeviceTracker \/ GetTrackedDeviceClass vr id = DeviceController)) ||
       negb (pose_live (pose_at c (Z.of_nat id))) then None else
    let '(ok, system) := GetString vr id TrackingSystemName in
    if negb ok || bool_decide (cstr system = hmdSystem) then None
    else Some (id, p_trans (ConvertPose (dv_pose (pose_at c (Z.of_nat id)))))) device_ids in
  (list_to_map bodies, greatest (omap (fun '(id, t) => (fun t0 => v_norm (v_sub t t0)) <$> prev !! id) bodies)).

(** The trigger. *)
Definition reloc_fires (now : double) (hmdPose : Affine) (bsCount : nat) (bsMaxDelta bodyMaxDelta : double) (s : RelocState) : bool :=
  havePrevHmd s && (kRelocMinBaseStations <=? bsCount)%nat &&
  negb (flt (now - rl_lastFireTime s) kRelocThrottleSec) &&
  fgt (v_norm (v_sub (aff_translation hmdPose) (aff_translation (prevHmd s)))) kRelocHmdJumpM &&
  flt bodyMaxDelta kRelocBodyMaxDeltaM && flt bsMaxDelta kRelocBaseStableM.

Definition reloc_angle (hmdPose prev : Affine) : double :=
  let rotDelta := q_normalized (q_mul (q_of_matrix (linear hmdPose)) (q_conjugate (q_of_matrix (linear prev)))) in
  d_of_Z 2 * m_acos (std_min d_one (SFabs (q_w rotDelta))).

(** The gates between a detection and the automatic recovery. *)
Definition recover_gates (now currentHmdDelta : double) (st : CalibrationState) (s : RelocState) : bool :=
  fge currentHmdDelta kRelocAutoRecoverThresholdM && in_continuous st && fge now kRelocAutoRecoverStartupSec &&
  fge (now - lastAutoRecoverTime s) kRelocAutoRecoverThrottleSec &&
  negb (flt (now - lastHmdInvalidTime s) kRelocAutoRecoverPostStallSec).

Definition auto_recover (e : Env) (now : double) (dpos : Vector3d) (c : Cal) : Cal :=
  let c := c <| reloc ::= fun s => s
      <| snapshot := mkSnap true (refToTargetPose c) (relativePosCalibrated c) (hasAppliedCalibrationResult c) |>
      <| autoRecoverBannerDismissed := false |> |>
    <| recovery ::= fun b => Push b dpos now |> in
  (RecoverFromWedgedCalibration e c) <| reloc ::= fun s => s <| lastAutoRecoverTime := now |> |>.

Definition forget_hmd (s : RelocState) : RelocState := s <| havePrevHmd := false |> <| prevBodyTrans := ∅ |>.

(** The headset's tracking system, read once; [None]: it cannot be read. *)
Definition hmd_tracking_system (vr : VR) (s : RelocState) : option (list byte) :=
  if (length (hmdTrackingSystem s) =? 0)%nat then
    let '(ok, buf) := GetString vr 0 TrackingSystemName in if ok : bool then Some (cstr buf) else None
  else Some (hmdTrackingSystem s).

Definition TickHmdRelocalizationDetector (e : Env) (now : double) (c : Cal) : Cal :=
  if negb (e_vrReady e) then c
  else if in_oneshot (state c) then c <| reloc ::= forget_hmd |>
  else
    let hmdRaw := pose_at c k_unTrackedDeviceIndex_Hmd in
    if negb (pose_live hmdRaw) then c <| reloc ::= fun s => (forget_hmd s) <| lastHmdInvalidTime := now |> |>
    else
      match hmd_tracking_system (e_vr e) (reloc c) with
      | None => c
      | Some hmdSystem =>
        let s := (reloc c) <| hmdTrackingSystem := hmdSystem |> in
        let hmdPose := ToAffine (ConvertPose (dv_pose hmdRaw)) in
        let '(bsCount, bsMaxDelta) := base_stations (e_vr e) c in
        let '(currentBodyTrans, bodyMaxDelta) := body_trackers (e_vr e) c hmdSystem (prevBodyTrans s) in
        let dpos := v_sub (aff_translation hmdPose) (aff_translation (prevHmd s)) in
        let fired := reloc_fires now hmdPose bsCount bsMaxDelta bodyMaxDelta s in
        let s' := if fired
                  then s <| rl_lastFireTime := now |> <| lastFireDelta := dpos |> <| lastFireRotRad := reloc_angle hmdPose (prevHmd s) |>
                  else s in
        let currentHmdDelta := if havePrevHmd s then v_norm dpos else fzero in
        let c := c <| reloc := s' |> in
        let c := if fired && recover_gates now currentHmdDelta (state c) s' then auto_recover e now dpos c else c in
        c <| reloc ::= fun s => s <| prevHmd := hmdPose |> <| havePrevHmd := true |> <| prevBodyTrans := currentBodyTrans |> |>
      end.

(** ** Corrections *)

Definition WorldRotationFromPose (p : DriverPose) : Quaterniond := q_mul (qWorldFromDriverRotation p) (qRotation p).

Definition rest_device (c : Cal) (id : Z) (system : list byte) : list RestDevice :=
  if (id <? 0)%Z || (Z.of_nat k_unMaxTrackedDeviceCount <=? id)%Z then [] else
  let dp := pose_at c id in [mkRD (Z.to_nat id) (pose_live dp) (WorldRotationFromPose (dv_pose dp)) system].

(** The primary target, then the extras. *)
Definition rest_devices (c : Cal) : list RestDevice :=
  rest_device c (targetID c) (c_targetTrackingSystem (prof c)) ++
  concat (zip_with (fun x r => if x_enabled x && x_valid x then rest_device c (xr_targetID r) (x_targetTrackingSystem x) else [])
            (c_additional (prof c)) (extras c)).

Definition TickRestLockedYaw (now : double) (c : Cal) : Cal :=
  if negb (restLockedYawEnabled (opts c)) || useUpstream (opts c) || bool_decide (state c = StContinuous) || in_oneshot (state c)
  then c <| rest := rest_tick_init |>
  else if negb (c_validProfile (prof c)) then c
  else
    let '(step, g) := rest_yaw_step now (rest_devices c) (rest c) in
    let c := c <| rest := g |> in
    match step with
    | Some stepDeg => set_prof (fun p => p <| c_calibratedRotation ::= fun r => V3 (v_x r) (v_y r + stepDeg) (v_z r) |>) c
    | None => c
    end.

(** The predictive correction of Filters.v on this context. *)
Definition predictive_tick (now : double) (c : Cal) : Cal :=
  let p := TickPredictiveRecovery (predictiveRecoveryEnabled (opts c)) (c_validProfile (prof c)) (state c) now
             (mkPred (recovery c) (predictiveLast c) (c_calibratedTranslation (prof c))) in
  set_prof (fun q => q <| c_calibratedTranslation := pr_calibratedTranslation p |>)
    (c <| recovery := pr_buffer p |> <| predictiveLast := pr_lastTickTime p |>).

Definition hmd_of (d : DevPose) : HmdPose :=
  mkHmd (pose_live d) (qWorldFromDriverRotation (dv_pose d)) (vecWorldFromDriverTranslation (dv_pose d))
    (qRotation (dv_pose d)) (vecPosition (dv_pose d)).

(** The re-anchor detector of Filters.v: whether the corrections skip the tick. *)
Definition reanchor_tick (now : double) (c : Cal) : bool * Cal :=
  let '(frozen, g) := TickReanchorChiSquare (reanchorChiSquareEnabled (opts c))
                        (hmd_of (pose_at c k_unTrackedDeviceIndex_Hmd)) now (reanchor c) in
  (frozen, c <| reanchor := g |>).
End Reloc.
