(* ===== verification/CalibTick.v ===== *)
(** * The calibration tick (modules/calibration/src/overlay/Calibration.cpp)

    [CalibrationTick], step by step: the guards, the detectors and corrections,
    the geometry watchdog, the latency estimate, the new poses, the stalled
    headset, the profile scan, the states, the liveness gate, the phases of a
    one-shot calibration, the trigger gate, the solve of the primary and of the
    extra calibrations, publication, and what is dropped afterwards.  The
    metrics written for display and the processor-load monitor are left out. *)

From S2P Require Import Prelude Floats Shmem Isometry FallbackTable InputConfig PoseProvider Driver Detectors Filters CalibSolve CalibCalc CalibRest CalibLatency CalibScan CalibContext CalibReloc.
From stdpp Require Import gmap sorting.
Open Scope fl_scope.

Definition maxTau_ : Z := 10.

Section Tick.
Context `{Eigen} `{EigenMore} `{Libm} `{EigenSolver} `{EigenRot} `{DoubleBits}.

(** ** Before the states *)

Definition id_ok (id : Z) : bool := (id =? -1)%Z || ((0 <=? id)%Z && (id <? Z.of_nat k_unMaxTrackedDeviceCount)%Z).

Definition kReassignSec : double := d_of_Z 10.

Definition reassign (e : Env) (c : Cal) : Cal :=
  if in_continuous (state c) && requireTriggerPressToApply (opts c) && fgt (e_time e - timeLastAssign c) kReassignSec
  then (AssignTargets e (c <| timeLastAssign := e_time e |>)).2 else c.

(** The geometry watchdog: clear and wait for the devices again. *)
Definition geometry_step (e : Env) (c : Cal) : Cal :=
  let '(fire, g) := geometry_tick (useCusumGeometryShift (opts c)) (m_isValid (calc c)) (e_errSeries e) (geo c) in
  let c := c <| geo := g |> in
  if fire then (set_state StContinuousStandby c) <| calc ::= Clear |> <| relativePosCalibrated := false |> else c.

Definition kMaxLagMs : double := d_of_Z 200.

(** The new estimate, from a lag in samples. *)
Definition latency_ema (times : list double) (lagSamples prev : double) : double :=
  match head times, last times with
  | Some first, Some back =>
    let dur := back - first in
    if fgt dur (d_lit 1 1000) && (1 <? length times)%nat then
      let sampleRateHz := d_of_Z (Z.of_nat (length times - 1)) / dur in
      let lagMs := lagSamples * d_of_Z 1000 / sampleRateHz in
      if isfinite lagMs && fle (SFabs lagMs) kMaxLagMs then d_lit 7 10 * prev + d_lit 3 10 * lagMs else prev
    else prev
  | _, _ => prev
  end.

Definition latency_step (e : Env) (c : Cal) : Cal :=
  let s := smp c in
  let full {A} (l : list A) := (kLatencyHistoryCapacity <=? length l)%nat in
  if negb (useUpstream (opts c)) && fgt (e_time e - timeLastLatencyEstimate c) d_one &&
     full (refSpeedHistory s) && full (targetSpeedHistory s) && full (speedSampleTimes s)
  then
    let c := c <| timeLastLatencyEstimate := e_time e |> in
    match EstimateLatencyLagSamples (refSpeedHistory s) (targetSpeedHistory s) maxTau_ (useGccPhatLatency (opts c)) with
    | Some lag => c <| estimatedLatencyOffsetMs ::= latency_ema (speedSampleTimes s) lag |>
    | None => c
    end
  else c.

Definition store_pose (c : Cal) (p : AugmentedPose) : Cal :=
  if (0 <=? ap_deviceId p)%Z && (ap_deviceId p <? Z.of_nat k_unMaxTrackedDeviceCount)%Z then
    c <| devicePoses ::= <[Z.to_nat (ap_deviceId p) := ap_pose p]> |>
      <| devicePoseSampleTimes ::= <[Z.to_nat (ap_deviceId p) := ap_sample_time p]> |>
  else c.

(** Reading the segment throws when it is not open. *)
Definition read_poses (e : Env) : T unit :=
  put (fun c => c <| timeLastTick := e_time e |>) ;;
  match e_newPoses e with
  | None => throw
  | Some l => put (fun c => foldl store_pose c l)
  end.

(** The headset's position is zero, or what it was: the previous one is kept as
    [float]s. *)
Definition hmd_stalled (p : Vector3d) (prev : float * float * float) : bool :=
  let '(x, y, z) := prev in
  (feq (v_x p) fzero && feq (v_y p) fzero && feq (v_z p) fzero) ||
  (feq (d_of_f x) (v_x p) && feq (d_of_f y) (v_y p) && feq (d_of_f z) (v_z p)).

Definition hmd_position (c : Cal) : Vector3d := vecPosition (dv_pose (pose_at c k_unTrackedDeviceIndex_Hmd)).

Definition stall_step : T unit :=
  p ← asks hmd_position;
  prev ← asks hmdPrev;
  if hmd_stalled p prev then put (fun c => c <| consecutiveHmdStalls ::= Z.succ |>) ;; leave
  else put (fun c => c <| consecutiveHmdStalls := 0%Z |> <| hmdPrev := (f_of_d (v_x p), f_of_d (v_y p), f_of_d (v_z p)) |>).

(** A send that fails throws. *)
Definition scan (e : Env) : T unit := fun c =>
  let '(r, o) := ScanAndApplyProfile (e_answered e) (e_vr e) (ov c) in
  (if r is Some _ then inr tt else inl Threw, c <| ov := o |>).

Definition scan_every (period : double) (e : Env) : T unit :=
  due ← asks (fun c => fge (e_time e - timeLastScan c) period);
  only due (scan e ;; put (fun c => c <| timeLastScan := e_time e |>)).

(** ** The states without samples *)

Definition standby_step (e : Env) : T unit :=
  st ← asks state;
  if negb (bool_decide (st = StContinuousStandby)) then mret tt else
  ready ← run_step (AssignTargets e);
  if ready : bool then put (StartContinuousCalibration e)
  else put (fun c => c <| wantedUpdateInterval := d_lit 1 2 |>) ;; leave.

Definition idle_step (e : Env) : T unit :=
  st ← asks state;
  if bool_decide (st = StNone) then
    put (TickBaseStationDrift e (e_time e)) ;; put (fun c => c <| wantedUpdateInterval := d_one |>) ;; leave
  else if bool_decide (st = StEditing) then
    put (fun c => c <| wantedUpdateInterval := d_lit 1 10 |>) ;; scan_every (d_lit 1 10) e ;; leave
  else mret tt.

(** [-1], or beyond the table. *)
Definition missing (id : Z) : bool := (id =? -1)%Z || (Z.of_nat k_unMaxTrackedDeviceCount <=? id)%Z.

Definition ValidSimple (c : Cal) (id : Z) : bool :=
  (0 <=? id)%Z && (id <? Z.of_nat k_unMaxTrackedDeviceCount)%Z && pose_ok (pose_at c id).

Definition begin_ok (c : Cal) : bool :=
  ValidSimple c (referenceID c) && ValidSimple c (targetID c) &&
  negb (fgt (ReferenceJitter (m_samples (calc c))) (d_of_f (jitterThreshold (opts c)))) &&
  negb (fgt (TargetJitter (m_samples (calc c))) (d_of_f (jitterThreshold (opts c)))).

(** The devices are there, and a calibration that begins may begin. *)
Definition begin_step (e : Env) : T unit :=
  ids ← asks (fun c => negb (missing (referenceID c)) && negb (missing (targetID c)));
  st ← asks state;
  ok ← (if bool_decide (st = StBegin) then scan e ;; good ← asks begin_ok; mret (ids && good) else mret ids);
  if bool_decide (st = StBegin) && ok then
    put (fun c => (set_state StRotation c) <| wantedUpdateInterval := fzero |>) ;; leave
  else if negb ok then
    only (negb (bool_decide (st = StContinuous))) (put (set_state StNone)) ;; leave
  else mret tt.

Definition live_inputs (e : Env) (c : Cal) (id : Z) : TrackerLivenessInputs :=
  let dp := dv_pose (pose_at c id) in
  mkIn (HashPositionLow64 (vecPosition dp)) (PoseProvider.deviceIsConnected dp)
    (plain_norm (vecVelocity (dv_pose (pose_at c k_unTrackedDeviceIndex_Hmd)))) (timeLastLatencyEstimate c) (e_time e).

Definition liveness_step (e : Env) : T unit :=
  st ← asks state;
  if negb (bool_decide (st = StContinuous)) then mret tt else
  r ← run_step (fun c =>
    let '(r, g) := liveness_gate (referenceID c) (targetID c) (live_inputs e c (referenceID c)) (live_inputs e c (targetID c)) (gate c) in
    (r, c <| gate := g |>));
  match r with
  | GateSkip => put (fun c => c <| wantedUpdateInterval := d_lit 1 2 |>) ;; leave
  | GateRestart => put (StartContinuousCalibration e) ;; leave
  | GateCollect => mret tt
  end.

(** ** Samples and phases *)

Definition calc_count (c : Cal) : nat := CalibCalc.SampleCount (calc c).
Definition calc_shift (c : Cal) : Cal := c <| calc ::= ShiftSample |>.

(** A sample more; the tick goes on when the buffer is full.  The buffer's size
    is asked for three times, at least. *)
Definition collect_step (e : Env) : T unit :=
  ok ← run_step (CollectSample e);
  if negb ok then leave else
  _ ← SampleCount;
  n ← SampleCount;
  have ← asks calc_count;
  if (have <? n)%nat then leave else
  shift_down have calc_count calc_shift.

Definition kRotationPhaseDiversity : double := d_lit 70 100.
Definition kTranslationPhaseDiversity : double := d_lit 55 100.

Definition phase_step : T unit :=
  st ← asks state;
  k ← asks calc;
  if bool_decide (st = StRotation) then
    if flt (RotationDiversity (m_samples k)) kRotationPhaseDiversity then put calc_shift ;; leave
    else put (fun c => set_state StTranslation (c <| calc ::= FreezeRotationPhaseSamples |>)) ;; leave
  else if bool_decide (st = StTranslation) then
    if flt (TranslationDiversity (m_samples k)) kTranslationPhaseDiversity then put calc_shift ;; leave else mret tt
  else mret tt.

Definition kTrigger : float := f_lit 3 4.

Definition triggers_pressed (e : Env) (ids : list Z) : bool :=
  forallb (fun id => if (0 <=? id)%Z then let '(pad, trig) := e_axes e id in fgt pad kTrigger || fgt trig kTrigger else true) ids.

Definition trigger_step (e : Env) : T unit :=
  wait ← asks (fun c => bool_decide (state c = StContinuous) && requireTriggerPressToApply (opts c) && hasAppliedCalibrationResult c);
  if negb wait then mret tt else
  ids ← asks controllerIDs;
  if triggers_pressed e ids then put (fun c => c <| wasWaitingForTriggers := false |>)
  else put (fun c => c <| wasWaitingForTriggers := true |>) ;; leave.

(** ** Solving *)

Definition math_of (s : Settings) : MathSwitches := mkMath (useUpstream s) (useLegacy s).
Definition primary_flags (static : bool) (c : Cal) : Flags :=
  let s := opts c in let fork b := b && negb (useUpstream s) in
  mkFlags static (lockRelativePosition c) (fork (useBlendFilter s)) (mkOpts (fork (useTukey s)) (fork (useVelocityAware s))) (math_of s).

Definition incremental (flags : Flags) (s : Settings) (k : Calc) : bool * Calc :=
  let '(ok, _, k) := ComputeIncremental flags false (d_of_f (continuousCalibrationThreshold s))
                       (d_of_f (maxRelativeErrorThreshold s)) (ignoreOutliers s) k in (ok, k).

Definition tilt_step (time tiltDeg_ : double) (t : Tilt) : Tilt :=
  if isfinite tiltDeg_ && fge tiltDeg_ fzero then
    let cutoff := time - kSustainedWindowSeconds in
    let window := (fix trim (l : list TiltSample) := match l with
      | x :: l' => if flt (timestamp_s x) cutoff then trim l' else l
      | [] => [] end) (tiltDiagnosticWindow t ++ [mkTilt time tiltDeg_]) in
    let '(alarm, median) := EvaluateTilt window time (tiltSustainedAlarmed t) in
    if Bool.eqb alarm (tiltSustainedAlarmed t) then mkTiltState window (tiltSustainedAlarmed t) (tiltLastAnnotatedMedian t)
    else mkTiltState window alarm median
  else t.

Definition incremental_step (e : Env) (c : Cal) : Cal :=
  if calibrationPaused (opts c) then c else
  let c := c <| calc := (incremental (primary_flags (enableStaticRecalibration (opts c)) c) (opts c) (calc c)).2 |> in
  c <| tilt ::= tilt_step (e_time e) (CalibSolve.m_residualPitchRollDeg (m_diag (calc c))) |>.

(** *** The extra calibrations *)

Definition EulerRotation (k : Calc) : Vector3d :=
  v_div (v_scale (m_eulerAngles210 (aff_rotation (m_estimatedTransformation k))) (d_of_Z 180)) d_pi.
Definition TransformationCm (k : Calc) : Vector3d := v_scale (aff_translation (m_estimatedTransformation k)) (d_of_Z 100).

Definition extra_ids_ok (r : ExtraRun) : bool :=
  let ok id := (0 <=? id)%Z && (id <? Z.of_nat k_unMaxTrackedDeviceCount)%Z in ok (xr_referenceID r) && ok (xr_targetID r).

Definition extra_sample (e : Env) (rp tp : DevPose) : Sample :=
  mkSmp (ConvertPose (dv_pose rp)) (ConvertPose (dv_pose tp)) true (e_now e)
    (speedFromVel (vecVelocity (dv_pose rp))) (speedFromVel (vecVelocity (dv_pose tp))) true.

Definition extra_lock (ref tgt : Affine) (r : ExtraRun) : ExtraRun :=
  let history := keep_last 30 (xr_autoLockHistory r ++ [relative_pose ref tgt]) in
  let locked := if (30 <=? length history)%nat then rigid history else xr_autoLocked r in
  r <| xr_autoLockHistory := history |> <| xr_autoLocked := locked |>
    <| xr_lockRelativePosition := if (xr_lockMode r =? 0)%Z then false else if (xr_lockMode r =? 1)%Z then true else locked |>.

(** The switches of the extra calculators are the defaults. *)
Definition extra_flags (s : Settings) (r : ExtraRun) : Flags :=
  mkFlags (enableStaticRecalibration s) (xr_lockRelativePosition r) false (mkOpts false false) (math_of s).

Definition set_extra (i : nat) (r : ExtraRun) (c : Cal) : Cal := c <| extras ::= <[i := r]> |>.
Definition extra_run (i : nat) (c : Cal) : ExtraRun :=
  default (mkExtraRun (-1) (-1) calc_init 2 aff_identity false [] false false) (extras c !! i).

Definition publish_extra (i : nat) (r : ExtraRun) (c : Cal) : Cal :=
  let k := xr_calc r in
  set_prof (fun p => p <| c_additional ::= alter (fun x =>
      mkExtra (x_enabled x) true (x_targetTrackingSystem x) (EulerRotation k) (TransformationCm k) (x_calibratedScale x)) i |>)
    (set_extra i (r <| xr_refToTargetPose := m_refToTargetPose k |> <| xr_relativePosCalibrated := m_relativePosCalibrated k |>) c).

Definition extra_step (e : Env) (i : nat) : T unit :=
  r ← asks (extra_run i);
  on ← asks (fun c => if c_additional (prof c) !! i is Some x then x_enabled x else false);
  rp ← asks (fun c => pose_at c (xr_referenceID r));
  tp ← asks (fun c => pose_at c (xr_targetID r));
  if negb on || negb (extra_ids_ok r) || negb (pose_ok rp && pose_ok tp) then mret tt else
  put (set_extra i (r <| xr_calc ::= PushSample (extra_sample e rp tp) |>)) ;;
  have ← asks (fun c => CalibCalc.SampleCount (xr_calc (extra_run i c)));
  shift_down have (fun c => CalibCalc.SampleCount (xr_calc (extra_run i c)))
    (fun c => set_extra i ((extra_run i c) <| xr_calc ::= ShiftSample |>) c) ;;
  put (fun c => set_extra i (extra_lock (ToAffine (ConvertPose (dv_pose rp))) (ToAffine (ConvertPose (dv_pose tp))) (extra_run i c)) c) ;;
  paused ← asks (fun c => calibrationPaused (opts c));
  if paused : bool then mret tt else
  n ← SampleCount;
  put (fun c =>
    let r := extra_run i c in
    if (CalibCalc.SampleCount (xr_calc r) <? n)%nat then c else
    let '(ok, k) := incremental (extra_flags (opts c) r) (opts c) (xr_calc r) in
    let r := r <| xr_calc := k |> in
    let c := set_extra i r c in
    if ok && m_isValid k then publish_extra i r c else c).

Fixpoint extras_step (e : Env) (ids : list nat) : T unit :=
  match ids with
  | [] => mret tt
  | i :: ids => extra_step e i ;; extras_step e ids
  end.

Definition solve_step (e : Env) : T unit :=
  st ← asks state;
  if bool_decide (st = StContinuous) then
    put (incremental_step e) ;;
    n ← asks (fun c => length (c_additional (prof c)));
    extras_step e (seq 0 n)
  else put (fun c => c <| calc := (ComputeOneshot (primary_flags false c) (ignoreOutliers (opts c)) (calc c)).2 |>).

(** ** Publication *)

Definition rotation_angle (R : Matrix3d) : double :=
  m_acos (std_clamp ((m00 R + m11 R + m22 R - d_one) * d_lit 1 2) (SFopp d_one) d_one).

(** A finite translation, and a rotation that is not (nearly) none. *)
Definition publishable (k : Calc) : bool :=
  allFinite (aff_translation (m_estimatedTransformation k)) &&
  fgt (rotation_angle (aff_rotation (m_estimatedTransformation k))) (d_lit 1 1000).

Definition store_result (c : Cal) : Cal :=
  let k := calc c in
  (set_prof (fun p => p <| c_calibratedRotation := EulerRotation k |> <| c_calibratedTranslation := TransformationCm k |>
                        <| c_validProfile := true |>) c)
    <| refToTargetPose := m_refToTargetPose k |> <| relativePosCalibrated := m_relativePosCalibrated k |>.

Definition publish_step (e : Env) : T unit :=
  good ← asks (fun c => m_isValid (calc c) && publishable (calc c));
  only good (put (fun c => SaveProfile (store_result c)) ;; scan e ;; put (fun c => c <| hasAppliedCalibrationResult := true |>)).

Definition finish_step : T unit :=
  st ← asks state;
  if bool_decide (st = StContinuous) then
    n ← SampleCount;
    put (Nat.iter (n / 10)%nat calc_shift)
  else put (fun c => (set_state StNone c) <| calc ::= Clear |>).

(** ** The tick *)

(** The detectors and corrections that run in every state. *)
Definition detect_step (e : Env) : T unit :=
  let now := e_time e in
  put (TickHmdRelocalizationDetector e now) ;;
  frozen ← run_step (reanchor_tick now);
  only (negb frozen) (put (TickRestLockedYaw now)) ;;
  only (negb frozen) (put (predictive_tick now)) ;;
  put (reassign e) ;;
  put (geometry_step e) ;;
  put (latency_step e).

Definition kTickPeriod : double := d_lit 5 100.

Definition guard_step (e : Env) : T unit :=
  if negb (e_vrReady e) then leave else
  early ← asks (fun c => flt (e_time e - timeLastTick c) kTickPeriod);
  if early : bool then leave else
  put ResolveLockMode ;;
  bad ← asks (fun c => negb (id_ok (referenceID c)) || negb (id_ok (targetID c)));
  if bad : bool then leave else mret tt.

Definition idle_scan (e : Env) : T unit :=
  st ← asks state;
  only (bool_decide (st = StNone \/ st = StContinuousStandby \/ st = StContinuous)) (scan_every d_one e).

(** From the samples to the end of the tick. *)
Definition solve_part (e : Env) : T unit :=
  collect_step e ;; phase_step ;; trigger_step e ;; solve_step e ;; publish_step e ;; finish_step.

Definition CalibrationTick (e : Env) : T unit :=
  guard_step e ;; detect_step e ;; read_poses e ;; stall_step ;; idle_scan e ;; standby_step e ;; idle_step e ;;
  begin_step e ;; liveness_step e ;; solve_part e.
End Tick.
