(* ===== verification/CalibTickSpec.v ===== *)
(** * What a calibration tick keeps

    The contract of CalibTick.v over every history of ticks and user actions:
    the invariant of the calibration context, the state transitions a tick can
    make against the table of StateTransitions.h, what it publishes, and the
    gates and the effect of an automatic recovery.  The steps of a tick are
    reasoned about with triples over its monad; most of them are quiet: they
    change neither the phase, the calculators, the windows nor what was saved,
    and use the overlay's caches only through its operations. *)

From S2P Require Import Prelude Floats Shmem Isometry FallbackTable InputConfig PoseProvider Driver Detectors Filters CalibSolve CalibCalc CalibRest CalibLatency CalibScan CalibContext CalibReloc CalibTick.
From stdpp Require Import gmap sorting.
Open Scope fl_scope.

(** ** Triples *)

(** [Q] of the answer when the step goes on, [E] when it ends the tick. *)
Definition triple {A} (P : Cal -> Prop) (m : T A) (Q : A -> Cal -> Prop) (E : Cal -> Prop) : Prop :=
  forall c, P c -> match m c with (inr a, c') => Q a c' | (inl _, c') => E c' end.

Lemma triple_bind {A B} P (m : T A) (k : A -> T B) R Q E :
  triple P m R E -> (forall a, triple (R a) (k a) Q E) -> triple P (x ← m; k x) Q E.
Proof.
  intros Hm Hk c Hc. specialize (Hm c Hc). unfold mbind, T_bind.
  destruct (m c) as [[x|a] c']; [done|]. by apply Hk.
Qed.

Lemma triple_ret {A} (P : Cal -> Prop) (a : A) Q E : (forall c, P c -> Q a c) -> triple P (mret a) Q E.
Proof. intros HQ c Hc. by apply HQ. Qed.

Lemma triple_asks {A} (P : Cal -> Prop) (f : Cal -> A) (Q : A -> Cal -> Prop) E :
  (forall c, P c -> Q (f c) c) -> triple P (asks f) Q E.
Proof. intros HQ c Hc. by apply HQ. Qed.

Lemma triple_put (P : Cal -> Prop) f (Q : unit -> Cal -> Prop) E : (forall c, P c -> Q tt (f c)) -> triple P (put f) Q E.
Proof. intros HQ c Hc. by apply HQ. Qed.

Lemma triple_leave {A} P (Q : A -> Cal -> Prop) (E : Cal -> Prop) : (forall c, P c -> E c) -> triple P leave Q E.
Proof. intros HE c Hc. by apply HE. Qed.

Lemma triple_throw {A} P (Q : A -> Cal -> Prop) (E : Cal -> Prop) : (forall c, P c -> E c) -> triple P throw Q E.
Proof. intros HE c Hc. by apply HE. Qed.

Lemma triple_run {A} (P : Cal -> Prop) (f : Cal -> A * Cal) (Q : A -> Cal -> Prop) E :
  (forall c, P c -> Q (f c).1 (f c).2) -> triple P (run_step f) Q E.
Proof. intros HQ c Hc. specialize (HQ c Hc). unfold run_step. by destruct (f c). Qed.

Lemma triple_weaken {A} (P P' : Cal -> Prop) (m : T A) (Q Q' : A -> Cal -> Prop) (E E' : Cal -> Prop) :
  triple P m Q E -> (forall c, P' c -> P c) -> (forall a c, Q a c -> Q' a c) -> (forall c, E c -> E' c) ->
  triple P' m Q' E'.
Proof.
  intros Hm HP HQ HE c Hc. specialize (Hm c (HP c Hc)). destruct (m c) as [[x|a] c']; auto.
Qed.

Lemma triple_if {A} (b : bool) P (m k : T A) Q E :
  triple (fun c => P c /\ b = true) m Q E -> triple (fun c => P c /\ b = false) k Q E -> triple P (if b then m else k) Q E.
Proof. destruct b; intros Hm Hk c Hc; [by apply Hm|by apply Hk]. Qed.

Lemma triple_only (b : bool) P (m : T unit) (Q : unit -> Cal -> Prop) E :
  triple P m Q E -> (forall c, P c -> Q tt c) -> triple P (only b m) Q E.
Proof. intros Hm HQ. destruct b; [done|by apply triple_ret]. Qed.

(** What is known of an answer as a fact about it. *)
Lemma triple_fact {A} (F : Prop) P (m : T A) Q E : (F -> triple P m Q E) -> triple (fun c => P c /\ F) m Q E.
Proof. intros Hm c [Hc HF]. by apply Hm. Qed.

(** ** Quiet steps *)

(** What a quiet step leaves alone. *)
Definition view (c : Cal) :=
  (state c, calc c, smp c, speed c, extras c, saves c, length (c_additional (prof c)), length (devicePoses c),
   length (devicePoseSampleTimes c)).

Section Quiet.
Context `{Eigen} `{EigenMore} `{Libm} `{EigenSolver} `{EigenRot} `{DoubleBits}.

Record quiet (c c' : Cal) : Prop := {
  q_view : view c' = view c;
  q_ov : exists ops, ov c' = overlay_run (ov c) ops }.

Lemma quiet_refl c : quiet c c.
Proof. split; [done|]. by exists []. Qed.

Lemma quiet_trans c1 c2 c3 : quiet c1 c2 -> quiet c2 c3 -> quiet c1 c3.
Proof.
  intros [V1 [o1 O1]] [V2 [o2 O2]]. split; [by rewrite V2|]. exists (o1 ++ o2). unfold overlay_run in *.
  by rewrite foldl_app, <-O1.
Qed.

(** Nothing of the overlay's caches changes. *)
Lemma quiet_same c c' : view c' = view c -> ov c' = ov c -> quiet c c'.
Proof. intros HV HO. split; [done|]. by exists []. Qed.

Lemma quiet_prof f c :
  c_state (f (prof c)) = c_state (prof c) -> length (c_additional (f (prof c))) = length (c_additional (prof c)) ->
  quiet c (set_prof f c).
Proof.
  intros Hs Hl. split.
  - unfold view, state, set_prof, prof in *. cbn. by rewrite Hs, Hl.
  - by exists [OpContext f].
Qed.

Lemma quiet_if (b : bool) c c1 c2 : quiet c c1 -> quiet c c2 -> quiet c (if b then c1 else c2).
Proof. by destruct b. Qed.

Lemma quiet_fold {A} (f : Cal -> A -> Cal) l c : (forall c x, quiet c (f c x)) -> quiet c (foldl f c l).
Proof.
  intros Hf. revert c. induction l as [|x l IH]; intros c; [apply quiet_refl|]. cbn [foldl].
  eapply quiet_trans; [apply Hf|apply IH].
Qed.

Lemma view_state c c' : view c' = view c -> state c' = state c /\ calc c' = calc c /\ smp c' = smp c /\ speed c' = speed c /\
  extras c' = extras c /\ saves c' = saves c /\ length (c_additional (prof c')) = length (c_additional (prof c)) /\
  length (devicePoses c') = length (devicePoses c) /\ length (devicePoseSampleTimes c') = length (devicePoseSampleTimes c).
Proof. unfold view. intros [=]. by split_and!. Qed.

Lemma quiet_assign e c : quiet c (AssignTargets e c).2.
Proof.
  unfold AssignTargets. cbv zeta. cbn [snd].
  set (c1 := if (referenceID c <? 0)%Z then _ else c). assert (quiet c c1) as Hq1.
  { unfold c1. apply quiet_if; [by apply quiet_same|apply quiet_refl]. }
  set (c2 := if (targetID c1 <? 0)%Z then _ else c1). assert (quiet c1 c2) as Hq2.
  { unfold c2. apply quiet_if; [by apply quiet_prof|apply quiet_refl]. }
  eapply quiet_trans; [exact Hq1|]. eapply quiet_trans; [exact Hq2|]. by apply quiet_same.
Qed.

Lemma quiet_lock c : quiet c (ResolveLockMode c).
Proof. by apply quiet_same. Qed.

Lemma quiet_reanchor now c : quiet c (reanchor_tick now c).2.
Proof. unfold reanchor_tick. destruct (TickReanchorChiSquare _ _ _ _) as [b g]. by apply quiet_same. Qed.

Lemma quiet_rest now c : quiet c (TickRestLockedYaw now c).
Proof.
  unfold TickRestLockedYaw. apply quiet_if; [by apply quiet_same|]. apply quiet_if; [apply quiet_refl|].
  destruct (rest_yaw_step _ _ _) as [st g]. cbv zeta. destruct st; [|by apply quiet_same].
  eapply quiet_trans; [|by apply quiet_prof]. by apply quiet_same.
Qed.

Lemma quiet_predictive now c : quiet c (predictive_tick now c).
Proof.
  unfold predictive_tick. cbv zeta. set (p := TickPredictiveRecovery _ _ _ _ _). clearbody p.
  eapply quiet_trans; [|by apply quiet_prof]. by apply quiet_same.
Qed.

Lemma quiet_reassign e c : quiet c (reassign e c).
Proof.
  unfold reassign. apply quiet_if; [|apply quiet_refl]. eapply quiet_trans; [|apply quiet_assign]. by apply quiet_same.
Qed.

Lemma quiet_latency e c : quiet c (latency_step e c).
Proof.
  unfold latency_step. cbv zeta. apply quiet_if; [|apply quiet_refl].
  destruct (EstimateLatencyLagSamples _ _ _ _); by apply quiet_same.
Qed.

Lemma quiet_store c p : quiet c (store_pose c p).
Proof.
  unfold store_pose. apply quiet_if; [|apply quiet_refl]. apply quiet_same; [|done].
  unfold view, prof, state. cbn. by rewrite !length_insert.
Qed.

Lemma quiet_drift e now c : quiet c (TickBaseStationDrift e now c).
Proof.
  unfold TickBaseStationDrift. cbv zeta. apply quiet_if; [apply quiet_refl|].
  destruct (omap _ device_ids) as [|o l] eqn:Ho; [by apply quiet_same|].
  match goal with |- quiet c ?x => match x with context [foldl (drift_system ?t ?n ?cur) c ?l] =>
    set (c1 := foldl (drift_system t n cur) c l) end end.
  assert (quiet c c1) as Hq1.
  { apply quiet_fold. intros c0 sys. unfold drift_system. apply quiet_if; [apply quiet_refl|].
    destruct (shift_of _ _ _ _) as [D|]; [|apply quiet_refl].
    split.
    - unfold view, state, prof, ApplyUniverseShiftToCalibrations. cbn. rewrite length_map.
      destruct (bool_decide _); [|destruct (bool_decide _)]; unfold shift_profile; cbn; try done; by destruct (applyDelta _ _ _).
    - eexists [OpContext _; OpInvalidate]. cbn [ov upd]. unfold ApplyUniverseShiftToCalibrations, overlay_run. cbn [foldl overlay_step].
      f_equal. }
  eapply quiet_trans; [exact Hq1|]. by apply quiet_same.
Qed.
End Quiet.

(** *** The profile scan *)

Definition but_enabled (p q : Profile) : Prop := exists b, q = p <| c_enabled := b |>.
(** The scan changes nothing of the context but its switch. *)
Definition tame {A} (m : M A) : Prop := forall o, but_enabled (ctx o) (ctx (m o).2).

Lemma but_enabled_refl p : but_enabled p p.
Proof. exists (c_enabled p). by destruct p. Qed.

Lemma tame_bind {A B} (m : M A) (k : A -> M B) : tame m -> (forall a, tame (k a)) -> tame (x ← m; k x).
Proof.
  intros Hm Hk o. specialize (Hm o). unfold mbind, M_bind. destruct (m o) as [[a|] o1]; [|done].
  destruct Hm as [b Hb]. destruct (Hk a o1) as [b' Hb']. cbn [snd] in *. exists b'. by rewrite Hb', Hb.
Qed.
Lemma tame_ret {A} (a : A) : tame (mret a).
Proof. intros o. apply but_enabled_refl. Qed.
Lemma tame_gets {A} (f : Overlay -> A) : tame (gets f).
Proof. intros o. apply but_enabled_refl. Qed.
Lemma tame_modify f : (forall o, but_enabled (ctx o) (ctx (f o))) -> tame (modify f).
Proof. intros Hf o. apply Hf. Qed.
Lemma tame_modify_eq f : (forall o, ctx (f o) = ctx o) -> tame (modify f).
Proof. intros Hf. apply tame_modify. intros o. rewrite Hf. apply but_enabled_refl. Qed.
Lemma tame_if {A} (b : bool) (m k : M A) : tame m -> tame k -> tame (if b then m else k).
Proof. by destruct b. Qed.
Lemma tame_when b m : tame m -> tame (when b m).
Proof. intros Hm. apply tame_if; [done|apply tame_ret]. Qed.
Lemma tame_each {A} (f : A -> M unit) l : (forall x, tame (f x)) -> tame (each f l).
Proof. intros Hf. induction l as [|x l IH]; cbn [each]; [apply tame_ret|]. apply tame_bind; [apply Hf|done]. Qed.
Lemma tame_send answered r : tame (SendBlocking answered r).
Proof. intros o. unfold SendBlocking. destruct (answered _); apply but_enabled_refl. Qed.

Ltac tame :=
  repeat first
    [ apply tame_send | apply tame_ret | apply tame_gets
    | apply tame_when | apply tame_if | apply tame_each; intros
    | apply tame_bind; [|intros] | (apply tame_modify_eq; intros; reflexivity) ].

Section Scanning.
Context `{Eigen} `{EigenSolver}.

Lemma tame_device answered id p : tame (SendDeviceTransformIfChanged answered id p).
Proof. unfold SendDeviceTransformIfChanged. tame. Qed.

Lemma tame_scan_device answered vr snap id : tame (scan_device answered vr snap id).
Proof.
  unfold scan_device, ResetAndDisableOffsets.
  apply tame_if.
  { apply tame_bind; [|intros; apply tame_ret]. apply tame_modify_eq. intros o. by destruct (_ || _). }
  apply tame_bind.
  { unfold check_serial, ResetAndDisableOffsets. tame; try apply tame_device. }
  intros _. tame; try apply tame_device.
  destruct (GetString vr id TrackingSystemName) as [ok buf]. tame; try apply tame_device.
  - apply tame_modify. intros o. by exists false.
  - unfold adopt. tame; try apply tame_device. destruct (GetString vr id ModelNumber) as [ok' model]. tame.
Qed.

Lemma tame_scan answered vr : tame (ScanAndApplyProfile answered vr).
Proof.
  unfold ScanAndApplyProfile. apply tame_bind; [apply tame_modify; intros o; by eexists|]. intros _.
  apply tame_bind; [apply tame_gets|]. intros snap. apply tame_bind; [unfold refresh_target; tame|]. intros _.
  apply tame_bind; [unfold send_alignment; tame|]. intros _.
  apply tame_bind; [unfold send_fallbacks, SendFallbackIfChanged; tame|]. intros _.
  apply tame_bind.
  { generalize (∅ : gmap nat AdoptedTracker). induction device_ids as [|id l IH]; intros m; cbn [scan_devices]; [apply tame_ret|].
    apply tame_bind; [apply tame_scan_device|]. intros t. apply IH. }
  intros current. apply tame_bind.
  { apply tame_modify_eq. intros o. destruct (log_adopted_frame current o) as [ev Hev]. by rewrite Hev. }
  intros _. apply tame_bind; [|intros _]; apply tame_modify_eq; intros o; [unfold apply_chaperone; by destruct (_ && _)|by destruct snap].
Qed.
End Scanning.

(** ** The invariant *)

Definition kMaxSamples : nat := 200.

Section Invariant.
Context `{Eigen} `{EigenMore} `{Libm} `{EigenSolver} `{EigenRot} `{DoubleBits}.

(** A calculator reached by its operations, with [n] samples at most. *)
Definition calc_fits (n : nat) (k : Calc) : Prop :=
  (exists ops, k = calc_run calc_init ops) /\ length (m_samples k) <= n.

(** Nothing is in force while a one-shot calibration begins, and the frozen
    samples are those of its second phase. *)
Definition phase_ok (s : CalibrationState) (k : Calc) : Prop :=
  (s = StBegin \/ s = StRotation -> m_isValid k = false) /\
  (s = StBegin \/ s = StRotation \/ in_continuous s = true -> m_rotationFrozen k = []).

Record windows_ok (s : Sampling) : Prop := {
  wi_ref : length (refSpeedHistory s) <= kLatencyHistoryCapacity;
  wi_target : length (targetSpeedHistory s) = length (refSpeedHistory s);
  wi_times : length (speedSampleTimes s) = length (refSpeedHistory s);
  wi_lock : length (autoLockHistory s) <= kAutoLockHistoryMax;
  wi_mismatch : (0 <= pairedMotionMismatchCount s <= kPairedMotionMismatchMax)%Z }.

Definition extra_ok (r : ExtraRun) : Prop :=
  calc_fits kMaxSamples (xr_calc r) /\ length (xr_autoLockHistory r) <= kAutoLockHistoryMax.

Record cal_fits (n : nat) (c : Cal) : Prop := {
  fit_overlay : exists p ops, ov c = overlay_run (overlay_init p) ops;
  fit_calc : calc_fits n (calc c);
  fit_phase : phase_ok (state c) (calc c);
  fit_windows : windows_ok (smp c);
  fit_speed : (0 <= s_pendingTicks (speed c) < kRequiredStableTicks)%Z;
  fit_poses : length (devicePoses c) = k_unMaxTrackedDeviceCount;
  fit_times : length (devicePoseSampleTimes c) = k_unMaxTrackedDeviceCount;
  fit_aligned : length (extras c) = length (c_additional (prof c));
  fit_extras : Forall extra_ok (extras c) }.

Definition cal_ok : Cal -> Prop := cal_fits kMaxSamples.

Lemma fits_mono n m c : n <= m -> cal_fits n c -> cal_fits m c.
Proof. intros Hnm [F1 [F2 F2'] F3 F4 F5 F6 F7 F8 F9]. constructor; try done. split; [done|lia]. Qed.

Lemma quiet_fits n c c' : quiet c c' -> cal_fits n c -> cal_fits n c'.
Proof.
  intros [HV [ops' HO]] [[p [ops HP]] F2 F3 F4 F5 F6 F7 F8 F9].
  destruct (view_state _ _ HV) as (V1 & V2 & V3 & V4 & V5 & V6 & V7 & V8 & V9).
  constructor; rewrite ?V1, ?V2, ?V3, ?V4, ?V5, ?V7, ?V8, ?V9; try done.
  exists p, (ops ++ ops'). unfold overlay_run in *. by rewrite foldl_app, <-HP.
Qed.

Lemma calc_fits_steps n m k k' :
  calc_fits n k -> (exists ops, k' = calc_run k ops) -> length (m_samples k') <= m -> calc_fits m k'.
Proof.
  intros [[ops ->] _] [ops' ->] Hl. split; [|done]. exists (ops ++ ops'). unfold calc_run. by rewrite foldl_app.
Qed.

(** What changes besides: the phase with the calculator, and the windows. *)
Lemma fits_move n m c s k :
  cal_fits n c -> (exists ops, k = calc_run (calc c) ops) -> length (m_samples k) <= m -> phase_ok s k ->
  cal_fits m ((set_state s c) <| calc := k |>).
Proof.
  intros [[p [ops HP]] F2 F3 F4 F5 F6 F7 F8 F9] Hk Hl Hp. constructor; try done; [|by eapply calc_fits_steps].
  exists p, (ops ++ [OpContext (fun q => q <| c_state := s |>)]). unfold overlay_run in *. by rewrite foldl_app, <-HP.
Qed.

Lemma fits_calc n m c k :
  cal_fits n c -> (exists ops, k = calc_run (calc c) ops) -> length (m_samples k) <= m -> phase_ok (state c) k ->
  cal_fits m (c <| calc := k |>).
Proof.
  intros [F1 F2 F3 F4 F5 F6 F7 F8 F9] Hk Hl Hp. constructor; try done. by eapply calc_fits_steps.
Qed.

Lemma fits_state n c s : cal_fits n c -> phase_ok s (calc c) -> cal_fits n (set_state s c).
Proof.
  intros HF Hp. pose proof (fits_move n n c s (calc c) HF (ex_intro _ [] eq_refl) (proj2 (fit_calc _ _ HF)) Hp) as Hm.
  exact (quiet_fits n _ _ (quiet_same _ _ eq_refl eq_refl) Hm).
Qed.

Lemma fits_smp n c s : cal_fits n c -> windows_ok s -> cal_fits n (c <| smp := s |>).
Proof. intros [F1 F2 F3 F4 F5 F6 F7 F8 F9] Hs. by constructor. Qed.

Lemma phase_other s k : s = StNone \/ s = StTranslation \/ s = StEditing -> phase_ok s k.
Proof. intros Hs. split; intros Hx; destruct s; naive_solver. Qed.

Lemma phase_cleared s k : m_isValid k = false -> m_rotationFrozen k = [] -> phase_ok s k.
Proof. by split. Qed.

(** *** Starting and ending *)

Lemma fits_clear n c s : cal_fits n c -> cal_fits n ((set_state s c) <| calc ::= Clear |>).
Proof.
  intros HF. apply (fits_move n n c s (Clear (calc c)) HF); [by exists [OpClear]|cbn; lia|by apply phase_cleared].
Qed.

Definition restart_windows (s : Sampling) : Sampling :=
  s <| pairedMotionPosSeeded := false |> <| pairedMotionMismatchCount := 0%Z |>
    <| pairedMotionPrevRefPos := v_zero |> <| pairedMotionPrevTgtPos := v_zero |>.

Lemma fits_start e n c :
  cal_fits n c ->
  let c' := StartCalibration e c in
  cal_fits n c' /\ state c' = StBegin /\ m_isValid (calc c') = false /\ m_rotationFrozen (calc c') = [] /\
  saves c' = saves c.
Proof.
  intros HF. unfold StartCalibration. cbv zeta.
  assert (quiet c (AssignTargets e (c <| hasAppliedCalibrationResult := false |>)).2) as Hq
    by (eapply quiet_trans; [|apply quiet_assign]; by apply quiet_same).
  set (c1 := (AssignTargets e _).2) in *. clearbody c1.
  destruct (view_state _ _ (q_view _ _ Hq)) as (_ & _ & _ & _ & _ & Hs & _).
  pose proof (fits_clear _ _ StBegin (quiet_fits _ _ _ Hq HF)) as HC. set (c2 := (set_state StBegin c1) <| calc ::= Clear |>) in HC.
  split_and!; [|done..|exact Hs].
  eapply quiet_fits; [|apply (fits_smp n c2 (restart_windows (smp c1)) HC)]; [by apply quiet_same|].
  destruct (fit_windows _ _ HC) as [W1 W2 W3 W4 W5]. by constructor.
Qed.

Definition resume (c : Cal) : Cal :=
  let c := set_state StContinuous c in
  c <| calc ::= setRelativeTransformation (refToTargetPose c) (relativePosCalibrated c) |> <| gate := gate_init |>.

Lemma fits_resume n c :
  cal_fits n c -> m_isValid (calc c) = false -> m_rotationFrozen (calc c) = [] ->
  cal_fits n (resume c) /\ state (resume c) = StContinuous /\ m_isValid (calc (resume c)) = false /\ saves (resume c) = saves c.
Proof.
  intros HF Hv Hz.
  assert (cal_fits n ((set_state StContinuous c)
      <| calc := setRelativeTransformation (refToTargetPose c) (relativePosCalibrated c) (calc c) |>)) as HM.
  { apply (fits_move n n c StContinuous _ HF).
    - exists [OpRelative (refToTargetPose c) (relativePosCalibrated c)]. reflexivity.
    - exact (proj2 (fit_calc _ _ HF)).
    - exact (phase_cleared _ _ Hv Hz). }
  split_and!; [|reflexivity|exact Hv|reflexivity].
  eapply quiet_fits; [|exact HM]. apply quiet_same; reflexivity.
Qed.

Lemma continuous_eq e c :
  StartContinuousCalibration e c =
  resume (StartCalibration e (AssignTargets e (c <| hasAppliedCalibrationResult := false |>)).2).
Proof. reflexivity. Qed.

Lemma quiet_restart e c : quiet c (AssignTargets e (c <| hasAppliedCalibrationResult := false |>)).2.
Proof. eapply quiet_trans; [|apply quiet_assign]. apply quiet_same; reflexivity. Qed.

Lemma fits_continuous e n c :
  cal_fits n c ->
  let c' := StartContinuousCalibration e c in
  cal_fits n c' /\ state c' = StContinuous /\ m_isValid (calc c') = false /\ saves c' = saves c.
Proof.
  intros HF. cbv zeta. rewrite continuous_eq. pose proof (quiet_restart e c) as Hq.
  destruct (AssignTargets e (c <| hasAppliedCalibrationResult := false |>)) as [known c1]. cbn [snd] in *. clear known.
  destruct (view_state _ _ (q_view _ _ Hq)) as (_ & _ & _ & _ & _ & Hs & _).
  destruct (fits_start e n _ (quiet_fits _ _ _ Hq HF)) as (S1 & S2 & S3 & S4 & S5).
  destruct (fits_resume n _ S1 S3 S4) as (R1 & R2 & R3 & R4). split_and!; [done..|]. by rewrite R4, S5.
Qed.

(** *** The other steps *)

Lemma quiet_scan e c : quiet c (scan e c).2.
Proof.
  unfold scan. pose proof (tame_scan (e_answered e) (e_vr e) (ov c)) as [b Hb].
  destruct (ScanAndApplyProfile (e_answered e) (e_vr e) (ov c)) as [r o] eqn:Hs. cbn [snd] in *. split.
  - unfold view, state, prof. cbn. by rewrite Hb.
  - exists [OpScan (e_answered e) (e_vr e)]. cbn. by rewrite Hs.
Qed.

Definition unwedge (c : Cal) : Cal :=
  let c := c <| calc ::= Clear |> <| refToTargetPose := aff_identity |> <| relativePosCalibrated := false |>
             <| hasAppliedCalibrationResult := false |> in
  let c := set_prof (fun p => p <| c_calibratedTranslation := v_zero |> <| c_calibratedRotation := v_zero |>) c in
  c <| ov ::= fun o => o <| g_snapNextProfileApply := true |> |>.

Lemma recover_eq e c : RecoverFromWedgedCalibration e c = StartContinuousCalibration e (unwedge c).
Proof. reflexivity. Qed.

Lemma fits_unwedge n c : cal_fits n c -> cal_fits n (unwedge c).
Proof.
  intros HF.
  assert (cal_fits n (c <| calc := Clear (calc c) |>)) as HC.
  { apply (fits_calc n n c _ HF); [exists [OpClear]; reflexivity|cbn; lia|by apply phase_cleared]. }
  eapply quiet_fits; [|exact HC]. split; [reflexivity|].
  exists [OpContext (fun p => p <| c_calibratedTranslation := v_zero |> <| c_calibratedRotation := v_zero |>); OpSnap].
  reflexivity.
Qed.

(** The snapshot before, and the time stamp after it. *)
Definition remember (now : double) (dpos : Vector3d) (c : Cal) : Cal :=
  c <| reloc ::= fun s => s
      <| snapshot := mkSnap true (refToTargetPose c) (relativePosCalibrated c) (hasAppliedCalibrationResult c) |>
      <| autoRecoverBannerDismissed := false |> |>
    <| recovery ::= fun b => Push b dpos now |>.
Definition stamp (now : double) (c : Cal) : Cal := c <| reloc ::= fun s => s <| lastAutoRecoverTime := now |> |>.

Lemma auto_recover_eq e now dpos c :
  auto_recover e now dpos c = stamp now (StartContinuousCalibration e (unwedge (remember now dpos c))).
Proof. reflexivity. Qed.

Lemma quiet_remember now dpos c : quiet c (remember now dpos c).
Proof. apply quiet_same; reflexivity. Qed.
Lemma quiet_stamp now c : quiet c (stamp now c).
Proof. apply quiet_same; reflexivity. Qed.
Lemma unwedge_saves c : saves (unwedge c) = saves c.
Proof. reflexivity. Qed.

Lemma fits_recover e now dpos n c :
  cal_fits n c ->
  let c' := auto_recover e now dpos c in
  cal_fits n c' /\ state c' = StContinuous /\ m_isValid (calc c') = false /\ saves c' = saves c.
Proof.
  intros HF. cbv zeta. rewrite auto_recover_eq.
  destruct (fits_continuous e n _ (fits_unwedge n _ (quiet_fits _ _ _ (quiet_remember now dpos c) HF))) as (S1 & S2 & S3 & S4).
  rewrite unwedge_saves in S4.
  destruct (view_state _ _ (q_view _ _ (quiet_remember now dpos c))) as (_ & _ & _ & _ & _ & Hr & _).
  destruct (view_state _ _ (q_view _ _ (quiet_stamp now (StartContinuousCalibration e (unwedge (remember now dpos c))))))
    as (V1 & V2 & _ & _ & _ & V6 & _).
  rewrite V1, V2, V6, S4. exact (conj (quiet_fits _ _ _ (quiet_stamp now _) S1) (conj S2 (conj S3 Hr))).
Qed.

(** What a detection records, and what every tick does. *)
Definition detected (now : double) (dpos : Vector3d) (angle : double) (s : RelocState) : RelocState :=
  s <| rl_lastFireTime := now |> <| lastFireDelta := dpos |> <| lastFireRotRad := angle |>.
Definition settle (hmdPose : Affine) (bodies : gmap nat Vector3d) (c : Cal) : Cal :=
  c <| reloc ::= fun s => s <| prevHmd := hmdPose |> <| havePrevHmd := true |> <| prevBodyTrans := bodies |> |>.

Lemma quiet_settle hmdPose bodies c : quiet c (settle hmdPose bodies c).
Proof. apply quiet_same; reflexivity. Qed.

Definition hmd_pose (c : Cal) : Affine := ToAffine (ConvertPose (dv_pose (pose_at c k_unTrackedDeviceIndex_Hmd))).

(** Everything an automatic recovery needs. *)
Definition recovers (e : Env) (now : double) (c : Cal) (s : RelocState) : Prop :=
  e_vrReady e = true /\ pose_live (pose_at c k_unTrackedDeviceIndex_Hmd) = true /\
  reloc_fires now (hmd_pose c) (base_stations (e_vr e) c).1 (base_stations (e_vr e) c).2
    (body_trackers (e_vr e) c (hmdTrackingSystem s) (prevBodyTrans s)).2 s = true /\
  recover_gates now (v_norm (v_sub (aff_translation (hmd_pose c)) (aff_translation (prevHmd s)))) (state c) s = true.

Lemma reloc_cases e now c :
  let c' := TickHmdRelocalizationDetector e now c in
  (exists s, c' = c <| reloc := s |> /\ snapshot s = snapshot (reloc c) /\
     lastAutoRecoverTime s = lastAutoRecoverTime (reloc c)) \/
  exists system, let s := (reloc c) <| hmdTrackingSystem := system |> in recovers e now c s /\
  let dpos := v_sub (aff_translation (hmd_pose c)) (aff_translation (prevHmd s)) in
  c' = settle (hmd_pose c) (body_trackers (e_vr e) c system (prevBodyTrans s)).1
         (auto_recover e now dpos (c <| reloc := detected now dpos (reloc_angle (hmd_pose c) (prevHmd s)) s |>)).
Proof.
  cbv zeta. unfold TickHmdRelocalizationDetector.
  destruct (e_vrReady e) eqn:Hvr; cbn [negb]; [|left; exists (reloc c); by destruct c].
  destruct (in_oneshot (state c)); [left; exists (forget_hmd (reloc c)); by split_and!|].
  destruct (pose_live (pose_at c k_unTrackedDeviceIndex_Hmd)) eqn:Hl; cbn [negb].
  2: { left. exists ((forget_hmd (reloc c)) <| lastHmdInvalidTime := now |>). by split_and!. }
  destruct (hmd_tracking_system (e_vr e) (reloc c)) as [system|]; [|left; exists (reloc c); by destruct c].
  cbv zeta. fold (hmd_pose c). set (s := (reloc c) <| hmdTrackingSystem := system |>).
  change (prevBodyTrans (reloc c)) with (prevBodyTrans s). change (prevHmd (reloc c)) with (prevHmd s).
  destruct (base_stations (e_vr e) c) as [bsCount bsMaxDelta] eqn:Hb.
  destruct (body_trackers (e_vr e) c system (prevBodyTrans s)) as [bodies bodyMaxDelta] eqn:Ht.
  set (dpos := v_sub _ _). destruct (reloc_fires now (hmd_pose c) bsCount bsMaxDelta bodyMaxDelta s) eqn:Hf; cbn [andb].
  2: { left. exists (s <| prevHmd := hmd_pose c |> <| havePrevHmd := true |> <| prevBodyTrans := bodies |>). by split_and!. }
  assert (havePrevHmd s = true) as Hh by (unfold reloc_fires in Hf; by destruct (havePrevHmd s)). rewrite Hh.
  change (state (c <| reloc := _ |>)) with (state c).
  destruct (recover_gates now (v_norm dpos) (state c) _) eqn:Hg.
  - right. exists system. fold s. split; [|by rewrite Ht].
    unfold recovers. rewrite Hb. change (hmdTrackingSystem s) with system. rewrite Ht. cbn [fst snd].
    split_and!; [done..|]. exact Hg.
  - left. eexists. split; [reflexivity|]. by split.
Qed.

(** ** Transitions (StateTransitions.h) *)

Definition IsLegalTransition (from to : CalibrationState) : bool :=
  if bool_decide (from = to) then true else
  match from with
  | StNone => bool_decide (to = StBegin) || bool_decide (to = StContinuous) || bool_decide (to = StContinuousStandby) ||
              bool_decide (to = StEditing)
  | StBegin => bool_decide (to = StNone) || bool_decide (to = StRotation) || bool_decide (to = StContinuous)
  | StRotation => bool_decide (to = StNone) || bool_decide (to = StTranslation)
  | StTranslation => bool_decide (to = StNone)
  | StEditing => bool_decide (to = StNone)
  | StContinuous => bool_decide (to = StNone) || bool_decide (to = StBegin) || bool_decide (to = StContinuousStandby)
  | StContinuousStandby => bool_decide (to = StNone) || bool_decide (to = StBegin) || bool_decide (to = StContinuous)
  end.

(** Legal, or the watchdog dropped a calibration. *)
Definition reached (c0 c : Cal) : Prop :=
  IsLegalTransition (state c0) (state c) = true \/ (m_isValid (calc c0) = true /\ in_continuous (state c) = true).

(** The state in the course of a tick begun at [c0]. *)
Definition on_course (c0 c : Cal) : Prop :=
  state c = state c0 \/
  (in_continuous (state c) = true /\ (in_continuous (state c0) = true \/ m_isValid (calc c0) = true)).

Lemma legal_refl s : IsLegalTransition s s = true.
Proof. unfold IsLegalTransition. by rewrite bool_decide_true. Qed.

Lemma on_course_reached c0 c : on_course c0 c -> reached c0 c.
Proof.
  unfold reached. intros [->|[Hc [Hc0|Hv]]]; [left; apply legal_refl| |by right].
  left. by destruct (state c), (state c0).
Qed.

(** Leaving the course for a state of the table. *)
Lemma on_course_leaves c0 c c' :
  on_course c0 c -> in_continuous (state c) = false -> IsLegalTransition (state c) (state c') = true -> reached c0 c'.
Proof. unfold reached. intros [Hs|[Hc _]] Hn Hl; [left; by rewrite <-Hs|congruence]. Qed.

(** What a tick has done before it solves. *)
Record mid (c0 : Cal) (n : nat) (c : Cal) : Prop := {
  mid_fits : cal_fits n c; mid_saves : saves c = saves c0; mid_course : on_course c0 c }.

(** What a tick that ends without publishing leaves. *)
Record ended (c0 c : Cal) : Prop := {
  end_fits : cal_ok c; end_saves : saves c = saves c0; end_reached : reached c0 c }.

Lemma mid_ended c0 c : mid c0 kMaxSamples c -> ended c0 c.
Proof. intros [M1 M2 M3]. split; [done..|by apply on_course_reached]. Qed.

Lemma quiet_mid c0 n c c' : quiet c c' -> mid c0 n c -> mid c0 n c'.
Proof.
  intros Hq [M1 M2 M3]. destruct (view_state _ _ (q_view _ _ Hq)) as (V1 & _ & _ & _ & _ & V6 & _).
  split; [by eapply quiet_fits|by rewrite V6|]. unfold on_course. by rewrite V1.
Qed.

(** Before the watchdog nothing is in force that was not at the start. *)
Definition early (c0 c : Cal) : Prop :=
  cal_ok c /\ saves c = saves c0 /\
  ((state c = state c0 /\ calc c = calc c0) \/ (in_continuous (state c) = true /\ in_continuous (state c0) = true)).

Lemma early_mid c0 c : early c0 c -> mid c0 kMaxSamples c.
Proof.
  intros (E1 & E2 & E3). split; [done..|]. unfold on_course. destruct E3 as [[-> _]|[-> ->]]; [by left|right]. split; [done|by left].
Qed.

Lemma quiet_early c0 c c' : quiet c c' -> early c0 c -> early c0 c'.
Proof.
  intros Hq (E1 & E2 & E3). destruct (view_state _ _ (q_view _ _ Hq)) as (V1 & V2 & _ & _ & _ & V6 & _).
  unfold early. rewrite V1, V2, V6. split; [by eapply quiet_fits|done].
Qed.

Lemma reloc_early e now c0 c : early c0 c -> early c0 (TickHmdRelocalizationDetector e now c).
Proof.
  intros HE. destruct (reloc_cases e now c) as [(s & -> & _)|(system & (_ & _ & _ & Hg) & ->)].
  - eapply quiet_early; [|exact HE]. apply quiet_same; reflexivity.
  - eapply quiet_early; [apply quiet_settle|]. destruct HE as (E1 & E2 & E3).
    set (c1 := c <| reloc := _ |>). set (dpos := v_sub _ _). clearbody dpos.
    assert (quiet c c1) as Hq by (apply quiet_same; reflexivity).
    assert (state c1 = state c) as Hs by reflexivity. assert (saves c1 = saves c) as Hv by reflexivity. clearbody c1.
    assert (in_continuous (state c) = true) as Hcont.
    { unfold recover_gates in Hg. destruct (in_continuous (state c)); [done|]. by rewrite andb_false_r in Hg. }
    destruct (fits_recover e now dpos _ c1 (quiet_fits _ _ _ Hq E1)) as (R1 & R2 & R3 & R4).
    unfold early. rewrite R2, R4, Hv. split; [exact R1|]. split; [exact E2|]. right. split; [reflexivity|].
    destruct E3 as [[<- _]|[_ Hc0]]; [exact Hcont|exact Hc0].
Qed.

Lemma geometry_fires_valid b v errs g : (geometry_tick b v errs g).1 = true -> v = true.
Proof.
  unfold geometry_tick. destruct (last errs) as [[ts x]|]; [|done]. destruct (rolling_median errs); [|done].
  destruct v; [done|]. by rewrite andb_false_r.
Qed.

Lemma geometry_mid e c0 c : early c0 c -> mid c0 kMaxSamples (geometry_step e c).
Proof.
  intros HE. unfold geometry_step.
  pose proof (geometry_fires_valid (useCusumGeometryShift (opts c)) (m_isValid (calc c)) (e_errSeries e) (geo c)) as Hf.
  destruct (geometry_tick _ _ _ _) as [fire g]. cbn [fst] in Hf. cbv zeta.
  set (c1 := c <| geo := g |>). assert (quiet c c1) as Hq by (apply quiet_same; reflexivity).
  assert (calc c1 = calc c) as Hk by reflexivity. clearbody c1. pose proof (quiet_early c0 _ _ Hq HE) as HE1.
  destruct fire; [|by apply early_mid]. destruct HE1 as (E1 & E2 & E3).
  eapply (quiet_mid c0 kMaxSamples ((set_state StContinuousStandby c1) <| calc ::= Clear |>)); [apply quiet_same; reflexivity|].
  split; [by apply fits_clear|exact E2|]. right. split; [done|].
  destruct E3 as [[E3 E4]|[_ E3]]; [right; rewrite <-E4, Hk; by apply Hf|by left].
Qed.

(** ** The tick, step by step *)

Definition closed (P : Cal -> Prop) : Prop := forall c c', quiet c c' -> P c -> P c'.

(** Part of a tick in a state of [S]. *)
Definition stage (c0 : Cal) (S : CalibrationState -> Prop) (c : Cal) : Prop := mid c0 kMaxSamples c /\ S (state c).

Lemma mid_closed c0 n : closed (mid c0 n).
Proof. intros c c'. apply quiet_mid. Qed.
Lemma early_closed c0 : closed (early c0).
Proof. intros c c'. apply quiet_early. Qed.
Lemma stage_closed c0 S : closed (stage c0 S).
Proof.
  intros c c' Hq [HM HS]. split; [by eapply quiet_mid|].
  destruct (view_state _ _ (q_view _ _ Hq)) as (V1 & _). by rewrite V1.
Qed.
Lemma closed_state P s : closed P -> closed (fun c => P c /\ state c = s).
Proof.
  intros HP c c' Hq [Hc Hs]. split; [by eapply HP|]. destruct (view_state _ _ (q_view _ _ Hq)) as (V1 & _). by rewrite V1.
Qed.
Lemma stage_ended c0 S c : stage c0 S c -> ended c0 c.
Proof. intros [HM _]. by apply mid_ended. Qed.

Lemma triple_quiet P f E : closed P -> (forall c, quiet c (f c)) -> triple P (put f) (fun _ => P) E.
Proof. intros HP Hf. apply triple_put. intros c. by apply HP. Qed.

Lemma triple_put_quiet {A} P f (k : T A) Q E :
  closed P -> (forall c, quiet c (f c)) -> triple P k Q E -> triple P (put f ;; k) Q E.
Proof. intros HP Hf Hk. eapply triple_bind; [by apply triple_quiet|]. by intros []. Qed.

Lemma triple_look {A B} P (f : Cal -> A) (k : A -> T B) Q E :
  (forall a, triple (fun c => P c /\ f c = a) (k a) Q E) -> triple P (x ← asks f; k x) Q E.
Proof. intros Hk. eapply triple_bind; [by apply (triple_asks _ _ (fun a c => P c /\ f c = a))|]. apply Hk. Qed.

Lemma triple_pre {A} (P P' : Cal -> Prop) (m : T A) Q E : triple P m Q E -> (forall c, P' c -> P c) -> triple P' m Q E.
Proof. intros Hm HP. by eapply triple_weaken. Qed.

(** A question whose answer is not used to know more. *)
Lemma triple_see {A B} P (f : Cal -> A) (k : A -> T B) Q E :
  (forall a, triple P (k a) Q E) -> triple P (x ← asks f; k x) Q E.
Proof. intros Hk. apply triple_look. intros a. eapply triple_pre; [apply Hk|]. by intros c [? _]. Qed.

Lemma tick_guard_spec e c0 : triple (early c0) (guard_step e) (fun _ => early c0) (ended c0).
Proof.
  assert (forall c, early c0 c -> ended c0 c) as HE by (intros c Hc; by apply mid_ended, early_mid).
  unfold guard_step. destruct (negb (e_vrReady e)); [by apply triple_leave|].
  apply triple_see. intros [|]; [by apply triple_leave|].
  apply triple_put_quiet; [apply early_closed|apply quiet_lock|].
  apply triple_see. intros [|]; [by apply triple_leave|]. by apply triple_ret.
Qed.

Lemma detect_spec e c0 : triple (early c0) (detect_step e) (fun _ => mid c0 kMaxSamples) (ended c0).
Proof.
  unfold detect_step. cbv zeta.
  eapply triple_bind; [apply (triple_put _ _ (fun _ => early c0)); intros c; apply reloc_early|]. intros [].
  eapply triple_bind; [apply (triple_run _ _ (fun _ => early c0)); intros c Hc; eapply quiet_early; [apply quiet_reanchor|done]|].
  intros frozen.
  eapply triple_bind; [apply (triple_only _ _ _ (fun _ => early c0)); [apply triple_quiet; [apply early_closed|apply quiet_rest]|done]|]. intros [].
  eapply triple_bind; [apply (triple_only _ _ _ (fun _ => early c0)); [apply triple_quiet; [apply early_closed|apply quiet_predictive]|done]|]. intros [].
  apply triple_put_quiet; [apply early_closed|apply quiet_reassign|].
  eapply triple_bind; [apply (triple_put _ _ (fun _ => mid c0 kMaxSamples)); intros c; apply geometry_mid|]. intros [].
  apply triple_quiet; [apply mid_closed|apply quiet_latency].
Qed.

Lemma read_spec e c0 : triple (mid c0 kMaxSamples) (read_poses e) (fun _ => mid c0 kMaxSamples) (ended c0).
Proof.
  unfold read_poses. apply triple_put_quiet; [apply mid_closed|intros c; apply quiet_same; reflexivity|].
  destruct (e_newPoses e) as [l|]; [|apply triple_throw; apply mid_ended].
  apply triple_quiet; [apply mid_closed|]. intros c. apply quiet_fold, quiet_store.
Qed.

Lemma stall_spec c0 : triple (mid c0 kMaxSamples) stall_step (fun _ => mid c0 kMaxSamples) (ended c0).
Proof.
  unfold stall_step. apply triple_see. intros p. apply triple_see. intros prev.
  destruct (hmd_stalled p prev).
  - apply triple_put_quiet; [apply mid_closed|intros c; apply quiet_same; reflexivity|]. apply triple_leave, mid_ended.
  - apply triple_quiet; [apply mid_closed|]. intros c. apply quiet_same; reflexivity.
Qed.

Lemma scan_spec_tick e (P : Cal -> Prop) E : closed P -> (forall c, P c -> E c) -> triple P (scan e) (fun _ => P) E.
Proof.
  intros HP HE c Hc. pose proof (HP _ _ (quiet_scan e c) Hc) as Hc'. unfold scan in *.
  destruct (ScanAndApplyProfile _ _ _) as [[u|] o]; cbn [snd] in Hc'; [done|by apply HE].
Qed.

Lemma scan_every_spec period e (P : Cal -> Prop) E :
  closed P -> (forall c, P c -> E c) -> triple P (scan_every period e) (fun _ => P) E.
Proof.
  intros HP HE. unfold scan_every. apply triple_see. intros due. apply triple_only; [|done].
  eapply triple_bind; [by apply scan_spec_tick|]. intros []. apply triple_quiet; [done|].
  intros c. apply quiet_same; reflexivity.
Qed.

Lemma idle_scan_spec e c0 : triple (mid c0 kMaxSamples) (idle_scan e) (fun _ => mid c0 kMaxSamples) (ended c0).
Proof.
  unfold idle_scan. apply triple_see. intros st. apply triple_only; [|done].
  apply scan_every_spec; [apply mid_closed|apply mid_ended].
Qed.

Lemma on_course_continuous c0 c c' :
  on_course c0 c -> in_continuous (state c) = true -> in_continuous (state c') = true -> on_course c0 c'.
Proof. intros [Hs|[_ Hx]] Hc Hc'; right; (split; [done|]); [left; by rewrite <-Hs|done]. Qed.

Lemma mid_continuous e c0 c :
  mid c0 kMaxSamples c -> in_continuous (state c) = true ->
  mid c0 kMaxSamples (StartContinuousCalibration e c) /\ state (StartContinuousCalibration e c) = StContinuous.
Proof.
  intros [M1 M2 M3] Hc. destruct (fits_continuous e _ _ M1) as (R1 & R2 & R3 & R4).
  set (c' := StartContinuousCalibration e c) in *. clearbody c'. split; [|exact R2].
  split; [exact R1|by rewrite R4|]. eapply on_course_continuous; [exact M3|exact Hc|by rewrite R2].
Qed.

Lemma standby_spec e c0 :
  triple (mid c0 kMaxSamples) (standby_step e) (fun _ => stage c0 (fun s => s <> StContinuousStandby)) (ended c0).
Proof.
  unfold standby_step. apply triple_look. intros st. case_bool_decide as Hst; cbn [negb].
  2: { apply triple_ret. intros c [Hm <-]. by split. }
  eapply triple_bind; [apply (triple_run _ _ (fun _ c => mid c0 kMaxSamples c /\ state c = st))|].
  { intros c Hc. eapply (closed_state _ _ (mid_closed c0 kMaxSamples)); [apply quiet_assign|done]. }
  intros [|].
  - apply triple_put. intros c [Hm Hs]. destruct (mid_continuous e c0 c Hm) as [Hm' Hs']; [by rewrite Hs, Hst|].
    split; [exact Hm'|]. by rewrite Hs'.
  - apply triple_put_quiet; [apply closed_state, mid_closed|intros c; apply quiet_same; reflexivity|].
    apply triple_leave. intros c [Hm _]. by apply mid_ended.
Qed.

Definition working (s : CalibrationState) : Prop := s = StBegin \/ s = StRotation \/ s = StTranslation \/ s = StContinuous.
Definition sampling (s : CalibrationState) : Prop := s = StRotation \/ s = StTranslation \/ s = StContinuous.
Definition solving (s : CalibrationState) : Prop := s = StTranslation \/ s = StContinuous.

Lemma quiet_interval c x : quiet c (c <| wantedUpdateInterval := x |>).
Proof. apply quiet_same; reflexivity. Qed.

Lemma idle_spec e c0 :
  triple (stage c0 (fun s => s <> StContinuousStandby)) (idle_step e) (fun _ => stage c0 working) (ended c0).
Proof.
  unfold idle_step. apply triple_look. intros st. case_bool_decide as Hn.
  { apply (triple_pre (stage c0 (fun s => s <> StContinuousStandby))); [|by intros c [Hc _]].
    apply triple_put_quiet; [apply stage_closed|intros c; apply quiet_drift|].
    apply triple_put_quiet; [apply stage_closed|intros c; apply quiet_interval|].
    apply triple_leave. intros c. apply stage_ended. }
  case_bool_decide as He.
  { apply (triple_pre (stage c0 (fun s => s <> StContinuousStandby))); [|by intros c [Hc _]].
    apply triple_put_quiet; [apply stage_closed|intros c; apply quiet_interval|].
    eapply triple_bind; [apply scan_every_spec; [apply stage_closed|intros c; apply stage_ended]|]. intros [].
    apply triple_leave. intros c. apply stage_ended. }
  apply triple_ret. intros c [[Hm Hs] <-]. split; [done|]. unfold working. destruct (state c); naive_solver.
Qed.

(** Leaving the course for another state, the calculator as it is or cleared. *)
Lemma leave_course c0 c s :
  stage c0 sampling c \/ stage c0 working c -> in_continuous (state c) = false ->
  IsLegalTransition (state c) s = true -> phase_ok s (calc c) -> ended c0 (set_state s c).
Proof.
  intros Hst Hn Hl Hp. assert (mid c0 kMaxSamples c) as [M1 M2 M3] by (destruct Hst as [[? _]|[? _]]; done).
  split; [by apply fits_state|exact M2|]. by eapply on_course_leaves.
Qed.

Lemma begin_spec e c0 : triple (stage c0 working) (begin_step e) (fun _ => stage c0 sampling) (ended c0).
Proof.
  unfold begin_step. apply triple_see. intros ids. apply triple_look. intros st.
  eapply (triple_bind _ _ _ (fun _ c => stage c0 working c /\ state c = st)).
  { case_bool_decide; [|by apply triple_ret].
    eapply triple_bind; [apply scan_spec_tick; [apply closed_state, stage_closed|intros c [Hc _]; by eapply stage_ended]|].
    intros []. apply triple_see. intros good. by apply triple_ret. }
  intros ok. case_bool_decide as Hb; cbn [andb].
  - destruct ok; cbn [negb].
    + eapply triple_bind; [apply (triple_put _ _ (fun _ => ended c0))|intros []; by apply triple_leave].
      intros c [Hc Hs]. assert (ended c0 (set_state StRotation c)) as [E1 E2 E3].
      { apply leave_course; [by right|by rewrite Hs, Hb|by rewrite Hs, Hb|].
        destruct Hc as [[M1 _ _] _]. destruct (fit_phase _ _ M1) as [P1 P2].
        apply phase_cleared; [apply P1|apply P2]; left; by rewrite Hs. }
      split; [eapply quiet_fits; [apply quiet_interval|exact E1]|exact E2|exact E3].
    + rewrite bool_decide_false by (by rewrite Hb). cbn [negb only].
      eapply triple_bind; [apply (triple_put _ _ (fun _ => ended c0))|intros []; by apply triple_leave].
      intros c [Hc Hs]. apply leave_course; [by right|by rewrite Hs, Hb|by rewrite Hs, Hb|apply phase_other; by left].
  - destruct ok; cbn [negb].
    + apply triple_ret. intros c [[Hm Hw] <-]. split; [done|]. unfold working, sampling in *. naive_solver.
    + eapply (triple_bind _ _ _ (fun _ => ended c0)); [|intros []; by apply triple_leave].
      case_bool_decide as Hc; cbn [negb only].
      * apply triple_ret. intros c [Hs _]. by eapply stage_ended.
      * apply triple_put. intros c [Hs He].
        destruct Hs as [Hm Hw]. rewrite <-He in *. apply leave_course; [right; by split| | |apply phase_other; by left];
          destruct (state c); unfold working in Hw; naive_solver.
Qed.

Lemma liveness_spec e c0 : triple (stage c0 sampling) (liveness_step e) (fun _ => stage c0 sampling) (ended c0).
Proof.
  unfold liveness_step. apply triple_look. intros st. case_bool_decide as Hst; cbn [negb].
  2: { apply triple_ret. by intros c [Hc _]. }
  eapply (triple_bind _ _ _ (fun _ c => stage c0 sampling c /\ state c = st)).
  { apply triple_run. intros c Hc. destruct (liveness_gate _ _ _ _ _) as [r g]. cbn [fst snd].
    refine (closed_state _ st (stage_closed c0 sampling) c _ _ Hc). apply quiet_same; reflexivity. }
  intros [].
  - apply triple_put_quiet; [apply closed_state, stage_closed|intros c; apply quiet_interval|].
    apply triple_leave. intros c [Hc _]. by eapply stage_ended.
  - eapply (triple_bind _ _ _ (fun _ => ended c0)); [|intros []; by apply triple_leave].
    apply triple_put. intros c [[Hm _] Hs]. destruct (mid_continuous e c0 c Hm) as [Hm' _]; [by rewrite Hs, Hst|].
    by apply mid_ended.
  - apply triple_ret. by intros c [Hc _].
Qed.

(** *** Samples *)

Lemma length_keep_last {A} n (l : list A) : length (keep_last n l) = Nat.min (length l) n.
Proof. unfold keep_last. rewrite length_drop. lia. Qed.

#[local] Arguments keep_last : simpl never.

Lemma windows_sample r t now s : windows_ok s -> windows_ok (push_speeds r t now s).
Proof.
  intros [W1 W2 W3 W4 W5]. constructor; try done; cbn; rewrite ?length_keep_last, ?length_app; cbn [length];
    rewrite ?W2, ?W3; unfold kLatencyHistoryCapacity in *; lia.
Qed.

Lemma windows_paired r t s : windows_ok s -> windows_ok (paired_motion r t s).2.
Proof.
  intros [W1 W2 W3 W4 W5]. unfold paired_motion. cbv zeta.
  destruct (pairedMotionPosSeeded s); cbn [negb]; [|by constructor].
  destruct (negb _); cbn [snd]; constructor; try done; cbn; unfold kPairedMotionMismatchMax in *; [lia|].
  destruct (Z.ltb_spec 0 (pairedMotionMismatchCount s)); lia.
Qed.

Lemma windows_lock a b s : windows_ok s -> windows_ok (UpdateAutoLockDetector a b s).
Proof.
  intros [W1 W2 W3 W4 W5]. constructor; try done. cbn. rewrite length_keep_last, length_app. unfold kAutoLockHistoryMax. lia.
Qed.

Lemma windows_jitter k s : windows_ok s -> windows_ok (push_jitter k s).
Proof. intros [W1 W2 W3 W4 W5]. unfold push_jitter. destruct (_ <=? _)%nat; by constructor. Qed.

Lemma push_facts x k :
  m_isValid (PushSample x k) = m_isValid k /\ m_rotationFrozen (PushSample x k) = m_rotationFrozen k /\
  length (m_samples (PushSample x k)) <= Datatypes.S (length (m_samples k)).
Proof.
  destruct (PushSample_effect x k) as (Hc & Hs & _). unfold core in Hc.
  injection Hc as C1 C2 C3 C4 C5 C6 C7 C8 C9 C10 C11 C12. rewrite C1, C12, Hs, length_app.
  split_and!; [done..|]. destruct (usable_translations x); cbn [length]; lia.
Qed.

Lemma collect_fits e n c :
  cal_fits n c ->
  let '(ok, c') := CollectSample e c in
  if ok then cal_fits (Datatypes.S n) c' /\ state c' = state c /\ saves c' = saves c
  else c' = if bool_decide (state c = StContinuous) then c else set_state StNone c.
Proof.
  intros HF. unfold CollectSample. destruct (negb _); [done|]. cbv zeta.
  set (s1 := push_speeds _ _ _ _). assert (windows_ok s1) as W1 by (apply windows_sample, HF). clearbody s1.
  set (rp := ConvertPose _). set (tp := ConvertPose _). pose proof (windows_paired (p_trans rp) (p_trans tp) s1 W1) as W2.
  destruct (paired_motion (p_trans rp) (p_trans tp) s1) as [paired s2]. cbn [snd] in W2.
  set (x := mkSmp _ _ _ _ _ _ _). destruct (push_facts x (calc c)) as (K1 & K2 & K3).
  assert (cal_fits (Datatypes.S n) (c <| calc := PushSample x (calc c) |>)) as HC.
  { apply (fits_calc n (Datatypes.S n) c _ HF); [exists [OpPush x]; reflexivity| |].
    - pose proof (proj2 (fit_calc _ _ HF)). lia.
    - unfold phase_ok. rewrite K1, K2. apply (fit_phase _ _ HF). }
  pose proof (windows_jitter (PushSample x (calc c)) _ (windows_lock (ToAffine rp) (ToAffine tp) _ W2)) as W3.
  split; [exact (fits_smp (Datatypes.S n) _ _ HC W3)|]. split; reflexivity.
Qed.

(** *** The buffer *)

Definition pending_ok (s : SpeedSel) : Prop := (0 <= s_pendingTicks s < kRequiredStableTicks)%Z.
(** Asking for the buffer's size changes the selected speed only. *)
Definition paced (P : Cal -> Prop) : Prop :=
  forall c s, (pending_ok (speed c) -> pending_ok s) -> P c -> P (c <| speed := s |>).

Lemma speed_tick_pending cand s : pending_ok s -> pending_ok (speed_tick cand s).
Proof.
  unfold pending_ok, speed_tick, kRequiredStableTicks. intros Hs. case_bool_decide; cbn; [lia|].
  case_bool_decide; cbn; [|lia]. destruct (Z.leb_spec 5 (s_pendingTicks s + 1)); cbn; lia.
Qed.

Lemma speed_samples_bound s : speed_samples s <= kMaxSamples.
Proof. unfold kMaxSamples. destruct s; cbn; lia. Qed.

Lemma triple_count P E : paced P -> triple P SampleCount (fun n c => P c /\ n <= kMaxSamples) E.
Proof.
  intros HP. apply triple_run. intros c Hc. unfold ResolvedCalibrationSpeed. cbv zeta.
  destruct (negb _); [split; [done|apply speed_samples_bound]|].
  destruct (negb _); [split; [done|apply speed_samples_bound]|].
  split; [|apply speed_samples_bound]. apply HP; [apply speed_tick_pending|exact Hc].
Qed.

Lemma triple_shift_down P count shift fuel E :
  paced P -> (forall c s, count (c <| speed := s |>) = count c) ->
  (forall c, P c -> P (shift c) /\ count (shift c) = pred (count c)) ->
  triple (fun c => P c /\ count c <= fuel) (shift_down fuel count shift) (fun _ c => P c /\ count c <= kMaxSamples) E.
Proof.
  intros HP Hcount Hshift. induction fuel as [|fuel IH]; cbn [shift_down].
  { apply triple_ret. intros c [Hc Hf]. split; [done|lia]. }
  eapply triple_bind; [apply (triple_count (fun c => P c /\ count c <= Datatypes.S fuel))|].
  { intros c s Hs [Hc Hf]. rewrite Hcount. split; [by apply HP|done]. }
  intros n. apply triple_look. intros have. destruct (Nat.ltb_spec n have) as [Hlt|Hge].
  - eapply triple_bind; [apply (triple_put _ _ (fun _ c => P c /\ count c <= fuel))|intros []; exact IH].
    intros c [[[Hc Hf] Hn] <-]. destruct (Hshift c Hc) as [Hs ->]. split; [done|lia].
  - apply triple_ret. intros c [[[Hc Hf] Hn] <-]. split; [done|lia].
Qed.

Lemma fits_speed n c s : (pending_ok (speed c) -> pending_ok s) -> cal_fits n c -> cal_fits n (c <| speed := s |>).
Proof. intros Hs [F1 F2 F3 F4 F5 F6 F7 F8 F9]. constructor; try done. by apply Hs. Qed.

Lemma mid_paced c0 n : paced (mid c0 n).
Proof. intros c s Hs [M1 M2 M3]. split; [by apply fits_speed|done|done]. Qed.

Lemma fits_tight n m c : cal_fits n c -> length (m_samples (calc c)) <= m -> cal_fits m c.
Proof. intros [F1 [F2 F2'] F3 F4 F5 F6 F7 F8 F9] Hl. by constructor. Qed.

Lemma fits_shift n c : cal_fits n c -> cal_fits n (calc_shift c).
Proof.
  intros HF. apply (fits_calc n n c _ HF); [exists [OpShift]; reflexivity| |exact (fit_phase _ _ HF)].
  pose proof (proj2 (fit_calc _ _ HF)). cbn. rewrite length_tl. lia.
Qed.

Lemma mid_shift c0 n c : mid c0 n c -> mid c0 n (calc_shift c).
Proof. intros [M1 M2 M3]. split; [by apply fits_shift|done|done]. Qed.

Lemma shift_count c : calc_count (calc_shift c) = pred (calc_count c).
Proof. unfold calc_count, calc_shift, CalibCalc.SampleCount. cbn. rewrite length_tl. lia. Qed.

Lemma collect_spec e c0 : triple (stage c0 sampling) (collect_step e) (fun _ => stage c0 sampling) (ended c0).
Proof.
  set (over := fun c => mid c0 (Datatypes.S kMaxSamples) c /\ sampling (state c)).
  assert (paced over) as Hover.
  { intros c s Hs [Hm Hst]. split; [by apply mid_paced|done]. }
  unfold collect_step.
  eapply (triple_bind _ _ _ (fun (ok : bool) c => if ok then over c else ended c0 c)).
  { apply triple_run. intros c [[M1 M2 M3] Hs]. pose proof (collect_fits e _ c M1) as Hc.
    destruct (CollectSample e c) as [ok c']. cbn [fst snd]. destruct ok.
    - destruct Hc as (C1 & C2 & C3). split; [|by rewrite C2]. split; [done|by rewrite C3|].
      unfold on_course. by rewrite C2.
    - subst c'. case_bool_decide as Hx; [by apply mid_ended|].
      apply leave_course; [left; by split| | |apply phase_other; by left]; destruct (state c); unfold sampling in Hs; naive_solver. }
  intros [|]; cbn [negb]; [|by apply triple_leave].
  eapply triple_bind; [by apply triple_count|]. intros n0. cbv beta.
  eapply (triple_bind _ _ _ (fun (n : nat) c => over c /\ n <= kMaxSamples)).
  { eapply triple_pre; [by apply triple_count|]. by intros c [? _]. }
  intros n. apply triple_look. intros have. destruct (Nat.ltb_spec have n) as [Hlt|Hge].
  - apply triple_leave. intros c [[[[M1 M2 M3] _] Hn] Hh]. apply mid_ended. split; [|done|done].
    eapply fits_tight; [exact M1|]. unfold calc_count, CalibCalc.SampleCount in Hh. lia.
  - eapply triple_weaken; [apply (triple_shift_down over calc_count calc_shift have (ended c0))| | |done].
    + exact Hover.
    + intros c s. reflexivity.
    + intros c [Hm Hs]. split; [split; [by apply mid_shift|exact Hs]|apply shift_count].
    + intros c [[Hc _] Hh]. split; [done|lia].
    + intros [] c [[[M1 M2 M3] Hs] Hc]. split; [split; [by eapply fits_tight|done|done]|done].
Qed.

Lemma phase_spec c0 : triple (stage c0 sampling) phase_step (fun _ => stage c0 solving) (ended c0).
Proof.
  unfold phase_step. apply triple_look. intros st. apply triple_see. intros k.
  assert (forall c, stage c0 sampling c /\ state c = st -> ended c0 (calc_shift c)) as Hshift.
  { intros c [[Hm _] _]. by apply mid_ended, mid_shift. }
  case_bool_decide as Hr.
  - destruct (flt _ _); (eapply (triple_bind _ _ _ (fun _ => ended c0)); [apply triple_put|intros []; by apply triple_leave]); [done|].
    intros c [[[M1 M2 M3] Hs] He].
    assert (cal_fits kMaxSamples (set_state StTranslation (c <| calc ::= FreezeRotationPhaseSamples |>))) as HF.
    { eapply quiet_fits; [|apply (fits_move kMaxSamples kMaxSamples c StTranslation (FreezeRotationPhaseSamples (calc c)) M1)].
      - apply quiet_same; reflexivity.
      - exists [OpFreeze]. reflexivity.
      - cbn. lia.
      - apply phase_other. right; by left. }
    split; [exact HF|exact M2|]. eapply on_course_leaves; [exact M3|by rewrite He, Hr|by rewrite He, Hr].
  - case_bool_decide as Ht.
    + destruct (flt _ _); [eapply (triple_bind _ _ _ (fun _ => ended c0)); [by apply triple_put|intros []; by apply triple_leave]|].
      apply triple_ret. intros c [[Hm _] Hs]. split; [done|left; by rewrite Hs].
    + apply triple_ret. intros c [[Hm Hs] <-]. split; [done|]. unfold sampling, solving in *. naive_solver.
Qed.

Lemma trigger_spec e c0 : triple (stage c0 solving) (trigger_step e) (fun _ => stage c0 solving) (ended c0).
Proof.
  unfold trigger_step. apply triple_see. intros [|]; cbn [negb]; [|by apply triple_ret].
  apply triple_see. intros ids. destruct (triggers_pressed e ids).
  - apply triple_quiet; [apply stage_closed|]. intros c. apply quiet_same; reflexivity.
  - apply triple_put_quiet; [apply stage_closed|intros c; apply quiet_same; reflexivity|].
    apply triple_leave. intros c. apply stage_ended.
Qed.

(** *** Solving *)

Lemma incremental_facts fl s k :
  let k' := (incremental fl s k).2 in
  (exists ops, k' = calc_run k ops) /\ length (m_samples k') <= length (m_samples k) /\
  (m_rotationFrozen k = [] -> m_rotationFrozen k' = []).
Proof.
  cbv zeta. unfold incremental.
  set (thr := d_of_f (continuousCalibrationThreshold s)). set (mx := d_of_f (maxRelativeErrorThreshold s)).
  pose proof (incremental_cases fl false thr mx (ignoreOutliers s) k) as Hi.
  assert (exists ops, (ComputeIncremental fl false thr mx (ignoreOutliers s) k).2 = calc_run k ops) as Hr
    by (exists [OpIncremental fl false thr mx (ignoreOutliers s)]; reflexivity).
  destruct (ComputeIncremental fl false thr mx (ignoreOutliers s) k) as [[ok lerp] k']. cbn [snd] in *. split; [exact Hr|].
  destruct ok; [destruct Hi as (_ & -> & -> & _); done|].
  destruct Hi as [_ [(_ & _ & _ & -> & -> & _)|(_ & _ & _ & _ & -> & -> & _)]]; split; done || (cbn; lia).
Qed.

Lemma incremental_stage e c0 c :
  stage c0 (fun s => s = StContinuous) c -> stage c0 (fun s => s = StContinuous) (incremental_step e c).
Proof.
  intros [[M1 M2 M3] Hs]. unfold incremental_step. destruct (calibrationPaused (opts c)); [done|]. cbv zeta.
  set (k := (incremental _ _ _).2).
  destruct (incremental_facts (primary_flags (enableStaticRecalibration (opts c)) c) (opts c) (calc c)) as (I1 & I2 & I3).
  fold k in I1, I2, I3. clearbody k.
  assert (cal_fits kMaxSamples (c <| calc := k |>)) as HF.
  { apply (fits_calc kMaxSamples kMaxSamples c k M1 I1).
    - pose proof (proj2 (fit_calc _ _ M1)). lia.
    - split; [rewrite Hs; by intros [|]|]. intros _. apply I3, (fit_phase _ _ M1). right; right. by rewrite Hs. }
  split; [|exact Hs]. split; [|exact M2|exact M3]. eapply quiet_fits; [|exact HF]. apply quiet_same; reflexivity.
Qed.

Lemma oneshot_stage c0 c :
  stage c0 (fun s => s = StTranslation) c ->
  stage c0 (fun s => s = StTranslation)
    (c <| calc := (ComputeOneshot (primary_flags false c) (ignoreOutliers (opts c)) (calc c)).2 |>).
Proof.
  intros [[M1 M2 M3] Hs]. pose proof (oneshot_effect (primary_flags false c) (ignoreOutliers (opts c)) (calc c)) as Ho.
  assert (exists ops, (ComputeOneshot (primary_flags false c) (ignoreOutliers (opts c)) (calc c)).2 = calc_run (calc c) ops) as Hr
    by (exists [OpOneshot (primary_flags false c) (ignoreOutliers (opts c))]; reflexivity).
  destruct (ComputeOneshot _ _ _) as [ok k]. destruct Ho as (O1 & O2 & _). cbn [snd] in *.
  split; [|exact Hs]. split; [|exact M2|exact M3].
  apply (fits_calc kMaxSamples kMaxSamples c k M1 Hr).
  - rewrite O1. apply (fit_calc _ _ M1).
  - rewrite Hs. apply phase_other. right; by left.
Qed.

(** *** The extra calibrations *)

Definition extra_fits (n : nat) (r : ExtraRun) : Prop :=
  calc_fits n (xr_calc r) /\ length (xr_autoLockHistory r) <= kAutoLockHistoryMax.

Lemma calc_init_fits n : calc_fits n calc_init.
Proof. split; [by exists []|cbn; lia]. Qed.

Lemma extra_run_fits i c : Forall extra_ok (extras c) -> extra_fits kMaxSamples (extra_run i c).
Proof.
  intros HF. unfold extra_run. destruct (extras c !! i) as [r|] eqn:Hr; cbn [default].
  - rewrite list.Forall_lookup in HF. by apply (HF i).
  - split; [apply calc_init_fits|cbn; lia].
Qed.

Lemma set_extra_id i c : set_extra i (extra_run i c) c = c.
Proof.
  destruct c. unfold set_extra, extra_run. cbn. f_equal. destruct (extras !! i) as [r|] eqn:Hr; cbn.
  - by apply list_insert_id.
  - apply list_insert_ge, lookup_ge_None. exact Hr.
Qed.

Lemma set_extra_set i r r' c : set_extra i r (set_extra i r' c) = set_extra i r c.
Proof. destruct c. unfold set_extra. cbn. f_equal. apply list_insert_insert_eq. Qed.

(** A run that was set is read back; there is none out of range. *)
Lemma extra_run_set i r c :
  extra_run i (set_extra i r c) = r \/
  (extra_run i (set_extra i r c) = extra_run i c /\ xr_calc (extra_run i c) = calc_init /\ xr_autoLockHistory (extra_run i c) = []).
Proof.
  unfold extra_run, set_extra. cbn. destruct (decide (i < length (extras c))) as [Hi|Hi].
  - left. rewrite list_lookup_insert_eq by done. done.
  - right. rewrite list_insert_ge by lia. rewrite (lookup_ge_None_2 _ _) by lia. done.
Qed.

Lemma run_set_fits n i r c : extra_fits n r -> extra_fits n (extra_run i (set_extra i r c)).
Proof.
  intros Hr. destruct (extra_run_set i r c) as [->|(-> & H1' & H2')]; [done|].
  split; [rewrite H1'; apply calc_init_fits|rewrite H2'; cbn; lia].
Qed.

Lemma stage_set_extra c0 S i r c : extra_ok r -> stage c0 S c -> stage c0 S (set_extra i r c).
Proof.
  intros Hr [[[F1 F2 F3 F4 F5 F6 F7 F8 F9] M2 M3] Hs]. split; [|done]. split; [|done|done].
  constructor; try done.
  - unfold set_extra. cbn. rewrite length_insert. exact F8.
  - unfold set_extra. cbn. by apply list.Forall_insert.
Qed.

(** The rest is in order, with the [i]-th run put back to [r]. *)
Definition ajar (c0 : Cal) (S : CalibrationState -> Prop) (i : nat) (r : ExtraRun) (n : nat) (c : Cal) : Prop :=
  stage c0 S (set_extra i r c) /\ extra_fits n (extra_run i c).

Lemma ajar_close c0 S i r c : ajar c0 S i r kMaxSamples c -> stage c0 S c.
Proof.
  intros [Hs Hf]. rewrite <-(set_extra_id i c), <-(set_extra_set i (extra_run i c) r c). by apply stage_set_extra.
Qed.

Lemma ajar_set c0 S i r r' n m c : extra_fits n r' -> ajar c0 S i r m c -> ajar c0 S i r n (set_extra i r' c).
Proof. intros Hr [Hs Hf]. split; [by rewrite set_extra_set|by apply run_set_fits]. Qed.

Lemma ajar_open c0 S i c : stage c0 S c -> ajar c0 S i (extra_run i c) kMaxSamples c.
Proof. intros Hs. split; [by rewrite set_extra_id|]. apply extra_run_fits, Hs. Qed.

Lemma stage_paced c0 S : paced (stage c0 S).
Proof. intros c s Hs [Hm HS]. split; [by apply mid_paced|done]. Qed.

Lemma ajar_paced c0 S i r n : paced (ajar c0 S i r n).
Proof. intros c s Hs [Hm Hf]. split; [|exact Hf]. exact (stage_paced c0 S (set_extra i r c) s Hs Hm). Qed.

Lemma calc_fits_push n x k : calc_fits n k -> calc_fits (Datatypes.S n) (PushSample x k).
Proof.
  intros HF. eapply calc_fits_steps; [exact HF|exists [OpPush x]; reflexivity|].
  destruct (push_facts x k) as (_ & _ & Hl). pose proof (proj2 HF). lia.
Qed.

Lemma calc_fits_shift n k : calc_fits n k -> calc_fits n (ShiftSample k).
Proof.
  intros HF. eapply calc_fits_steps; [exact HF|exists [OpShift]; reflexivity|]. cbn. rewrite length_tl.
  pose proof (proj2 HF). lia.
Qed.

Definition run_shift (i : nat) (c : Cal) : Cal := set_extra i ((extra_run i c) <| xr_calc ::= ShiftSample |>) c.
Definition run_count (i : nat) (c : Cal) : nat := CalibCalc.SampleCount (xr_calc (extra_run i c)).

Lemma run_shift_count i c : run_count i (run_shift i c) = pred (run_count i c).
Proof.
  unfold run_count, run_shift, CalibCalc.SampleCount.
  destruct (extra_run_set i ((extra_run i c) <| xr_calc ::= ShiftSample |>) c) as [->|(-> & -> & _)]; [|done].
  cbn. rewrite length_tl. lia.
Qed.

Lemma extra_lock_fits n a b r : extra_fits n r -> extra_fits n (extra_lock a b r).
Proof.
  intros [Hc _]. split; [exact Hc|]. unfold extra_lock. cbv zeta.
  change (length (keep_last 30 (xr_autoLockHistory r ++ [relative_pose a b])) <= kAutoLockHistoryMax).
  rewrite length_keep_last. unfold kAutoLockHistoryMax. lia.
Qed.

(** The solve of an extra calibration, and what it publishes. *)
Lemma solve_extra_stage c0 S i n c :
  stage c0 S c ->
  stage c0 S
    (let r := extra_run i c in
     if (CalibCalc.SampleCount (xr_calc r) <? n)%nat then c else
     let '(ok, k) := incremental (extra_flags (opts c) r) (opts c) (xr_calc r) in
     let r := r <| xr_calc := k |> in
     let c := set_extra i r c in
     if ok && m_isValid k then publish_extra i r c else c).
Proof.
  intros Hs. cbv zeta. destruct (_ <? n)%nat; [done|]. set (r := extra_run i c).
  assert (extra_ok r) as Hr by (apply extra_run_fits, Hs).
  destruct (incremental_facts (extra_flags (opts c) r) (opts c) (xr_calc r)) as (I1 & I2 & _).
  destruct (incremental (extra_flags (opts c) r) (opts c) (xr_calc r)) as [ok k]. cbn [snd] in I1, I2.
  assert (extra_ok (r <| xr_calc := k |>)) as Hr'.
  { destruct Hr as [Hc Hh]. split; [|exact Hh]. eapply calc_fits_steps; [exact Hc|exact I1|].
    pose proof (proj2 Hc). cbn. lia. }
  destruct (ok && m_isValid k); [|by apply stage_set_extra].
  unfold publish_extra. cbv zeta. eapply stage_closed; [apply quiet_prof; cbn; [reflexivity|apply length_alter]|].
  apply stage_set_extra; [exact Hr'|]. by apply stage_set_extra.
Qed.

Lemma extra_spec e c0 S i E : triple (stage c0 S) (extra_step e i) (fun _ => stage c0 S) E.
Proof.
  unfold extra_step. apply triple_look. intros r. do 3 (apply triple_see; intros ?).
  destruct (_ || _); [apply triple_ret; by intros c [Hc _]|].
  eapply (triple_bind _ _ _ (fun _ => ajar c0 S i r (Datatypes.S kMaxSamples))).
  { apply triple_put. intros c [Hc <-]. eapply ajar_set; [|by apply ajar_open].
    destruct (extra_run_fits i c (fit_extras _ _ (mid_fits _ _ _ (proj1 Hc)))) as [Hf Hh].
    split; [by apply calc_fits_push|exact Hh]. }
  intros []. apply triple_look. intros have.
  eapply (triple_bind _ _ _ (fun _ => ajar c0 S i r kMaxSamples)).
  { eapply triple_weaken; [apply (triple_shift_down (ajar c0 S i r (Datatypes.S kMaxSamples)) (run_count i) (run_shift i) have E)| | |done].
    - apply ajar_paced.
    - intros c s. reflexivity.
    - intros c Hc. split; [|apply run_shift_count]. eapply ajar_set; [|exact Hc].
      destruct Hc as [_ [Hf Hh]]. split; [by apply calc_fits_shift|exact Hh].
    - intros c [Hc Hh]. split; [done|]. unfold run_count. lia.
    - intros [] c [[Hs [[Hf _] Hh]] Hc]. split; [exact Hs|]. by split. }
  intros []. eapply (triple_bind _ _ _ (fun _ => stage c0 S)).
  { apply triple_put. intros c Hc. apply (ajar_close c0 S i r). eapply ajar_set; [|exact Hc].
    apply extra_lock_fits, Hc. }
  intros []. apply triple_see. intros [|]; [by apply triple_ret|].
  eapply triple_bind; [apply triple_count, stage_paced|]. intros n. apply triple_put. intros c [Hc _].
  by apply solve_extra_stage.
Qed.

Lemma extras_spec e c0 S ids E : triple (stage c0 S) (extras_step e ids) (fun _ => stage c0 S) E.
Proof.
  induction ids as [|i ids IH]; cbn [extras_step]; [by apply triple_ret|].
  eapply triple_bind; [apply extra_spec|]. intros []. exact IH.
Qed.

Lemma solve_spec e c0 : triple (stage c0 solving) (solve_step e) (fun _ => stage c0 solving) (ended c0).
Proof.
  unfold solve_step. apply triple_look. intros st. case_bool_decide as Hst.
  - eapply triple_bind; [apply (triple_put _ _ (fun _ => stage c0 (fun s => s = StContinuous)))|].
    { intros c [[Hm _] Hs]. apply incremental_stage. split; [done|by rewrite Hs]. }
    intros []. apply triple_see. intros n. eapply triple_weaken; [apply extras_spec|by intros c Hc| |done].
    intros a c [Hm Hs]. split; [done|by right].
  - apply triple_put. intros c [[Hm [Hs|Hs]] He]; [|congruence].
    destruct (oneshot_stage c0 c) as [Hm' Hs']; [by split|]. split; [done|by left].
Qed.

(** *** Publication *)

(** The calibration of [k], as it is stored. *)
Definition stores (k : Calc) (p : Profile) : Prop :=
  c_calibratedTranslation p = TransformationCm k /\ c_calibratedRotation p = EulerRotation k /\ c_validProfile p = true.

(** What a tick that began with [c0] saved: nothing, or one profile, with the
    calibration of a valid and publishable calculator, that is in force. *)
Definition saved (c0 c : Cal) : Prop :=
  saves c = saves c0 \/
  exists k p, saves c = saves c0 ++ [p] /\ calc_fits kMaxSamples k /\ m_isValid k = true /\ publishable k = true /\
    stores k p /\ solving (c_state p) /\ stores k (prof c).

Record late (c0 c : Cal) : Prop := {
  late_fits : cal_ok c; late_course : on_course c0 c; late_solving : solving (state c); late_saved : saved c0 c }.

(** The contract of a tick. *)
Record finished (c0 c : Cal) : Prop := {
  fin_fits : cal_ok c; fin_reached : reached c0 c; fin_saved : saved c0 c }.

Lemma ended_finished c0 c : ended c0 c -> finished c0 c.
Proof. intros [E1 E2 E3]. split; [done..|by left]. Qed.

Lemma late_finished c0 c : late c0 c -> finished c0 c.
Proof. intros [L1 L2 L3 L4]. split; [done|by apply on_course_reached|done]. Qed.

Lemma stores_enabled k p b : stores k p -> stores k (p <| c_enabled := b |>).
Proof. done. Qed.

(** A step that changes the profile by its switch at most. *)
Lemma quiet_late c0 c c' : quiet c c' -> but_enabled (prof c) (prof c') -> late c0 c -> late c0 c'.
Proof.
  intros Hq [b Hb] [L1 L2 L3 L4]. destruct (view_state _ _ (q_view _ _ Hq)) as (V1 & _ & _ & _ & _ & V6 & _).
  split; [by eapply quiet_fits|unfold on_course; by rewrite V1|by rewrite V1|].
  unfold saved. rewrite V6, Hb. exact L4.
Qed.

Lemma scan_profile e c : but_enabled (prof c) (prof (scan e c).2).
Proof.
  unfold scan. pose proof (tame_scan (e_answered e) (e_vr e) (ov c)) as Ht.
  by destruct (ScanAndApplyProfile (e_answered e) (e_vr e) (ov c)) as [r o].
Qed.

Lemma fits_save n c : cal_fits n c -> cal_fits n (SaveProfile c).
Proof. intros [F1 F2 F3 F4 F5 F6 F7 F8 F9]. by constructor. Qed.

Lemma quiet_store_result c : quiet c (store_result c).
Proof.
  eapply (quiet_trans _ (set_prof (fun p => p <| c_calibratedRotation := EulerRotation (calc c) |>
    <| c_calibratedTranslation := TransformationCm (calc c) |> <| c_validProfile := true |>) c));
    [apply quiet_prof|apply quiet_same]; reflexivity.
Qed.

Lemma publish_late c0 c :
  stage c0 solving c -> m_isValid (calc c) && publishable (calc c) = true -> late c0 (SaveProfile (store_result c)).
Proof.
  intros [[M1 M2 M3] Hs] Hg. apply andb_true_iff in Hg as [Hv Hp].
  split; [apply fits_save; eapply quiet_fits; [apply quiet_store_result|exact M1]|exact M3|exact Hs|].
  right. exists (calc c), (prof (store_result c)).
  split; [cbn; by rewrite M2|]. split; [exact (fit_calc _ _ M1)|]. split; [exact Hv|]. split; [exact Hp|].
  split; [by split|]. split; [exact Hs|by split].
Qed.

Lemma publish_spec e c0 : triple (stage c0 solving) (publish_step e) (fun _ => late c0) (finished c0).
Proof.
  unfold publish_step. apply triple_look. intros good. destruct good; cbn [only].
  2: { apply triple_ret. intros c [[[M1 M2 M3] Hs] _]. split; [done..|by left]. }
  eapply (triple_bind _ _ _ (fun _ => late c0)).
  { apply triple_put. intros c [Hc Hg]. by apply publish_late. }
  intros []. eapply (triple_bind _ _ _ (fun _ => late c0)).
  - intros c Hc. pose proof (quiet_late c0 _ _ (quiet_scan e c) (scan_profile e c) Hc) as Hc'. unfold scan in *.
    destruct (ScanAndApplyProfile _ _ _) as [[u|] o]; cbn [snd] in Hc'; [done|by apply late_finished].
  - intros []. apply triple_put. intros c. apply quiet_late; [apply quiet_same; reflexivity|apply but_enabled_refl].
Qed.

Lemma late_shift c0 c : late c0 c -> late c0 (calc_shift c).
Proof. intros [L1 L2 L3 L4]. split; [by apply fits_shift|done..]. Qed.

Lemma late_shifts c0 n c : late c0 c -> late c0 (Nat.iter n calc_shift c).
Proof. intros Hc. induction n as [|n IH]; [done|]. by apply late_shift. Qed.

Lemma late_paced c0 : paced (late c0).
Proof. intros c s Hs [L1 L2 L3 L4]. split; [by apply fits_speed|done..]. Qed.

Lemma finish_spec c0 : triple (late c0) finish_step (fun _ => finished c0) (finished c0).
Proof.
  unfold finish_step. apply triple_look. intros st. case_bool_decide as Hst.
  - eapply (triple_bind _ _ _ (fun _ => late c0)).
    + eapply triple_weaken; [apply triple_count, late_paced|by intros c [Hc _]|by intros a c [Hc _]|done].
    + intros n. apply triple_put. intros c Hc. by apply late_finished, late_shifts.
  - apply triple_put. intros c [[L1 L2 L3 L4] He]. destruct L3 as [Hs|Hs]; [|congruence].
    split; [by apply fits_clear| |exact L4]. eapply on_course_leaves; [exact L2|by rewrite Hs|by rewrite Hs].
Qed.

Theorem tick_contract e c0 : triple (early c0) (CalibrationTick e) (fun _ => finished c0) (finished c0).
Proof.
  assert (forall A (P : Cal -> Prop) (m : T A) Q, triple P m Q (ended c0) -> triple P m Q (finished c0)) as Hend.
  { intros A P m Q Hm. eapply triple_weaken; [exact Hm|done|done|apply ended_finished]. }
  unfold CalibrationTick, solve_part.
  repeat (eapply triple_bind;
    [first [apply Hend, tick_guard_spec|apply Hend, detect_spec|apply Hend, read_spec|apply Hend, stall_spec
           |apply Hend, idle_scan_spec|apply Hend, standby_spec|apply Hend, idle_spec|apply Hend, begin_spec
           |apply Hend, liveness_spec|apply Hend, collect_spec|apply Hend, phase_spec|apply Hend, trigger_spec
           |apply Hend, solve_spec|apply publish_spec]|intros []]).
  apply finish_spec.
Qed.

Lemma tick_finished e c : cal_ok c -> finished c (CalibrationTick e c).2.
Proof.
  intros Hc. pose proof (tick_contract e c c ltac:(split; [done|split; [done|by left]])) as Ht.
  destruct (CalibrationTick e c) as [[x|u] c']; exact Ht.
Qed.
End Invariant.
