(* ===== verification/CalibHistory.v ===== *)
(** * Histories of the calibration (Calibration.cpp, StateTransitions.h,
      UserInterface.cpp, UserInterfaceTabsBasic.cpp, Wizard.cpp)

    Any interleaving of ticks with what the user's buttons do to the context,
    from a profile as it is loaded, and the theorems on it: the invariant, the
    transitions a tick makes, what it publishes, and automatic recovery. *)

From S2P Require Import Prelude Floats Shmem Isometry FallbackTable InputConfig PoseProvider Driver Detectors Filters InputStats CalibSolve CalibCalc CalibRest CalibLatency CalibScan CalibContext CalibReloc CalibTick CalibTickSpec.
From stdpp Require Import gmap.
Open Scope fl_scope.

(** An extra calibration without samples. *)
Definition extra_fresh (referenceID targetID lockMode : Z) : ExtraRun :=
  mkExtraRun referenceID targetID calc_init lockMode aff_identity false [] false false.

Definition kLockAuto : Z := 2.

(** The context after the profile has been loaded. *)
Definition cal_load (p : Profile) (s : Settings) (lockModes : nat -> Z) : Cal :=
  (cal_init p s) <| extras := imap (fun i _ => extra_fresh (-1) (-1) (lockModes i)) (c_additional p) |>.

Section History.
Context `{Eigen} `{EigenMore} `{Libm} `{EigenSolver} `{EigenRot} `{DoubleBits}.

(** Ticks, and the buttons. *)
Inductive cal_op :=
| DoTick (e : Env)
| DoStart (e : Env)
| DoStartContinuous (e : Env)
| DoEndContinuous
| DoEdit
| DoSaveEdit
| DoClear (unset_rotation unset_translation : Vector3d)
| DoUndo
| DoDismiss
| DoSettings (s : Settings)
| DoProfile (p : Profile)
| DoSelect (reference target : Z)
| DoAddExtra (x : Extra) (reference target : Z).

(** Fields of the profile edited in place: not the state, nor the extras' number. *)
Definition same_shape (p q : Profile) : bool :=
  bool_decide (c_state p = c_state q) && bool_decide (length (c_additional p) = length (c_additional q)).

Definition cal_step (c : Cal) (op : cal_op) : Cal :=
  match op with
  | DoTick e => (CalibrationTick e c).2
  | DoStart e => StartCalibration e c
  | DoStartContinuous e => StartContinuousCalibration e c
  | DoEndContinuous => if in_continuous (state c) then EndContinuousCalibration c else c
  | DoEdit => if bool_decide (state c = StNone) && c_validProfile (prof c) then set_state StEditing c else c
  | DoSaveEdit => if bool_decide (state c = StEditing) then set_state StNone (SaveProfile c) else c
  | DoClear r t => SaveProfile (Clear_context r t c)
  | DoUndo => (UndoLastAutoRecovery c).2
  | DoDismiss => DismissAutoRecoveryBanner c
  | DoSettings s => c <| opts := s |>
  | DoProfile p => if same_shape p (prof c) then set_prof (fun _ => p) c else c
  | DoSelect r t => set_prof (fun p => p <| c_targetID := t |>) (c <| referenceID := r |>)
  | DoAddExtra x r t =>
    set_prof (fun p => p <| c_additional ::= fun l => l ++ [x] |>)
      (c <| extras ::= fun l => l ++ [extra_fresh r t kLockAuto] |>)
  end.

Definition cal_run (c : Cal) (ops : list cal_op) : Cal := foldl cal_step c ops.

Lemma cal_load_ok p s lockModes : cal_ok (cal_load p s lockModes).
Proof.
  constructor; try done.
  - by exists p, [].
  - apply calc_init_fits.
  - constructor; cbn; try done; unfold kLatencyHistoryCapacity, kAutoLockHistoryMax; lia.
  - cbn. apply length_imap.
  - apply list.Forall_lookup. intros i r Hr. cbn in Hr. apply list_lookup_imap_Some in Hr as (x & _ & ->).
    split; [apply calc_init_fits|cbn; lia].
Qed.

Lemma quiet_undo c : quiet c (UndoLastAutoRecovery c).2.
Proof.
  unfold UndoLastAutoRecovery. cbv zeta. destruct (sn_valid _); [apply quiet_same; reflexivity|apply quiet_refl].
Qed.

Lemma fits_end n c : cal_fits n c -> cal_fits n (EndContinuousCalibration c).
Proof.
  intros HF. unfold EndContinuousCalibration. apply fits_save.
  eapply quiet_fits; [|apply (fits_state n c StNone HF), phase_other; by left]. apply quiet_same; reflexivity.
Qed.

Lemma fits_clear_context n r t c : cal_fits n c -> cal_fits n (Clear_context r t c).
Proof.
  intros [[p [ops HP]] F2 F3 [W1 W2 W3 W4 W5] F5 F6 F7 F8 F9]. constructor; try done.
  - exists p, (ops ++ [OpContext (fun p => p <| c_chaperoneValid := false |> <| c_chaperoneQuads := 0%nat |>
      <| c_calibratedRotation := r |> <| c_calibratedTranslation := t |> <| c_calibratedScale := d_one |>
      <| c_referenceTrackingSystem := [] |> <| c_targetTrackingSystem := [] |>
      <| c_enabled := false |> <| c_validProfile := false |> <| c_recalibrateOnMovement := true |>)]).
    unfold overlay_run in *. rewrite foldl_app, <-HP. reflexivity.
  - constructor; cbn; try done; unfold kLatencyHistoryCapacity, kAutoLockHistoryMax; lia.
Qed.

Lemma fits_add_extra n x r t c :
  cal_fits n c ->
  cal_fits n (set_prof (fun p => p <| c_additional ::= fun l => l ++ [x] |>)
    (c <| extras ::= fun l => l ++ [extra_fresh r t kLockAuto] |>)).
Proof.
  intros [[p [ops HP]] F2 F3 F4 F5 F6 F7 F8 F9]. constructor; try done.
  - exists p, (ops ++ [OpContext (fun p => p <| c_additional ::= fun l => l ++ [x] |>)]).
    unfold overlay_run in *. rewrite foldl_app, <-HP. reflexivity.
  - unfold set_prof, prof in *. cbn. by rewrite !length_app, F8.
  - apply list.Forall_app. split; [exact F9|]. apply list.Forall_singleton. split; [apply calc_init_fits|cbn; lia].
Qed.

Lemma cal_step_ok c op : cal_ok c -> cal_ok (cal_step c op).
Proof.
  intros HF. destruct op; cbn [cal_step].
  - apply (tick_finished e c HF).
  - apply (fits_start e _ c HF).
  - apply (fits_continuous e _ c HF).
  - destruct (in_continuous _); [by apply fits_end|done].
  - destruct (_ && _); [apply fits_state; [done|apply phase_other; naive_solver]|done].
  - destruct (bool_decide _); [apply fits_state; [by apply fits_save|apply phase_other; by left]|done].
  - by apply fits_save, fits_clear_context.
  - eapply quiet_fits; [apply quiet_undo|exact HF].
  - eapply quiet_fits; [|exact HF]. apply quiet_same; reflexivity.
  - eapply quiet_fits; [|exact HF]. apply quiet_same; reflexivity.
  - destruct (same_shape p (prof c)) eqn:Hs; [|done]. unfold same_shape in Hs. apply andb_true_iff in Hs as [Hs Hl].
    apply bool_decide_eq_true in Hs, Hl. eapply quiet_fits; [by apply quiet_prof|exact HF].
  - eapply quiet_fits; [|exact HF]. eapply (quiet_trans _ (c <| referenceID := reference |>)).
    + apply quiet_same; reflexivity.
    + apply quiet_prof; reflexivity.
  - by apply fits_add_extra.
Qed.

Lemma cal_run_ok c ops : cal_ok c -> cal_ok (cal_run c ops).
Proof. revert c. induction ops as [|op ops IH]; intros c Hc; [done|]. apply IH. by apply cal_step_ok. Qed.

(** ** The theorems *)

(** C17: over any ticks and user actions from a loaded profile, with any
    devices, poses and answers of the driver: no calibration is in force while
    a one-shot begins and frozen samples exist only from its second phase on;
    no buffer holds more than 200 samples, the speed windows stay together and
    within 100, the lock windows within 30, the motion counter within 0 and 30;
    the pose tables and the extra calibrations keep their shape; every
    calculator satisfies its own invariant; and the send caches agree with what
    the driver was last told. *)
Theorem context_invariant p s lockModes ops :
  let c := cal_run (cal_load p s lockModes) ops in
  cal_ok c /\ calc_ok (calc c) /\ Forall (fun r => calc_ok (xr_calc r)) (extras c) /\ coherent (ov c).
Proof.
  intros c. assert (cal_ok c) as Hc by apply cal_run_ok, cal_load_ok. split; [exact Hc|].
  assert (forall n k, calc_fits n k -> calc_ok k) as Hk.
  { intros n k [[ops' ->] _]. apply calc_invariant. }
  split; [exact (Hk _ _ (fit_calc _ _ Hc))|]. split.
  - eapply list.Forall_impl; [exact (fit_extras _ _ Hc)|]. intros r [Hr _]. exact (Hk _ _ Hr).
  - destruct (fit_overlay _ _ Hc) as (q & l & ->). apply overlay_run_coherent.
Qed.

(** C16: in every history each tick makes a transition of the table of
    StateTransitions.h, or none; except that the geometry watchdog, which runs
    in every state, takes a calibration that is still in force out of the
    editor, or out of the second phase of a one-shot, into continuous mode. *)
Theorem tick_transitions p s lockModes ops e :
  let c := cal_run (cal_load p s lockModes) ops in
  let c' := (CalibrationTick e c).2 in
  IsLegalTransition (state c) (state c') = true \/
  ((state c = StEditing \/ state c = StTranslation) /\ m_isValid (calc c) = true /\ in_continuous (state c') = true).
Proof.
  intros c c'. assert (cal_ok c) as Hc by apply cal_run_ok, cal_load_ok.
  destruct (fin_reached _ _ (tick_finished e c Hc)) as [Hl|[Hv Hs]]; [by left|].
  fold c' in Hs. clearbody c'. destruct (fit_phase _ _ Hc) as [Hp _].
  destruct (state c) eqn:He; try (left; by destruct (state c')); try (right; split_and!; auto; fail).
  all: rewrite Hp in Hv; [done|auto].
Qed.

(** C18: in every history a tick saves at most one profile: a calibration in
    force, solved from at most 200 samples, with a finite translation and a
    rotation of more than a thousandth of a radian, in the second phase of a
    one-shot or in continuous mode; and what it saved is what the context
    holds afterwards. *)
Theorem tick_publishes p s lockModes ops e :
  let c := cal_run (cal_load p s lockModes) ops in
  let c' := (CalibrationTick e c).2 in
  saves c' = saves c \/
  exists k q, saves c' = saves c ++ [q] /\ calc_fits kMaxSamples k /\ m_isValid k = true /\
    allFinite (aff_translation (m_estimatedTransformation k)) = true /\
    fgt (rotation_angle (aff_rotation (m_estimatedTransformation k))) (d_lit 1 1000) = true /\
    stores k q /\ (c_state q = StTranslation \/ c_state q = StContinuous) /\ stores k (prof c').
Proof.
  intros c c'. assert (cal_ok c) as Hc by apply cal_run_ok, cal_load_ok.
  destruct (fin_saved _ _ (tick_finished e c Hc)) as [Hs|(k & q & S1 & S2 & S3 & S4 & S5 & S6 & S7)]; [by left|].
  unfold publishable in S4. apply andb_true_iff in S4 as [S4 S4']. right. exists k, q. by split_and!.
Qed.

(** *** Automatic recovery *)

(** What starting a calibration leaves alone. *)
Definition frame (c : Cal) :=
  (c_calibratedTranslation (prof c), c_calibratedRotation (prof c), g_snapNextProfileApply (ov c), refToTargetPose c,
   relativePosCalibrated c, reloc c).

Lemma frame_assign e c : frame (AssignTargets e c).2 = frame c.
Proof. unfold AssignTargets. cbv zeta. cbn [snd]. destruct (_ <? 0)%Z; destruct (_ <? 0)%Z; reflexivity. Qed.

Definition begin_with (c : Cal) : Cal :=
  let c := (set_state StBegin c) <| wantedUpdateInterval := fzero |> <| calc ::= Clear |> in
  c <| smp ::= restart_windows |>.

Lemma start_eq e c : StartCalibration e c = begin_with (AssignTargets e (c <| hasAppliedCalibrationResult := false |>)).2.
Proof. reflexivity. Qed.

Lemma frame_begin c : frame (begin_with c) = frame c.
Proof. reflexivity. Qed.
Lemma frame_resume c : frame (resume c) = frame c.
Proof. reflexivity. Qed.

Lemma frame_fresh c : frame (c <| hasAppliedCalibrationResult := false |>) = frame c.
Proof. reflexivity. Qed.

Lemma frame_continuous e c : frame (StartContinuousCalibration e c) = frame c.
Proof. by rewrite continuous_eq, frame_resume, start_eq, frame_begin, frame_assign, frame_fresh, frame_assign, frame_fresh. Qed.

Lemma frame_fields c d : frame c = frame d ->
  c_calibratedTranslation (prof c) = c_calibratedTranslation (prof d) /\
  c_calibratedRotation (prof c) = c_calibratedRotation (prof d) /\
  g_snapNextProfileApply (ov c) = g_snapNextProfileApply (ov d) /\ reloc c = reloc d.
Proof. unfold frame. intros [=]. by split_and!. Qed.

Lemma unwedge_fields c :
  c_calibratedTranslation (prof (unwedge c)) = v_zero /\ c_calibratedRotation (prof (unwedge c)) = v_zero /\
  g_snapNextProfileApply (ov (unwedge c)) = true /\ reloc (unwedge c) = reloc c.
Proof. split_and!; reflexivity. Qed.

Lemma stamp_keeps now c :
  prof (stamp now c) = prof c /\ ov (stamp now c) = ov c /\ lastAutoRecoverTime (reloc (stamp now c)) = now /\
  snapshot (reloc (stamp now c)) = snapshot (reloc c).
Proof. split_and!; reflexivity. Qed.

(** What a recovery leaves behind. *)
Lemma recover_frame e now dpos c :
  let c' := auto_recover e now dpos c in
  c_calibratedTranslation (prof c') = v_zero /\ c_calibratedRotation (prof c') = v_zero /\
  g_snapNextProfileApply (ov c') = true /\ lastAutoRecoverTime (reloc c') = now /\
  snapshot (reloc c') = mkSnap true (refToTargetPose c) (relativePosCalibrated c) (hasAppliedCalibrationResult c).
Proof.
  cbv zeta. rewrite auto_recover_eq.
  destruct (frame_fields _ _ (frame_continuous e (unwedge (remember now dpos c)))) as (F1 & F2 & F3 & F6).
  destruct (stamp_keeps now (StartContinuousCalibration e (unwedge (remember now dpos c)))) as (S1 & S2 & S3 & S4).
  destruct (unwedge_fields (remember now dpos c)) as (U1 & U2 & U3 & U4).
  rewrite S1, S2, S3, S4, F1, F2, F3, F6, U1, U2, U3, U4. split_and!; reflexivity.
Qed.

Lemma undo_valid a b d c :
  snapshot (reloc c) = mkSnap true a b d ->
  let '(undone, u) := UndoLastAutoRecovery c in
  undone = true /\ refToTargetPose u = a /\ relativePosCalibrated u = b /\ hasAppliedCalibrationResult u = d /\
  calc u = calc c /\ c_calibratedTranslation (prof u) = c_calibratedTranslation (prof c) /\
  c_calibratedRotation (prof u) = c_calibratedRotation (prof c).
Proof. intros Hs. unfold UndoLastAutoRecovery. rewrite Hs. by split_and!. Qed.

(** What the settling of a tick leaves alone. *)
Lemma settle_keeps hmdPose bodies c :
  let c' := settle hmdPose bodies c in
  prof c' = prof c /\ ov c' = ov c /\ lastAutoRecoverTime (reloc c') = lastAutoRecoverTime (reloc c) /\
  snapshot (reloc c') = snapshot (reloc c).
Proof. by split_and!. Qed.

(** C19: a tick's relocalization check either changes nothing but its own
    record, or starts a recovery: then continuous calibration was running, the
    headset tracked and jumped by 30 cm or more, two base stations at least were
    tracked and none moved by a millimetre, no other tracker moved by five
    centimetres, and 30 seconds had passed since the start and since the last
    recovery.  The recovery restarts continuous calibration from zero, without
    blending the next profile, and keeps what it replaced; undoing it gives
    back the relative pose but not the calibration. *)
Theorem auto_recovery p s0 lockModes ops e now :
  let c := cal_run (cal_load p s0 lockModes) ops in
  let c' := TickHmdRelocalizationDetector e now c in
  (exists s, c' = c <| reloc := s |> /\ snapshot s = snapshot (reloc c) /\
     lastAutoRecoverTime s = lastAutoRecoverTime (reloc c)) \/
  ((exists system, let s := (reloc c) <| hmdTrackingSystem := system |> in
      havePrevHmd s = true /\ pose_live (pose_at c k_unTrackedDeviceIndex_Hmd) = true /\ in_continuous (state c) = true /\
      fge (v_norm (v_sub (aff_translation (hmd_pose c)) (aff_translation (prevHmd s)))) (d_lit 30 100) = true /\
      2 <= (base_stations (e_vr e) c).1 /\ flt (base_stations (e_vr e) c).2 (d_lit 1 1000) = true /\
      flt (body_trackers (e_vr e) c system (prevBodyTrans s)).2 (d_lit 5 100) = true) /\
   fge now (d_of_Z 30) = true /\ fge (now - lastAutoRecoverTime (reloc c)) (d_of_Z 30) = true /\
   cal_ok c' /\ state c' = StContinuous /\ m_isValid (calc c') = false /\ saves c' = saves c /\
   c_calibratedTranslation (prof c') = v_zero /\ c_calibratedRotation (prof c') = v_zero /\
   g_snapNextProfileApply (ov c') = true /\ lastAutoRecoverTime (reloc c') = now /\
   let '(undone, u) := UndoLastAutoRecovery c' in
   undone = true /\ refToTargetPose u = refToTargetPose c /\ relativePosCalibrated u = relativePosCalibrated c /\
   hasAppliedCalibrationResult u = hasAppliedCalibrationResult c /\ calc u = calc c' /\
   c_calibratedTranslation (prof u) = v_zero /\ c_calibratedRotation (prof u) = v_zero).
Proof.
  intros c c'. assert (cal_ok c) as Hc by apply cal_run_ok, cal_load_ok. subst c'. clearbody c.
  destruct (reloc_cases e now c) as [Hn|(system & (_ & Hl & Hf & Hg) & Heq)]; [by left|right].
  set (s := (reloc c) <| hmdTrackingSystem := system |>) in *. unfold reloc_fires in Hf. unfold recover_gates in Hg.
  repeat rewrite andb_true_iff in Hf. repeat rewrite andb_true_iff in Hg. destruct Hf as (((((F1 & F2) & _) & _) & F5) & F6). destruct Hg as ((((G1 & G2) & G3) & G4) & _).
  split.
  { exists system. fold s. split_and!; try done. by apply Nat.leb_le in F2. }
  split; [exact G3|]. split; [exact G4|]. rewrite Heq. clear Heq.
  set (dpos := v_sub _ _). set (c1 := c <| reloc := _ |>).
  assert (quiet c c1) as Hq by (apply quiet_same; reflexivity).
  destruct (fits_recover e now dpos _ c1 (quiet_fits _ _ _ Hq Hc)) as (R1 & R2 & R3 & R4).
  destruct (recover_frame e now dpos c1) as (P1 & P2 & P3 & P4 & P5).
  set (c2 := auto_recover e now dpos c1) in *. clearbody c2.
  set (bodies := (body_trackers _ _ _ _).1). clearbody bodies.
  destruct (settle_keeps (hmd_pose c) bodies c2) as (K1 & K2 & K3 & K4).
  destruct (view_state _ _ (q_view _ _ (quiet_settle (hmd_pose c) bodies c2))) as (V1 & V2 & _ & _ & _ & V6 & _).
  pose proof (undo_valid (refToTargetPose c) (relativePosCalibrated c) (hasAppliedCalibrationResult c)
    (settle (hmd_pose c) bodies c2) ltac:(by rewrite K4, P5)) as Hu.
  pose proof (quiet_fits _ _ _ (quiet_settle (hmd_pose c) bodies c2) R1) as RF.
  set (c3 := settle (hmd_pose c) bodies c2) in *. clearbody c3.
  destruct (UndoLastAutoRecovery c3) as [undone u]. destruct Hu as (U1 & U2 & U3 & U4 & U5 & U6 & U7).
  rewrite V1, V2, V6, K1, K2, K3, R4, U5, U6, U7, K1, V2. by split_and!.
Qed.
End History.

(** ** Samples *)

#[local] Existing Instance eigen_sample.
#[local] Existing Instance libm_sample.
#[local] Existing Instance solver_sample.
#[local] Instance bits_sample : DoubleBits := {| bits_of := fun _ => 0%Z |}.

Definition standby_none : StandbyDevice := mkStandby [] [] [].
Definition settings_sample : Settings :=
  mkSettings standby_none standby_none LockAuto AUTO f_one false true false f_one f_one v_zero fzero false false
    true false false false false false false false false false false.

Definition tracked_at (x : Z) : DevPose :=
  mkDevPose (mkDP fzero q_identity v_zero q_identity (V3 (d_of_Z x) d_one d_one) v_zero v_zero v_zero v_zero true true) Running_OK.

(** The tick at [t] seconds, with the headset and one tracker tracked. *)
Definition env_at (t : Z) (errors : list (double * double)) : Env :=
  mkEnv true (d_of_Z t) (d_of_Z t) vr_sample (fun _ => 0%Z) always
    (Some [mkAugPose 0 t (tracked_at t); mkAugPose 1 t (tracked_at 2)]) errors 10000000 (fun _ => (fzero, fzero)).

Definition loaded_sample : Cal := cal_load profile_sample settings_sample (fun _ => kLockAuto).

(** A one-shot calibration begins. *)
Example one_shot_begins :
  state (cal_run loaded_sample [DoSelect 0 1; DoStart (env_at 1 []); DoTick (env_at 2 [])]) = StRotation.
Proof. vm_compute. reflexivity. Qed.

(** The editor is left for continuous mode by the watchdog. *)
Example watchdog_leaves_editor :
  let c := (set_state StEditing loaded_sample) <| calc := in_force |> in
  let errors := [(d_of_Z 1, d_one); (d_of_Z 2, d_one); (d_of_Z 3, d_one); (d_of_Z 4, d_one); (d_of_Z 5, d_of_Z 100)] in
  state (CalibrationTick (env_at 6 errors) c).2 = StContinuousStandby.
Proof. vm_compute. reflexivity. Qed.
