(* ===== verification/OverlayProfiles.v ===== *)
(** * The overlay's profile files (core/src/common/JsonUtil.cpp,
      modules/inputhealth/src/overlay/Profiles.cpp,
      modules/facetracking/src/overlay/Profiles.cpp)

    Reading and writing the input-health profiles, one file per device, and the
    face-tracking profile, as JSON texts, through the replacement of a file of
    Files.v, and loading them all. *)

From Stdlib Require Import Strings.Byte.
From S2P Require Import Prelude Floats InputConfig InputStats InputHealth Learning Files Picojson PicojsonSpec.
From stdpp Require Import gmap.

(** ** JSON helpers *)

Definition StripUtf8Bom (body : list byte) : list byte :=
  match body with
  | a :: b :: c :: rest => if (bz a =? 239)%Z && (bz b =? 187)%Z && (bz c =? 191)%Z then rest else body
  | _ => body
  end.

Definition ValueAt (v : value) (key : list byte) : option value :=
  match v with Object o => o_find o key | _ => None end.
Definition StringAt (v : value) (key fallback : list byte) : list byte :=
  match ValueAt v key with Some (Text s) => s | _ => fallback end.
Definition BoolAt (v : value) (key : list byte) (fallback : bool) : bool :=
  match ValueAt v key with Some (Boolean b) => b | _ => fallback end.
Definition NumberAt (v : value) (key : list byte) (fallback : double) : double :=
  match ValueAt v key with Some (Number d) => d | _ => fallback end.
Definition ArrayAt (v : value) (key : list byte) : option (list value) :=
  match ValueAt v key with Some (Array l) => Some l | _ => None end.

(** ** Numbers *)

(** [strtoull(s, nullptr, 16)]: space, a sign, [0x], digits; it stops at the
    first character that is no digit, and saturates. *)
Fixpoint hex_digits (n : Z) (s : list byte) : Z :=
  match s with
  | c :: s => match hex_value c with Some d => hex_digits (n * 16 + d)%Z s | None => n end
  | [] => n
  end.
Fixpoint skip_space (s : list byte) : list byte :=
  match s with c :: s' => if (bz c =? 32)%Z || ((9 <=? bz c)%Z && (bz c <=? 13)%Z) then skip_space s' else s | [] => [] end.
Definition strtoull16 (s : list byte) : Z :=
  let s := skip_space s in
  let '(neg, s) := match s with x2d :: s => (true, s) | x2b :: s => (false, s) | _ => (false, s) end in
  let s := match s with
           | x30 :: x :: d :: t =>
             if ((bz x =? 120)%Z || (bz x =? 88)%Z) && bool_decide (is_Some (hex_value d)) then d :: t else s
           | _ => s
           end in
  let n := hex_digits 0 s in
  if (2 ^ 64 <=? n)%Z then 2 ^ 64 - 1 else if neg : bool then u64 (- n) else n.

(** Conversions of a number that is not negative; out of range they are
    undefined. *)
Definition cast_u64 (d : double) : Z :=
  match trunc_to_Z d with Some z => if (z <? 2 ^ 64)%Z then z else 2 ^ 63 | None => 2 ^ 63 end.
Definition cast_int (d : double) : Z :=
  match trunc_to_Z d with Some z => if (- 2 ^ 31 <=? z)%Z && (z <? 2 ^ 31)%Z then z else - 2 ^ 31 | None => - 2 ^ 31 end.

Definition IntAt (v : value) (key : list byte) (fallback : Z) : Z :=
  match ValueAt v key with Some (Number d) => cast_int d | _ => fallback end.

(** ** Input-health profiles *)

Definition getStr (o : object) (k : list byte) (out : list byte) : list byte :=
  match o_find o k with Some (Text s) => s | _ => out end.
Definition getBool (o : object) (k : list byte) (out : bool) : bool :=
  match o_find o k with Some (Boolean b) => b | _ => out end.
Definition getDouble (o : object) (k : list byte) (out : double) : double :=
  match o_find o k with Some (Number d) => d | _ => out end.
Definition getU64 (o : object) (k : list byte) (out : Z) : Z :=
  match o_find o k with
  | Some (Text s) => strtoull16 s
  | Some (Number d) => if fge d fzero then cast_u64 d else out
  | _ => out
  end.
Definition getU64From (o : object) (k : list byte) (out : Z) : Z :=
  match o_find o k with Some (Number d) => if fge d fzero then cast_u64 d else out | _ => out end.
Definition getU32From (o : object) (k : list byte) (out : Z) : Z :=
  match o_find o k with
  | Some (Number d) => if fge d fzero && fle d (d_of_Z 4294967295) then cast_u64 d else out
  | _ => out
  end.

Definition decode_record (o : object) : LearnedPathRecord :=
  mkRecord (getStr o (str "path") []) (getStr o (str "kind") []) (getU64From o (str "sample_count") 0)
    (getBool o (str "ready") false)
    (mkLearned (getDouble o (str "learned_rest_offset") fzero) (getDouble o (str "learned_stddev") fzero)
       (getDouble o (str "learned_trigger_min") fzero) (getDouble o (str "learned_trigger_max") fzero)
       (getDouble o (str "learned_deadzone_radius") fzero) (getU32From o (str "learned_debounce_us") 0))
    (getU64From o (str "last_updated_unix") 0) (getU32From o (str "drift_shift_resets") 0).

(** Records without a path are dropped, then those of paths that are not
    compensated. *)
Definition keep_record (v : value) : option LearnedPathRecord :=
  match v with
  | Object o => let r := decode_record o in if (length (r_path r) =? 0)%nat then None else Some r
  | _ => None
  end.
Definition supported_record (r : LearnedPathRecord) : bool :=
  match ClassifyInputPath (r_path r) with Unsupported | DiagnosticsOnly => false | _ => true end.

Definition device_default : DeviceProfile := profile_new 0.

Definition Decode_device (v : value) : DeviceProfile :=
  match v with
  | Object o =>
    let serial := getStr o (str "serial") [] in
    let hash := getU64 o (str "serial_hash_hex") 0 in
    let learned := match o_find o (str "learned_paths") with Some (Array l) => omap keep_record l | _ => [] end in
    Learning.mkProfile serial (if (hash =? 0)%Z && negb (length serial =? 0)%nat then Fnv1a64 serial else hash)
      (getStr o (str "display_name") []) (getBool o (str "enable_diagnostics_only") true)
      (getBool o (str "enable_rest_recenter") false) (getBool o (str "enable_trigger_remap") false)
      (getBool o (str "corrections_enabled") true) (List.filter supported_record learned)
  | _ => device_default
  end.

(** [None]: a number that is not finite throws. *)
Definition encode_record (r : LearnedPathRecord) : option value :=
  let l := r_learned r in
  rest ← new_number (l_rest_offset l); stddev ← new_number (l_stddev l);
  tmin ← new_number (l_trigger_min l); tmax ← new_number (l_trigger_max l); radius ← new_number (l_deadzone_radius l);
  Some (Object (object_of [
    (str "path", Some (Text (r_path r))); (str "kind", Some (Text (r_kind r))); (str "sample_count", Some (Number (d_of_Z (r_sample_count r))));
    (str "ready", Some (Boolean (r_ready r))); (str "learned_rest_offset", Some rest); (str "learned_stddev", Some stddev);
    (str "learned_trigger_min", Some tmin); (str "learned_trigger_max", Some tmax); (str "learned_deadzone_radius", Some radius);
    (str "learned_debounce_us", Some (Number (d_of_Z (l_debounce_us l))));
    (str "last_updated_unix", Some (Number (d_of_Z (r_last_updated_unix r))));
    (str "drift_shift_resets", Some (Number (d_of_Z (r_drift_shift_resets r))))])).

Definition encode_device (p : DeviceProfile) : option value :=
  learned ← mapM encode_record (dp_learned_paths p);
  Some (Object (object_of [
    (str "serial", Some (Text (dp_serial p))); (str "serial_hash_hex", Some (Text (hex16 (dp_serial_hash p))));
    (str "display_name", Some (Text (dp_display_name p))); (str "enable_diagnostics_only", Some (Boolean (dp_enable_diagnostics_only p)));
    (str "enable_rest_recenter", Some (Boolean (dp_enable_rest_recenter p))); (str "enable_trigger_remap", Some (Boolean (dp_enable_trigger_remap p)));
    (str "corrections_enabled", Some (Boolean (dp_corrections_enabled p))); (str "learned_paths", Some (Array learned))])).

(** ** The face-tracking profile *)

Record FacetrackingProfile := mkFT {
  eyelid_sync_enabled : bool; eyelid_sync_preserve_winks : bool; eyelid_sync_strength : Z;
  vergence_lock_enabled : bool; vergence_lock_strength : Z; continuous_calib_mode : Z; output_osc_enabled : bool;
  gaze_smoothing : Z; openness_smoothing : Z; enabled_module_uuids : list (list byte);
  show_raw_values : bool; last_tab_index : Z }.

Definition face_default : FacetrackingProfile := mkFT true true 70 false 60 1 true 30 20 [] false 0.

Definition getInt (o : object) (k : list byte) (out : Z) : Z :=
  match o_find o k with Some (Number d) => cast_int d | _ => out end.
Definition nonempty_text (v : value) : option (list byte) :=
  match v with Text s => if (length s =? 0)%nat then None else Some s | _ => None end.

(** The list of modules, or the single one of older profiles. *)
Definition decode_uuids (o : object) : list (list byte) :=
  match o_find o (str "enabled_module_uuids") with
  | Some (Array l) => omap nonempty_text l
  | _ => let legacy := getStr o (str "active_module_uuid") [] in if (length legacy =? 0)%nat then [] else [legacy]
  end.

Definition Decode_face (v : value) : FacetrackingProfile :=
  match v with
  | Object o =>
    let p := face_default in
    mkFT (getBool o (str "eyelid_sync_enabled") (eyelid_sync_enabled p))
      (getBool o (str "eyelid_sync_preserve_winks") (eyelid_sync_preserve_winks p))
      (getInt o (str "eyelid_sync_strength") (eyelid_sync_strength p))
      (getBool o (str "vergence_lock_enabled") (vergence_lock_enabled p))
      (getInt o (str "vergence_lock_strength") (vergence_lock_strength p))
      (getInt o (str "continuous_calib_mode") (continuous_calib_mode p))
      (getBool o (str "output_osc_enabled") (output_osc_enabled p))
      (getInt o (str "gaze_smoothing") (gaze_smoothing p)) (getInt o (str "openness_smoothing") (openness_smoothing p))
      (decode_uuids o) (getBool o (str "show_raw_values") (show_raw_values p)) (getInt o (str "last_tab_index") (last_tab_index p))
  | _ => face_default
  end.

Definition encode_face (p : FacetrackingProfile) : value :=
  let n k := Number (d_of_Z k) in
  Object (object_of [
    (str "eyelid_sync_enabled", Some (Boolean (eyelid_sync_enabled p)));
    (str "eyelid_sync_preserve_winks", Some (Boolean (eyelid_sync_preserve_winks p)));
    (str "eyelid_sync_strength", Some (n (eyelid_sync_strength p))); (str "vergence_lock_enabled", Some (Boolean (vergence_lock_enabled p)));
    (str "vergence_lock_strength", Some (n (vergence_lock_strength p))); (str "continuous_calib_mode", Some (n (continuous_calib_mode p)));
    (str "output_osc_enabled", Some (Boolean (output_osc_enabled p))); (str "gaze_smoothing", Some (n (gaze_smoothing p)));
    (str "openness_smoothing", Some (n (openness_smoothing p)));
    (str "enabled_module_uuids", Some (Array (map Text (enabled_module_uuids p))));
    (str "show_raw_values", Some (Boolean (show_raw_values p))); (str "last_tab_index", Some (n (last_tab_index p)))]).

(** ** Files *)

Section Files.
Context `{CNumbers}.

Definition json_parse (body : list byte) : option value := parse (StripUtf8Bom body).
Definition ParseObject (body : list byte) : option value :=
  match json_parse body with Some (Object o) => Some (Object o) | _ => None end.

Definition Encode_device (p : DeviceProfile) : option (list byte) := serialize true <$> encode_device p.
Definition Encode_face (p : FacetrackingProfile) : list byte := serialize true (encode_face p).

Definition FilenameForHash (hash : Z) : list byte := hex16 hash ++ str ".json".

Definition Profiles : Type := gmap Z DeviceProfile.

(** One file of the directory, [None] when it cannot be opened. *)
Definition load_file (profiles : Profiles) (content : option (list byte)) : Profiles :=
  match content with
  | Some body =>
    match json_parse body with
    | Some v => let p := Decode_device v in
        if (dp_serial_hash p =? 0)%Z then profiles else <[dp_serial_hash p := p]> profiles
    | None => profiles
    end
  | None => profiles
  end.

(** The files in the order the system lists them. *)
Definition LoadAll (files : list (option (list byte))) (profiles : Profiles) : Profiles := fold_left load_file files profiles.

(** [dir]: the directory is known.  [None]: the encoder throws, with the
    temporary file open. *)
Definition Save_device (dir : bool) (a : FileAnswers) (p : DeviceProfile) (d : Disk) (profiles : Profiles) :
    option (list Disk * bool * Profiles) :=
  if (dp_serial_hash p =? 0)%Z || negb dir then Some ([d], false, profiles)
  else
    if negb (fa_open a) then Some ([d], false, profiles)
    else
      body ← Encode_device p;
      let '(ds, ok) := replace_file a (FilenameForHash (dp_serial_hash p)) body d in
      Some (ds, ok, if ok : bool then <[dp_serial_hash p := p]> profiles else profiles).

Definition face_name : list byte := str "facetracking.json".

Definition Load_face (content : option (list byte)) (current : FacetrackingProfile) : bool * FacetrackingProfile :=
  match content with
  | Some body => match json_parse body with Some v => (true, Decode_face v) | None => (false, current) end
  | None => (false, current)
  end.
Definition Save_face (dir : bool) (a : FileAnswers) (p : FacetrackingProfile) (d : Disk) : list Disk * bool :=
  if dir then replace_file a face_name (Encode_face p) d else ([d], false).
End Files.
