(* ===== verification/OverlayProfilesSpec.v ===== *)
(** * What the overlay's profile files keep

    A profile that is written is read back, its counts and hash included, and
    saving it leaves the old file or the new one at every point. *)

From Stdlib Require Import Strings.Byte Floats.SpecFloat.
From S2P Require Import Prelude Floats InputConfig InputStats InputHealth FloatInts Learning Files Picojson PicojsonSpec OverlayProfiles.
From stdpp Require Import gmap.

(** ** Integers as doubles *)

Lemma cast_u64_back n : (0 <= n < 2 ^ 53)%Z -> cast_u64 (d_of_Z n) = n.
Proof. intros Hn. unfold cast_u64. rewrite trunc_d_of_Z by lia. by rewrite (proj2 (Z.ltb_lt _ _)) by lia. Qed.

Lemma cast_int_back n : (- 2 ^ 31 <= n < 2 ^ 31)%Z -> cast_int (d_of_Z n) = n.
Proof.
  intros Hn. unfold cast_int. rewrite trunc_d_of_Z by lia.
  by rewrite (proj2 (Z.ltb_lt _ _)), (proj2 (Z.leb_le _ _)) by lia.
Qed.

(** ** Fields *)

Lemma getU64From_back o k n : o_find o k = Some (Number (d_of_Z n)) -> (0 <= n < 2 ^ 53)%Z -> getU64From o k 0 = n.
Proof. intros Hk Hn. unfold getU64From. rewrite Hk, d_of_Z_nonneg by done. by apply cast_u64_back. Qed.

Lemma getU32From_back o k n : o_find o k = Some (Number (d_of_Z n)) -> (0 <= n < 2 ^ 32)%Z -> getU32From o k 0 = n.
Proof.
  intros Hk Hn. unfold getU32From. rewrite Hk, d_of_Z_nonneg, (d_of_Z_mono n 4294967295) by lia. cbn [andb]. apply cast_u64_back. lia.
Qed.

Lemma getInt_back o k n d : o_find o k = Some (Number (d_of_Z n)) -> (- 2 ^ 31 <= n < 2 ^ 31)%Z -> getInt o k d = n.
Proof. intros Hk Hn. unfold getInt. rewrite Hk. by apply cast_int_back. Qed.

(** *** The hexadecimal digits of a hash *)

Lemma nibble_cases (P : Z -> Prop) : (forall k, (k < 16)%nat -> P (Z.of_nat k)) -> forall n, (0 <= n < 16)%Z -> P n.
Proof. intros HP n Hn. rewrite <-(Z2Nat.id n) by lia. apply HP. lia. Qed.

Ltac nibble n := generalize dependent n; apply nibble_cases; let k := fresh "k" in let H := fresh in
  intros k H; do 16 (destruct k as [|k]; [clear H; try reflexivity|]); lia.

Lemma hexdigit_value n : (0 <= n < 16)%Z -> hex_value (hexdigit n) = Some n.
Proof. nibble n. Qed.

Lemma hexdigit_plain n : (0 <= n < 16)%Z -> (bz (hexdigit n) =? 120)%Z || (bz (hexdigit n) =? 88)%Z = false.
Proof. nibble n. Qed.

Lemma skip_space_digit a u : (0 <= a < 16)%Z -> skip_space (hexdigit a :: u) = hexdigit a :: u.
Proof. intros Ha. nibble a. Qed.

Lemma no_sign a u :
  (0 <= a < 16)%Z ->
  match hexdigit a :: u with x2d :: s => (true, s) | x2b :: s => (false, s) | _ => (false, hexdigit a :: u) end = (false, hexdigit a :: u).
Proof. intros Ha. nibble a. Qed.

Lemma no_prefix a b d t :
  (0 <= a < 16)%Z -> (0 <= b < 16)%Z ->
  match hexdigit a :: hexdigit b :: d :: t with
  | x30 :: x :: d' :: t' =>
    if ((bz x =? 120)%Z || (bz x =? 88)%Z) && bool_decide (is_Some (hex_value d')) then d' :: t' else hexdigit a :: hexdigit b :: d :: t
  | _ => hexdigit a :: hexdigit b :: d :: t
  end = hexdigit a :: hexdigit b :: d :: t.
Proof.
  intros Ha Hb. pose proof (hexdigit_plain b Hb) as Hx. clear Hb. revert a Ha. apply nibble_cases. intros k Hk.
  destruct k as [|k]; [|do 15 (destruct k as [|k]; [reflexivity|]); lia].
  change (hexdigit (Z.of_nat 0)) with x30. cbv beta iota. by rewrite Hx.
Qed.

(** No space, sign or prefix. *)
Lemma strtoull16_digits a b d t :
  (0 <= a < 16)%Z -> (0 <= b < 16)%Z ->
  strtoull16 (hexdigit a :: hexdigit b :: d :: t) =
  let n := hex_digits 0 (hexdigit a :: hexdigit b :: d :: t) in if (2 ^ 64 <=? n)%Z then (2 ^ 64 - 1)%Z else n.
Proof.
  intros Ha Hb. unfold strtoull16. rewrite skip_space_digit, no_sign, no_prefix by done. reflexivity.
Qed.

Lemma hex_step x : (Z.shiftr x 4 * 16 + Z.land x 15 = x)%Z.
Proof.
  rewrite Z.shiftr_div_pow2 by lia. change 15%Z with (Z.ones 4). rewrite Z.land_ones by lia.
  change (2 ^ 4)%Z with 16%Z. pose proof (Z.div_mod x 16 ltac:(lia)). lia.
Qed.

Lemma nibble_at h k : (0 <= Z.land (Z.shiftr h k) 15 < 16)%Z.
Proof. change 15%Z with (Z.ones 4). rewrite Z.land_ones by lia. apply Z.mod_pos_bound. lia. Qed.

Lemma hex_digits_from h m : forall k, (k + m <= 16)%nat ->
  hex_digits (Z.shiftr h (4 * (16 - Z.of_nat k))) (map (fun i => hexdigit (Z.land (Z.shiftr h (4 * (15 - Z.of_nat i))) 15)) (seq k m)) =
  Z.shiftr h (4 * (16 - Z.of_nat (k + m))).
Proof.
  induction m as [|m IH]; intros k Hk; [cbn; by rewrite Nat.add_0_r|]. cbn [seq map hex_digits].
  rewrite hexdigit_value by apply nibble_at.
  replace (4 * (16 - Z.of_nat k))%Z with (4 * (15 - Z.of_nat k) + 4)%Z by lia. rewrite <-Z.shiftr_shiftr by lia. rewrite hex_step.
  specialize (IH (S k) ltac:(lia)). replace (4 * (16 - Z.of_nat (S k)))%Z with (4 * (15 - Z.of_nat k))%Z in IH by lia.
  rewrite IH. f_equal. lia.
Qed.

(** The hash is read back from its text. *)
Lemma hash_back h : (0 <= h < 2 ^ 64)%Z -> strtoull16 (hex16 h) = h.
Proof.
  intros Hh. assert (hex_digits 0 (hex16 h) = h) as Hd.
  { pose proof (hex_digits_from h 16 0 ltac:(lia)) as H0. change (4 * (16 - Z.of_nat (0 + 16)))%Z with 0%Z in H0. change (4 * (16 - Z.of_nat 0))%Z with 64%Z in H0.
    rewrite Z.shiftr_0_r in H0. replace (Z.shiftr h 64) with 0%Z in H0; [exact H0|]. rewrite Z.shiftr_div_pow2 by lia. by rewrite Z.div_small. }
  unfold hex16 in *. cbn [seq map] in *. rewrite strtoull16_digits by apply nibble_at. cbv zeta. rewrite Hd.
  by rewrite (proj2 (Z.leb_gt _ _)) by lia.
Qed.

(** ** Documents *)

Definition small (n : Z) : Prop := (0 <= n < 2 ^ 53)%Z.
Definition word32 (n : Z) : Prop := (0 <= n < 2 ^ 32)%Z.

(** What the loader keeps: a path that is compensated, counts that a double
    holds exactly. *)
Record record_ok (r : LearnedPathRecord) : Prop := {
  ro_path : supported_record r = true;
  ro_samples : small (r_sample_count r); ro_updated : small (r_last_updated_unix r);
  ro_debounce : word32 (l_debounce_us (r_learned r)); ro_resets : word32 (r_drift_shift_resets r) }.

Lemma encode_record_some r v :
  encode_record r = Some v ->
  v = Object (object_of [
    (str "path", Some (Text (r_path r))); (str "kind", Some (Text (r_kind r)));
    (str "sample_count", Some (Number (d_of_Z (r_sample_count r)))); (str "ready", Some (Boolean (r_ready r)));
    (str "learned_rest_offset", Some (Number (l_rest_offset (r_learned r))));
    (str "learned_stddev", Some (Number (l_stddev (r_learned r))));
    (str "learned_trigger_min", Some (Number (l_trigger_min (r_learned r))));
    (str "learned_trigger_max", Some (Number (l_trigger_max (r_learned r))));
    (str "learned_deadzone_radius", Some (Number (l_deadzone_radius (r_learned r))));
    (str "learned_debounce_us", Some (Number (d_of_Z (l_debounce_us (r_learned r)))));
    (str "last_updated_unix", Some (Number (d_of_Z (r_last_updated_unix r))));
    (str "drift_shift_resets", Some (Number (d_of_Z (r_drift_shift_resets r))))]).
Proof.
  unfold encode_record, new_number. intros Hv.
  destruct (isfinite (l_rest_offset _)); [|done]. destruct (isfinite (l_stddev _)); [|done].
  destruct (isfinite (l_trigger_min _)); [|done]. destruct (isfinite (l_trigger_max _)); [|done].
  destruct (isfinite (l_deadzone_radius _)); [|done].
  injection Hv as <-. reflexivity.
Qed.

Lemma record_back r v : record_ok r -> encode_record r = Some v -> keep_record v = Some r.
Proof.
  intros [R1 R2 R3 R4 R5] ->%encode_record_some. unfold keep_record. cbv iota.
  match goal with |- context [decode_record ?o] => assert (decode_record o = r) as ->; [|] end.
  - unfold decode_record. erewrite !getU64From_back; [..|lookup; reflexivity|exact R3|lookup; reflexivity|exact R2].
    erewrite !getU32From_back; [..|lookup; reflexivity|exact R5|lookup; reflexivity|exact R4].
    unfold getStr, getBool, getDouble. lookup. by destruct r as [? ? ? ? [] ? ?].
  - assert ((length (r_path r) =? 0)%nat = false) as ->; [|done]. apply Nat.eqb_neq. intros Hl.
    unfold supported_record, ClassifyInputPath in R1. by rewrite Hl in R1.
Qed.

Lemma records_back l vs : Forall record_ok l -> mapM encode_record l = Some vs -> omap keep_record vs = l.
Proof.
  intros Hl Hm. apply mapM_Some in Hm. revert Hl. induction Hm as [|r v l vs Hr _ IH]; intros Hl; [done|].
  apply list.Forall_cons in Hl as [Hr' Hl]. cbn. by rewrite (record_back r v Hr' Hr), (IH Hl).
Qed.

Lemma records_supported l : Forall record_ok l -> List.filter supported_record l = l.
Proof. induction 1 as [|r l Hr _ IH]; [done|]. cbn. by rewrite (ro_path r Hr), IH. Qed.

Lemma record_ordered r v : encode_record r = Some v -> ordered v.
Proof. intros ->%encode_record_some. members. Qed.

Lemma records_ordered l vs : mapM encode_record l = Some vs -> Forall ordered vs.
Proof. intros Hm. apply mapM_Some in Hm. induction Hm as [|r v l vs Hr _ IH]; constructor; [by eapply record_ordered|done]. Qed.

Lemma device_ordered p v : encode_device p = Some v -> ordered v.
Proof.
  unfold encode_device. destruct (mapM _ _) as [vs|] eqn:Hm; [|done]. intros [= <-]. apply records_ordered in Hm.
  members.
Qed.

(** Reading a device's document gives the profile. *)
Lemma device_back p v :
  Forall record_ok (dp_learned_paths p) -> (0 < dp_serial_hash p < 2 ^ 64)%Z -> encode_device p = Some v -> Decode_device v = p.
Proof.
  intros Hl Hh. unfold encode_device. destruct (mapM _ _) as [vs|] eqn:Hm; [|done]. intros [= <-]. unfold Decode_device. cbv zeta.
  unfold getU64, getStr, getBool. lookup. rewrite hash_back by lia. rewrite (records_back _ _ Hl Hm), (records_supported _ Hl).
  assert ((dp_serial_hash p =? 0)%Z = false) as -> by (apply Z.eqb_neq; lia). cbn [andb]. by destruct p.
Qed.

Definition int_range (n : Z) : Prop := (- 2 ^ 31 <= n < 2 ^ 31)%Z.

(** What an [int] and the list of modules hold. *)
Record face_ok (p : FacetrackingProfile) : Prop := {
  fo_eyelid : int_range (eyelid_sync_strength p); fo_vergence : int_range (vergence_lock_strength p);
  fo_mode : int_range (continuous_calib_mode p); fo_gaze : int_range (gaze_smoothing p);
  fo_openness : int_range (openness_smoothing p); fo_tab : int_range (last_tab_index p);
  fo_uuids : Forall (fun u => u <> []) (enabled_module_uuids p) }.

Lemma uuids_back l : Forall (fun u => u <> []) l -> omap nonempty_text (map Text l) = l.
Proof. induction 1 as [|u l Hu _ IH]; [done|]. cbn. destruct u; [done|]. cbn. by rewrite IH. Qed.

Lemma face_ordered p : ordered (encode_face p).
Proof. members. constructor. induction (enabled_module_uuids p); by repeat constructor. Qed.

Lemma face_back p : face_ok p -> Decode_face (encode_face p) = p.
Proof.
  intros [F1 F2 F3 F4 F5 F6 F7]. unfold encode_face, Decode_face. cbv zeta.
  erewrite !getInt_back; [..|lookup; reflexivity|exact F6|lookup; reflexivity|exact F5|lookup; reflexivity|exact F4
    |lookup; reflexivity|exact F3|lookup; reflexivity|exact F2|lookup; reflexivity|exact F1].
  unfold decode_uuids, getBool. lookup. rewrite uuids_back by done. by destruct p.
Qed.

Section Profiles.
Context `{CNumbers}.

(** The text of an object is read as the object. *)
Lemma text_read v :
  ordered v -> numbers_back v = true -> (exists o, v = Object o) -> json_parse (serialize true v) = Some v.
Proof.
  intros Hv Hn [o Ho]. unfold json_parse.
  assert (StripUtf8Bom (serialize true v) = serialize true v) as ->.
  { subst v. assert (exists t, serialize true (Object o) = x7b :: t) as [t ->] by (eexists; reflexivity).
    by destruct t as [|? [|? ?]]. }
  apply written_is_read; [|done]. by apply ordered_well_formed.
Qed.

(** C25: Saving a device's profile, whatever the system answers, leaves at every
    point the old file or one that is loaded as the profile that was saved --
    its hash in hexadecimal, its settings and every learned path -- and touches
    no other file; when the save reports success the new file is in place, the
    temporary one is gone, and the profile is the stored one. *)
Theorem saved_device_is_loaded (a : FileAnswers) (p : DeviceProfile) (v : value) (d : Disk) (profiles : Profiles) :
  Forall record_ok (dp_learned_paths p) -> (0 < dp_serial_hash p < 2 ^ 64)%Z ->
  encode_device p = Some v -> numbers_back v = true ->
  let name := FilenameForHash (dp_serial_hash p) in
  exists body ds ok,
    Save_device true a p d profiles = Some (ds, ok, if ok : bool then <[dp_serial_hash p := p]> profiles else profiles) /\
    (forall others, LoadAll [Some body] others = <[dp_serial_hash p := p]> others) /\
    replaced name body d ds ok /\ (fa_open a && fa_flush a && fa_rename a && bool_decide (fa_write a = Some (length body)) = ok).
Proof.
  intros Hl Hh Hv Hn name. exists (serialize true v).
  exists (replace_file a name (serialize true v) d).1, (replace_file a name (serialize true v) d).2.
  assert ((dp_serial_hash p =? 0)%Z = false) as H0 by (apply Z.eqb_neq; lia). split_and!.
  - unfold Save_device, Encode_device. rewrite H0, Hv. cbn [orb negb fmap option_fmap option_map mbind option_bind].
    fold name. destruct (fa_open a) eqn:Ho; cbn [negb].
    + by destruct (replace_file _ _ _ _) as [ds []].
    + unfold replace_file. by rewrite Ho.
  - intros others. unfold LoadAll. cbn [fold_left load_file].
    rewrite text_read by (done || by eapply device_ordered || (unfold encode_device in Hv; destruct (mapM _ _); [|done]; injection Hv as <-; by eexists)).
    cbv zeta. by rewrite (device_back p v Hl Hh Hv), H0.
  - apply replace_file_replaces.
  - by rewrite replace_file_ok.
Qed.

(** The face-tracking profile likewise. *)
Theorem saved_face_is_loaded (a : FileAnswers) (p q : FacetrackingProfile) (d : Disk) :
  face_ok p -> numbers_back (encode_face p) = true ->
  Load_face (Some (Encode_face p)) q = (true, p) /\
  replaced face_name (Encode_face p) d (Save_face true a p d).1 (Save_face true a p d).2.
Proof.
  intros Hp Hn. split; [|apply replace_file_replaces]. unfold Load_face, Encode_face.
  rewrite text_read by (done || apply face_ordered || by eexists). by rewrite face_back.
Qed.
End Profiles.

(** ** A device with a learned trigger *)

Definition trigger_record : LearnedPathRecord :=
  mkRecord (str "/input/trigger/value") (str "scalar") 1234 true (mkLearned fzero (d_lit 1 3) fzero (d_lit 9 1) fzero 2000) 1700000000 1.
Definition knuckles : DeviceProfile :=
  Learning.mkProfile (str "LHR-1") 1311768467463790320 (str "Knuckles") false true true true [trigger_record].
Definition knuckles_value : value := default Null (encode_device knuckles).

Lemma saved_device_is_loaded_witness :
  Forall record_ok (dp_learned_paths knuckles) /\ (0 < dp_serial_hash knuckles < 2 ^ 64)%Z /\
  encode_device knuckles = Some knuckles_value /\ numbers_back (H := numbers_sample) knuckles_value = true /\
  exists body ds ok,
    Save_device (H := numbers_sample) true (mkFA true (Some 3%nat) true true) knuckles ∅ ∅ =
      Some (ds, ok, if ok : bool then <[dp_serial_hash knuckles := knuckles]> ∅ else ∅) /\
    (forall others, LoadAll (H := numbers_sample) [Some body] others = <[dp_serial_hash knuckles := knuckles]> others) /\
    replaced (FilenameForHash (dp_serial_hash knuckles)) body ∅ ds ok /\ bool_decide (Some 3%nat = Some (length body)) = ok.
Proof.
  assert (Forall record_ok (dp_learned_paths knuckles)) as Hl.
  { constructor; [|constructor]. constructor; [vm_compute; reflexivity|unfold small, word32; cbn; lia..]. }
  assert (0 < dp_serial_hash knuckles < 2 ^ 64)%Z as Hh by (cbn; lia).
  assert (encode_device knuckles = Some knuckles_value) as Hv by (vm_compute; reflexivity).
  assert (numbers_back (H := numbers_sample) knuckles_value = true) as Hn by (vm_compute; reflexivity).
  split; [exact Hl|]. split; [exact Hh|]. split; [exact Hv|]. split; [exact Hn|].
  exact (saved_device_is_loaded (H := numbers_sample) (mkFA true (Some 3%nat) true true) knuckles knuckles_value ∅ ∅ Hl Hh Hv Hn).
Defined.

(** A count beyond 2^53 is not kept. *)
Example large_count_rounded :
  match encode_record (mkRecord (str "/input/a/click") [] (2 ^ 53 + 1) true learned_zero 0 0) with
  | Some v => r_sample_count <$> keep_record v
  | None => None
  end = Some (2 ^ 53)%Z.
Proof. vm_compute. reflexivity. Qed.
