(* ===== verification/FaceProfile.v ===== *)
(** * The face calibration's file (modules/facetracking/src/driver/CalibrationEngine.cpp)

    Saving what was learned for a module into its file of the profiles
    directory, as a JSON text through a temporary file, and loading it into the
    shapes of the next session.  The directory and the answers of the system
    are arguments. *)

From Stdlib Require Import Strings.Byte.
From S2P Require Import Prelude Floats Files Picojson PicojsonSpec FloatInts FaceFrame FaceCalib.
From stdpp Require Import gmap.

Record Engine := mkEngine { module_uuid_ : list byte; shapes_ : list ShapeCalib }.

(** ** The document *)

(** [value(double)] throws, [None], on a number that is not finite. *)
Definition save_markers (l : list float) : option value :=
  Array <$> mapM (fun x => new_number (d_of_f x)) l.

Definition save_shape (s : ShapeCalib) : option value :=
  j02 ← new_number (d_of_f (p02 s)); j98 ← new_number (d_of_f (p98 s));
  jmin ← new_number (d_of_f (ema_min s)); jmax ← new_number (d_of_f (ema_max s));
  jval ← new_number (d_of_f (ema_value s)); jvar ← new_number (d_of_f (ema_var s));
  jsam ← new_number (d_of_Z (samples s));
  jq ← save_markers (sc_q s); jn ← save_markers (sc_n s);
  Some (Object (object_of [ (str "p02", Some j02); (str "p98", Some j98); (str "ema_min", Some jmin);
    (str "ema_max", Some jmax); (str "ema_value", Some jval); (str "ema_var", Some jvar);
    (str "samples", Some jsam); (str "warm", Some (Boolean (warm s))); (str "q", Some jq); (str "n", Some jn) ])).

Definition calib_document (e : Engine) : option value :=
  arr ← mapM save_shape (shapes_ e);
  Some (Object (object_of [ (str "schema", Some (Number d_one)); (str "module_uuid", Some (Text (module_uuid_ e)));
    (str "shapes", Some (Array arr)) ])).

(** ** Reading it *)

Definition getF (k : list byte) (obj : object) (out : float) : float :=
  match o_find obj k with Some (Number d) => f_of_d d | _ => out end.

(** [None]: the conversion of a number that is no 32-bit count is undefined. *)
Definition getU32 (k : list byte) (obj : object) (out : Z) : option Z :=
  match o_find obj k with
  | Some (Number d) => z ← trunc_to_Z d; if bool_decide (0 <= z < 2 ^ 32)%Z then Some z else None
  | _ => Some out
  end.

Definition getBool (k : list byte) (obj : object) (out : bool) : bool :=
  match o_find obj k with Some (Boolean b) => b | _ => out end.

(** The first five numbers of an array over the markers. *)
Definition getMarkers (k : list byte) (obj : object) (out : list float) : list float :=
  match o_find obj k with
  | Some (Array l) => imap (fun i x => match l !! i with Some (Number d) => f_of_d d | _ => x end) out
  | _ => out
  end.

Definition load_shape (v : value) (s : ShapeCalib) : option ShapeCalib :=
  match v with
  | Object obj =>
    n ← getU32 (str "samples") obj (samples s);
    Some (s <| p02 := getF (str "p02") obj (p02 s) |> <| p98 := getF (str "p98") obj (p98 s) |>
            <| ema_min := getF (str "ema_min") obj (ema_min s) |> <| ema_max := getF (str "ema_max") obj (ema_max s) |>
            <| ema_value := getF (str "ema_value") obj (ema_value s) |>
            <| ema_var := getF (str "ema_var") obj (ema_var s) |> <| samples := n |>
            <| warm := getBool (str "warm") obj (warm s) |>
            <| sc_q := getMarkers (str "q") obj (sc_q s) |> <| sc_n := getMarkers (str "n") obj (sc_n s) |>)
  | _ => Some s
  end.

Fixpoint load_shapes (arr : list value) (shapes : list ShapeCalib) : option (list ShapeCalib) :=
  match arr, shapes with
  | v :: arr, s :: shapes => s ← load_shape v s; rest ← load_shapes arr shapes; Some (s :: rest)
  | _, _ => Some shapes
  end.

Definition load_document (root : object) (shapes : list ShapeCalib) : option (list ShapeCalib) :=
  match o_find root (str "shapes") with Some (Array arr) => load_shapes arr shapes | _ => Some shapes end.

(** ** The file *)

Section Persistence.
Context `{CNumbers}.
(** [MultiByteToWideChar], as the text of a file's name. *)
Context (Utf8ToWide : list byte -> list byte).

(** [ProfilesDir]: whether the directory is known.  The name of the file in it. *)
Definition CalibFilePath (ProfilesDir : bool) (e : Engine) : option (list byte) :=
  match module_uuid_ e with
  | [] => None
  | _ => if ProfilesDir then Some (str "facetracking_calib_" ++ Utf8ToWide (module_uuid_ e) ++ str ".json") else None
  end.

(** The directory after each call; [None]: the exception of a number that is not
    finite, thrown before any file is touched. *)
Definition SaveLocked (ProfilesDir : bool) (a : FileAnswers) (e : Engine) (d : Disk) : option (list Disk) :=
  match CalibFilePath ProfilesDir e with
  | None => Some [d]
  | Some path => body ← serialize true <$> calib_document e; Some (replace_file a path body d).1
  end.

(** [readable]: the file can be opened if it is there. *)
Definition LoadLocked (ProfilesDir readable : bool) (uuid : list byte) (d : Disk) (e : Engine) : option Engine :=
  let e := mkEngine uuid (shapes_ e) in
  match CalibFilePath ProfilesDir e with
  | None => Some e
  | Some path =>
    match (if readable then d !! path else None) with
    | None => Some e
    | Some text =>
      match parse text with
      | Some (Object root) => mkEngine uuid <$> load_document root (shapes_ e)
      | _ => Some e
      end
    end
  end.
End Persistence.

(** ** What a file keeps *)

(** The numbers of a shape that are saved as they are. *)
Definition persisted (s : ShapeCalib) : list float :=
  [p02 s; p98 s; ema_min s; ema_max s; ema_value s; ema_var s] ++ sc_q s ++ sc_n s.

(** A finite float, which widening and narrowing give back. *)
Definition storable_float (x : float) : bool := isfinite (d_of_f x) && bool_decide (f_of_d (d_of_f x) = x).

Definition counted (s : ShapeCalib) : Prop := (0 <= samples s < 2 ^ 32)%Z.

Record storable (s : ShapeCalib) : Prop := {
  so_floats : Forall (fun x => storable_float x = true) (persisted s);
  so_samples : counted s; so_q : length (sc_q s) = 5%nat; so_n : length (sc_n s) = 5%nat }.

(** What a load restores of a shape. *)
Definition restored (s : ShapeCalib) : ShapeCalib :=
  s <| sc_dn := sc_dn ShapeCalib_new |> <| hold_count := 0%Z |> <| hold_first_qpc := 0%Z |>.

Definition marker_values (l : list float) : value := Array (map (fun x => Number (d_of_f x)) l).

Definition shape_value (s : ShapeCalib) : value :=
  let n x := Some (Number (d_of_f x)) in
  Object (object_of [ (str "p02", n (p02 s)); (str "p98", n (p98 s)); (str "ema_min", n (ema_min s));
    (str "ema_max", n (ema_max s)); (str "ema_value", n (ema_value s)); (str "ema_var", n (ema_var s));
    (str "samples", Some (Number (d_of_Z (samples s)))); (str "warm", Some (Boolean (warm s)));
    (str "q", Some (marker_values (sc_q s))); (str "n", Some (marker_values (sc_n s))) ]).

Definition calib_value (e : Engine) : value :=
  Object (object_of [ (str "schema", Some (Number d_one)); (str "module_uuid", Some (Text (module_uuid_ e)));
    (str "shapes", Some (Array (map shape_value (shapes_ e)))) ]).

(** *** Saving *)

Lemma count_finite n : (0 <= n < 2 ^ 32)%Z -> isfinite (d_of_Z n) = true.
Proof. intros Hn. pose proof (trunc_d_of_Z n ltac:(lia)) as Ht. by destruct (d_of_Z n). Qed.

Definition widens (x : float) : bool := isfinite (d_of_f x).

Lemma new_number_widens x : new_number (d_of_f x) = if widens x then Some (Number (d_of_f x)) else None.
Proof. reflexivity. Qed.

Lemma save_markers_cases l : save_markers l = if forallb widens l then Some (marker_values l) else None.
Proof.
  unfold save_markers, marker_values. induction l as [|x l IH]; [done|]. cbn [mapM forallb map].
  rewrite new_number_widens. destruct (widens x); cbn [mbind option_bind andb]; [|done].
  destruct (mapM (fun x => new_number (d_of_f x)) l), (forallb widens l); cbn in *; try done; by injection IH as ->.
Qed.

Lemma save_shape_cases s :
  counted s -> save_shape s = if forallb widens (persisted s) then Some (shape_value s) else None.
Proof.
  intros Hs. unfold save_shape, persisted. rewrite !forallb_app, !save_markers_cases, !new_number_widens.
  unfold new_number. rewrite (count_finite _ Hs). cbn [forallb].
  destruct (widens (p02 s)), (widens (p98 s)), (widens (ema_min s)), (widens (ema_max s)), (widens (ema_value s)), (widens (ema_var s)); try done.
  cbn [mbind option_bind andb]. by destruct (forallb widens (sc_q s)), (forallb widens (sc_n s)).
Qed.

Lemma calib_document_cases e :
  Forall counted (shapes_ e) ->
  calib_document e = if forallb (fun s => forallb widens (persisted s)) (shapes_ e) then Some (calib_value e) else None.
Proof.
  intros Hc. unfold calib_document, calib_value.
  assert (mapM save_shape (shapes_ e) = if forallb (fun s => forallb widens (persisted s)) (shapes_ e)
    then Some (map shape_value (shapes_ e)) else None) as ->.
  { induction Hc as [|s l Hs _ IH]; [done|]. cbn [mapM forallb map]. rewrite save_shape_cases, IH by done.
    destruct (forallb widens (persisted s)); [|done]. by destruct (forallb _ l). }
  by destruct (forallb _ (shapes_ e)).
Qed.

Lemma storable_widens s : storable s -> forallb widens (persisted s) = true.
Proof.
  intros [Hf _ _ _]. apply forallb_forall. intros x Hx%list_elem_of_In. rewrite list.Forall_forall in Hf.
  specialize (Hf x Hx). unfold storable_float in Hf. by apply andb_true_iff in Hf as [Hf _].
Qed.

Lemma markers_ordered l : ordered (marker_values l).
Proof. constructor. apply List.Forall_map, list.Forall_true. by constructor. Qed.

Lemma shape_ordered s : ordered (shape_value s).
Proof. unfold shape_value. cbv zeta. members; apply markers_ordered. Qed.

Lemma calib_ordered e : ordered (calib_value e).
Proof. unfold calib_value. members. constructor. apply List.Forall_map, list.Forall_true. intros s. apply shape_ordered. Qed.

(** *** Loading *)

Lemma float_back x : storable_float x = true -> f_of_d (d_of_f x) = x.
Proof. unfold storable_float. by intros [_ ?%bool_decide_eq_true]%andb_true_iff. Qed.

Lemma markers_back k obj l out :
  Forall (fun x => storable_float x = true) l -> length l = length out ->
  o_find obj k = Some (marker_values l) -> getMarkers k obj out = l.
Proof.
  intros Hl Hlen Hk. unfold getMarkers. rewrite Hk. cbn [marker_values]. apply list_eq. intros i. rewrite list_lookup_imap.
  destruct (l !! i) as [x|] eqn:Hx.
  - destruct (lookup_lt_is_Some_2 out i) as [y ->]; [rewrite <-Hlen; by eapply lookup_lt_Some|]. cbn.
    change (map ?f l) with (f <$> l). rewrite list_lookup_fmap, Hx. cbn. f_equal. apply float_back.
    rewrite list.Forall_forall in Hl. by eapply Hl, list_elem_of_lookup_2.
  - rewrite (lookup_ge_None_2 out); [done|]. rewrite <-Hlen. by apply lookup_ge_None_1.
Qed.

Lemma getF_back k obj x out : o_find obj k = Some (Number (d_of_f x)) -> storable_float x = true -> getF k obj out = x.
Proof. unfold getF. intros ->. apply float_back. Qed.

Lemma getU32_back k obj n out : o_find obj k = Some (Number (d_of_Z n)) -> (0 <= n < 2 ^ 32)%Z -> getU32 k obj out = Some n.
Proof. unfold getU32. intros -> Hn. rewrite trunc_d_of_Z by lia. cbn. by rewrite bool_decide_true. Qed.

Lemma load_shape_value s :
  storable s -> load_shape (shape_value s) ShapeCalib_new = Some (restored s).
Proof.
  intros [Hf Hs Hq Hn]. unfold persisted in Hf. apply list.Forall_app in Hf as [Hf Hqn].
  apply list.Forall_app in Hqn as [Fq Fn]. repeat (apply list.Forall_cons in Hf as [? Hf]).
  unfold shape_value, load_shape. cbv zeta. set (obj := object_of _).
  rewrite (getU32_back (str "samples") obj (samples s)) by (try done; unfold obj; lookup; reflexivity).
  cbn [mbind option_bind]. f_equal.
  rewrite (getF_back (str "p02") obj (p02 s)), (getF_back (str "p98") obj (p98 s)),
    (getF_back (str "ema_min") obj (ema_min s)), (getF_back (str "ema_max") obj (ema_max s)),
    (getF_back (str "ema_value") obj (ema_value s)), (getF_back (str "ema_var") obj (ema_var s))
    by (try done; unfold obj; lookup; reflexivity).
  rewrite (markers_back (str "q") obj (sc_q s)), (markers_back (str "n") obj (sc_n s))
    by (try done; unfold obj; lookup; reflexivity).
  assert (getBool (str "warm") obj (warm ShapeCalib_new) = warm s) as ->
    by (unfold getBool, obj; lookup; reflexivity).
  clearbody obj. by destruct s.
Qed.

Lemma load_shapes_values l k :
  Forall storable l -> length l = k ->
  load_shapes (map shape_value l) (replicate k ShapeCalib_new) = Some (map restored l).
Proof.
  intros Hl. revert k. induction Hl as [|s l Hs _ IH]; intros k <-; [done|]. cbn [map length replicate load_shapes].
  rewrite load_shape_value, IH by done. reflexivity.
Qed.

Lemma forallb_false {A} (f : A -> bool) l : forallb f l = false <-> exists x, x ∈ l /\ f x = false.
Proof.
  induction l as [|x l IH]; cbn; [set_solver|]. destruct (f x) eqn:Hx; cbn.
  - rewrite IH. split; [intros (y & Hy & Hf); exists y; split; [by right|done]|].
    intros (y & [->|Hy]%list.elem_of_cons & Hf); [congruence|by exists y].
  - split; [|done]. intros _. exists x. split; [by left|done].
Qed.

Lemma forallb_false_2 {A B} (f : B -> bool) (g : A -> list B) l :
  forallb (fun s => forallb f (g s)) l = false <-> exists s x, s ∈ l /\ x ∈ g s /\ f x = false.
Proof. rewrite forallb_false. setoid_rewrite forallb_false. naive_solver. Qed.

Section Properties.
Context `{CNumbers} (Utf8ToWide : list byte -> list byte).

Lemma calib_read e : numbers_back (calib_value e) = true -> parse (serialize true (calib_value e)) = Some (calib_value e).
Proof. intros Hn. apply written_is_read; [|done]. apply ordered_well_formed; [apply calib_ordered|done]. Qed.

(** C40: Saving does nothing without a file for the module.  With one, it throws
    exactly when some saved float of some shape is, as a double, infinite or not
    a number, and then no file is touched.  Otherwise, whatever the system
    answers, the calibration's file is at every point the old one or one that,
    in the next session, a new engine loads as exactly what was learned, with
    only the hold streaks forgotten; no other file is touched; and after a save
    to which every answer was good, the file is the new one. *)
Theorem profile_roundtrip (dir : bool) (a : FileAnswers) (e : Engine) (d : Disk)
  (Hc : Forall counted (shapes_ e)) :
  match CalibFilePath Utf8ToWide dir e with
  | None => SaveLocked Utf8ToWide dir a e d = Some [d]
  | Some path =>
    (SaveLocked Utf8ToWide dir a e d = None <->
       exists s x, s ∈ shapes_ e /\ x ∈ persisted s /\ isfinite (d_of_f x) = false) /\
    (Forall storable (shapes_ e) -> length (shapes_ e) = kTotalShapes -> numbers_back (calib_value e) = true ->
     exists body ds,
       SaveLocked Utf8ToWide dir a e d = Some ds /\
       replaced path body d ds (fa_open a && fa_flush a && fa_rename a && bool_decide (fa_write a = Some (length body))) /\
       forall d' old, d' !! path = Some body ->
         LoadLocked Utf8ToWide dir true (module_uuid_ e) d' (mkEngine old CalibrationEngine_new) =
           Some (mkEngine (module_uuid_ e) (map restored (shapes_ e))))
  end.
Proof.
  unfold SaveLocked. destruct (CalibFilePath Utf8ToWide dir e) as [path|] eqn:Hp; [|done].
  rewrite calib_document_cases by done. split.
  - rewrite <-(forallb_false_2 widens persisted). destruct (forallb _ (shapes_ e)); [|done]. by split.
  - intros Hs Hl Hn.
    assert (forallb (fun s => forallb widens (persisted s)) (shapes_ e) = true) as ->.
    { apply forallb_forall. intros s Hin%list_elem_of_In. rewrite list.Forall_forall in Hs. by apply storable_widens, Hs. }
    cbn [fmap option_fmap option_map mbind option_bind]. eexists _, _. split; [done|]. split.
    + rewrite <-(replace_file_ok a path _ d). apply replace_file_replaces.
    + intros d' old Hd. unfold LoadLocked. cbn [shapes_].
      assert (CalibFilePath Utf8ToWide dir (mkEngine (module_uuid_ e) CalibrationEngine_new) = Some path) as ->
        by exact Hp.
      rewrite Hd, calib_read by done. unfold calib_value, load_document. lookup.
      unfold CalibrationEngine_new. by rewrite load_shapes_values.
Qed.
End Properties.

(** ** Witness *)

Definition engine_new : Engine := mkEngine (str "m") CalibrationEngine_new.

Lemma profile_roundtrip_witness :
  exists body ds,
    SaveLocked (H := numbers_sample) id true (mkFA true (Some 3%nat) true true) engine_new ∅ = Some ds /\
    replaced (str "facetracking_calib_m.json") body ∅ ds (bool_decide (Some 3%nat = Some (length body))) /\
    forall d' old, d' !! str "facetracking_calib_m.json" = Some body ->
      LoadLocked (H := numbers_sample) id true true (str "m") d' (mkEngine old CalibrationEngine_new) =
        Some (mkEngine (str "m") (map restored CalibrationEngine_new)).
Proof.
  assert (storable ShapeCalib_new) as Hs.
  { constructor; [|unfold counted; cbn; lia|done|done]. apply (bool_decide_unpack _). vm_compute. exact I. }
  assert (Forall counted (shapes_ engine_new)) as Hc by (apply Forall_replicate; apply Hs).
  assert (numbers_back (H := numbers_sample) (calib_value engine_new) = true) as Hn by (vm_compute; reflexivity).
  destruct (profile_roundtrip (H := numbers_sample) id true (mkFA true (Some 3%nat) true true) engine_new ∅ Hc) as [_ Hp].
  exact (Hp ltac:(by apply Forall_replicate) ltac:(by vm_compute) Hn).
Defined.
