(* ===== verification/CalibConfig.v ===== *)
(** * The calibration profile (modules/calibration/src/overlay/Configuration.cpp)

    Reading and writing the profile as a JSON document: the schema versions and
    their migration, the fields in the order the reader takes them, the writer
    that leaves out what has its default, and the registry value the text of the
    document is kept in. *)

From S2P Require Import Prelude Floats Shmem Isometry FallbackTable InputConfig PoseProvider Driver Detectors Filters CalibSolve CalibCalc CalibRest CalibScan CalibContext CalibReloc CalibTick CalibTickSpec CalibHistory Picojson.
Open Scope fl_scope.

(** [(int)d]; out of range it is undefined, and the least integer on the
    processors this is built for. *)
Definition int_min : Z := -2 ^ 31.
Definition int_of_d (d : double) : Z :=
  match trunc_to_Z d with
  | Some z => if (int_min <=? z)%Z && (z <? 2 ^ 31)%Z then z else int_min
  | None => int_min
  end.

(** ** State *)

Record Chaperone := mkChaperone { geometry : list float; standingCenter : list float; playSpaceSize : list float }.

(** The context with what only the profile has: the chaperone's numbers, the
    wizard's flag, the extras' devices and the banner's flag. *)
Record Config := mkConfig {
  cf_cal : Cal; cf_chaperone : Chaperone; cf_wizardCompleted : bool; cf_standbys : list StandbyDevice;
  g_chaperoneGeometrySizeMismatch : bool }.

#[export] Instance config_settable : Settable Config := fun c =>
  mkConfig (cf_cal c) (cf_chaperone c) (cf_wizardCompleted c) (cf_standbys c) (g_chaperoneGeometrySizeMismatch c).
#[export] Instance chaperone_settable : Settable Chaperone := fun c =>
  mkChaperone (geometry c) (standingCenter c) (playSpaceSize c).
#[export] Instance settings_settable : Settable Settings := fun s =>
  mkSettings (referenceStandby s) (targetStandby s) (lockRelativePositionMode s) (calibrationSpeed s) (jitterThreshold s)
    (requireTriggerPressToApply s) (ignoreOutliers s) (enableStaticRecalibration s) (continuousCalibrationThreshold s)
    (maxRelativeErrorThreshold s) (continuousCalibrationOffset s) (targetLatencyOffsetMs s) (latencyAutoDetect s)
    (useGccPhatLatency s) (useCusumGeometryShift s) (useVelocityAware s) (useTukey s) (useBlendFilter s) (useLegacy s)
    (useUpstream s) (restLockedYawEnabled s) (predictiveRecoveryEnabled s) (reanchorChiSquareEnabled s)
    (baseStationDriftCorrectionEnabled s) (calibrationPaused s).

Definition c_opts (c : Config) : Settings := opts (cf_cal c).
Definition c_prof (c : Config) : Profile := prof (cf_cal c).
Definition on_opts (f : Settings -> Settings) (c : Config) : Config := c <| cf_cal ::= fun k => k <| opts ::= f |> |>.
Definition on_prof (f : Profile -> Profile) (c : Config) : Config := c <| cf_cal ::= set_prof f |>.

(** *** Defaults *)

Definition default_alignment : AlignmentSpeedParams :=
  let rot x := d_of_f x * (d_pi / d_of_Z 180) in
  mkASP (d_of_f (f_lit 98 100) / d_of_Z 1000) (d_one / d_of_Z 1000) (d_of_Z 20 / d_of_Z 1000)
    (rot (f_lit 49 100)) (rot (f_lit 1 2)) (rot (f_of_Z 5)) d_one d_one (d_of_Z 2).

Definition no_device : StandbyDevice := mkStandby [] [] [].
Definition settings_default : Settings :=
  mkSettings no_device no_device LockAuto FAST (f_of_Z 3) false true true (f_lit 3 2) (f_lit 5 1000) v_zero fzero false
    true false true false false false false true false false true false.
Definition profile_default : Profile :=
  mkProfile StNone (-1) v_zero v_zero d_one [] [] false false true true default_alignment [] false true 0.
Definition chaperone_default : Chaperone :=
  let o := f_one in let z := fzero in mkChaperone [] [o; z; z; z; z; o; z; z; z; z; o; z] [z; z].
(** The context as the program starts. *)
Definition config_default : Config :=
  mkConfig (cal_init profile_default settings_default) chaperone_default false [] false.

(** [ResetConfig] *)
Definition ResetConfig (c : Config) : Config :=
  on_prof (fun p => p <| c_alignmentSpeedParams := default_alignment |>)
    (on_opts (fun s => s <| continuousCalibrationThreshold := f_lit 3 2 |> <| maxRelativeErrorThreshold := f_lit 5 1000 |>
      <| jitterThreshold := f_of_Z 3 |> <| continuousCalibrationOffset := v_zero |>
      <| enableStaticRecalibration := true |> <| baseStationDriftCorrectionEnabled := true |>) c).

(** ** Reading *)

(** Steps that may throw, leaving what they had already done. *)
Definition Parse (A : Type) : Type := Config -> option A * Config.
#[export] Instance Parse_ret : MRet Parse := fun A a c => (Some a, c).
#[export] Instance Parse_bind : MBind Parse := fun A B k m c =>
  match m c with
  | (Some a, c) => k a c
  | (None, c) => (None, c)
  end.
Definition need {A} (o : option A) : Parse A := fun c => (o, c).
Definition alter_config (f : Config -> Config) : Parse unit := fun c => (Some tt, f c).

Definition kProfileSchemaVersion : Z := 3.
Definition kOldSlow : Z := 1.
Definition kAuto : Z := 3.

Definition MigrateProfile (from_version : Z) (profile : object) : object :=
  if (from_version <? 2)%Z then
    let profile :=
      match o_find profile (str "calibration_speed") with
      | Some (Number d) => if (int_of_d d =? kOldSlow)%Z then o_set (str "calibration_speed") (Number (d_of_Z kAuto)) profile else profile
      | _ => profile
      end in
    o_erase (str "auto_suppress_on_external_tool") profile
  else profile.

Definition if_string (v : value) (x : list byte) : list byte := match v with Text s => s | _ => x end.
Definition if_double (v : value) (x : double) : double := match v with Number d => d | _ => x end.
Definition if_float (v : value) (x : float) : float := match v with Number d => f_of_d d | _ => x end.
Definition if_bool (v : value) (x : bool) : bool := match v with Boolean b => b | _ => x end.

Definition LoadStandby (v : value) (d : StandbyDevice) : StandbyDevice :=
  match v with
  | Object o =>
    mkStandby (if_string (at_key o (str "tracking_system")) (sb_trackingSystem d)) (if_string (at_key o (str "model")) (sb_model d))
      (if_string (at_key o (str "serial")) (sb_serial d))
  | _ => d
  end.

(** The parameters are doubles, but read as floats. *)
Definition read_param (o : object) (name : list byte) (param : double) : double :=
  match at_key o name with Number d => d_of_f (f_of_d d) | _ => param end.

Definition LoadAlignmentParams (v : value) (c : Config) : Config :=
  let c := ResetConfig c in
  match v with
  | Object o =>
    let r := read_param o in
    on_opts (fun s => s <| continuousCalibrationThreshold ::= fun x => f_of_d (r (str "continuousCalibrationThreshold") (d_of_f x)) |>)
      (on_prof (fun p => p <| c_alignmentSpeedParams ::= fun a =>
        mkASP (r (str "thr_trans_tiny") (thr_trans_tiny a)) (r (str "thr_trans_small") (thr_trans_small a))
          (r (str "thr_trans_large") (thr_trans_large a)) (r (str "thr_rot_tiny") (thr_rot_tiny a))
          (r (str "thr_rot_small") (thr_rot_small a)) (r (str "thr_rot_large") (thr_rot_large a))
          (r (str "align_speed_tiny") (align_speed_tiny a)) (r (str "align_speed_small") (align_speed_small a))
          (r (str "align_speed_large") (align_speed_large a)) |>) c)
  | _ => c
  end.

Definition set_x (v : Vector3d) (x : double) : Vector3d := V3 x (v_y v) (v_z v).
Definition set_y (v : Vector3d) (y : double) : Vector3d := V3 (v_x v) y (v_z v).
Definition set_z (v : Vector3d) (z : double) : Vector3d := V3 (v_x v) (v_y v) z.

(** A number the profile must have, into one coordinate. *)
Definition need_number (o : object) (k : list byte) (f : double -> Config -> Config) : Parse unit :=
  x ← need (get_double (at_key o k)); alter_config (f x).

Definition parse_calibration (o : object) : Parse unit :=
  s ← need (get_string (at_key o (str "reference_tracking_system")));
  alter_config (on_prof (fun p => p <| c_referenceTrackingSystem := s |>)) ;;
  s ← need (get_string (at_key o (str "target_tracking_system")));
  alter_config (on_prof (fun p => p <| c_targetTrackingSystem := s |>)) ;;
  need_number o (str "roll") (fun x => on_prof (fun p => p <| c_calibratedRotation ::= fun v => set_x v x |>)) ;;
  need_number o (str "yaw") (fun x => on_prof (fun p => p <| c_calibratedRotation ::= fun v => set_y v x |>)) ;;
  need_number o (str "pitch") (fun x => on_prof (fun p => p <| c_calibratedRotation ::= fun v => set_z v x |>)) ;;
  need_number o (str "x") (fun x => on_prof (fun p => p <| c_calibratedTranslation ::= fun v => set_x v x |>)) ;;
  need_number o (str "y") (fun x => on_prof (fun p => p <| c_calibratedTranslation ::= fun v => set_y v x |>)) ;;
  need_number o (str "z") (fun x => on_prof (fun p => p <| c_calibratedTranslation ::= fun v => set_z v x |>)).

Definition parse_devices (o : object) (c : Config) : Config :=
  let c := on_opts (fun s => s <| referenceStandby ::= LoadStandby (at_key o (str "reference_device")) |>
                               <| targetStandby ::= LoadStandby (at_key o (str "target_device")) |>) c in
  let c := if evaluate_as_boolean (at_key o (str "autostart_continuous_calibration"))
           then c <| cf_cal ::= set_state StContinuousStandby |> else c in
  let c := on_prof (fun p => p <| c_quashTargetInContinuous ::= if_bool (at_key o (str "quash_target_in_continuous")) |>) c in
  on_opts (fun s => s <| requireTriggerPressToApply ::= if_bool (at_key o (str "require_trigger_press_to_apply")) |>
                      <| ignoreOutliers ::= if_bool (at_key o (str "ignore_outliers")) |>) c.

Definition parse_offset (o : object) : Parse unit :=
  let k := str "continuous_calibration_target_offset_" in
  let put f := fun x => on_opts (fun s => s <| continuousCalibrationOffset ::= fun v => f v x |>) in
  need_number o (k ++ str "x") (put set_x) ;; need_number o (k ++ str "y") (put set_y) ;; need_number o (k ++ str "z") (put set_z).

(** Older profiles lack some; an unknown speed becomes AUTO. *)
Definition speed_of (raw : Z) : Speed :=
  if (raw =? 0)%Z then FAST else if (raw =? 1)%Z then SLOW else if (raw =? 2)%Z then VERY_SLOW else AUTO.

Definition parse_switches (o : object) (s : Settings) : Settings :=
  let b k := if_bool (at_key o k) in let f k := if_float (at_key o k) in
  s <| enableStaticRecalibration ::= b (str "static_calibration") |> <| jitterThreshold ::= f (str "jitter_threshold") |>
    <| maxRelativeErrorThreshold ::= f (str "max_relative_error_threshold") |>
    <| targetLatencyOffsetMs ::= if_double (at_key o (str "target_latency_offset_ms")) |>
    <| latencyAutoDetect ::= b (str "latency_auto_detect") |> <| useGccPhatLatency ::= b (str "latency_use_gcc_phat") |>
    <| useCusumGeometryShift ::= b (str "geometry_shift_use_cusum") |> <| useVelocityAware ::= b (str "irls_velocity_aware") |>
    <| useTukey ::= b (str "irls_use_tukey") |> <| useUpstream ::= b (str "translation_use_upstream") |>
    <| useLegacy ::= b (str "translation_use_legacy") |> <| useBlendFilter ::= b (str "blend_use_kalman") |>
    <| restLockedYawEnabled ::= b (str "rest_locked_yaw") |> <| predictiveRecoveryEnabled ::= b (str "predictive_recovery") |>
    <| reanchorChiSquareEnabled ::= b (str "reanchor_chi_square") |>
    <| baseStationDriftCorrectionEnabled := b (str "base_station_drift_correction") true |>
    <| calibrationSpeed ::= fun x => match at_key o (str "calibration_speed") with Number d => speed_of (int_of_d d) | _ => x end |>.

Definition parse_settings (o : object) (c : Config) : Config :=
  let c := on_opts (parse_switches o) c in
  let c := c <| cf_cal ::= fun k => k <| estimatedLatencyOffsetMs ::= if_double (at_key o (str "estimated_latency_offset_ms")) |> |> in
  on_prof (fun p => p <| c_recalibrateOnMovement := if_bool (at_key o (str "recalibrate_on_movement")) true |>
                      <| c_calibratedScale := if_double (at_key o (str "scale")) d_one |>) c.

(** *** The chaperone *)

(** Into a buffer, number by number; an entry that is no number throws after
    those before it were stored. *)
Fixpoint fill (l : list value) (buf : list float) : bool * list float :=
  match l, buf with
  | Number d :: l, _ :: buf => let '(ok, buf) := fill l buf in (ok, f_of_d d :: buf)
  | [], _ => (true, buf)
  | _, _ => (false, buf)
  end.

Definition LoadFloatArray (v : value) (buf : list float) : bool * list float :=
  match v with
  | Array l => if (length l =? length buf)%nat then fill l buf else (false, buf)
  | _ => (false, buf)
  end.

(** Loading into one buffer of the chaperone. *)
Definition load_floats (v : value) (get : Chaperone -> list float) (put : list float -> Chaperone -> Chaperone) : Parse unit :=
  fun c => let '(ok, buf) := LoadFloatArray v (get (cf_chaperone c)) in
           (if ok : bool then Some tt else None, c <| cf_chaperone ::= put buf |>).

(** [resize]: quads kept, new ones zero. *)
Definition resize_floats (n : nat) (l : list float) : list float := take n l ++ replicate (n - length l) fzero.

Definition kQuadFloats : nat := 12.

Definition set_geometry (l : list float) (c : Config) : Config :=
  on_prof (fun p => p <| c_chaperoneQuads := (length l / kQuadFloats)%nat |>) (c <| cf_chaperone ::= fun h => h <| geometry := l |> |>).

Definition parse_chaperone (o : object) : Parse unit :=
  match at_key o (str "chaperone") with
  | Object ch =>
    auto ← need (get_bool (at_key ch (str "auto_apply")));
    alter_config (on_prof (fun p => p <| c_chaperoneAutoApply := auto |>)) ;;
    load_floats (at_key ch (str "play_space_size")) playSpaceSize (fun l h => h <| playSpaceSize := l |>) ;;
    load_floats (at_key ch (str "standing_center")) standingCenter (fun l h => h <| standingCenter := l |>) ;;
    l ← need (get_array (at_key ch (str "geometry")));
    let n := length l in
    if (0 <? n)%nat && negb (n mod kQuadFloats =? 0)%nat then alter_config (fun c => c <| g_chaperoneGeometrySizeMismatch := true |>)
    else if (0 <? n)%nat then
      alter_config (fun c => set_geometry (resize_floats n (geometry (cf_chaperone c))) c) ;;
      load_floats (Array l) geometry (fun l h => h <| geometry := l |>) ;;
      alter_config (on_prof (fun p => p <| c_chaperoneValid := true |>))
    else mret tt
  | _ => mret tt
  end.

(** *** The relative pose *)

Definition lock_mode_of (raw : Z) (x : LockMode) : LockMode :=
  if (raw =? 0)%Z then LockOff else if (raw =? 1)%Z then LockOn else if (raw =? 2)%Z then LockAuto else x.

Definition parse_lock (o : object) (c : Config) : Config :=
  let c := c <| cf_cal ::= fun k => k <| relativePosCalibrated ::= if_bool (at_key o (str "relative_pos_calibrated")) |> |> in
  on_opts (fun s => s <| lockRelativePositionMode ::= fun x =>
    match at_key o (str "lock_relative_position_mode") with
    | Number d => lock_mode_of (int_of_d d) x
    | _ => match at_key o (str "lock_relative_position") with Boolean b => if b then LockOn else LockAuto | _ => x end
    end |>) c.

Section Eigen_.
Context `{Eigen} `{EigenSolver}.

(** The quaternion, or the angles of older profiles, or no rotation. *)
Definition relative_rotation (r : object) : Matrix3d :=
  match at_key r (str "quat_w"), at_key r (str "quat_x"), at_key r (str "quat_y"), at_key r (str "quat_z") with
  | Number w, Number x, Number y, Number z => m_of_quat (q_normalized (Q4 w x y z))
  | _, _, _, _ =>
    match at_key r (str "roll"), at_key r (str "yaw"), at_key r (str "pitch") with
    | Number roll, Number yaw, Number pitch =>
      m_of_quat (q_mul (q_mul (q_angleAxis roll v_unitX) (q_angleAxis yaw v_unitY)) (q_angleAxis pitch v_unitZ))
    | _, _, _ => m3_identity
    end
  end.

Definition parse_relative (o : object) : Parse unit :=
  match at_key o (str "relative_transform") with
  | Object r =>
    x ← need (get_double (at_key r (str "x")));
    y ← need (get_double (at_key r (str "y")));
    z ← need (get_double (at_key r (str "z")));
    alter_config (fun c => c <| cf_cal ::= fun k => k <| refToTargetPose := mkAff (relative_rotation r) (V3 x y z) |> |>)
  | _ => mret tt
  end.

(** *** The extra calibrations *)

Definition parse_extra (v : value) : option (Extra * ExtraRun * StandbyDevice) :=
  match v with
  | Object e =>
    let d k := if_double (at_key e k) in
    let lockMode := match at_key e (str "lock_mode") with
                    | Number m => let raw := int_of_d m in if (raw <? 0)%Z || (2 <? raw)%Z then 2%Z else raw
                    | _ => kLockAuto end in
    Some (mkExtra (if_bool (at_key e (str "enabled")) true) (if_bool (at_key e (str "valid")) false)
            (if_string (at_key e (str "target_tracking_system")) [])
            (V3 (d (str "roll") fzero) (d (str "yaw") fzero) (d (str "pitch") fzero))
            (V3 (d (str "x") fzero) (d (str "y") fzero) (d (str "z") fzero)) (d (str "scale") d_one),
          extra_fresh (-1) (-1) lockMode, LoadStandby (at_key e (str "target_device")) no_device)
  | _ => None
  end.

Definition parse_extras (o : object) (c : Config) : Config :=
  let l := match at_key o (str "additional_calibrations") with Array l => omap parse_extra l | _ => [] end in
  let c := on_prof (fun p => p <| c_additional := map (fun x => x.1.1) l |>) c in
  c <| cf_cal ::= fun k => k <| extras := map (fun x => x.1.2) l |> |> <| cf_standbys := map (fun x => x.2) l |>.

(** *** The profile *)

Definition parse_fields (o : object) : Parse unit :=
  alter_config (LoadAlignmentParams (at_key o (str "alignment_params"))) ;;
  parse_calibration o ;;
  alter_config (parse_devices o) ;;
  parse_offset o ;;
  alter_config (parse_settings o) ;;
  parse_chaperone o ;;
  alter_config (parse_lock o) ;;
  parse_relative o ;;
  alter_config (parse_extras o) ;;
  alter_config (fun c => c <| cf_wizardCompleted ::= if_bool (at_key o (str "wizard_completed")) |>) ;;
  alter_config (on_prof (fun p => p <| c_validProfile := true |>)).

Definition version_of (o : object) : Z :=
  match at_key o (str "schema_version") with Number d => int_of_d d | _ => 0%Z end.

(** [None]: the text is no document. *)
Definition ParseProfile (doc : option value) : Parse unit :=
  v ← need doc;
  arr ← need (get_array v);
  first ← need (head arr);
  o ← need (get_object first);
  let profileVersion := version_of o in
  if (kProfileSchemaVersion <? profileVersion)%Z then alter_config (on_prof (fun p => p <| c_validProfile := false |>))
  else parse_fields (if (profileVersion <? kProfileSchemaVersion)%Z then MigrateProfile profileVersion o else o).

(** ** Writing *)

Definition FloatArray (l : list float) : option value := Array <$> mapM (fun x => new_number (d_of_f x)) l.

Definition WriteStandby (d : StandbyDevice) : value :=
  Object (object_of [(str "tracking_system", Some (Text (sb_trackingSystem d))); (str "model", Some (Text (sb_model d)));
                     (str "serial", Some (Text (sb_serial d)))]).

Definition num (d : double) : option value := Some (Number d).

Definition SaveAlignmentParams (c : Config) : value :=
  let a := c_alignmentSpeedParams (c_prof c) in
  Object (object_of [
    (str "align_speed_tiny", num (align_speed_tiny a)); (str "align_speed_small", num (align_speed_small a));
    (str "align_speed_large", num (align_speed_large a));
    (str "thr_trans_tiny", num (thr_trans_tiny a)); (str "thr_trans_small", num (thr_trans_small a));
    (str "thr_trans_large", num (thr_trans_large a));
    (str "thr_rot_tiny", num (thr_rot_tiny a)); (str "thr_rot_small", num (thr_rot_small a));
    (str "thr_rot_large", num (thr_rot_large a));
    (str "continuousCalibrationThreshold", num (d_of_f (continuousCalibrationThreshold (c_opts c))))]).

(** Left out when it is the default. *)
Definition changed_bool (b d : bool) : option value := if Bool.eqb b d then None else Some (Boolean b).
Definition changed_double (x d : double) : option value := if feq x d then None else Some (Number x).
Definition changed_float (x d : float) : option value := if feq x d then None else Some (Number (d_of_f x)).

#[export] Instance lockmode_eqdec : EqDecision LockMode.
Proof. solve_decision. Defined.

Definition speed_code (s : Speed) : Z := match s with FAST => 0 | SLOW => 1 | VERY_SLOW => 2 | AUTO => 3 end.
Definition lock_code (m : LockMode) : Z := match m with LockOff => 0 | LockOn => 1 | LockAuto => 2 end.

Definition settings_members (c : Config) : list (list byte * option value) :=
  let s := c_opts c in let d := settings_default in
  let b k f := (k, changed_bool (f s) (f d)) in
  [ (str "quash_target_in_continuous",
       changed_bool (c_quashTargetInContinuous (c_prof c)) (c_quashTargetInContinuous profile_default));
    b (str "require_trigger_press_to_apply") requireTriggerPressToApply;
    b (str "ignore_outliers") ignoreOutliers;
    b (str "static_calibration") enableStaticRecalibration;
    (str "jitter_threshold", changed_float (jitterThreshold s) (jitterThreshold d));
    (str "max_relative_error_threshold", changed_float (maxRelativeErrorThreshold s) (maxRelativeErrorThreshold d));
    (str "target_latency_offset_ms", changed_double (targetLatencyOffsetMs s) (targetLatencyOffsetMs d));
    b (str "latency_auto_detect") latencyAutoDetect;
    (str "estimated_latency_offset_ms", changed_double (estimatedLatencyOffsetMs (cf_cal c)) fzero);
    b (str "latency_use_gcc_phat") useGccPhatLatency;
    b (str "geometry_shift_use_cusum") useCusumGeometryShift;
    b (str "irls_velocity_aware") useVelocityAware;
    b (str "irls_use_tukey") useTukey;
    b (str "translation_use_upstream") useUpstream;
    b (str "translation_use_legacy") useLegacy;
    b (str "blend_use_kalman") useBlendFilter;
    b (str "rest_locked_yaw") restLockedYawEnabled;
    b (str "predictive_recovery") predictiveRecoveryEnabled;
    b (str "reanchor_chi_square") reanchorChiSquareEnabled;
    (str "recalibrate_on_movement",
       changed_bool (c_recalibrateOnMovement (c_prof c)) (c_recalibrateOnMovement profile_default));
    b (str "base_station_drift_correction") baseStationDriftCorrectionEnabled;
    (str "calibration_speed",
       if bool_decide (calibrationSpeed s = calibrationSpeed d) then None else num (d_of_Z (speed_code (calibrationSpeed s)))) ].

Definition calibration_members (c : Config) : list (list byte * option value) :=
  let p := c_prof c in let s := c_opts c in
  let r := c_calibratedRotation p in let t := c_calibratedTranslation p in let off := continuousCalibrationOffset s in
  let k := str "continuous_calibration_target_offset_" in
  [ (str "schema_version", num (d_of_Z kProfileSchemaVersion));
    (str "alignment_params", Some (SaveAlignmentParams c));
    (str "reference_tracking_system", Some (Text (c_referenceTrackingSystem p)));
    (str "target_tracking_system", Some (Text (c_targetTrackingSystem p)));
    (str "roll", num (v_x r)); (str "yaw", num (v_y r)); (str "pitch", num (v_z r));
    (str "x", num (v_x t)); (str "y", num (v_y t)); (str "z", num (v_z t));
    (str "scale", num (c_calibratedScale p));
    (str "reference_device", Some (WriteStandby (referenceStandby s)));
    (str "target_device", Some (WriteStandby (targetStandby s)));
    (k ++ str "x", num (v_x off)); (k ++ str "y", num (v_y off)); (k ++ str "z", num (v_z off));
    (str "autostart_continuous_calibration", if in_continuous (c_state p) then Some (Boolean true) else None) ].

(** [None]: a number of the chaperone is not finite. *)
Definition chaperone_member (c : Config) : option (option value) :=
  if c_chaperoneValid (c_prof c) then
    let h := cf_chaperone c in
    size ← FloatArray (playSpaceSize h);
    centre ← FloatArray (standingCenter h);
    quads ← FloatArray (geometry h);
    Some (Some (Object (object_of [(str "auto_apply", Some (Boolean (c_chaperoneAutoApply (c_prof c))));
      (str "play_space_size", Some size); (str "standing_center", Some centre); (str "geometry", Some quads)])))
  else Some None.

Definition relative_members (c : Config) : list (list byte * option value) :=
  let k := cf_cal c in let m := lockRelativePositionMode (c_opts c) in
  let q := q_normalized (q_of_matrix (aff_rotation (refToTargetPose k))) in
  let t := aff_translation (refToTargetPose k) in
  [ (str "relative_pos_calibrated", Some (Boolean (relativePosCalibrated k)));
    (str "lock_relative_position_mode",
       if bool_decide (m = lockRelativePositionMode settings_default) then None else num (d_of_Z (lock_code m)));
    (str "relative_transform", Some (Object (object_of [
       (str "x", num (v_x t)); (str "y", num (v_y t)); (str "z", num (v_z t));
       (str "quat_w", num (q_w q)); (str "quat_x", num (q_x q)); (str "quat_y", num (q_y q)); (str "quat_z", num (q_z q))]))) ].

Definition WriteExtra (x : Extra) (r : ExtraRun) (d : StandbyDevice) : value :=
  let rot := x_calibratedRotation x in let t := x_calibratedTranslation x in
  Object (object_of [
    (str "target_tracking_system", Some (Text (x_targetTrackingSystem x))); (str "target_device", Some (WriteStandby d));
    (str "roll", num (v_x rot)); (str "yaw", num (v_y rot)); (str "pitch", num (v_z rot));
    (str "x", num (v_x t)); (str "y", num (v_y t)); (str "z", num (v_z t));
    (str "scale", num (x_calibratedScale x)); (str "lock_mode", num (d_of_Z (xr_lockMode r)));
    (str "valid", Some (Boolean (x_valid x))); (str "enabled", Some (Boolean (x_enabled x)))]).

Definition extras_values (c : Config) : list value :=
  zip_with (fun f d => f d) (zip_with WriteExtra (c_additional (c_prof c)) (extras (cf_cal c))) (cf_standbys c).

Definition extras_members (c : Config) : list (list byte * option value) :=
  let l := extras_values c in
  [ (str "additional_calibrations", match l with [] => None | _ => Some (Array l) end);
    (str "wizard_completed", if cf_wizardCompleted c then Some (Boolean true) else None) ].

(** [None]: it throws; [Some None]: nothing is written. *)
Definition WriteProfile (c : Config) : option (option value) :=
  if negb (c_validProfile (c_prof c)) then Some None else
  chaperone ← chaperone_member c;
  Some (Some (Array [Object (object_of
    (calibration_members c ++ settings_members c ++ [(str "chaperone", chaperone)] ++ relative_members c ++ extras_members c))])).

(** ** The registry *)

Inductive RegistryReadOutcome := Absent | ReadFailed | Success.

Definition ERROR_SUCCESS : Z := 0.
Definition ERROR_FILE_NOT_FOUND : Z := 2.
Definition ERROR_PATH_NOT_FOUND : Z := 3.

Definition StripRegistryNullTerminator (reportedSize : nat) : nat := pred reportedSize.

(** What the system answers: the size query, and the read into a buffer. *)
Record RegistryRead := mkRead { rr_query : Z; rr_size : nat; rr_result : Z; rr_data : list byte; rr_readSize : nat }.

Definition ReadRegistryKey (r : RegistryRead) : RegistryReadOutcome * list byte :=
  if negb (rr_query r =? ERROR_SUCCESS)%Z then
    (if (rr_query r =? ERROR_FILE_NOT_FOUND)%Z || (rr_query r =? ERROR_PATH_NOT_FOUND)%Z then Absent else ReadFailed, [])
  else if (rr_size r =? 0)%nat then (Absent, [])
  else if negb (rr_result r =? ERROR_SUCCESS)%Z then (ReadFailed, [])
  else
    let buf := take (rr_size r) (rr_data r) ++ replicate (rr_size r - length (rr_data r)) x00 in
    let n := StripRegistryNullTerminator (rr_readSize r) in
    (Success, take n buf ++ replicate (n - length buf) x00).

(** The value stored, a string with its NUL; the two results are those of
    opening the key and of setting the value. *)
Definition WriteRegistryKey (opened stored : Z) (text : list byte) (reg : option (list byte)) : option (list byte) :=
  if negb (opened =? ERROR_SUCCESS)%Z then reg
  else if negb (stored =? ERROR_SUCCESS)%Z then reg
  else Some (text ++ [x00]).

(** How a value that is there is read back. *)
Definition read_back (reg : option (list byte)) : RegistryRead :=
  match reg with
  | Some l => mkRead ERROR_SUCCESS (length l) ERROR_SUCCESS l (length l)
  | None => mkRead ERROR_FILE_NOT_FOUND 0 ERROR_FILE_NOT_FOUND [] 0
  end.

Context `{CNumbers}.

(** [CalibrationContext::Clear], with the fields only the profile has. *)
Definition clear_config (unset_rotation unset_translation : Vector3d) (c : Config) : Config :=
  c <| cf_cal ::= Clear_context unset_rotation unset_translation |>
    <| cf_chaperone := mkChaperone [] (replicate 12 fzero) [fzero; fzero] |>.

(** What a load ends with. *)
Inductive load_outcome := LoadEmpty (o : RegistryReadOutcome) | Loaded | LoadError.

(** The exceptions of the reader are all of the type the loader catches. *)
Definition LoadProfile (r : RegistryRead) (unset_rotation unset_translation : Vector3d) (c : Config) : load_outcome * Config :=
  let c := on_prof (fun p => p <| c_validProfile := false |>) c in
  let '(outcome, text) := ReadRegistryKey r in
  if (length text =? 0)%nat then (LoadEmpty outcome, clear_config unset_rotation unset_translation c)
  else match ParseProfile (parse text) c with
       | (Some _, c) => (Loaded, c)
       | (None, c) => (LoadError, c)
       end.

(** The text that is saved; [None]: the writer throws, and nothing is stored. *)
Definition profile_text (c : Config) : option (list byte) :=
  (fun v => match v with Some v => serialize true v | None => [] end) <$> WriteProfile c.

Definition SaveProfile_registry (opened stored : Z) (c : Config) (reg : option (list byte)) : option (list byte) :=
  match profile_text c with
  | Some text => WriteRegistryKey opened stored text reg
  | None => reg
  end.
End Eigen_.
