(* ===== verification/CalibConfigSpec.v ===== *)
(** * What the profile keeps

    The contract of CalibConfig.v: a profile that was saved is read back field
    by field; what a load leaves when it does not succeed, and what the next
    save then does to the stored profile. *)

From Stdlib Require Import Strings.Byte.
From S2P Require Import Prelude Floats Shmem Isometry FallbackTable InputConfig PoseProvider Driver Detectors Filters InputStats CalibSolve CalibCalc CalibRest CalibScan CalibContext CalibReloc CalibTick CalibTickSpec CalibHistory Picojson PicojsonSpec CalibConfig.
From stdpp Require Import gmap.
Open Scope fl_scope.

(** ** Documents *)

Definition float_exact (x : float) : Prop := f_of_d (d_of_f x) = x.

(** Equal as numbers: a zero may lose its sign. *)
Definition same_number (x y : spec_float) : Prop := x = y \/ feq x y = true.

Lemma read_changed_bool b d : if_bool (default Null (changed_bool b d)) d = b.
Proof. unfold changed_bool. by destruct b, d. Qed.

Lemma read_changed_double x d : same_number x (if_double (default Null (changed_double x d)) d).
Proof. unfold changed_double. destruct (feq x d) eqn:Hx; cbn; [by right|by left]. Qed.

Lemma read_changed_float x d : float_exact x -> same_number x (if_float (default Null (changed_float x d)) d).
Proof. intros Hx. unfold changed_float. destruct (feq x d) eqn:He; cbn; [by right|left; by rewrite Hx]. Qed.

Lemma int_of_small n : (0 <= n <= 3)%Z -> int_of_d (d_of_Z n) = n.
Proof. intros Hn. assert (n = 0 \/ n = 1 \/ n = 2 \/ n = 3)%Z as [->|[->|[->| ->]]] by lia; vm_compute; reflexivity. Qed.

Lemma speed_roundtrip s : speed_of (int_of_d (d_of_Z (speed_code s))) = s.
Proof. destruct s; cbn [speed_code]; rewrite int_of_small by lia; reflexivity. Qed.

Lemma lock_roundtrip m x : lock_mode_of (int_of_d (d_of_Z (lock_code m))) x = m.
Proof. destruct m; cbn [lock_code]; rewrite int_of_small by lia; reflexivity. Qed.

Section Spec.
Context `{Eigen} `{EigenSolver}.

(** The document of a profile. *)
Definition members (c : Config) (chaperone : option value) : list (list byte * option value) :=
  calibration_members c ++ settings_members c ++ [(str "chaperone", chaperone)] ++ relative_members c ++ extras_members c.
Definition doc (c : Config) (chaperone : option value) : object := object_of (members c chaperone).

Lemma members_nodup c ch : NoDup (members c ch).*1.
Proof. keys. Qed.

Lemma at_doc c ch k ov : (k, ov) ∈ members c ch -> at_key (doc c ch) k = default Null ov.
Proof. apply at_member, members_nodup. Qed.

Lemma standby_roundtrip d d0 : LoadStandby (WriteStandby d) d0 = d.
Proof.
  unfold WriteStandby, LoadStandby.
  erewrite !at_member by first [keys | member]. by destruct d.
Qed.

Ltac read := repeat (erewrite at_doc by member); cbn [default from_option id num].

(** *** The parts of the reader on a document *)

Definition with_calibration (p : Profile) (q : Profile) : Profile :=
  q <| c_referenceTrackingSystem := c_referenceTrackingSystem p |> <| c_targetTrackingSystem := c_targetTrackingSystem p |>
    <| c_calibratedRotation := c_calibratedRotation p |> <| c_calibratedTranslation := c_calibratedTranslation p |>.

Lemma run_need_number o k f x c : get_double (at_key o k) = Some x -> need_number o k f c = (Some tt, f x c).
Proof. intros Hx. unfold need_number, mbind, Parse_bind, need. by rewrite Hx. Qed.

Lemma bind_some {A B} (m : Parse A) (k : A -> Parse B) a c c' : m c = (Some a, c') -> (m ≫= k) c = k a c'.
Proof. intros Hm. unfold mbind, Parse_bind. by rewrite Hm. Qed.

Lemma v3_eta v : set_z (set_y (set_x v (v_x v)) (v_y v)) (v_z v) = v.
Proof. by destruct v. Qed.

Lemma on_prof_comp f g c : on_prof f (on_prof g c) = on_prof (fun p => f (g p)) c.
Proof. reflexivity. Qed.
Lemma on_opts_comp f g c : on_opts f (on_opts g c) = on_opts (fun p => f (g p)) c.
Proof. reflexivity. Qed.
Lemma on_prof_ext f g c : f (c_prof c) = g (c_prof c) -> on_prof f c = on_prof g c.
Proof. unfold on_prof, set_prof, c_prof, prof. intros He. cbn in *. by rewrite He. Qed.
Lemma on_opts_ext f g c : f (c_opts c) = g (c_opts c) -> on_opts f c = on_opts g c.
Proof. unfold on_opts, c_opts. intros He. cbn in *. by rewrite He. Qed.

Lemma run_calibration c ch c0 : parse_calibration (doc c ch) c0 = (Some tt, on_prof (with_calibration (c_prof c)) c0).
Proof.
  unfold parse_calibration. set (o := doc c ch).
  assert (at_key o (str "reference_tracking_system") = Text (c_referenceTrackingSystem (c_prof c))) as -> by (unfold o; by read).
  assert (at_key o (str "target_tracking_system") = Text (c_targetTrackingSystem (c_prof c))) as -> by (unfold o; by read).
  do 4 (erewrite bind_some; [|reflexivity]).
  do 5 (erewrite bind_some; [|apply run_need_number; unfold o; read; reflexivity]).
  erewrite run_need_number; [|unfold o; read; reflexivity].
  f_equal. rewrite !on_prof_comp. apply on_prof_ext. unfold with_calibration.
  destruct (c_calibratedRotation (c_prof c)), (c_calibratedTranslation (c_prof c)). reflexivity.
Qed.

Definition with_offset (v : Vector3d) (s : Settings) : Settings := s <| continuousCalibrationOffset := v |>.

Lemma run_offset c ch c0 :
  parse_offset (doc c ch) c0 = (Some tt, on_opts (with_offset (continuousCalibrationOffset (c_opts c))) c0).
Proof.
  unfold parse_offset. set (o := doc c ch). cbv zeta.
  do 2 (erewrite bind_some; [|apply run_need_number; unfold o; read; reflexivity]).
  erewrite run_need_number; [|unfold o; read; reflexivity].
  f_equal. rewrite !on_opts_comp. apply on_opts_ext. unfold with_offset.
  destruct (continuousCalibrationOffset (c_opts c)). reflexivity.
Qed.

Lemma read_param_member l k d x : NoDup l.*1 -> (k, num d) ∈ l -> read_param (object_of l) k x = d_of_f (f_of_d d).
Proof. intros Hnd Hin. unfold read_param. by rewrite (at_member l k (num d)). Qed.

(** The alignment parameters are kept as floats. *)
Definition float_params (a : AlignmentSpeedParams) : AlignmentSpeedParams :=
  let r x := d_of_f (f_of_d x) in
  mkASP (r (thr_trans_tiny a)) (r (thr_trans_small a)) (r (thr_trans_large a)) (r (thr_rot_tiny a)) (r (thr_rot_small a))
    (r (thr_rot_large a)) (r (align_speed_tiny a)) (r (align_speed_small a)) (r (align_speed_large a)).

Lemma run_alignment c ch c0 :
  float_exact (continuousCalibrationThreshold (c_opts c)) ->
  LoadAlignmentParams (at_key (doc c ch) (str "alignment_params")) c0 =
  on_opts (fun s => s <| continuousCalibrationThreshold := continuousCalibrationThreshold (c_opts c) |>)
    (on_prof (fun p => p <| c_alignmentSpeedParams := float_params (c_alignmentSpeedParams (c_prof c)) |>) (ResetConfig c0)).
Proof.
  intros Hx. read. unfold LoadAlignmentParams. cbv zeta. set (c1 := ResetConfig c0). clearbody c1.
  unfold SaveAlignmentParams. cbv iota. unfold float_exact in Hx.
  match goal with |- on_opts ?f (on_prof ?g c1) = on_opts ?f' (on_prof ?g' c1) =>
    assert (on_prof g c1 = on_prof g' c1) as ->; [|generalize (on_prof g' c1); intros c2] end.
  - apply on_prof_ext. unfold upd. cbv beta. erewrite !read_param_member by first [keys | member]. reflexivity.
  - apply on_opts_ext. unfold upd. cbv beta. erewrite !read_param_member by first [keys | member]. by rewrite !Hx.
Qed.

(** *** The chaperone *)

Lemma new_number_some d w : new_number d = Some w -> w = Number d.
Proof. unfold new_number. destruct (isfinite d); [|done]. by intros [= <-]. Qed.

Lemma float_array_spec l v :
  FloatArray l = Some v ->
  exists vs, v = Array vs /\ length vs = length l /\
    forall buf, Forall float_exact l -> length buf = length l -> fill vs buf = (true, l).
Proof.
  unfold FloatArray. intros Hv. destruct (mapM _ l) as [vs|] eqn:Hm; [|done]. injection Hv as <-. exists vs. split; [done|].
  revert vs Hm. induction l as [|x l IH]; intros vs Hm; cbn in Hm; [injection Hm as <-; split; [done|]; by intros [|]|].
  destruct (new_number (d_of_f x)) as [w|] eqn:Hw; [|done]. apply new_number_some in Hw as ->.
  cbn in Hm. destruct (mapM _ l) as [vs'|]; [|done]. injection Hm as <-.
  destruct (IH vs' eq_refl) as [Hl Hf]. split; [cbn; by rewrite Hl|].
  intros [|y buf] Hx Hb; [done|]. apply list.Forall_cons in Hx as [Hx Hxs]. cbn [fill].
  rewrite (Hf buf Hxs) by (cbn in Hb; lia). unfold float_exact in Hx. by rewrite Hx.
Qed.

Lemma run_load_floats vs buf l get put c :
  length vs = length l -> (forall b, length b = length l -> fill vs b = (true, l)) ->
  get (cf_chaperone c) = buf -> length buf = length l ->
  load_floats (Array vs) get put c = (Some tt, c <| cf_chaperone ::= put l |>).
Proof.
  intros Hl Hf Hg Hb. unfold load_floats, LoadFloatArray. rewrite Hg, Hl, Hb, Nat.eqb_refl. by rewrite (Hf buf Hb).
Qed.

(** What the chaperone's numbers are in a running program. *)
Record chaperone_ok (c : Config) : Prop := {
  ch_size : length (playSpaceSize (cf_chaperone c)) = 2;
  ch_centre : length (standingCenter (cf_chaperone c)) = 12;
  ch_quads : length (geometry (cf_chaperone c)) = (c_chaperoneQuads (c_prof c) * kQuadFloats)%nat;
  ch_some : c_chaperoneValid (c_prof c) = true -> 0 < c_chaperoneQuads (c_prof c);
  ch_exact : Forall float_exact (playSpaceSize (cf_chaperone c) ++ standingCenter (cf_chaperone c) ++ geometry (cf_chaperone c)) }.

Definition with_chaperone (c c0 : Config) : Config :=
  if c_chaperoneValid (c_prof c) then
    on_prof (fun p => p <| c_chaperoneAutoApply := c_chaperoneAutoApply (c_prof c) |>
                        <| c_chaperoneQuads := c_chaperoneQuads (c_prof c) |> <| c_chaperoneValid := true |>)
      (c0 <| cf_chaperone := cf_chaperone c |>)
  else c0.

Lemma length_resize n (l : list float) : length (resize_floats n l) = n.
Proof. unfold resize_floats. rewrite length_app, length_take, length_replicate. lia. Qed.

Lemma run_chaperone c ch c0 :
  chaperone_ok c -> chaperone_member c = Some ch -> cf_chaperone c0 = chaperone_default ->
  parse_chaperone (doc c ch) c0 = (Some tt, with_chaperone c c0).
Proof.
  intros [S1 S2 S3 S4 S5] Hch H0'. apply list.Forall_app in S5 as [X1 X2]. apply list.Forall_app in X2 as [X2 X3].
  unfold parse_chaperone, with_chaperone. read. unfold chaperone_member in Hch.
  destruct (c_chaperoneValid (c_prof c)) eqn:Hv; [|by injection Hch as <-].
  destruct (FloatArray (playSpaceSize (cf_chaperone c))) as [v1|] eqn:F1; [|done].
  destruct (FloatArray (standingCenter (cf_chaperone c))) as [v2|] eqn:F2; [|done].
  destruct (FloatArray (geometry (cf_chaperone c))) as [v3|] eqn:F3; [|done]. cbn [mbind option_bind] in Hch. injection Hch as <-.
  cbn [default from_option id].
  destruct (float_array_spec _ _ F1) as (l1 & -> & L1 & G1). destruct (float_array_spec _ _ F2) as (l2 & -> & L2 & G2).
  destruct (float_array_spec _ _ F3) as (l3 & -> & L3 & G3). clear F1 F2 F3.
  erewrite !at_member by first [keys | member]. cbn [default from_option id get_bool get_array].
  do 2 (erewrite bind_some; [|reflexivity]).
  erewrite bind_some; [|eapply run_load_floats; [exact L1|intros b; by apply G1|reflexivity|]].
  2: { cbn. rewrite H0', S1. done. }
  erewrite bind_some; [|eapply run_load_floats; [exact L2|intros b; by apply G2|reflexivity|]].
  2: { cbn. rewrite H0', S2. done. }
  erewrite bind_some; [|reflexivity]. cbv zeta. rewrite L3, S3. specialize (S4 eq_refl).
  assert ((0 <? c_chaperoneQuads (c_prof c) * kQuadFloats)%nat = true) as -> by (apply Nat.ltb_lt; unfold kQuadFloats; lia).
  assert (((c_chaperoneQuads (c_prof c) * kQuadFloats) mod kQuadFloats =? 0)%nat = true) as ->
    by (apply Nat.eqb_eq, Nat.Div0.mod_mul).
  cbn [negb andb]. erewrite bind_some; [|reflexivity].
  erewrite bind_some; [|eapply run_load_floats; [exact L3|intros b; by apply G3|reflexivity|]].
  2: { etrans; [apply length_resize|by rewrite S3]. }
  unfold alter_config. f_equal. unfold set_geometry. rewrite length_resize, Nat.div_mul by done.
  destruct c0 as [k h w st g]. cbn in H0'. subst h. destruct (cf_chaperone c). reflexivity.
Qed.

(** *** The extra calibrations *)

Definition lock_range (r : ExtraRun) : Prop := (0 <= xr_lockMode r <= 2)%Z.
(** A run as it is loaded. *)
Definition reloaded (r : ExtraRun) : ExtraRun := extra_fresh (-1) (-1) (xr_lockMode r).

Lemma extra_roundtrip x r d : lock_range r -> parse_extra (WriteExtra x r d) = Some (x, reloaded r, d).
Proof.
  intros Hr. unfold lock_range in Hr. unfold WriteExtra, parse_extra. cbv zeta.
  erewrite !at_member by first [keys | member]. cbn [default from_option id num if_bool if_string if_double].
  change (match WriteStandby d with Object o => _ | _ => _ end) with (LoadStandby (WriteStandby d) no_device).
  rewrite standby_roundtrip, int_of_small by lia.
  assert ((xr_lockMode r <? 0)%Z || (2 <? xr_lockMode r)%Z = false) as ->.
  { apply orb_false_iff. split; apply Z.ltb_ge; lia. }
  destruct x as [en va sys [r1 r2 r3] [t1 t2 t3] sc]. reflexivity.
Qed.

Lemma extras_roundtrip xs rs ds :
  length rs = length xs -> length ds = length xs -> Forall lock_range rs ->
  let l := omap parse_extra (zip_with (fun f d => f d) (zip_with WriteExtra xs rs) ds) in
  map (fun x => x.1.1) l = xs /\ map (fun x => x.1.2) l = map reloaded rs /\ map (fun x => x.2) l = ds.
Proof.
  cbv zeta. revert rs ds. induction xs as [|x xs IH]; intros [|r rs] [|d ds] H1' H2' Hl; try done.
  apply list.Forall_cons in Hl as [Hr Hl]. cbn [zip_with omap list_omap]. rewrite (extra_roundtrip x r d Hr).
  cbn [map fst snd]. destruct (IH rs ds) as (I1 & I2 & I3); [cbn in H1'; lia|cbn in H2'; lia|done|].
  by rewrite I1, I2, I3.
Qed.

Lemma run_extras c ch c0 :
  length (extras (cf_cal c)) = length (c_additional (c_prof c)) -> length (cf_standbys c) = length (c_additional (c_prof c)) ->
  Forall lock_range (extras (cf_cal c)) ->
  parse_extras (doc c ch) c0 =
  (on_prof (fun p => p <| c_additional := c_additional (c_prof c) |>) c0)
    <| cf_cal ::= fun k => k <| extras := map reloaded (extras (cf_cal c)) |> |> <| cf_standbys := cf_standbys c |>.
Proof.
  intros H1' H2' Hl. destruct (extras_roundtrip _ _ _ H1' H2' Hl) as (I1 & I2 & I3). unfold parse_extras. read.
  fold (extras_values c) in I1, I2, I3.
  assert (match default Null (match extras_values c with [] => None | _ => Some (Array (extras_values c)) end) with
    Array l => omap parse_extra l | _ => [] end = omap parse_extra (extras_values c)) as ->
    by (by destruct (extras_values c)).
  cbv zeta. by rewrite I1, I2, I3.
Qed.

(** *** The relative pose *)

(** The rotation as it comes back: normalised twice. *)
Definition reread_pose (a : Affine) : Affine :=
  mkAff (m_of_quat (q_normalized (q_normalized (q_of_matrix (aff_rotation a))))) (aff_translation a).

Lemma run_relative c ch c0 :
  parse_relative (doc c ch) c0 =
  (Some tt, c0 <| cf_cal ::= fun k => k <| refToTargetPose := reread_pose (refToTargetPose (cf_cal c)) |> |>).
Proof.
  unfold parse_relative. read. set (q := q_normalized (q_of_matrix (aff_rotation (refToTargetPose (cf_cal c))))).
  erewrite !at_member by first [keys | member]. cbn [default from_option id num get_double].
  do 3 (erewrite bind_some; [|reflexivity]). unfold alter_config, relative_rotation.
  erewrite !at_member by first [keys | member]. cbn [default from_option id num].
  unfold reread_pose. fold q. destruct q. by destruct (aff_translation (refToTargetPose (cf_cal c))).
Qed.

(** *** The whole profile *)

Definition with_alignment (c c0 : Config) : Config :=
  on_opts (fun s => s <| continuousCalibrationThreshold := continuousCalibrationThreshold (c_opts c) |>)
    (on_prof (fun p => p <| c_alignmentSpeedParams := float_params (c_alignmentSpeedParams (c_prof c)) |>) (ResetConfig c0)).

Definition with_extras (c c0 : Config) : Config :=
  (on_prof (fun p => p <| c_additional := c_additional (c_prof c) |>) c0)
    <| cf_cal ::= fun k => k <| extras := map reloaded (extras (cf_cal c)) |> |> <| cf_standbys := cf_standbys c |>.

Definition with_relative (c c0 : Config) : Config :=
  c0 <| cf_cal ::= fun k => k <| refToTargetPose := reread_pose (refToTargetPose (cf_cal c)) |> |>.

Definition with_end (o : object) (c0 : Config) : Config :=
  on_prof (fun p => p <| c_validProfile := true |>)
    (c0 <| cf_wizardCompleted ::= if_bool (at_key o (str "wizard_completed")) |>).

(** The first half of the reader, up to the settings, and the rest. *)
Definition reread_first (o : object) (c c0 : Config) : Config :=
  parse_settings o (on_opts (with_offset (continuousCalibrationOffset (c_opts c)))
    (parse_devices o (on_prof (with_calibration (c_prof c)) (with_alignment c c0)))).
Definition reread_rest (o : object) (c c0 : Config) : Config :=
  with_end o (with_extras c (with_relative c (parse_lock o (with_chaperone c c0)))).

(** What a running program keeps of a profile that can be stored. *)
Record config_ok (c : Config) : Prop := {
  ok_chaperone : chaperone_ok c;
  ok_threshold : float_exact (continuousCalibrationThreshold (c_opts c));
  ok_jitter : float_exact (jitterThreshold (c_opts c));
  ok_relative : float_exact (maxRelativeErrorThreshold (c_opts c));
  ok_runs : length (extras (cf_cal c)) = length (c_additional (c_prof c));
  ok_standbys : length (cf_standbys c) = length (c_additional (c_prof c));
  ok_locks : Forall lock_range (extras (cf_cal c)) }.

Lemma first_chaperone o c c0 : cf_chaperone (reread_first o c c0) = cf_chaperone c0.
Proof. unfold reread_first, parse_devices. by destruct (evaluate_as_boolean _). Qed.

(** The settings of the result, and the parts of the profile. *)
Definition device_settings (o : object) (s : Settings) : Settings :=
  s <| referenceStandby ::= LoadStandby (at_key o (str "reference_device")) |>
    <| targetStandby ::= LoadStandby (at_key o (str "target_device")) |>
    <| requireTriggerPressToApply ::= if_bool (at_key o (str "require_trigger_press_to_apply")) |>
    <| ignoreOutliers ::= if_bool (at_key o (str "ignore_outliers")) |>.

Lemma first_opts o c :
  c_opts (reread_first o c config_default) =
  parse_switches o (with_offset (continuousCalibrationOffset (c_opts c)) (device_settings o
    (settings_default <| continuousCalibrationThreshold := continuousCalibrationThreshold (c_opts c) |>))).
Proof. unfold reread_first, parse_devices. by destruct (evaluate_as_boolean _). Qed.

Lemma first_prof o c :
  c_prof (reread_first o c config_default) =
  (with_calibration (c_prof c) profile_default)
    <| c_state := if evaluate_as_boolean (at_key o (str "autostart_continuous_calibration")) then StContinuousStandby else StNone |>
    <| c_alignmentSpeedParams := float_params (c_alignmentSpeedParams (c_prof c)) |>
    <| c_quashTargetInContinuous := if_bool (at_key o (str "quash_target_in_continuous")) true |>
    <| c_recalibrateOnMovement := if_bool (at_key o (str "recalibrate_on_movement")) true |>
    <| c_calibratedScale := if_double (at_key o (str "scale")) d_one |>.
Proof. unfold reread_first, parse_devices. by destruct (evaluate_as_boolean _). Qed.

Lemma first_cal o c :
  let k := cf_cal (reread_first o c config_default) in
  estimatedLatencyOffsetMs k = if_double (at_key o (str "estimated_latency_offset_ms")) fzero /\ relativePosCalibrated k = false.
Proof. unfold reread_first, parse_devices. by destruct (evaluate_as_boolean _). Qed.

Definition lock_settings (o : object) (s : Settings) : Settings :=
  s <| lockRelativePositionMode ::= fun x =>
    match at_key o (str "lock_relative_position_mode") with
    | Number d => lock_mode_of (int_of_d d) x
    | _ => match at_key o (str "lock_relative_position") with Boolean b => if b then LockOn else LockAuto | _ => x end
    end |>.

Lemma rest_parts o c c0 :
  let c' := reread_rest o c c0 in
  c_opts c' = lock_settings o (c_opts c0) /\
  c_prof c' = (c_prof (with_chaperone c c0)) <| c_additional := c_additional (c_prof c) |> <| c_validProfile := true |> /\
  cf_chaperone c' = cf_chaperone (with_chaperone c c0) /\
  estimatedLatencyOffsetMs (cf_cal c') = estimatedLatencyOffsetMs (cf_cal c0) /\
  relativePosCalibrated (cf_cal c') = if_bool (at_key o (str "relative_pos_calibrated")) (relativePosCalibrated (cf_cal c0)) /\
  refToTargetPose (cf_cal c') = reread_pose (refToTargetPose (cf_cal c)) /\
  extras (cf_cal c') = map reloaded (extras (cf_cal c)) /\ cf_standbys c' = cf_standbys c /\
  cf_wizardCompleted c' = if_bool (at_key o (str "wizard_completed")) (cf_wizardCompleted c0).
Proof. unfold reread_rest, with_chaperone. destruct (c_chaperoneValid (c_prof c)); split_and!; reflexivity. Qed.

Lemma run_fields c ch c0 :
  config_ok c -> chaperone_member c = Some ch -> cf_chaperone c0 = chaperone_default ->
  parse_fields (doc c ch) c0 = (Some tt, reread_rest (doc c ch) c (reread_first (doc c ch) c c0)).
Proof.
  intros [K1 K2 K3 K4 K5 K6 K7] Hch Hd. unfold parse_fields.
  erewrite bind_some; [|unfold alter_config; by rewrite (run_alignment c ch c0 K2)]. fold (with_alignment c c0).
  erewrite bind_some; [|apply run_calibration].
  erewrite bind_some; [|reflexivity].
  erewrite bind_some; [|apply run_offset].
  erewrite bind_some; [|reflexivity]. fold (reread_first (doc c ch) c c0).
  erewrite bind_some; [|apply (run_chaperone c ch); [done|done|by rewrite first_chaperone]].
  erewrite bind_some; [|reflexivity].
  erewrite bind_some; [|apply run_relative].
  erewrite bind_some; [|unfold alter_config; by rewrite (run_extras c ch _ K5 K6 K7)].
  erewrite bind_some; [|reflexivity]. reflexivity.
Qed.

(** *** Field by field *)

Definition switches (s : Settings) :=
  (requireTriggerPressToApply s, ignoreOutliers s, enableStaticRecalibration s, latencyAutoDetect s, useGccPhatLatency s,
   useCusumGeometryShift s, useVelocityAware s, useTukey s, useBlendFilter s, useLegacy s, useUpstream s,
   restLockedYawEnabled s, predictiveRecoveryEnabled s, reanchorChiSquareEnabled s, baseStationDriftCorrectionEnabled s,
   calibrationSpeed s, lockRelativePositionMode s).

(** What is read back of the settings. *)
Record settings_restored (s s' : Settings) : Prop := {
  re_switches : switches s' = switches s;
  re_devices : referenceStandby s' = referenceStandby s /\ targetStandby s' = targetStandby s;
  re_offset : continuousCalibrationOffset s' = continuousCalibrationOffset s;
  re_threshold : continuousCalibrationThreshold s' = continuousCalibrationThreshold s;
  re_jitter : same_number (jitterThreshold s) (jitterThreshold s');
  re_error : same_number (maxRelativeErrorThreshold s) (maxRelativeErrorThreshold s');
  re_latency : same_number (targetLatencyOffsetMs s) (targetLatencyOffsetMs s') }.

Lemma read_speed s :
  match default Null (if bool_decide (s = FAST) then None else num (d_of_Z (speed_code s))) with
  | Number d => speed_of (int_of_d d) | _ => FAST end = s.
Proof. case_bool_decide as Hs; [by subst|]. cbn [num default from_option id]. apply speed_roundtrip. Qed.

Lemma read_lock m :
  match default Null (if bool_decide (m = LockAuto) then None else num (d_of_Z (lock_code m))) with
  | Number d => lock_mode_of (int_of_d d) LockAuto | _ => LockAuto end = m.
Proof. case_bool_decide as Hs; [by subst|]. cbn [num default from_option id]. apply lock_roundtrip. Qed.

Lemma no_old_lock c ch : at_key (doc c ch) (str "lock_relative_position") = Null.
Proof.
  apply at_absent. match goal with |- _ ∉ ?l => let ks := eval cbv in l in change (str "lock_relative_position" ∉ ks) end.
  apply (bool_decide_unpack (_ ∉ _)). vm_compute. exact I.
Qed.

Lemma settings_back c ch :
  float_exact (jitterThreshold (c_opts c)) -> float_exact (maxRelativeErrorThreshold (c_opts c)) ->
  settings_restored (c_opts c)
    (lock_settings (doc c ch) (c_opts (reread_first (doc c ch) c config_default))).
Proof.
  intros X1 X2. rewrite first_opts. constructor.
  - unfold lock_settings, parse_switches, with_offset, device_settings, switches. cbv zeta.
    cbn [requireTriggerPressToApply ignoreOutliers enableStaticRecalibration latencyAutoDetect useGccPhatLatency
      useCusumGeometryShift useVelocityAware useTukey useBlendFilter useLegacy useUpstream restLockedYawEnabled
      predictiveRecoveryEnabled reanchorChiSquareEnabled baseStationDriftCorrectionEnabled calibrationSpeed
      lockRelativePositionMode upd settings_settable settings_default].
    rewrite no_old_lock. repeat (erewrite at_doc by member). rewrite ?read_changed_bool.
    rewrite read_speed, read_lock. reflexivity.
  - unfold lock_settings, parse_switches, with_offset, device_settings. cbv zeta.
    cbn [referenceStandby targetStandby upd settings_settable settings_default].
    repeat (erewrite at_doc by member). cbn [default from_option id]. by rewrite !standby_roundtrip.
  - reflexivity.
  - reflexivity.
  - unfold lock_settings, parse_switches, with_offset, device_settings. cbv zeta.
    cbn [jitterThreshold upd settings_settable settings_default].
    erewrite at_doc by member. by apply read_changed_float.
  - unfold lock_settings, parse_switches, with_offset, device_settings. cbv zeta.
    cbn [maxRelativeErrorThreshold upd settings_settable settings_default].
    erewrite at_doc by member. by apply read_changed_float.
  - unfold lock_settings, parse_switches, with_offset, device_settings. cbv zeta.
    cbn [targetLatencyOffsetMs upd settings_settable settings_default].
    erewrite at_doc by member. apply read_changed_double.
Qed.

(** *** The round trip *)

(** The state is kept as a flag: running continuously, or not. *)
Definition restored_state (s : CalibrationState) : CalibrationState := if in_continuous s then StContinuousStandby else StNone.

(** What is read back of a context. *)
Record restored (c c' : Config) : Prop := {
  rs_valid : c_validProfile (c_prof c') = true;
  rs_state : c_state (c_prof c') = restored_state (c_state (c_prof c));
  rs_calibration : c_calibratedRotation (c_prof c') = c_calibratedRotation (c_prof c) /\
    c_calibratedTranslation (c_prof c') = c_calibratedTranslation (c_prof c) /\
    c_calibratedScale (c_prof c') = c_calibratedScale (c_prof c);
  rs_systems : c_referenceTrackingSystem (c_prof c') = c_referenceTrackingSystem (c_prof c) /\
    c_targetTrackingSystem (c_prof c') = c_targetTrackingSystem (c_prof c);
  rs_switches : c_quashTargetInContinuous (c_prof c') = c_quashTargetInContinuous (c_prof c) /\
    c_recalibrateOnMovement (c_prof c') = c_recalibrateOnMovement (c_prof c);
  rs_alignment : c_alignmentSpeedParams (c_prof c') = float_params (c_alignmentSpeedParams (c_prof c));
  rs_settings : settings_restored (c_opts c) (c_opts c');
  rs_chaperone : c_chaperoneValid (c_prof c) = true ->
    cf_chaperone c' = cf_chaperone c /\ c_chaperoneValid (c_prof c') = true /\
    c_chaperoneAutoApply (c_prof c') = c_chaperoneAutoApply (c_prof c) /\
    c_chaperoneQuads (c_prof c') = c_chaperoneQuads (c_prof c);
  rs_no_chaperone : c_chaperoneValid (c_prof c) = false ->
    cf_chaperone c' = chaperone_default /\ c_chaperoneValid (c_prof c') = false;
  rs_relative : relativePosCalibrated (cf_cal c') = relativePosCalibrated (cf_cal c) /\
    refToTargetPose (cf_cal c') = reread_pose (refToTargetPose (cf_cal c));
  rs_latency : same_number (estimatedLatencyOffsetMs (cf_cal c)) (estimatedLatencyOffsetMs (cf_cal c'));
  rs_extras : c_additional (c_prof c') = c_additional (c_prof c) /\ cf_standbys c' = cf_standbys c /\
    extras (cf_cal c') = map reloaded (extras (cf_cal c));
  rs_wizard : cf_wizardCompleted c' = cf_wizardCompleted c }.

Lemma doc_version c ch : version_of (doc c ch) = kProfileSchemaVersion.
Proof. unfold version_of. read. by apply int_of_small. Qed.

Lemma read_state c ch :
  (if evaluate_as_boolean (at_key (doc c ch) (str "autostart_continuous_calibration")) then StContinuousStandby else StNone) =
  restored_state (c_state (c_prof c)).
Proof. read. unfold restored_state. by destruct (in_continuous _). Qed.

Lemma read_wizard c ch : if_bool (at_key (doc c ch) (str "wizard_completed")) false = cf_wizardCompleted c.
Proof. read. by destruct (cf_wizardCompleted c). Qed.

(** The profile part after the settings were read. *)
Lemma first_prof_back c ch :
  c_prof (reread_first (doc c ch) c config_default) =
  (with_calibration (c_prof c) profile_default)
    <| c_state := restored_state (c_state (c_prof c)) |>
    <| c_alignmentSpeedParams := float_params (c_alignmentSpeedParams (c_prof c)) |>
    <| c_quashTargetInContinuous := c_quashTargetInContinuous (c_prof c) |>
    <| c_recalibrateOnMovement := c_recalibrateOnMovement (c_prof c) |>
    <| c_calibratedScale := c_calibratedScale (c_prof c) |>.
Proof.
  rewrite first_prof, read_state. read.
  rewrite (read_changed_bool (c_quashTargetInContinuous _) true), (read_changed_bool (c_recalibrateOnMovement _) true).
  reflexivity.
Qed.

Lemma with_chaperone_prof c c0 :
  c_chaperoneValid (c_prof c0) = false ->
  c_prof (with_chaperone c c0) =
  (c_prof c0)
    <| c_chaperoneAutoApply := c_chaperoneAutoApply (c_prof (if c_chaperoneValid (c_prof c) then c else c0)) |>
    <| c_chaperoneQuads := c_chaperoneQuads (c_prof (if c_chaperoneValid (c_prof c) then c else c0)) |>
    <| c_chaperoneValid := c_chaperoneValid (c_prof c) |>.
Proof.
  intros Hv. unfold with_chaperone. destruct (c_chaperoneValid (c_prof c)); [reflexivity|].
  revert Hv. generalize (c_prof c0). intros []. cbn. by intros ->.
Qed.

Lemma reread_restored c ch :
  config_ok c -> chaperone_member c = Some ch ->
  restored c (reread_rest (doc c ch) c (reread_first (doc c ch) c config_default)).
Proof.
  intros Hok Hch. pose proof (settings_back c ch (ok_jitter c Hok) (ok_relative c Hok)) as Hs.
  pose proof (first_prof_back c ch) as Hp.
  pose proof (first_chaperone (doc c ch) c config_default) as Hh.
  destruct (first_cal (doc c ch) c) as [Hl Hr].
  assert (cf_wizardCompleted (reread_first (doc c ch) c config_default) = false) as Hw
    by (unfold reread_first, parse_devices; by destruct (evaluate_as_boolean _)).
  revert Hs Hp Hh Hl Hr Hw. generalize (reread_first (doc c ch) c config_default). intros c0 Hs Hp Hh Hl Hr Hw.
  destruct (rest_parts (doc c ch) c c0) as (R1 & R2 & R3 & R4 & R5 & R6 & R7 & R8 & R9).
  revert R1 R2 R3 R4 R5 R6 R7 R8 R9. generalize (reread_rest (doc c ch) c c0). intros c' R1 R2 R3 R4 R5 R6 R7 R8 R9.
  rewrite with_chaperone_prof in R2 by (rewrite Hp; reflexivity).
  unfold with_chaperone in R3. constructor; rewrite ?R1, ?R2, ?Hp, ?R6, ?R7, ?R8; try done.
  - intros Hv. rewrite R3, Hv. split_and!; reflexivity.
  - intros Hv. rewrite R3, Hv, Hh. split_and!; reflexivity.
  - split; [|done]. rewrite R5, Hr. read. reflexivity.
  - rewrite R4, Hl. read. apply read_changed_double.
  - rewrite R9, Hw. apply read_wizard.
Qed.

Lemma parse_current o c : version_of o = kProfileSchemaVersion -> ParseProfile (Some (Array [Object o])) c = parse_fields o c.
Proof. intros Hv. unfold ParseProfile, mbind, Parse_bind, need. cbn [get_array head get_object]. by rewrite Hv. Qed.

Lemma written_document c v :
  WriteProfile c = Some (Some v) -> exists ch, chaperone_member c = Some ch /\ v = Array [Object (doc c ch)].
Proof.
  unfold WriteProfile, doc, members. destruct (negb (c_validProfile (c_prof c))); [done|].
  destruct (chaperone_member c) as [ch|]; cbn [mbind option_bind]; [|done]. intros [= <-]. by exists ch.
Qed.

(** The document of a profile, read into a fresh context. *)
Lemma document_restored c v :
  config_ok c -> WriteProfile c = Some (Some v) ->
  exists c', ParseProfile (Some v) config_default = (Some tt, c') /\ restored c c'.
Proof.
  intros Hok (ch & Hch & ->)%written_document. exists (reread_rest (doc c ch) c (reread_first (doc c ch) c config_default)).
  split; [|by apply reread_restored]. rewrite parse_current by apply doc_version. by apply run_fields.
Qed.
End Spec.

(** ** A profile that is not loaded *)

Section Load.
Context `{Eigen} `{EigenSolver}.

Definition valid_flag (c : Config) : bool := c_validProfile (c_prof c).
(** A step of the reader that leaves the flag, whether it throws or not. *)
Definition keeps_flag {A} (m : Parse A) : Prop := forall c, valid_flag (m c).2 = valid_flag c.

Lemma flag_ret {A} (a : A) : keeps_flag (mret a).
Proof. done. Qed.
Lemma flag_need {A} (o : option A) : keeps_flag (need o).
Proof. done. Qed.
Lemma flag_bind {A B} (m : Parse A) (k : A -> Parse B) : keeps_flag m -> (forall a, keeps_flag (k a)) -> keeps_flag (m ≫= k).
Proof.
  intros Hm Hk c. specialize (Hm c). unfold mbind, Parse_bind. destruct (m c) as [[a|] c']; cbn in *; [|done]. by rewrite Hk.
Qed.
Lemma flag_alter f : (forall c, valid_flag (f c) = valid_flag c) -> keeps_flag (alter_config f).
Proof. intros Hf c. apply Hf. Qed.
Lemma flag_number o k f : (forall x c, valid_flag (f x c) = valid_flag c) -> keeps_flag (need_number o k f).
Proof. intros Hf. apply flag_bind; [apply flag_need|]. intros x. by apply flag_alter. Qed.
Lemma flag_floats v get put : keeps_flag (load_floats v get put).
Proof. intros c. unfold load_floats. by destruct (LoadFloatArray v _). Qed.

Create HintDb flags.
#[local] Hint Resolve flag_ret flag_need flag_floats : flags.
Ltac flags :=
  repeat match goal with
  | |- keeps_flag (_ ≫= _) => apply flag_bind; [|intros ?]
  | |- keeps_flag (need_number _ _ _) => apply flag_number; intros ?
  | |- keeps_flag (alter_config _) => apply flag_alter
  | |- keeps_flag _ => solve [auto with flags]
  | |- forall _, _ = _ => intros ?; reflexivity
  | |- _ = _ => reflexivity
  end.

Lemma flag_calibration o : keeps_flag (parse_calibration o).
Proof. unfold parse_calibration. flags. Qed.
Lemma flag_devices o c : valid_flag (parse_devices o c) = valid_flag c.
Proof. unfold parse_devices. by destruct (evaluate_as_boolean _). Qed.
Lemma flag_offset o : keeps_flag (parse_offset o).
Proof. unfold parse_offset. cbv zeta. flags. Qed.
Lemma flag_alignment v c : valid_flag (LoadAlignmentParams v c) = valid_flag c.
Proof. by destruct v. Qed.
Lemma flag_chaperone o : keeps_flag (parse_chaperone o).
Proof.
  unfold parse_chaperone. destruct (at_key o _); try apply flag_ret. flags. cbv zeta.
  cbv zeta. repeat case_match; flags.
Qed.
Lemma flag_relative o : keeps_flag (parse_relative o).
Proof. unfold parse_relative. destruct (at_key o _); try apply flag_ret. flags. Qed.

(** The flag is raised by the last step only. *)
Lemma parse_fields_flag o c : let '(r, c') := parse_fields o c in valid_flag c' = bool_decide (is_Some r) || valid_flag c.
Proof.
  assert (forall m k, keeps_flag m -> (forall c, let '(r, c') := k c in valid_flag c' = bool_decide (is_Some (r : option unit)) || valid_flag c) ->
    forall c, let '(r, c') := (m ≫= fun _ : unit => k) c in valid_flag c' = bool_decide (is_Some r) || valid_flag c) as step.
  { intros m k Hm Hk c0. specialize (Hm c0). unfold mbind, Parse_bind. destruct (m c0) as [[[]|] c1]; cbn in Hm; [|done].
    specialize (Hk c1). destruct (k c1) as [[[]|] c2]; congruence. }
  revert c. unfold parse_fields.
  apply step; [apply flag_alter, flag_alignment|]. apply step; [apply flag_calibration|].
  apply step; [apply flag_alter, flag_devices|]. apply step; [apply flag_offset|].
  apply step; [by apply flag_alter|]. apply step; [apply flag_chaperone|].
  apply step; [by apply flag_alter|]. apply step; [apply flag_relative|].
  apply step; [by apply flag_alter|]. apply step; [by apply flag_alter|]. intros c. reflexivity.
Qed.

(** A document of a later program. *)
Definition newer (d : option value) : bool :=
  match d with Some (Array (Object o :: _)) => (kProfileSchemaVersion <? version_of o)%Z | _ => false end.

Lemma parse_profile_flag d c :
  valid_flag c = false ->
  let '(r, c') := ParseProfile d c in
  valid_flag c' = bool_decide (is_Some r) && negb (newer d).
Proof.
  intros Hc. unfold ParseProfile, mbind, Parse_bind, need.
  destruct d as [v|]; [|done]. destruct v as [| | | |l|]; try done. destruct l as [|x l]; [done|].
  destruct x as [| | | | |o]; try done. cbn [get_array head get_object]. unfold newer.
  destruct (kProfileSchemaVersion <? version_of o)%Z; [reflexivity|].
  match goal with |- context [parse_fields ?o' c] => pose proof (parse_fields_flag o' c) as Hp; destruct (parse_fields o' c) as [[[]|] c'] end.
  - exact Hp.
  - cbn in Hp. by rewrite Hp.
Qed.

Context `{CNumbers}.

(** Whether a load leaves a profile that can be saved. *)
Lemma load_flag r u u' c :
  let '(out, c') := LoadProfile r u u' c in
  valid_flag c' = match out with Loaded => negb (newer (parse (ReadRegistryKey r).2)) | _ => false end.
Proof.
  unfold LoadProfile. destruct (ReadRegistryKey r) as [o text]. cbn [snd]. destruct (length text =? 0)%nat; [reflexivity|].
  pose proof (parse_profile_flag (parse text) (on_prof (fun p => p <| c_validProfile := false |>) c) eq_refl) as Hp.
  by destruct (ParseProfile _ _) as [[[]|] c'].
Qed.

Lemma save_invalid c reg : valid_flag c = false -> SaveProfile_registry ERROR_SUCCESS ERROR_SUCCESS c reg = Some [x00].
Proof. intros Hv. unfold SaveProfile_registry, profile_text, WriteProfile. unfold valid_flag in Hv. by rewrite Hv. Qed.

(** *** The document is in order *)

Lemma maybe_bool b d : maybe_ordered (changed_bool b d).
Proof. unfold changed_bool. by case_match; constructor. Qed.
Lemma maybe_double x d : maybe_ordered (changed_double x d).
Proof. unfold changed_double. by case_match; constructor. Qed.
Lemma maybe_float x d : maybe_ordered (changed_float x d).
Proof. unfold changed_float. by case_match; constructor. Qed.
Lemma maybe_if (b : bool) v : ordered v -> maybe_ordered (if b then Some v else None).
Proof. by destruct b. Qed.
Lemma maybe_if_not (b : bool) v : ordered v -> maybe_ordered (if b then None else Some v).
Proof. by destruct b. Qed.

Lemma maybe_num (b : bool) d : maybe_ordered (if b then None else num d).
Proof. destruct b; [done|]. by constructor. Qed.

Create HintDb ordered.
#[local] Hint Resolve maybe_num maybe_bool maybe_double maybe_float maybe_if maybe_if_not : ordered.
#[local] Hint Constructors shaped : ordered.
#[local] Hint Unfold ordered : ordered.
Ltac ordered := repeat (apply list.Forall_cons; split; [cbn [snd]|]); try apply list.Forall_nil; try done;
  try (solve [auto with ordered]); try (cbn [maybe_ordered num]; solve [by constructor]).

Lemma standby_ordered d : ordered (WriteStandby d).
Proof. apply members_ordered. ordered. Qed.
Lemma alignment_ordered c : ordered (SaveAlignmentParams c).
Proof. apply members_ordered. ordered. Qed.

Lemma float_array_ordered l v : FloatArray l = Some v -> ordered v.
Proof.
  unfold FloatArray. destruct (mapM _ l) as [vs|] eqn:Hm; [|done]. intros [= <-]. constructor. apply mapM_Some in Hm.
  induction Hm as [|x v l vs Hx _ IH]; constructor; [|done]. apply new_number_some in Hx as ->. by constructor.
Qed.

Lemma chaperone_ordered c ch : chaperone_member c = Some ch -> maybe_ordered ch.
Proof.
  unfold chaperone_member. destruct (c_chaperoneValid (c_prof c)); [|by intros [= <-]].
  destruct (FloatArray (playSpaceSize _)) as [a|] eqn:Ha; [|done]. destruct (FloatArray (standingCenter _)) as [b|] eqn:Hb; [|done].
  destruct (FloatArray (geometry _)) as [g|] eqn:Hg; [|done]. cbn [mbind option_bind]. intros [= <-].
  apply float_array_ordered in Ha, Hb, Hg. apply members_ordered. ordered.
Qed.

Lemma extra_ordered x r d : ordered (WriteExtra x r d).
Proof. apply members_ordered. pose proof (standby_ordered d). ordered. Qed.

Lemma extras_ordered xs rs ds : Forall ordered (zip_with (fun f d => f d) (zip_with WriteExtra xs rs) ds).
Proof.
  revert rs ds. induction xs as [|x xs IH]; intros [|r rs] [|d ds]; cbn; try constructor; [apply extra_ordered|apply IH].
Qed.

Lemma relative_ordered c : Forall (fun m => maybe_ordered m.2) (relative_members c).
Proof. unfold relative_members. ordered. apply members_ordered. ordered. Qed.

Lemma document_ordered c ch : maybe_ordered ch -> ordered (Array [Object (doc c ch)]).
Proof.
  intros Hch. constructor. constructor; [|constructor]. apply members_ordered. unfold members.
  rewrite !list.Forall_app. split_and!.
  - unfold calibration_members. cbv zeta. pose proof (alignment_ordered c).
    pose proof (standby_ordered (referenceStandby (c_opts c))). pose proof (standby_ordered (targetStandby (c_opts c))). ordered.
  - unfold settings_members. cbv zeta. ordered.
  - ordered.
  - apply relative_ordered.
  - unfold extras_members. cbv zeta. pose proof (extras_ordered (c_additional (c_prof c)) (extras (cf_cal c)) (cf_standbys c)) as He.
    fold (extras_values c) in He. ordered. destruct (extras_values c); [done|]. by constructor.
Qed.

Lemma written_well_formed c v : WriteProfile c = Some (Some v) -> numbers_back v = true -> well_formed v.
Proof.
  intros (ch & Hch & ->)%written_document Hn. apply ordered_well_formed; [|done].
  apply document_ordered. by apply (chaperone_ordered c).
Qed.

(** The text of a document is not empty, and is read as the document. *)
Lemma written_text v :
  well_formed v -> numbers_back v = true ->
  parse (serialize true v) = Some v /\ (length (serialize true v) =? 0)%nat = false.
Proof.
  intros Hwf Hn. pose proof (written_is_read true v Hwf Hn) as Hp. split; [done|].
  by destruct (serialize true v).
Qed.

Lemma read_back_text text : ReadRegistryKey (read_back (Some (text ++ [x00]))) = (Success, text).
Proof.
  unfold ReadRegistryKey, read_back. cbn [rr_query rr_size rr_result rr_data rr_readSize]. rewrite length_app. cbn [length].
  assert ((length text + 1 =? 0)%nat = false) as -> by (apply Nat.eqb_neq; lia). cbn [negb ERROR_SUCCESS Z.eqb].
  rewrite (take_ge (text ++ [x00])) by (rewrite length_app; cbn; lia).
  replace (length text + 1 - (length text + 1))%nat with 0%nat by lia. cbn [replicate]. rewrite app_nil_r.
  unfold StripRegistryNullTerminator. replace (pred (length text + 1)) with (length text) by lia.
  rewrite take_app_length, length_app. cbn [length].
  replace (length text - (length text + 1))%nat with 0%nat by lia. by rewrite app_nil_r.
Qed.

(** C20: a profile that is saved is loaded again. For every context whose
    parts fit together and whose document [v] has numbers that are finite and
    that the C library reads back from its own text, saving to the registry and
    loading into a fresh context succeeds, and the calibration, its systems,
    devices and offset, all settings, the chaperone, the extra calibrations with
    their devices, and the flags come back as they were; the alignment
    parameters come back rounded to floats, the relative pose with its rotation
    normalised, the state as only running continuously or not, and a zero that
    is a default may lose its sign. *)
Theorem saved_profile_is_loaded c v reg u u' :
  config_ok c -> WriteProfile c = Some (Some v) -> numbers_back v = true ->
  exists c', LoadProfile (read_back (SaveProfile_registry ERROR_SUCCESS ERROR_SUCCESS c reg)) u u' config_default = (Loaded, c') /\
    restored c c'.
Proof.
  intros Hok Hw Hn. destruct (document_restored c v Hok Hw) as (c' & Hc & Hr). exists c'. split; [|exact Hr].
  destruct (written_text v (written_well_formed c v Hw Hn) Hn) as [Hp Hne].
  unfold SaveProfile_registry, profile_text. rewrite Hw. cbn [fmap option_fmap option_map].
  unfold WriteRegistryKey. cbn [negb ERROR_SUCCESS Z.eqb]. unfold LoadProfile. rewrite read_back_text, Hne, Hp.
  change (on_prof (fun p => p <| c_validProfile := false |>) config_default) with config_default. by rewrite Hc.
Qed.

(** C21: a profile that could not be loaded is not kept: after a load that
    found nothing to read, failed to read the value, threw on the document, or
    refused a profile of a newer program, the context has no valid profile;
    the next save then replaces whatever is stored by an empty text, and every
    load after that finds no profile. *)
Theorem unreadable_profile_is_erased r u u' c :
  (LoadProfile r u u' c).1 <> Loaded \/ newer (parse (ReadRegistryKey r).2) = true ->
  let c' := (LoadProfile r u u' c).2 in
  c_validProfile (c_prof c') = false /\
  forall reg, let reg' := SaveProfile_registry ERROR_SUCCESS ERROR_SUCCESS c' reg in
    reg' = Some [x00] /\ forall u u' c'', (LoadProfile (read_back reg') u u' c'').1 = LoadEmpty Success.
Proof.
  intros Hr. pose proof (load_flag r u u' c) as Hf. destruct (LoadProfile r u u' c) as [out c']. cbn [fst snd] in *.
  assert (valid_flag c' = false) as Hv.
  { rewrite Hf. destruct Hr as [Hr|Hr]; destruct out; try done. by rewrite Hr. }
  split; [exact Hv|]. intros reg. cbv zeta. by rewrite (save_invalid c' reg Hv).
Qed.
End Load.

(** ** Samples *)

#[local] Existing Instance eigen_sample.
#[local] Existing Instance solver_sample.

Definition tracker_sample : StandbyDevice := mkStandby (str "lighthouse") (str "Tracker") (str "LHR-1").

(** A calibrated headset running continuously, with a chaperone of one quad, an
    extra system, and settings away from their defaults. *)
Definition config_sample : Config :=
  on_opts (fun s => s <| calibrationSpeed := SLOW |> <| lockRelativePositionMode := LockOn |> <| ignoreOutliers := false |>
      <| jitterThreshold := f_of_Z 5 |> <| targetStandby := tracker_sample |> <| targetLatencyOffsetMs := d_of_Z 12 |>)
    (on_prof (fun p => p <| c_state := StContinuous |> <| c_validProfile := true |>
        <| c_referenceTrackingSystem := str "oculus" |> <| c_targetTrackingSystem := str "lighthouse" |>
        <| c_calibratedTranslation := V3 (d_of_Z 10) (d_of_Z 20) (d_of_Z 30) |>
        <| c_additional := [mkExtra true true (str "slimevr") (V3 d_one fzero fzero) (V3 fzero d_one fzero) d_one] |>
        <| c_chaperoneValid := true |> <| c_chaperoneQuads := 1%nat |>)
      (config_default <| cf_standbys := [tracker_sample] |> <| cf_wizardCompleted := true |>
        <| cf_chaperone := mkChaperone (map f_of_Z [0; 0; 0; 0; 2; 0; 1; 2; 0; 1; 0; 0]%Z)
             (standingCenter chaperone_default) [f_of_Z 2; f_of_Z 3] |>
        <| cf_cal ::= fun k => k <| extras := [extra_fresh 0 1 1] |> |>)).

Definition document_sample : value := match WriteProfile config_sample with Some (Some v) => v | _ => Null end.

#[local] Existing Instance numbers_sample.

Lemma config_sample_ok : config_ok config_sample.
Proof.
  constructor; [constructor|..]; try (vm_compute; reflexivity).
  - repeat constructor; vm_compute; reflexivity.
  - repeat constructor; vm_compute; discriminate.
Qed.

Lemma sample_written : WriteProfile config_sample = Some (Some document_sample).
Proof.
  assert (match WriteProfile config_sample with Some (Some _) => true | _ => false end = true) as Hw by (vm_compute; reflexivity).
  unfold document_sample. by destruct (WriteProfile config_sample) as [[v|]|].
Qed.

Lemma saved_profile_is_loaded_witness :
  exists c', LoadProfile (read_back (SaveProfile_registry ERROR_SUCCESS ERROR_SUCCESS config_sample None)) v_zero v_zero
    config_default = (Loaded, c') /\ restored config_sample c'.
Proof.
  apply (saved_profile_is_loaded config_sample document_sample); [apply config_sample_ok|apply sample_written|].
  vm_compute. reflexivity.
Defined.

(** A document of version 4. *)
Definition newer_text : list byte := str "[{" ++ [x22] ++ str "schema_version" ++ [x22] ++ str ": 4e0}]".

Lemma unreadable_profile_is_erased_witness :
  let c' := (LoadProfile (read_back (Some (newer_text ++ [x00]))) v_zero v_zero config_default).2 in
  c_validProfile (c_prof c') = false /\
  forall reg, let reg' := SaveProfile_registry ERROR_SUCCESS ERROR_SUCCESS c' reg in
    reg' = Some [x00] /\ forall u u' c'', (LoadProfile (read_back reg') u u' c'').1 = LoadEmpty Success.
Proof. apply unreadable_profile_is_erased. right. vm_compute. reflexivity. Defined.
